(* ===== verification/_CoqProject ===== *)
-Q . S2P
Prelude.v
Machine.v
CString.v
Fdt.v
Printf.v
Utf8.v
Ulib.v
Sh.v
ShParse.v
ShEdit.v
Kalloc.v
Vm.v
PageTable.v
AddrSpace.v
Uvm.v
UvmCopy.v
UvmFree.v
CopyIO.v
VmSpec.v
Spinlock.v
Bio.v
Fs.v
Bytes.v
Virtio.v
VirtioSpec.v
VirtioProto.v
FsRead.v
Mkfs.v
MkfsSpec.v
MkfsImage.v
MkfsBuild.v
MkfsReads.v
MkfsMain.v
File.v
Proc.v
ProcBase.v
ProcFiles.v
FsName.v
ProcTable.v
ProcMem.v
ProcLife.v
ProcFork.v
ProcCalls.v
ProcExit.v
ProcWait.v
ProcSpec.v
Exec.v
Console.v
Syscall.v
SysFile.v
SysOpen.v
Trap.v
Fpu.v
FloatMath.v
FloatTerm.v
Llm.v
LlmSpec.v
LlmTok.v
LlmEncode.v
LlmLoad.v
LlmLoadSpec.v
LlmFile.v
LlmModelSpec.v
LlmRun.v
Memwhy.v
Umalloc.v
UmallocHeap.v
UmallocFree.v
UmallocSpec.v
UmallocClient.v
