(* ===== verification/Prelude.v ===== *)
(** * A verification library for the xv6 teaching kernel of this repository

    The repository is a RISC-V kernel in the line of xv6: a physical page
    allocator, Sv39 page tables, processes with a lazily switched floating-point
    unit, a read-only flat file system over a virtio disk, a console, system calls
    and traps (src/kernel), the program that builds the disk image (src/tools), and
    user programs: a library with malloc, printf, UTF-8 and elementary functions, a
    shell with a line editor, and a runner of small language models (src/user).
    The C functions are translated to Rocq functions of the same name, and theorems
    about these functions say what makes each part correct and how the parts work
    together.

    ** Conventions

    A C integer is a [Z]; where an operation can leave the range of its type the
    wrap is written out ([u8], [u16], [u32], [u64], [s32]).  A function with effects
    is a state transformer of the monad [M] below, whose outcomes are a return, a
    panic (also used for [exit] and for an access outside an array, under its own
    message), going to sleep, and running out of fuel.  A loop without a bound in
    its syntax takes fuel; a theorem that says that such a function returns proves
    that a stated amount of fuel is enough (for instance two more than the length of
    a text for the encoder, or a bound by the size of the heap for malloc and free),
    and [returns m s Q] is never satisfied by [NoFuel].  A struct is a record with updates written
    [r <| f := v |>]; memory that the code reaches through raw addresses is a
    byte-addressed [memory] (Machine.v), so aliasing and padding are those of the
    source.  A section under a lock is one atomic step where one hart is described,
    and a step relation where several harts, or a device, interleave.

    ** Files, and the sources they model

    - Prelude.v, Machine.v, Bytes.v: the monad, integers, memory, little-endian
      words, the page and PTE arithmetic of riscv/riscv.h and memlayout.h.
    - CString.v (core/string.c), Fdt.v (core/fdt.c), Printf.v (core/printf.c and
      user/lib/printf.c), Spinlock.v (sync/spinlock.c, with the protocol of several
      harts), Bio.v (fs/bio.c, sync/sleeplock.c).
    - Kalloc.v (mm/kalloc.c); Vm.v (mm/vm.c) with its theory in PageTable.v,
      AddrSpace.v, Uvm.v, UvmCopy.v, UvmFree.v, CopyIO.v and its contract in
      VmSpec.v.
    - Fs.v (fs/fs.c), FsRead.v (reading files), FsName.v (path names), File.v
      (fs/file.c); Virtio.v (dev/virtio_disk.c) with VirtioSpec.v and VirtioProto.v;
      Mkfs.v (tools/mkfs.c) with MkfsSpec.v, MkfsImage.v, MkfsBuild.v, MkfsReads.v
      and MkfsMain.v.
    - Proc.v (proc/proc.c, proc/fpu.c) with ProcBase.v, ProcFiles.v, ProcTable.v,
      ProcMem.v, ProcLife.v, ProcFork.v, ProcCalls.v, ProcExit.v, ProcWait.v and the
      contract ProcSpec.v; Fpu.v (the lazily switched unit on several harts);
      Exec.v (proc/exec.c); Syscall.v (proc/syscall.c, proc/sysproc.c,
      fs/sysfile.c) with SysFile.v and SysOpen.v; Trap.v (proc/trap.c,
      dev/plic.c); Console.v (dev/console.c, dev/uart.c).
    - Utf8.v (user/lib/utf8.c, ctype.c, term.c), Ulib.v (user/lib/ulib.c), Sh.v
      (user/bin/sh.c) with ShParse.v and ShEdit.v; Umalloc.v (user/lib/umalloc.c)
      with UmallocHeap.v, UmallocFree.v, UmallocSpec.v and UmallocClient.v.
    - FloatMath.v (user/lib/math.c) with FloatTerm.v; Llm.v, LlmTok.v, LlmLoad.v and
      LlmRun.v (user/lib/llm.c, user/lib/io.c, user/bin/next.c) with LlmSpec.v,
      LlmEncode.v, LlmLoadSpec.v, LlmFile.v and LlmModelSpec.v; Memwhy.v
      (user/bin/memwhy.c).

    Components meet in classes that say what one needs of another: [BlockDevice]
    under the buffer cache (Bio.v), [BlockCache] under the file system (Fs.v), which
    the buffer cache implements (FsRead.v), [DiskHost] under the disk driver
    (Virtio.v), which the kernel of Trap.v implements, [Sbrk] under the user
    allocator (Umalloc.v); the classes with the suffix [Ok] are their laws, and the
    theorems of a client are proved from them.  [Linker], [Symbols], [TrapSymbols]
    and [DevSymbols] hold the addresses that the linker fixes.

    ** What the theorems show

    - Memory.  kalloc and kfree implement a stack of pages and conserve the pages of
      the machine; walk, mappages, uvmalloc, uvmdealloc, uvmcopy and uvmfree have
      their effect on the abstract page table and lose no page on any branch; when
      memory runs out, uvmalloc, uvmcopy and growproc leave the page-table pages they
      took with the table and free the rest ([ran_out]); kinit's walk of the device
      tree ends and the pages it frees are those of the memory it finds; copyin, copyinstr and copyout read and write exactly what user mode may.
    - Files.  The buffer cache is a least-recently-used ring; readi delivers the file
      on the disk, or fails at the first place user code may not write; namei resolves a path as the directory tree says; sys_open,
      sys_dup and sys_close keep every reference count exact; whatever the
      interleaving of requests, device (errors included) and interrupts, the disk
      driver keeps its chains apart, finishes each request with the right block, and
      panics exactly when the device reports an error; the kernel reads
      back from an image of mkfs what was put into it.
    - Processes.  kfork makes a private copy of the parent or keeps every page;
      kexit leaves a zombie without references; kwait reaps it and returns its
      pages; kill, growproc and wakeup have their stated effect; with the lazily
      switched floating-point unit a process sees the registers it would have on a
      machine where each process has its own, but for an illegal floating-point
      instruction, which loses the registers of the process that runs it.
    - Locks.  acquire, release and holding are given access by access
      ([acquire_code], [release_code]); run alone they are the functions that the
      other files call, and interleaved by any number of harts, on sequentially
      consistent memory, they give mutual exclusion and progress; push_off and
      pop_off nest.
    - User programs.  malloc and free never give out overlapping blocks and join
      what is free, for requests below 2^31-31 bytes ([MallocTest.huge_block] shows
      what becomes of larger ones); printf and atoi, and the UTF-8 functions, are inverse; the
      shell's line editor is an editor of code points and its parser that of a
      grammar; the tokenizer computes a byte-pair encoding and decoding inverts it;
      the loaders of the language model free what they allocate, read exactly their
      file, store only into the bytes they asked malloc for, and build arrays in which
      the forward pass stays; next.c as a whole is free of accesses outside its
      blocks under the conditions that its loaders
      leave unchecked; the loops of the elementary functions end where they do.

    Lemmas with a concrete input after a group of theorems show that the hypotheses
    can hold, or that a condition is needed: [LlmSpec.odd_head_faults],
    [LlmSpec.weight_count_wraps], [LlmEncode.special_zero_faults],
    [MallocTest.huge_block], [FpuTest.illegal_instruction_loses_registers],
    [ShEdit.complete_token_reads_outside].

    ** Not modelled

    - core/start.c and core/main.c: machine-mode registers and the order of the
      initialisation calls; the assembly files (entry, trampoline, switch), whose
      effect on registers is described where Proc.v and Trap.v use it; kvminit and
      kvminithart, which install the kernel's page table; cpuid and mycpu, which
      read a register.
    - the main functions of the shell and of the small user programs (ls, cat, init,
      echo, kill, free, shutdown): they pass their arguments to the system calls;
      and the check programs of the laboratory exercises.
    - The virtio device, the host files of mkfs, [sbrk], [read] and [malloc] of the
      loaders are parameters, with every behaviour their interfaces allow; a request
      of the loaders that malloc cannot serve (2^31-31 bytes or more) ends the run
      with an outcome of its own, [Panic "huge"].
    - Floating-point arithmetic rounds after every operation of the source; a
      compiler that fuses a multiplication with an addition rounds once.  The
      theorems on math.c and llm.c are about loops and bounds, which do not depend
      on it. *)

From Stdlib Require Export ZArith Lia.
From stdpp Require Export base gmap strings numbers list fin_maps.

#[global] Open Scope Z_scope.

(** ** Machine integers

    C integers are [Z]; every operation that can leave the range of its C type
    is written with an explicit wrap. *)

Definition u8 (z : Z) : Z := z mod 2 ^ 8.

Definition u16 (z : Z) : Z := z mod 2 ^ 16.

Definition u32 (z : Z) : Z := z mod 2 ^ 32.

Definition u64 (z : Z) : Z := z mod 2 ^ 64.

(** Conversion to a 32-bit [int]. *)
Definition s32 (z : Z) : Z := (z + 2 ^ 31) mod 2 ^ 32 - 2 ^ 31.

Lemma s32_id z : - 2 ^ 31 ≤ z < 2 ^ 31 → s32 z = z.
Proof. intros H. unfold s32. rewrite Z.mod_small by lia. lia. Qed.

(** [dlia] is [lia] with quotients and remainders by constants. *)
Ltac dlia := Z.to_euclidean_division_equations; lia.

(** A closed decidable proposition, by evaluation. *)
Ltac evaluate := apply (bool_decide_unpack _); vm_compute; exact I.

(** ** The kernel monad

    A kernel function is a state transformer.  [Ok a s] is a normal return;
    [Panic msg] is a call of [panic] (printf.c), which never returns; [Sleeps
    chan s] says that the calling process goes to sleep on channel [chan]
    inside the call, in state [s]; [NoFuel] says that a loop of the source
    that has no syntactic bound was still running when its fuel ran out. *)

Inductive outcome (S A : Type) : Type :=
| Ok (a : A) (s : S)
| Panic (msg : string)
| Sleeps (chan : Z) (s : S)
| NoFuel.

Arguments Ok {S A} a s.
Arguments Panic {S A} msg.
Arguments Sleeps {S A} chan s.
Arguments NoFuel {S A}.

Definition M (S A : Type) : Type := S → outcome S A.

Definition ret {S A} (a : A) : M S A := λ s, Ok a s.

Definition bind {S A B} (m : M S A) (k : A → M S B) : M S B := λ s,
  match m s with
  | Ok a s' => k a s'
  | Panic msg => Panic msg
  | Sleeps chan s' => Sleeps chan s'
  | NoFuel => NoFuel
  end.

Definition panic {S A} (msg : string) : M S A := λ _, Panic msg.

Definition gets {S A} (f : S → A) : M S A := λ s, Ok (f s) s.

Definition modify {S} (f : S → S) : M S unit := λ s, Ok tt (f s).

Definition nofuel {S A} : M S A := λ _, NoFuel.

(** [zoom get set m] runs [m] on the part of a larger state that [get] reads
    and [set] writes back: the way one component calls another. *)
Definition zoom {S T A} (get : S → T) (set : T → S → S) (m : M T A) : M S A := λ s,
  match m (get s) with
  | Ok a t => Ok a (set t s)
  | Panic msg => Panic msg
  | Sleeps chan t => Sleeps chan (set t s)
  | NoFuel => NoFuel
  end.

Declare Scope xv6_scope.
Delimit Scope xv6_scope with xv6.
#[global] Open Scope xv6_scope.

Notation "'let!' x ':=' m 'in' k" := (bind m (λ x, k))
  (at level 10, x pattern, m at level 100, k at level 200,
   format "'[v' 'let!'  x  ':='  m  'in' '/' k ']'") : xv6_scope.

Notation "m ;;; k" := (bind m (λ _, k))
  (at level 199, right associativity, format "'[v' m  ;;; '/' k ']'") : xv6_scope.

(** A C [for] loop over the listed indices whose body never leaves it early. *)
Fixpoint for_each {S B} (l : list B) (body : B → M S unit) : M S unit :=
  match l with
  | [] => ret tt
  | x :: l' => body x ;;; for_each l' body
  end.

(** ** Properties of monadic computations

    [returns m s Q]: [m] run from [s] returns normally, with a result and a
    state that satisfy [Q]. *)

Definition returns {S A} (m : M S A) (s : S) (Q : A → S → Prop) : Prop :=
  ∃ a s', m s = Ok a s' ∧ Q a s'.

Lemma returns_ret {S A} (a : A) (s : S) (Q : A → S → Prop) :
  Q a s → returns (ret a) s Q.
Proof. intros H. by exists a, s. Qed.

Lemma returns_bind {S A B} (m : M S A) (k : A → M S B) s R Q :
  returns m s R → (∀ a s', R a s' → returns (k a) s' Q) → returns (bind m k) s Q.
Proof.
  intros (a & s' & Hm & HR) Hk. destruct (Hk a s' HR) as (b & s'' & Hk' & HQ).
  exists b, s''. unfold bind. by rewrite Hm.
Qed.

Lemma returns_mono {S A} (m : M S A) s (Q R : A → S → Prop) :
  returns m s Q → (∀ a s', Q a s' → R a s') → returns m s R.
Proof. intros (a & s' & Hm & HQ) HQR. exists a, s'. auto. Qed.

Lemma returns_and {S A} (m : M S A) s (Q R : A → S → Prop) :
  returns m s Q → returns m s R → returns m s (λ a s', Q a s' ∧ R a s').
Proof. intros (a & s' & E & HQ) (b & s2 & E2 & HR). exists a, s'. rewrite E in E2. by injection E2 as <- <-. Qed.

Lemma returns_gets {S A} (f : S → A) (s : S) (Q : A → S → Prop) :
  Q (f s) s → returns (gets f) s Q.
Proof. intros H. by exists (f s), s. Qed.

Lemma returns_modify {S} (f : S → S) (s : S) (Q : unit → S → Prop) :
  Q tt (f s) → returns (modify f) s Q.
Proof. intros H. by exists tt, (f s). Qed.

Lemma returns_modify_bind {S A} (f : S → S) (k : unit → M S A) s Q :
  returns (k tt) (f s) Q → returns (bind (modify f) k) s Q.
Proof. done. Qed.

Lemma returns_gets_bind {S A C} (f : S → C) (k : C → M S A) s Q :
  returns (k (f s)) s Q → returns (bind (gets f) k) s Q.
Proof. done. Qed.

Lemma returns_ret_bind {S A C} (c : C) (k : C → M S A) s Q :
  returns (k c) s Q → returns (bind (ret c) k) s Q.
Proof. done. Qed.

Lemma returns_eq {S A} (m : M S A) (s : S) a s' :
  m s = Ok a s' → returns m s (λ b t, b = a ∧ t = s').
Proof. intros E. by exists a, s'. Qed.

Lemma returns_assoc {S A B C} (m : M S A) (k : A → M S B) (h : B → M S C) s Q :
  returns (bind (bind m k) h) s Q ↔ returns (bind m (λ a, bind (k a) h)) s Q.
Proof. unfold returns, bind. by destruct (m s). Qed.

Lemma bind_assoc {S A B C} (m : M S A) (k : A → M S B) (h : B → M S C) s :
  bind (bind m k) h s = bind m (λ a, bind (k a) h) s.
Proof. unfold bind. by destruct (m s). Qed.

Lemma bind_ok {S A B} (m : M S A) (k : A → M S B) s a s' :
  m s = Ok a s' → bind m k s = k a s'.
Proof. intros H. unfold bind. by rewrite H. Qed.

Lemma bind_gets {S A B} (f : S → A) (k : A → M S B) s : bind (gets f) k s = k (f s) s.
Proof. done. Qed.

Lemma bind_eq {S A B} (m m' : M S A) (s s' : S) (k : A → M S B) : m s = m' s' → bind m k s = bind m' k s'.
Proof. intros E. unfold bind. by rewrite E. Qed.

(** A loop whose body preserves an invariant preserves it. *)
Lemma for_each_inv {S B} (l : list B) (body : B → M S unit) (I : S → Prop) s :
  (∀ x s, x ∈ l → I s → returns (body x) s (λ _ s', I s')) →
  I s → returns (for_each l body) s (λ _ s', I s').
Proof.
  revert s. induction l as [|x l IH]; intros s Hb Hs; simpl.
  - by apply returns_ret.
  - eapply returns_bind; [apply Hb; [left|done]|]. intros u s' Hs'.
    apply IH; [|done]. intros y s2 Hy. apply Hb. by right.
Qed.

(** ** Record fields as assignable locations

    [Eta R] rebuilds a record of type [R] from its fields.  From it, [Setter]
    derives the update of one field, written [r <| f := v |>] as the C source
    writes [r->f = v]. *)

Class Eta (R : Type) := eta : R → R.

Class Setter {R T} (proj : R → T) := setter : (T → T) → R → R.

Ltac derive_setter :=
  match goal with
  | |- @Setter ?R ?T ?proj =>
      let i := constr:(_ : Eta R) in
      let i := eval hnf in i in
      let h := eval pattern proj in i in
      match h with
      | ?body _ =>
          let g := eval cbv beta in (λ (f : T → T) (r : R), body (λ q : R, f (proj q)) r) in
          exact g
      end
  end.

#[global] Hint Extern 0 (Setter _) => derive_setter : typeclass_instances.

Notation "r <| f := v |>" := (setter (proj := f) (λ _, v) r)
  (at level 12, f at next level, left associativity, format "r  <| f  :=  v |>") : xv6_scope.

Arguments setter {R T} proj {Setter} f r /.
