(* ===== verification/Machine.v ===== *)
(** Byte-addressed physical memory, little-endian words, and the page, page
    table and address arithmetic of kernel/riscv/riscv.h. *)

From S2P Require Import Prelude.

(** ** Physical memory

    Addresses are [Z]; a byte that was never written reads as zero. *)

Abbreviation memory := (gmap Z Z).

Definition mget (m : memory) (a : Z) : Z := u8 (default 0 (m !! a)).

Definition mset (m : memory) (a v : Z) : memory := <[a := u8 v]> m.

(** Little-endian words of [n] bytes. *)
Fixpoint load_le (n : nat) (m : memory) (a : Z) : Z :=
  match n with
  | O => 0
  | S n' => mget m a + 256 * load_le n' m (a + 1)
  end.

Fixpoint store_le (n : nat) (m : memory) (a v : Z) : memory :=
  match n with
  | O => m
  | S n' => store_le n' (mset m a v) (a + 1) (v / 256)
  end.

Definition load64 (m : memory) (a : Z) : Z := load_le 8 m a.

Definition store64 (m : memory) (a v : Z) : memory := store_le 8 m a v.

Definition load32 (m : memory) (a : Z) : Z := load_le 4 m a.

Definition store32 (m : memory) (a v : Z) : memory := store_le 4 m a v.

(** The bytes [m[a .. a+n-1]]. *)
Definition load_bytes (m : memory) (a : Z) (n : nat) : list Z :=
  (λ i, mget m (a + Z.of_nat i)) <$> seq 0 n.

(** ** riscv.h: pages *)

Definition PGSIZE : Z := 4096.

Definition PGSHIFT : Z := 12.

Definition PGROUNDUP (sz : Z) : Z := Z.land (u64 (sz + PGSIZE - 1)) (Z.lnot (PGSIZE - 1)).

Definition PGROUNDDOWN (a : Z) : Z := Z.land a (Z.lnot (PGSIZE - 1)).

(** ** riscv.h: page table entries *)

Definition PTE_V : Z := Z.shiftl 1 0.

Definition PTE_R : Z := Z.shiftl 1 1.

Definition PTE_W : Z := Z.shiftl 1 2.

Definition PTE_X : Z := Z.shiftl 1 3.

Definition PTE_U : Z := Z.shiftl 1 4.

Definition PA2PTE (pa : Z) : Z := Z.shiftl (Z.shiftr pa 12) 10.

Definition PTE2PA (pte : Z) : Z := u64 (Z.shiftl (Z.shiftr pte 10) 12).

Definition PTE_FLAGS (pte : Z) : Z := Z.land pte 0x3FF.

Definition PXMASK : Z := 0x1FF.

Definition PXSHIFT (level : Z) : Z := PGSHIFT + 9 * level.

Definition PX (level va : Z) : Z := Z.land (Z.shiftr va (PXSHIFT level)) PXMASK.

Definition MAXVA : Z := Z.shiftl 1 (9 + 9 + 9 + 12 - 1).

(** [*pte & flag] as a condition. *)
Definition has (pte flag : Z) : bool := negb (Z.land pte flag =? 0).

(** ** memlayout.h *)

Definition KERNBASE : Z := 0x80000000.

Definition PHYSTOP : Z := KERNBASE + 128 * 1024 * 1024.

Definition TRAMPOLINE : Z := MAXVA - PGSIZE.

Definition TRAPFRAME : Z := TRAMPOLINE - PGSIZE.

Definition KSTACK (p : Z) : Z := TRAMPOLINE - (p + 1) * 2 * PGSIZE.

(** ** Bytes and words *)

Lemma u8_bound z : 0 ≤ u8 z < 256.
Proof. unfold u8. apply Z.mod_pos_bound. lia. Qed.

Lemma u8_id z : 0 ≤ z < 256 → u8 z = z.
Proof. intros. unfold u8. by apply Z.mod_small. Qed.

Lemma u64_id z : 0 ≤ z < 2 ^ 64 → u64 z = z.
Proof. intros. unfold u64. by apply Z.mod_small. Qed.

Lemma u64_bound z : 0 ≤ u64 z < 2 ^ 64.
Proof. unfold u64. apply Z.mod_pos_bound. lia. Qed.

Lemma u32_id z : 0 ≤ z < 2 ^ 32 → u32 z = z.
Proof. intros. unfold u32. by apply Z.mod_small. Qed.

Lemma u32_bound z : 0 ≤ u32 z < 2 ^ 32.
Proof. unfold u32. apply Z.mod_pos_bound. lia. Qed.

Lemma mget_bound m a : 0 ≤ mget m a < 256.
Proof. apply u8_bound. Qed.

Lemma mget_mset_eq m a v : mget (mset m a v) a = u8 v.
Proof.
  unfold mget, mset. rewrite lookup_insert_eq. simpl. apply u8_id, u8_bound.
Qed.

Lemma mget_mset_ne m a b v : a ≠ b → mget (mset m a v) b = mget m b.
Proof. intros. unfold mget, mset. by rewrite lookup_insert_ne. Qed.

Lemma mget_store_le_out n m a v b :
  b < a ∨ a + Z.of_nat n ≤ b → mget (store_le n m a v) b = mget m b.
Proof.
  revert m a v. induction n as [|n IH]; intros m a v Hb; [done|].
  cbn [store_le]. rewrite IH by lia. apply mget_mset_ne. lia.
Qed.

Lemma load_le_ext n m m' a :
  (∀ b, a ≤ b < a + Z.of_nat n → mget m b = mget m' b) →
  load_le n m a = load_le n m' a.
Proof.
  revert a. induction n as [|n IH]; intros a H; [done|].
  cbn [load_le]. rewrite (H a) by lia. f_equal. f_equal. apply IH. intros. apply H. lia.
Qed.

Lemma load_le_bound n m a : 0 ≤ load_le n m a < 256 ^ Z.of_nat n.
Proof.
  revert a. induction n as [|n IH]; intros a; [simpl; lia|].
  cbn [load_le]. pose proof (mget_bound m a). specialize (IH (a + 1)).
  rewrite Nat2Z.inj_succ, Z.pow_succ_r by lia. lia.
Qed.

Lemma load_store_le n m a v : load_le n (store_le n m a v) a = v mod 256 ^ Z.of_nat n.
Proof.
  revert m a v. induction n as [|n IH]; intros m a v; [by rewrite Z.mod_1_r|].
  cbn [load_le store_le]. rewrite IH.
  rewrite mget_store_le_out by lia. rewrite mget_mset_eq. unfold u8.
  rewrite Nat2Z.inj_succ, Z.pow_succ_r by lia.
  change (2 ^ 8) with 256. rewrite (Z.rem_mul_r v 256) by lia. lia.
Qed.

Lemma load64_bound m a : 0 ≤ load64 m a < 2 ^ 64.
Proof. apply (load_le_bound 8). Qed.

Lemma load64_store64 m a v : 0 ≤ v < 2 ^ 64 → load64 (store64 m a v) a = v.
Proof.
  intros. unfold load64, store64. rewrite load_store_le. by apply Z.mod_small.
Qed.

Lemma load64_ext m m' a :
  (∀ b, a ≤ b < a + 8 → mget m b = mget m' b) → load64 m a = load64 m' a.
Proof. intros H. by apply load_le_ext. Qed.

Lemma load64_store64_ne m a b v :
  b + 8 ≤ a ∨ a + 8 ≤ b → load64 (store64 m a v) b = load64 m b.
Proof. intros H. apply load64_ext. intros. apply mget_store_le_out. lia. Qed.

Lemma mget_store64_out m a v b :
  b < a ∨ a + 8 ≤ b → mget (store64 m a v) b = mget m b.
Proof. apply (mget_store_le_out 8). Qed.

Lemma load_bytes_length m a n : length (load_bytes m a n) = n.
Proof. unfold load_bytes. by rewrite length_fmap, length_seq. Qed.

Lemma lookup_load_bytes m a n i :
  (i < n)%nat → load_bytes m a n !! i = Some (mget m (a + Z.of_nat i)).
Proof.
  intros. unfold load_bytes. rewrite list_lookup_fmap, lookup_seq_lt by done. done.
Qed.

(** ** Page arithmetic *)

Lemma page_mask a : Z.land a (Z.lnot (PGSIZE - 1)) = a / PGSIZE * PGSIZE.
Proof.
  change (PGSIZE - 1) with (Z.ones 12). rewrite <- Z.ldiff_land.
  rewrite Z.ldiff_ones_r by lia. rewrite Z.shiftl_mul_pow2, Z.shiftr_div_pow2 by lia. done.
Qed.

Lemma PGROUNDDOWN_eq a : PGROUNDDOWN a = a / PGSIZE * PGSIZE.
Proof. apply page_mask. Qed.

Lemma PGROUNDUP_eq a :
  0 ≤ a → a + PGSIZE - 1 < 2 ^ 64 → PGROUNDUP a = (a + PGSIZE - 1) / PGSIZE * PGSIZE.
Proof.
  intros. unfold PGROUNDUP. rewrite u64_id by (unfold PGSIZE in *; lia). apply page_mask.
Qed.

Lemma PX_eq level va :
  0 ≤ level → PX level va = va / 2 ^ (12 + 9 * level) mod 512.
Proof.
  intros. unfold PX. change PXMASK with (Z.ones 9). rewrite Z.land_ones by lia.
  unfold PXSHIFT, PGSHIFT. rewrite Z.shiftr_div_pow2 by lia. done.
Qed.

Lemma PX_bound level va : 0 ≤ level → 0 ≤ PX level va < 512.
Proof. intros. rewrite PX_eq by done. apply Z.mod_pos_bound. lia. Qed.

(** ** Page table entries *)

Lemma has_testbit pte k : 0 ≤ k → has pte (Z.shiftl 1 k) = Z.testbit pte k.
Proof.
  intros Hk. unfold has. rewrite Z.shiftl_1_l.
  destruct (Z.testbit pte k) eqn:E.
  - apply negb_true_iff, Z.eqb_neq. intros H0.
    assert (Z.testbit (Z.land pte (2 ^ k)) k = false) by (rewrite H0; apply Z.testbit_0_l).
    rewrite Z.land_spec, E, Z.pow2_bits_true in H by done. done.
  - apply negb_false_iff, Z.eqb_eq. apply Z.bits_inj'. intros n Hn.
    rewrite Z.land_spec, Z.testbit_0_l. destruct (decide (n = k)) as [->|Hne].
    + by rewrite E.
    + rewrite Z.pow2_bits_false by done. by rewrite andb_false_r.
Qed.

Lemma PA2PTE_eq pa : PA2PTE pa = pa / PGSIZE * 1024.
Proof.
  unfold PA2PTE. rewrite Z.shiftl_mul_pow2, Z.shiftr_div_pow2 by lia. done.
Qed.

Lemma lor_flags x f : 0 ≤ f < 1024 → Z.lor (x * 1024) f = x * 1024 + f.
Proof.
  intros. rewrite <- Z.lxor_lor, <- Z.add_nocarry_lxor; [done| |].
  all: rewrite <- (Z.mod_small f 1024) by lia; change 1024 with (2 ^ 10);
    rewrite <- Z.shiftl_mul_pow2, <- Z.land_ones by lia;
    apply Z.bits_inj'; intros n Hn;
    rewrite !Z.land_spec, Z.shiftl_spec, Z.testbit_0_l by lia;
    destruct (decide (n < 10));
    [rewrite Z.testbit_neg_r by lia; done | rewrite Z.ones_spec_high by lia; by rewrite !andb_false_r].
Qed.

(** The entry that maps [pa] with the given flag bits decodes to them. *)
Lemma PTE2PA_make pa f :
  0 ≤ pa < 2 ^ 56 → pa mod PGSIZE = 0 → 0 ≤ f < 1024 → PTE2PA (Z.lor (PA2PTE pa) f) = pa.
Proof.
  intros Hpa Hal Hf. rewrite PA2PTE_eq, lor_flags by done. unfold PTE2PA.
  rewrite Z.shiftr_div_pow2, Z.shiftl_mul_pow2 by lia. change (2 ^ 10) with 1024.
  rewrite Z.div_add_l, (Z.div_small f), Z.add_0_r by lia. change (2 ^ 12) with PGSIZE.
  pose proof (Z.div_mod pa PGSIZE ltac:(done)). rewrite u64_id; unfold PGSIZE in *; lia.
Qed.

Lemma PTE_FLAGS_make pa f :
  0 ≤ f < 1024 → PTE_FLAGS (Z.lor (PA2PTE pa) f) = f.
Proof.
  intros Hf. rewrite PA2PTE_eq, lor_flags by done. unfold PTE_FLAGS.
  change 0x3FF with (Z.ones 10). rewrite Z.land_ones by lia. change (2 ^ 10) with 1024.
  rewrite Z.add_comm, Z.mod_add by lia. by apply Z.mod_small.
Qed.

Lemma testbit_make pa f k :
  0 ≤ f < 1024 → 0 ≤ k < 10 → Z.testbit (Z.lor (PA2PTE pa) f) k = Z.testbit f k.
Proof.
  intros. rewrite Z.lor_spec. unfold PA2PTE. rewrite Z.shiftl_spec by lia.
  by rewrite (Z.testbit_neg_r _ (k - 10)) by lia.
Qed.

Lemma make_bound pa f :
  0 ≤ pa < 2 ^ 56 → 0 ≤ f < 1024 → 0 ≤ Z.lor (PA2PTE pa) f < 2 ^ 64.
Proof.
  intros. rewrite PA2PTE_eq, lor_flags by done. unfold PGSIZE. dlia.
Qed.

Lemma PTE2PA_aligned pte : PTE2PA pte mod PGSIZE = 0.
Proof.
  unfold PTE2PA, u64, PGSIZE. rewrite Z.shiftl_mul_pow2 by lia.
  change (2 ^ 64) with (4096 * 2 ^ 52). rewrite Z.mul_comm. change (2 ^ 12) with 4096.
  rewrite Z.mul_mod_distr_l by lia. rewrite Z.mul_comm. apply Z.mod_mul. lia.
Qed.
