(* ===== verification/CString.v ===== *)
(** kernel/core/string.c: the kernel's memory and string primitives.

    [memset] and [memmove] write physical memory, because the kernel uses them
    on whole pages through raw addresses; the string functions work on C
    character arrays, given as the list of their bytes ([char] is unsigned on
    RISC-V). *)

From S2P Require Import Prelude Machine.

(** ** Definitions *)

Fixpoint memset_loop (k : nat) (m : memory) (cdst c : Z) : memory :=
  match k with
  | O => m
  | S k' => memset_loop k' (mset m cdst c) (cdst + 1) c
  end.

Definition memset (m : memory) (dst c n : Z) : memory :=
  memset_loop (Z.to_nat (u32 n)) m dst c.

(** [while (n-- > 0) *d++ = *s++] *)
Fixpoint copy_up (k : nat) (m : memory) (d s : Z) : memory :=
  match k with
  | O => m
  | S k' => copy_up k' (mset m d (mget m s)) (d + 1) (s + 1)
  end.

(** [while (n-- > 0) *--d = *--s] *)
Fixpoint copy_down (k : nat) (m : memory) (d s : Z) : memory :=
  match k with
  | O => m
  | S k' => copy_down k' (mset m (d - 1) (mget m (s - 1))) (d - 1) (s - 1)
  end.

Definition memmove (m : memory) (dst src n : Z) : memory :=
  let n := u32 n in
  if n =? 0 then m
  else if (src <? dst) && (dst <? src + n)
  then copy_down (Z.to_nat n) m (dst + n) (src + n)
  else copy_up (Z.to_nat n) m dst src.

Definition memcpy (m : memory) (dst src n : Z) : memory := memmove m dst src n.

(** The characters of a string literal. *)
Definition chars (s : string) : list Z := (λ c, Z.of_N (Ascii.N_of_ascii c)) <$> String.list_ascii_of_string s.

(** Element [i] of a character array. *)
Definition chr (s : list Z) (i : nat) : Z := nth i s 0.

Fixpoint memcmp_loop (k i : nat) (s1 s2 : list Z) : Z :=
  match k with
  | O => 0
  | S k' =>
      if negb (chr s1 i =? chr s2 i) then chr s1 i - chr s2 i
      else memcmp_loop k' (S i) s1 s2
  end.

Definition memcmp (v1 v2 : list Z) (n : Z) : Z := memcmp_loop (Z.to_nat (u32 n)) 0 v1 v2.

Fixpoint strncmp_loop (k i : nat) (p q : list Z) : Z :=
  match k with
  | O => 0
  | S k' =>
      if negb (chr p i =? 0) && (chr p i =? chr q i) then strncmp_loop k' (S i) p q
      else chr p i - chr q i
  end.

Definition strncmp (p q : list Z) (n : Z) : Z := strncmp_loop (Z.to_nat (u32 n)) 0 p q.

(** [while (n-- > 0) *s++ = 0] *)
Fixpoint zero_fill (k i : nat) (s : list Z) : list Z :=
  match k with
  | O => s
  | S k' => zero_fill k' (S i) (<[i := 0]> s)
  end.

Fixpoint strncpy_loop (k i : nat) (s t : list Z) : list Z :=
  match k with
  | O => s
  | S k' =>
      let s' := <[i := chr t i]> s in
      if chr t i =? 0 then zero_fill k' (S i) s' else strncpy_loop k' (S i) s' t
  end.

Definition strncpy (s t : list Z) (n : Z) : list Z := strncpy_loop (Z.to_nat n) 0 s t.

(** The copy loop of [safestrcpy] stores the terminator one past a copied NUL,
    because [s] has moved on when the loop ends. *)
Fixpoint safestrcpy_loop (k i : nat) (s t : list Z) : list Z :=
  match k with
  | O => <[i := 0]> s
  | S k' =>
      let s' := <[i := chr t i]> s in
      if chr t i =? 0 then <[S i := 0]> s' else safestrcpy_loop k' (S i) s' t
  end.

Definition safestrcpy (s t : list Z) (n : Z) : list Z :=
  if n <=? 0 then s else safestrcpy_loop (Z.to_nat (n - 1)) 0 s t.

(** [strlen] reads up to the first NUL; an array without one reads past its
    end, where [chr] yields zero. *)
Fixpoint strlen_loop (k n : nat) (s : list Z) : nat :=
  match k with
  | O => n
  | S k' => if chr s n =? 0 then n else strlen_loop k' (S n) s
  end.

Definition strlen (s : list Z) : Z := Z.of_nat (strlen_loop (length s) 0 s).

(** The C string held by the first [n] bytes of an array: the bytes before the
    first NUL. *)
Fixpoint cstr (n : nat) (s : list Z) : list Z :=
  match n, s with
  | S n', c :: s' => if c =? 0 then [] else c :: cstr n' s'
  | _, _ => []
  end.

(** ** memset and memmove *)

Lemma mget_memset_loop k m d c b :
  mget (memset_loop k m d c) b
  = if decide (d ≤ b < d + Z.of_nat k) then u8 c else mget m b.
Proof.
  revert m d. induction k as [|k IH]; intros m d; cbn [memset_loop].
  - rewrite decide_False by lia. done.
  - rewrite IH. destruct (decide (b = d)) as [->|Hne].
    + rewrite decide_False, decide_True by lia. apply mget_mset_eq.
    + rewrite mget_mset_ne by done. apply decide_ext. lia.
Qed.

Lemma mget_memset m d c n b :
  0 ≤ n < 2 ^ 32 →
  mget (memset m d c n) b = if decide (d ≤ b < d + n) then u8 c else mget m b.
Proof.
  intros Hn. unfold memset. rewrite u32_id by done. rewrite mget_memset_loop.
  apply decide_ext. lia.
Qed.

Lemma mget_copy_up k m d s b :
  d ≤ s ∨ s + Z.of_nat k ≤ d →
  mget (copy_up k m d s) b
  = if decide (d ≤ b < d + Z.of_nat k) then mget m (s + (b - d)) else mget m b.
Proof.
  revert m d s. induction k as [|k IH]; intros m d s Hov; cbn [copy_up].
  - rewrite decide_False by lia. done.
  - rewrite IH by lia. destruct (decide (b = d)) as [->|Hne].
    + rewrite decide_False, decide_True by lia. rewrite mget_mset_eq, Z.sub_diag, Z.add_0_r.
      apply u8_id, mget_bound.
    + rewrite (mget_mset_ne _ _ b) by done.
      destruct (decide (d + 1 ≤ b < d + 1 + Z.of_nat k)).
      * rewrite decide_True by lia. rewrite mget_mset_ne by lia. f_equal. lia.
      * rewrite decide_False by lia. done.
Qed.

Lemma mget_copy_down k m d s b :
  s ≤ d ∨ d + Z.of_nat k ≤ s →
  mget (copy_down k m d s) b
  = if decide (d - Z.of_nat k ≤ b < d) then mget m (s + (b - d)) else mget m b.
Proof.
  revert m d s. induction k as [|k IH]; intros m d s Hov; cbn [copy_down].
  - rewrite decide_False by lia. done.
  - rewrite IH by lia. destruct (decide (b = d - 1)) as [->|Hne].
    + rewrite decide_False, decide_True by lia. rewrite mget_mset_eq.
      replace (s + (d - 1 - d)) with (s - 1) by lia. apply u8_id, mget_bound.
    + rewrite (mget_mset_ne _ _ b) by lia.
      destruct (decide (d - 1 - Z.of_nat k ≤ b < d - 1)).
      * rewrite decide_True by lia. rewrite mget_mset_ne by lia. f_equal. lia.
      * rewrite decide_False by lia. done.
Qed.

Lemma mget_memmove m dst src n b :
  0 ≤ n < 2 ^ 32 →
  mget (memmove m dst src n) b
  = if decide (dst ≤ b < dst + n) then mget m (src + (b - dst)) else mget m b.
Proof.
  intros Hn. unfold memmove. rewrite u32_id by done.
  destruct (Z.eqb_spec n 0) as [->|H0]; [rewrite decide_False by lia; done|].
  destruct ((src <? dst) && (dst <? src + n)) eqn:E.
  - apply andb_prop in E as [E1 E2]. apply Z.ltb_lt in E1, E2.
    rewrite mget_copy_down by lia. replace (src + n + (b - (dst + n))) with (src + (b - dst)) by lia.
    apply decide_ext. lia.
  - rewrite mget_copy_up by lia. apply decide_ext. lia.
Qed.

(** ** Comparison *)

Lemma chr_drop s i : chr s i = match drop i s with [] => 0 | c :: _ => c end.
Proof.
  unfold chr. revert i. induction s as [|c s IH]; intros [|i]; simpl; auto.
Qed.

Lemma drop_chr s i : drop i s = [] ∨ drop i s = chr s i :: drop (S i) s.
Proof.
  unfold chr. revert i. induction s as [|c s IH]; intros [|i]; simpl; auto.
Qed.

(** Unfolding a C string one character at a time. *)
Lemma cstr_S k s i :
  cstr (S k) (drop i s)
  = if chr s i =? 0 then [] else chr s i :: cstr k (drop (S i) s).
Proof.
  destruct (drop_chr s i) as [E|E].
  - rewrite chr_drop, E. done.
  - rewrite E at 1. done.
Qed.

Lemma strncmp_loop_zero k i p q :
  strncmp_loop k i p q = 0 ↔ cstr k (drop i p) = cstr k (drop i q).
Proof.
  revert i. induction k as [|k IH]; intros i.
  - by destruct (drop i p), (drop i q).
  - rewrite !cstr_S. cbn [strncmp_loop].
    destruct (Z.eqb_spec (chr p i) 0) as [Ep|Ep]; simpl.
    + destruct (Z.eqb_spec (chr q i) 0); [|split; [lia|done]]. split; [done|lia].
    + destruct (Z.eqb_spec (chr p i) (chr q i)) as [E|E].
      * rewrite IH, <- E. destruct (Z.eqb_spec (chr p i) 0); [done|].
        split; [by intros ->|by intros [= ->]].
      * split; [lia|]. destruct (Z.eqb_spec (chr q i) 0); [done|]. intros [=]. done.
Qed.

Lemma strncmp_zero p q n :
  strncmp p q n = 0 ↔ cstr (Z.to_nat (u32 n)) p = cstr (Z.to_nat (u32 n)) q.
Proof. unfold strncmp. by rewrite strncmp_loop_zero, !drop_0. Qed.

Lemma memcmp_loop_zero k i p q :
  memcmp_loop k i p q = 0 ↔ ∀ j, (i ≤ j < i + k)%nat → chr p j = chr q j.
Proof.
  revert i. induction k as [|k IH]; intros i; cbn [memcmp_loop]; [split; [lia|done]|].
  destruct (Z.eqb_spec (chr p i) (chr q i)) as [E|E]; simpl.
  - rewrite IH. split; intros H j Hj.
    + destruct (decide (j = i)) as [->|]; [done|]. apply H. lia.
    + apply H. lia.
  - split; [lia|]. intros H. specialize (H i ltac:(lia)). lia.
Qed.

(** ** Copying strings *)

Lemma take_S_insert {A} (s : list A) i c :
  (i < length s)%nat → take (S i) (<[i := c]> s) = take i s ++ [c].
Proof.
  intros Hi. rewrite (take_S_r _ _ c) by (by rewrite list_lookup_insert_eq).
  by rewrite take_insert_ge.
Qed.

Lemma zero_fill_spec k i s :
  (i + k ≤ length s)%nat →
  zero_fill k i s = take i s ++ replicate k 0 ++ drop (i + k) s.
Proof.
  revert i s. induction k as [|k IH]; intros i s Hk; cbn [zero_fill].
  - rewrite Nat.add_0_r. simpl. by rewrite take_drop.
  - rewrite IH by (rewrite length_insert; lia).
    rewrite take_S_insert, drop_insert_lt by lia.
    rewrite <- app_assoc. simpl. do 3 f_equal. f_equal. lia.
Qed.

Lemma cstr_length n s : (length (cstr n s) ≤ n)%nat.
Proof.
  revert s. induction n as [|n IH]; intros [|c s]; simpl; try lia.
  destruct (c =? 0); simpl; [lia|]. specialize (IH s). lia.
Qed.

Lemma strncpy_loop_spec k i s t :
  (i + k ≤ length s)%nat →
  strncpy_loop k i s t
  = take i s ++ cstr k (drop i t) ++ replicate (k - length (cstr k (drop i t))) 0 ++ drop (i + k) s.
Proof.
  revert i s. induction k as [|k IH]; intros i s Hk; cbn [strncpy_loop].
  - replace (cstr 0 (drop i t)) with (@nil Z) by (by destruct (drop i t)).
    rewrite Nat.add_0_r. simpl. by rewrite take_drop.
  - rewrite cstr_S. destruct (Z.eqb_spec (chr t i) 0) as [E|E].
    + rewrite zero_fill_spec by (rewrite length_insert; lia).
      rewrite take_S_insert, drop_insert_lt by lia.
      rewrite <- app_assoc, E. simpl. do 3 f_equal. f_equal. lia.
    + rewrite IH by (rewrite length_insert; lia).
      rewrite take_S_insert, drop_insert_lt by lia.
      rewrite <- app_assoc. simpl. do 5 f_equal. lia.
Qed.

Lemma safestrcpy_loop_spec k i s t :
  (i + k < length s)%nat →
  ∃ rest, safestrcpy_loop k i s t = take i s ++ cstr k (drop i t) ++ 0 :: rest
          ∧ length (safestrcpy_loop k i s t) = length s.
Proof.
  revert i s. induction k as [|k IH]; intros i s Hk; cbn [safestrcpy_loop].
  - exists (drop (S i) s). rewrite length_insert. split; [|done].
    replace (cstr 0 (drop i t)) with (@nil Z) by (by destruct (drop i t)).
    rewrite insert_take_drop by lia. done.
  - rewrite cstr_S. destruct (Z.eqb_spec (chr t i) 0) as [E|E].
    + exists (drop (S i) (<[S i := 0]> s)). rewrite !length_insert. split; [|done].
      rewrite list_insert_insert_ne by lia. rewrite E.
      rewrite insert_take_drop by (rewrite length_insert; lia).
      by rewrite take_insert_ge by lia.
    + destruct (IH (S i) (<[i := chr t i]> s)) as (rest & Heq & Hlen).
      { rewrite length_insert. lia. }
      exists rest. rewrite Hlen, length_insert. split; [|done].
      rewrite Heq, take_S_insert by lia. by rewrite <- app_assoc.
Qed.

#[global] Opaque memset memmove.
