(* ===== verification/Fdt.v ===== *)
(** kernel/core/fdt.c: the size of physical memory from the flattened device
    tree that the firmware leaves at [dtb_addr]. *)

From S2P Require Import Prelude Machine.

Definition FDT_MAGIC : Z := 0xd00dfeed.

Definition FDT_BEGIN_NODE : Z := 1.

Definition FDT_END_NODE : Z := 2.

Definition FDT_PROP : Z := 3.

Definition FDT_NOP : Z := 4.

Definition FDT_END : Z := 9.

Definition bswap32 (x : Z) : Z :=
  Z.lor (Z.lor (Z.lor (Z.shiftl (Z.land x 0xff) 24) (Z.shiftl (Z.land x 0xff00) 8))
               (Z.shiftr (Z.land x 0xff0000) 8))
        (Z.shiftr (Z.land x 0xff000000) 24).

(** [while ( *(char* )sp) sp = (char* )sp + 1]: the address of the NUL. *)
Fixpoint skip_name (fuel : nat) (m : memory) (sp : Z) : option Z :=
  match fuel with
  | O => None
  | S f => if mget m sp =? 0 then Some sp else skip_name f m (sp + 1)
  end.

(** A big-endian word of the tree. *)
Definition fdt32 (m : memory) (a : Z) : Z := bswap32 (load32 m a).

(** Is the property named "reg"? *)
Definition name_is_reg (m : memory) (name : Z) : bool :=
  (mget m name =? 114) && (mget m (name + 1) =? 101) && (mget m (name + 2) =? 103)
  && (mget m (name + 3) =? 0).

(** The [while (sp < ep)] loop.  [None]: the fuel ran out. *)
Fixpoint fdt_loop (fuel : nat) (m : memory) (strings sp ep : Z) : option Z :=
  match fuel with
  | O => None
  | S f =>
      if sp <? ep then
        let token := fdt32 m sp in
        let sp := sp + 4 in
        if token =? FDT_BEGIN_NODE then
          match skip_name f m sp with
          | None => None
          | Some sp => fdt_loop f m strings (Z.land (sp + 1 + 3) (Z.lnot 3)) ep
          end
        else if token =? FDT_END_NODE then fdt_loop f m strings sp ep
        else if token =? FDT_PROP then
          let len := fdt32 m sp in
          let nameoff := fdt32 m (sp + 4) in
          let sp := sp + 8 in
          let name := strings + nameoff in
          let next := sp + Z.land (u32 (len + 3)) (Z.lnot 3) in
          if (16 <=? len) && name_is_reg m name then
            let base := Z.lor (Z.shiftl (fdt32 m sp) 32) (fdt32 m (sp + 4)) in
            if base =? KERNBASE then
              let size := Z.lor (Z.shiftl (fdt32 m (sp + 8)) 32) (fdt32 m (sp + 12)) in
              if 0 <? size then Some (u64 (KERNBASE + size))
              else fdt_loop f m strings next ep
            else fdt_loop f m strings next ep
          else fdt_loop f m strings next ep
        else if token =? FDT_NOP then fdt_loop f m strings sp ep
        else if token =? FDT_END then Some 0
        else Some 0
      else Some 0
  end.

Definition fdt_get_memory_size (fuel : nat) (m : memory) (dtb_addr : Z) : option Z :=
  if (dtb_addr =? 0) || negb (fdt32 m dtb_addr =? FDT_MAGIC) then Some 0
  else
    let off_struct := fdt32 m (dtb_addr + 8) in
    let size_struct := fdt32 m (dtb_addr + 36) in
    let off_strings := fdt32 m (dtb_addr + 12) in
    let sp := dtb_addr + off_struct in
    let ep := sp + 4 * (size_struct / 4) in
    let strings := dtb_addr + off_strings in
    fdt_loop fuel m strings sp ep.

(** ** The walk ends

    The loop goes up by at least four bytes a turn, and the scan of a node's
    name stops at the latest at the zero byte [z].  The fuel is an upper bound on
    the turns, so a larger one gives the same result. *)

(** Where the structure block begins and ends. *)
Definition fdt_start (m : memory) (dtb_addr : Z) : Z := dtb_addr + fdt32 m (dtb_addr + 8).

Definition fdt_end (m : memory) (dtb_addr : Z) : Z :=
  fdt_start m dtb_addr + 4 * (fdt32 m (dtb_addr + 36) / 4).

(** Enough fuel when the byte at [z] is zero. *)
Definition fdt_fuel (m : memory) (dtb_addr z : Z) : nat := S (Z.to_nat (z - fdt_start m dtb_addr + 2)).

Lemma skip_name_ends m z : mget m z = 0 → ∀ fuel sp,
  sp ≤ z → z - sp < Z.of_nat fuel → ∃ sp', skip_name fuel m sp = Some sp' ∧ sp ≤ sp' ≤ z.
Proof.
  intros Hz. induction fuel as [|f IH]; intros sp Hsp Hf; [lia|]. cbn [skip_name].
  destruct (Z.eqb_spec (mget m sp) 0) as [E|E]; [exists sp; split; [done|lia]|].
  destruct (decide (sp = z)) as [->|Hne]; [done|].
  destruct (IH (sp + 1)) as (sp' & E' & Hb); [lia|lia|]. exists sp'. split; [done|lia].
Qed.

Lemma skip_name_mono m f : ∀ f' sp sp', (f ≤ f')%nat →
  skip_name f m sp = Some sp' → skip_name f' m sp = Some sp'.
Proof.
  induction f as [|f IH]; intros f' sp sp' Hf; [done|]. destruct f' as [|f']; [lia|]. cbn [skip_name].
  destruct (mget m sp =? 0); [done|]. apply IH. lia.
Qed.

Lemma align4 x : x - 3 ≤ Z.land x (Z.lnot 3) ≤ x.
Proof.
  assert (E : Z.land x (Z.lnot 3) = x - x mod 4).
  { change 3 with (Z.ones 2). rewrite <- Z.ldiff_land, Z.ldiff_ones_r, Z.shiftr_div_pow2, Z.shiftl_mul_pow2 by lia.
    change (2 ^ 2) with 4. pose proof (Z.div_mod x 4). lia. }
  pose proof (Z.mod_pos_bound x 4). lia.
Qed.

Lemma fdt_loop_ends m strings ep z : mget m z = 0 → ep + 4 ≤ z → ∀ fuel sp,
  (1 ≤ fuel)%nat → z - sp + 2 ≤ Z.of_nat fuel → ∃ t, fdt_loop fuel m strings sp ep = Some t.
Proof.
  intros Hz Hep. induction fuel as [|f IH]; intros sp H1 Hf; [lia|]. cbn [fdt_loop]. cbv zeta.
  destruct (Z.ltb_spec sp ep) as [Hlt|]; [|by eexists].
  destruct (_ =? FDT_BEGIN_NODE).
  { destruct (skip_name_ends m z Hz f (sp + 4)) as (sp' & -> & Hb); [lia|lia|].
    pose proof (align4 (sp' + 1 + 3)). apply IH; lia. }
  destruct (_ =? FDT_END_NODE); [apply IH; lia|].
  set (len := fdt32 m (sp + 4)). pose proof (align4 (u32 (len + 3))).
  assert (0 ≤ Z.land (u32 (len + 3)) (Z.lnot 3)).
  { apply Z.land_nonneg. left. unfold u32. apply Z.mod_pos_bound. lia. }
  destruct (_ =? FDT_PROP).
  { repeat case_match; first [by eexists|apply IH; lia]. }
  destruct (_ =? FDT_NOP); [apply IH; lia|]. destruct (_ =? FDT_END); by eexists.
Qed.

Lemma fdt_loop_mono m strings ep f : ∀ f' sp t, (f ≤ f')%nat →
  fdt_loop f m strings sp ep = Some t → fdt_loop f' m strings sp ep = Some t.
Proof.
  induction f as [|f IH]; intros f' sp t Hf; [done|]. destruct f' as [|f']; [lia|]. cbn [fdt_loop]. cbv zeta.
  destruct (sp <? ep); [|done]. destruct (_ =? FDT_BEGIN_NODE).
  { destruct (skip_name f m (sp + 4)) as [sp'|] eqn:E; [|done].
    rewrite (skip_name_mono m f f' _ sp') by (done || lia). apply IH. lia. }
  destruct (_ =? FDT_END_NODE); [apply IH; lia|].
  destruct (_ =? FDT_PROP); [repeat case_match; first [done|apply IH; lia]|].
  destruct (_ =? FDT_NOP); [apply IH; lia|done].
Qed.

(** Some zero byte after the structure block bounds the walk. *)
Lemma fdt_get_memory_size_ends m dtb z :
  mget m z = 0 → fdt_end m dtb + 4 ≤ z →
  ∃ t, ∀ fuel, (fdt_fuel m dtb z ≤ fuel)%nat → fdt_get_memory_size fuel m dtb = Some t.
Proof.
  intros Hz Hep. unfold fdt_get_memory_size.
  destruct ((dtb =? 0) || negb (fdt32 m dtb =? FDT_MAGIC)); [by exists 0|].
  destruct (fdt_loop_ends m (dtb + fdt32 m (dtb + 12)) (fdt_end m dtb) z Hz Hep
              (fdt_fuel m dtb z) (fdt_start m dtb)) as [t Et]; [unfold fdt_fuel; lia|unfold fdt_fuel; lia|].
  exists t. intros fuel Hf. by apply (fdt_loop_mono m _ _ _ fuel _ t Hf).
Qed.
