(* ===== verification/Printf.v ===== *)
(** kernel/core/printf.c and user/lib/printf.c: formatted output as the list of
    characters that reach [consputc] or [putc].

    Characters are bytes; a [va_list] is the list of the arguments still to
    read.  Reading past the last argument is undefined: the result is [None]. *)

From S2P Require Import Prelude Machine CString.

(** The two digit tables. *)
Definition digit (lower : bool) (d : Z) : Z :=
  if d <? 10 then 48 + d else if lower then 97 + (d - 10) else 65 + (d - 10).

(** The [do ... while ((x /= base) != 0)] loop of [printint]: what it stores in
    [buf], least significant digit first. *)
Fixpoint digits_loop (fuel : nat) (lower : bool) (x base : Z) : list Z :=
  match fuel with
  | O => []
  | S f =>
      digit lower (x mod base)
        :: (if negb (x / base =? 0) then digits_loop f lower (x / base) base else [])
  end.

Definition MINUS : Z := 45.

(** [printint]: [buf] is printed backwards.  64 rounds are enough for a 64-bit
    number in any base. *)
Definition printint_buf (lower : bool) (xx base : Z) (sign : bool) : list Z :=
  let neg := sign && (xx <? 0) in
  let x := if neg then u64 (- xx) else u64 xx in
  digits_loop 64 lower x base ++ (if neg then [MINUS] else []).

Definition printint (lower : bool) (xx base : Z) (sign : bool) : list Z :=
  reverse (printint_buf lower xx base sign).

Fixpoint printptr_loop (n : nat) (lower : bool) (x : Z) : list Z :=
  match n with
  | O => []
  | S n' => digit lower (Z.shiftr x 60) :: printptr_loop n' lower (u64 (Z.shiftl x 4))
  end.

Definition printptr (lower : bool) (x : Z) : list Z := 48 :: 120 :: printptr_loop 16 lower x.

(** A variadic argument: a 64-bit register, or a pointer to a string. *)
Inductive arg :=
| AInt (z : Z)
| AStr (s : option (list Z)).

Definition s64 (z : Z) : Z := (z + 2 ^ 63) mod 2 ^ 64 - 2 ^ 63.

Definition null_str : list Z := [40; 110; 117; 108; 108; 41].

(** The string up to its NUL. *)
Fixpoint until_nul (s : list Z) : list Z :=
  match s with
  | [] => []
  | c :: s' => if c =? 0 then [] else c :: until_nul s'
  end.

Definition take_int (ap : list arg) (k : Z → list Z) (skip : nat) : option (list Z * list arg * nat) :=
  match ap with
  | AInt z :: ap' => Some (k z, ap', skip)
  | _ => None
  end.

(** What [consputc] (console.c) sends: a code above a byte erases the last character. *)
Definition BACKSPACE : Z := 0x100.

Definition consputc_out (c : Z) : list Z := if c =? BACKSPACE then [8; 32; 8] else [u8 c].

(** The conversions both [printf]s know, at [fmt[i]] after the '%': the
    characters printed, the arguments left and how far [i] moves on. *)
Definition convert (lower : bool) (putc : Z → list Z) (c0 c1 c2 : Z) (ap : list arg) : option (list Z * list arg * nat) :=
  let d := 100 in let l := 108 in let u := 117 in let x := 120 in
  if c0 =? d then take_int ap (λ z, printint lower (s32 z) 10 true) 0
  else if (c0 =? l) && (c1 =? d) then take_int ap (λ z, printint lower (s64 z) 10 true) 1
  else if (c0 =? l) && (c1 =? l) && (c2 =? d) then take_int ap (λ z, printint lower (s64 z) 10 true) 2
  else if c0 =? u then take_int ap (λ z, printint lower (u32 z) 10 false) 0
  else if (c0 =? l) && (c1 =? u) then take_int ap (λ z, printint lower (s64 z) 10 false) 1
  else if (c0 =? l) && (c1 =? l) && (c2 =? u) then take_int ap (λ z, printint lower (s64 z) 10 false) 2
  else if c0 =? x then take_int ap (λ z, printint lower (u32 z) 16 false) 0
  else if (c0 =? l) && (c1 =? x) then take_int ap (λ z, printint lower (s64 z) 16 false) 1
  else if (c0 =? l) && (c1 =? l) && (c2 =? x) then take_int ap (λ z, printint lower (s64 z) 16 false) 2
  else if c0 =? 112 then take_int ap (λ z, printptr lower (u64 z)) 0
  else if c0 =? 99 then take_int ap (λ z, putc (u32 z)) 0
  else if c0 =? 115 then
    match ap with
    | AStr s :: ap' => Some (until_nul (default null_str s), ap', 0%nat)
    | _ => None
    end
  else if c0 =? 37 then Some ([37], ap, 0%nat)
  else Some ([37; c0], ap, 0%nat).

(** ** The kernel's [printf] *)

Fixpoint printf_loop (fuel : nat) (fmt : list Z) (i : nat) (ap : list arg) : option (list Z) :=
  match fuel with
  | O => Some []
  | S f =>
      let cx := chr fmt i in
      if cx =? 0 then Some []
      else if negb (cx =? 37) then cons cx <$> printf_loop f fmt (S i) ap
      else
        let i := S i in
        let c0 := chr fmt i in
        let c1 := if negb (c0 =? 0) then chr fmt (i + 1) else 0 in
        let c2 := if negb (c1 =? 0) then chr fmt (i + 2) else 0 in
        if c0 =? 0 then Some []
        else
          match convert true consputc_out c0 c1 c2 ap with
          | None => None
          | Some (out, ap', skip) => app out <$> printf_loop f fmt (S (i + skip)) ap'
          end
  end.

(** Every round moves at least one character on. *)
Definition printf (fmt : list Z) (ap : list arg) : option (list Z) :=
  printf_loop (S (length fmt)) fmt 0 ap.

(** ** The user library's [vprintf], with its state variable *)

Fixpoint vprintf_loop (fuel : nat) (fmt : list Z) (i : nat) (state : bool) (ap : list arg) : option (list Z) :=
  match fuel with
  | O => Some []
  | S f =>
      let c0 := chr fmt i in
      if c0 =? 0 then Some []
      else if negb state then
        if c0 =? 37 then vprintf_loop f fmt (S i) true ap
        else cons c0 <$> vprintf_loop f fmt (S i) false ap
      else
        let c1 := chr fmt (i + 1) in
        let c2 := if negb (c1 =? 0) then chr fmt (i + 2) else 0 in
        match convert false (λ c, [u8 c]) c0 c1 c2 ap with
        | None => None
        | Some (out, ap', skip) => app out <$> vprintf_loop f fmt (S (i + skip)) false ap'
        end
  end.

Definition vprintf (fmt : list Z) (ap : list arg) : option (list Z) :=
  vprintf_loop (S (length fmt)) fmt 0 false ap.

(** ** [atoi] (user/lib/ulib.c) *)

Fixpoint atoi_loop (n : Z) (s : list Z) : Z :=
  match s with
  | c :: s' => if (48 <=? c) && (c <=? 57) then atoi_loop (s32 (s32 (n * 10) + c - 48)) s' else n
  | [] => n
  end.

Definition atoi (s : list Z) : Z := atoi_loop 0 s.

(** ** Facts *)

(** The value of a digit character, and of digits stored low first. *)
Definition undigit (lower : bool) (c : Z) : Z :=
  if c <? 65 then c - 48 else c - (if lower then 97 else 65) + 10.

Definition value (lower : bool) (base : Z) (l : list Z) : Z :=
  foldr (λ c acc, undigit lower c + base * acc) 0 l.

Lemma undigit_digit lower d : 0 ≤ d < 16 → undigit lower (digit lower d) = d.
Proof.
  intros Hd. unfold undigit, digit. destruct (Z.ltb_spec d 10).
  - rewrite (proj2 (Z.ltb_lt _ _)) by lia. lia.
  - destruct lower; rewrite (proj2 (Z.ltb_ge _ _)) by lia; lia.
Qed.

Lemma digits_value fuel lower x base :
  2 ≤ base ≤ 16 → 0 ≤ x < base ^ Z.of_nat fuel → value lower base (digits_loop fuel lower x base) = x.
Proof.
  intros Hb. revert x. induction fuel as [|f IH]; intros x Hx; [simpl in *; lia|].
  rewrite Nat2Z.inj_succ, Z.pow_succ_r in Hx by lia. cbn [digits_loop value foldr].
  pose proof (Z.mod_pos_bound x base ltac:(lia)). pose proof (Z.div_mod x base ltac:(lia)).
  rewrite undigit_digit by lia. destruct (Z.eqb_spec (x / base) 0) as [E|E]; cbn [negb foldr].
  - rewrite E in *. lia.
  - fold (value lower base (digits_loop f lower (x / base) base)). rewrite IH; [lia|].
    split; [apply Z.div_pos; lia|apply Z.div_lt_upper_bound; lia].
Qed.

Lemma digits_length fuel lower x base (k : nat) :
  2 ≤ base → 0 ≤ x < base ^ Z.of_nat k → (0 < k)%nat → (length (digits_loop fuel lower x base) ≤ k)%nat.
Proof.
  intros Hb. revert x k. induction fuel as [|f IH]; intros x k Hx Hk; [simpl; lia|].
  cbn [digits_loop]. destruct k as [|k]; [lia|].
  rewrite Nat2Z.inj_succ, Z.pow_succ_r in Hx by lia.
  destruct (Z.eqb_spec (x / base) 0) as [E|E]; cbn [negb length]; [lia|].
  assert (Hq : 0 < x / base < base ^ Z.of_nat k).
  { pose proof (Z.div_pos x base). split; [lia|apply Z.div_lt_upper_bound; lia]. }
  assert (0 < k)%nat by (destruct k; [simpl in Hq; lia|lia]).
  specialize (IH (x / base) k ltac:(lia) ltac:(lia)). lia.
Qed.

(** Base 10 characters are decimal digits. *)
Lemma digits_decimal fuel lower x :
  0 ≤ x → Forall (λ c, 48 ≤ c ≤ 57) (digits_loop fuel lower x 10).
Proof.
  revert x. induction fuel as [|f IH]; intros x Hx; [constructor|]. cbn [digits_loop].
  assert (Hm : 0 ≤ x mod 10 < 10) by (apply Z.mod_pos_bound; lia). constructor.
  - unfold digit. rewrite (proj2 (Z.ltb_lt _ _)) by lia. lia.
  - destruct (negb _); [|constructor]. apply IH. apply Z.div_pos; lia.
Qed.

(** Decimal digits read from the left. *)
Definition decimal (n : Z) (l : list Z) : Z := foldl (λ n c, n * 10 + (c - 48)) n l.

Lemma decimal_ge n l : 0 ≤ n → Forall (λ c, 48 ≤ c ≤ 57) l → n ≤ decimal n l.
Proof.
  intros Hn Hl. revert n Hn. induction Hl as [|c l Hc Hl IH]; intros n Hn; [done|].
  specialize (IH (n * 10 + (c - 48)) ltac:(lia)).
  change (decimal n (c :: l)) with (decimal (n * 10 + (c - 48)) l). lia.
Qed.

Lemma decimal_value lower l :
  Forall (λ c, 48 ≤ c ≤ 57) l → decimal 0 (reverse l) = value lower 10 l.
Proof.
  induction 1 as [|c l Hc Hl IH]; [done|]. rewrite reverse_cons. unfold decimal in *.
  rewrite foldl_app, IH. cbn [foldl value foldr]. fold (value lower 10 l).
  unfold undigit. rewrite (proj2 (Z.ltb_lt _ _)) by lia. lia.
Qed.

Lemma atoi_decimal n l :
  0 ≤ n → Forall (λ c, 48 ≤ c ≤ 57) l → decimal n l < 2 ^ 31 → atoi_loop n l = decimal n l.
Proof.
  intros Hn Hl. revert n Hn. induction Hl as [|c l Hc Hl IH]; intros n Hn Hmax; [done|].
  cbn [atoi_loop]. rewrite !(proj2 (Z.leb_le _ _)) by lia. cbn [andb].
  change (decimal n (c :: l)) with (decimal (n * 10 + (c - 48)) l) in *.
  pose proof (decimal_ge (n * 10 + (c - 48)) l ltac:(lia) Hl).
  rewrite (s32_id (n * 10)), s32_id by lia. rewrite <- Z.add_sub_assoc. apply IH; lia.
Qed.

Lemma s64_range z : - 2 ^ 63 ≤ s64 z < 2 ^ 63.
Proof. unfold s64. pose proof (Z.mod_pos_bound (z + 2 ^ 63) (2 ^ 64) ltac:(lia)). lia. Qed.

(** The number that [printint] writes in digits. *)
Lemma printint_mag lower xx base sign :
  10 ≤ base ≤ 16 → - 2 ^ 63 ≤ xx < 2 ^ 64 → (sign = true → xx < 2 ^ 63) →
  let neg := sign && (xx <? 0) in
  let x := if neg then - xx else u64 xx in
  0 ≤ x < 2 ^ 64 ∧ printint_buf lower xx base sign = digits_loop 64 lower x base ++ (if neg then [MINUS] else []).
Proof.
  intros Hb Hx Hs. cbv zeta. unfold printint_buf. destruct (sign && (xx <? 0)) eqn:E.
  - apply andb_prop in E as [_ E]. apply Z.ltb_lt in E. rewrite u64_id by lia. split; [lia|done].
  - split; [|done]. unfold u64. apply Z.mod_pos_bound. lia.
Qed.

(** [printint] of the kernel and of the user library never writes
    past its buffer of 20 characters, for any 64-bit argument, base 10 or 16,
    signed or not; and the digits it prints are those of the number. *)
Theorem printint_fits lower xx base sign :
  base = 10 ∨ base = 16 → - 2 ^ 63 ≤ xx < 2 ^ 64 → (sign = true → base = 10 ∧ xx < 2 ^ 63) →
  (length (printint_buf lower xx base sign) ≤ 20)%nat
  ∧ (if sign && (xx <? 0)
     then ∃ l, printint lower xx base sign = MINUS :: reverse l ∧ value lower base l = - xx
     else value lower base (reverse (printint lower xx base sign)) = u64 xx).
Proof.
  intros Hb Hx Hs. assert (Hb' : 10 ≤ base ≤ 16) by lia.
  destruct (printint_mag lower xx base sign Hb' Hx ltac:(tauto)) as [Hr E]. revert Hr E.
  unfold printint. destruct (sign && (xx <? 0)) eqn:En; intros Hr E; rewrite E.
  - apply andb_prop in En as [-> En]. destruct (Hs eq_refl) as [-> Hx']. split.
    + rewrite length_app. change (length [MINUS]) with 1%nat.
      pose proof (digits_length 64 lower (- xx) 10 19 ltac:(lia) ltac:(lia) ltac:(lia)). lia.
    + exists (digits_loop 64 lower (- xx) 10). rewrite reverse_app. split; [done|]. apply digits_value; lia.
  - rewrite app_nil_r, reverse_involutive. split.
    + apply digits_length; [lia| |lia]. destruct Hb as [-> | ->]; lia.
    + apply digits_value; [lia|]. split; [lia|]. apply (Z.lt_le_trans _ (2 ^ 64)); [lia|].
      apply Z.pow_le_mono_l. lia.
Qed.

Lemma vprintf_d n : vprintf [37; 100] [AInt n] = Some (printint false (s32 n) 10 true).
Proof. cbv -[printint s32 app]. by rewrite app_nil_r. Qed.

(** C37 [roundtrip]. [atoi] of what [printf("%d")] prints for a non-negative
    [int] is that number. *)
Theorem printf_atoi n :
  0 ≤ n < 2 ^ 31 → ∃ out, vprintf [37; 100] [AInt n] = Some out ∧ atoi out = n.
Proof.
  intros Hn. rewrite vprintf_d, s32_id by lia. eexists. split; [done|].
  unfold printint. destruct (printint_mag false n 10 true) as [_ E]; [lia|lia|lia|]. rewrite E.
  rewrite (proj2 (Z.ltb_ge n 0)) by lia. cbn [andb]. rewrite app_nil_r, u64_id by lia.
  pose proof (digits_decimal 64 false n ltac:(lia)) as Hd.
  assert (Ev : value false 10 (digits_loop 64 false n 10) = n) by (apply digits_value; lia).
  unfold atoi. rewrite atoi_decimal; [|lia|by apply Forall_reverse|];
    rewrite (decimal_value false), Ev by done; lia.
Qed.

Lemma printint_fits_witness :
  (length (printint_buf true (- 2 ^ 63) 10 true) ≤ 20)%nat
  ∧ (length (printint_buf true (2 ^ 64 - 1) 10 false) ≤ 20)%nat.
Proof.
  split; apply (printint_fits true _ 10); first [lia | intros; discriminate | intros _; split; [reflexivity|lia]].
Defined.

Lemma printf_atoi_witness : ∃ out, vprintf [37; 100] [AInt 1024] = Some out ∧ atoi out = 1024.
Proof. apply (printf_atoi 1024). lia. Defined.
