(* ===== verification/Utf8.v ===== *)
(** user/lib/utf8.c, user/lib/ctype.c and user/lib/term.c: UTF-8 text in byte
    buffers, display widths and cursor control sequences. *)

From S2P Require Import Prelude Machine CString.

(** ** utf8.c *)

Definition utf8_cont (c : Z) : bool := Z.land (u8 c) 0xC0 =? 0x80.

Definition utf8_input_len (c : Z) : Z :=
  let u := u8 c in
  if u <? 0x80 then 1
  else if Z.land u 0xE0 =? 0xC0 then 2
  else if Z.land u 0xF0 =? 0xE0 then 3
  else if Z.land u 0xF8 =? 0xF0 then 4
  else 1.

(** [while (pos < len && utf8_cont(buf[pos])) pos++] *)
Fixpoint next_loop (fuel : nat) (buf : list Z) (pos len : Z) : Z :=
  match fuel with
  | O => pos
  | S f =>
      if (pos <? len) && utf8_cont (chr buf (Z.to_nat pos)) then next_loop f buf (pos + 1) len else pos
  end.

Definition utf8_next (buf : list Z) (pos len : Z) : Z :=
  if len <=? pos then len else next_loop (Z.to_nat (len - pos)) buf (pos + 1) len.

(** [while (pos > 0 && utf8_cont(buf[pos])) pos--] *)
Fixpoint prev_loop (fuel : nat) (buf : list Z) (pos : Z) : Z :=
  match fuel with
  | O => pos
  | S f => if (0 <? pos) && utf8_cont (chr buf (Z.to_nat pos)) then prev_loop f buf (pos - 1) else pos
  end.

Definition utf8_prev (buf : list Z) (pos : Z) : Z :=
  if pos <=? 0 then 0 else prev_loop (Z.to_nat pos) buf (pos - 1).

(** The [for] loop of [utf8_decode]; [None]: a byte is not a continuation. *)
Fixpoint decode_loop (n : nat) (buf : list Z) (i : nat) (r : Z) : option Z :=
  match n with
  | O => Some r
  | S n' =>
      if negb (utf8_cont (chr buf i)) then None
      else decode_loop n' buf (S i) (Z.lor (u32 (Z.shiftl r 6)) (Z.land (chr buf i) 0x3F))
  end.

Definition utf8_decode (buf : list Z) (pos e : Z) : Z :=
  let c0 := u8 (chr buf (Z.to_nat pos)) in
  let len := e - pos in
  if len =? 1 then c0
  else
    let rest r := default c0 (decode_loop (Z.to_nat (len - 1)) buf (S (Z.to_nat pos)) r) in
    if len =? 2 then rest (Z.land c0 0x1F)
    else if len =? 3 then rest (Z.land c0 0x0F)
    else if len =? 4 then rest (Z.land c0 0x07)
    else c0.

(** The wide ranges that [utf8_rune_width] and the console share. *)
Definition wide (r : Z) : bool :=
  ((0x1100 <=? r) && (r <=? 0x115F)) || ((0x2329 <=? r) && (r <=? 0x232A))
  || ((0x2E80 <=? r) && (r <=? 0xA4CF)) || ((0xAC00 <=? r) && (r <=? 0xD7A3))
  || ((0xF900 <=? r) && (r <=? 0xFAFF)) || ((0xFE10 <=? r) && (r <=? 0xFE19))
  || ((0xFE30 <=? r) && (r <=? 0xFE6F)) || ((0xFF00 <=? r) && (r <=? 0xFF60))
  || ((0xFFE0 <=? r) && (r <=? 0xFFE6)) || ((0x20000 <=? r) && (r <=? 0x3FFFD)).

Definition utf8_rune_width (r : Z) : Z :=
  if r <? 0x20 then 0 else if r <? 0x80 then 1 else if wide r then 2 else 1.

Fixpoint width_loop (fuel : nat) (buf : list Z) (start e width : Z) : Z :=
  match fuel with
  | O => width
  | S f =>
      if start <? e then
        let next := utf8_next buf start e in
        width_loop f buf next e (s32 (width + utf8_rune_width (utf8_decode buf start next)))
      else width
  end.

Definition utf8_text_width (buf : list Z) (start e : Z) : Z :=
  width_loop (Z.to_nat (e - start)) buf start e 0.

(** ** ctype.c *)

Definition char_printable (c : Z) : bool := (32 <=? c) && (c <=? 126).

Definition char_whitespace (c : Z) : bool := (c =? 10) || (c =? 13) || (c =? 9) || (c =? 32).

Definition hex_val (c : Z) : Z :=
  if (48 <=? c) && (c <=? 57) then c - 48
  else if (97 <=? c) && (c <=? 102) then c - 97 + 10
  else if (65 <=? c) && (c <=? 70) then c - 65 + 10
  else -1.

(** What [utf8_safe_print] writes. *)
Definition utf8_safe_print (s : list Z) : list Z :=
  if chr s 0 =? 0 then []
  else if (chr s 1 =? 0) && negb (char_printable (chr s 0)) && negb (char_whitespace (chr s 0)) then []
  else take (Z.to_nat (strlen s)) s.

(** ** term.c *)

(** The digits of a positive number, low first, as in [tmp]. *)
Fixpoint term_digits (fuel : nat) (value : Z) : list Z :=
  match fuel with
  | O => []
  | S f => if 0 <? value then (48 + value mod 10) :: term_digits f (value / 10) else []
  end.

(** What [term_append_uint] appends to [out]; ten digits hold any [int]. *)
Definition term_append_uint (value : Z) : list Z :=
  if value =? 0 then [48] else reverse (term_digits 10 value).

Definition term_move_cursor (dir width : Z) : list Z :=
  if width <=? 0 then [] else [27; 91] ++ term_append_uint width ++ [dir].

Definition term_clear_eol : list Z := [27; 91; 75].

(** ** UTF-8, as RFC 3629 defines it *)

Definition is_rune (r : Z) : Prop := 0 ≤ r < 0x110000 ∧ ¬ (0xD800 ≤ r < 0xE000).

Definition encode (r : Z) : list Z :=
  if r <? 0x80 then [r]
  else if r <? 0x800 then [0xC0 + r / 64; 0x80 + r mod 64]
  else if r <? 0x10000 then [0xE0 + r / 4096; 0x80 + r / 64 mod 64; 0x80 + r mod 64]
  else [0xF0 + r / 262144; 0x80 + r / 4096 mod 64; 0x80 + r / 64 mod 64; 0x80 + r mod 64].

Definition encode_text (rs : list Z) : list Z := rs ≫= encode.

(** ** Facts about bytes and encodings *)

(** A property of bytes, checked on all of them. *)
Lemma all_bytes (P : Z → bool) : forallb P (seqZ 0 256) = true → ∀ b, 0 ≤ b < 256 → P b = true.
Proof.
  intros H b Hb. rewrite forallb_forall in H. apply H, list_elem_of_In, elem_of_seqZ. lia.
Qed.

Lemma utf8_cont_range c : 0 ≤ c < 256 → utf8_cont c = (128 <=? c) && (c <? 192).
Proof.
  intros Hc. apply (all_bytes (λ c, eqb (utf8_cont c) ((128 <=? c) && (c <? 192)))) in Hc.
  - by apply eqb_prop.
  - vm_compute. done.
Qed.

Definition lead_len (c : Z) : Z :=
  if c <? 192 then 1 else if c <? 224 then 2 else if c <? 240 then 3 else if c <? 248 then 4 else 1.

Lemma utf8_input_len_range c : 0 ≤ c < 256 → utf8_input_len c = lead_len c.
Proof.
  intros Hc. apply (all_bytes (λ c, utf8_input_len c =? lead_len c)) in Hc.
  - by apply Z.eqb_eq.
  - vm_compute. done.
Qed.

Lemma low_bits b k : 0 ≤ k → Z.land b (Z.ones k) = b mod 2 ^ k.
Proof. intros Hk. by apply Z.land_ones. Qed.

(** One step of [utf8_decode]: six more bits. *)
Lemma decode_step r d :
  0 ≤ r < 2 ^ 26 → 0 ≤ d < 64 →
  Z.lor (u32 (Z.shiftl r 6)) (Z.land (0x80 + d) 0x3F) = r * 64 + d.
Proof.
  intros Hr Hd. rewrite Z.shiftl_mul_pow2, u32_id by lia. change 0x3F with (Z.ones 6).
  rewrite low_bits by lia. replace ((0x80 + d) mod 2 ^ 6) with d by (change (2 ^ 6) with 64; dlia).
  rewrite <- Z.add_nocarry_lor; [lia|]. apply Z.bits_inj'. intros i Hi. rewrite Z.land_spec, Z.bits_0.
  destruct (decide (i < 6)).
  - rewrite Z.mul_pow2_bits_low by lia. done.
  - rewrite (Z.bits_above_log2 d); [apply andb_false_r|lia|].
    destruct (decide (d = 0)) as [->|]; [simpl; lia|]. apply Z.log2_lt_pow2; [lia|].
    apply (Z.lt_le_trans _ (2 ^ 6)); [lia|]. apply Z.pow_le_mono_r; lia.
Qed.

(** The shape of an encoding: a lead byte that tells the length, then
    continuation bytes that carry six bits each. *)
Definition conts (k : nat) (r : Z) : list Z := (λ i, 0x80 + r / 64 ^ Z.of_nat i mod 64) <$> reverse (seq 0 k).

Lemma encode_shape r :
  0 ≤ r < 0x110000 → ∃ lead k, encode r = lead :: conts k r ∧ 0 ≤ lead < 256 ∧ (k ≤ 3)%nat
    ∧ utf8_cont lead = false ∧ utf8_input_len lead = Z.of_nat (S k)
    ∧ (k = 0%nat → lead = r)
    ∧ (k ≠ 0%nat → Z.land lead (Z.ones (6 - Z.of_nat k)) = r / 64 ^ Z.of_nat k).
Proof.
  intros Hr.
  assert (∃ lead k, encode r = lead :: conts k r ∧ 0 ≤ lead < 256
    ∧ (k = 0%nat ∧ lead = r ∧ r < 128
       ∨ k = 1%nat ∧ lead = 0xC0 + r / 64 ∧ r / 64 < 32 ∨ k = 2%nat ∧ lead = 0xE0 + r / 4096 ∧ r / 4096 < 16
       ∨ k = 3%nat ∧ lead = 0xF0 + r / 262144 ∧ r / 262144 < 8)) as (lead & k & E & Hl & Hk).
  { unfold encode.
    destruct (Z.ltb_spec r 0x80); [|destruct (Z.ltb_spec r 0x800); [|destruct (Z.ltb_spec r 0x10000)]];
      [exists r, 0%nat|exists (0xC0 + r / 64), 1%nat|exists (0xE0 + r / 4096), 2%nat|exists (0xF0 + r / 262144), 3%nat];
      (split; [unfold conts; simpl; rewrite ?Z.div_1_r; done|split; [dlia|]]).
    - left. done.
    - right. left. split_and!; [done..|dlia].
    - right. right. left. split_and!; [done..|dlia].
    - right. right. right. split_and!; [done..|dlia]. }
  assert (Hd : 0 ≤ r / 64 ∧ 0 ≤ r / 4096 ∧ 0 ≤ r / 262144) by (split_and!; apply Z.div_pos; lia).
  exists lead, k. rewrite utf8_cont_range, utf8_input_len_range by done. unfold lead_len.
  destruct Hk as [(-> & -> & Hx)|[(-> & -> & Hx)|[(-> & -> & Hx)|(-> & -> & Hx)]]];
    (split_and!; [done|lia|lia|lia| | | |]);
    repeat (match goal with |- context [?x <? ?y] => destruct (Z.ltb_spec x y); [try lia|try lia] end);
    try lia; rewrite ?andb_false_r; try done; try (destruct (Z.leb_spec 128 r); [lia|done]);
    intros _; rewrite low_bits by lia.
  - change (2 ^ (6 - Z.of_nat 1)) with 32. change (64 ^ Z.of_nat 1) with 64. dlia.
  - change (2 ^ (6 - Z.of_nat 2)) with 16. change (64 ^ Z.of_nat 2) with 4096. dlia.
  - change (2 ^ (6 - Z.of_nat 3)) with 8. change (64 ^ Z.of_nat 3) with 262144. dlia.
Qed.

Lemma conts_S k r : conts (S k) r = (0x80 + r / 64 ^ Z.of_nat k mod 64) :: conts k r.
Proof. unfold conts. rewrite seq_S, reverse_app. done. Qed.

Lemma conts_length k r : length (conts k r) = k.
Proof. unfold conts. by rewrite length_fmap, length_reverse, length_seq. Qed.

Lemma conts_cont k r : Forall (λ c, utf8_cont c = true) (conts k r).
Proof.
  induction k as [|k IH]; [constructor|]. rewrite conts_S. constructor; [|done].
  assert (Hm : 0 ≤ r / 64 ^ Z.of_nat k mod 64 < 64) by (apply Z.mod_pos_bound; lia).
  rewrite utf8_cont_range by lia. rewrite (proj2 (Z.leb_le _ _)), (proj2 (Z.ltb_lt _ _)) by lia. done.
Qed.

Lemma chr_app pre l i : chr (pre ++ l) (length pre + i) = chr l i.
Proof. unfold chr. rewrite app_nth2 by lia. f_equal. lia. Qed.

Lemma chr_mid pre c post : chr (pre ++ c :: post) (length pre) = c.
Proof. rewrite <- (Nat.add_0_r (length pre)). by rewrite chr_app. Qed.

(** The loops over a run of continuation bytes. *)
Lemma next_loop_run fuel pre run post len :
  Forall (λ c, utf8_cont c = true) run → (length run ≤ fuel)%nat →
  let pos := Z.of_nat (length pre) in
  pos + Z.of_nat (length run) ≤ len →
  (pos + Z.of_nat (length run) = len ∨ utf8_cont (chr post 0) = false) →
  next_loop fuel (pre ++ run ++ post) pos len = pos + Z.of_nat (length run).
Proof.
  intros Hrun. revert fuel pre. induction Hrun as [|c run Hc Hrun IH]; intros fuel pre Hf; simpl; intros Hlen Hend.
  - rewrite Z.add_0_r in *. destruct fuel as [|f]; [done|]. simpl.
    destruct (Z.ltb_spec (Z.of_nat (length pre)) len); [|done].
    rewrite Nat2Z.id, <- (Nat.add_0_r (length pre)), chr_app.
    destruct Hend as [?| ->]; [lia|done].
  - simpl in Hf. destruct fuel as [|f]; [lia|]. cbn [next_loop].
    rewrite (proj2 (Z.ltb_lt _ _)) by lia. rewrite Nat2Z.id, chr_mid, Hc. cbn [andb].
    specialize (IH f (pre ++ [c]) ltac:(lia)). rewrite length_app in IH. cbn [length] in IH.
    rewrite <- app_assoc in IH. simpl in IH.
    replace (Z.of_nat (length pre) + 1) with (Z.of_nat (length pre + 1)) by lia.
    rewrite IH; [lia|lia|]. destruct Hend; [left; lia|by right].
Qed.

Lemma prev_loop_run fuel pre c run post :
  Forall (λ c, utf8_cont c = true) run → utf8_cont c = false → (length run ≤ fuel)%nat →
  prev_loop fuel (pre ++ c :: run ++ post) (Z.of_nat (length pre + length run)) = Z.of_nat (length pre).
Proof.
  intros Hrun Hc. revert fuel post. induction run as [|d run IH] using rev_ind; intros fuel post Hf; simpl.
  - rewrite Nat.add_0_r. destruct fuel as [|f]; [done|]. simpl. rewrite Nat2Z.id, chr_mid, Hc.
    by rewrite andb_false_r.
  - rewrite Forall_app, Forall_singleton in Hrun. destruct Hrun as [Hrun Hd].
    rewrite length_app in *. cbn [length] in *. destruct fuel as [|f]; [lia|]. cbn [prev_loop].
    rewrite (proj2 (Z.ltb_lt _ _)) by lia. rewrite Nat2Z.id.
    replace (chr _ (length pre + (length run + 1))) with d; last first.
    { rewrite chr_app. rewrite <- app_assoc. simpl. rewrite Nat.add_comm. simpl.
      unfold chr. simpl. rewrite app_nth2 by lia. by rewrite Nat.sub_diag. }
    rewrite Hd. cbn [andb]. rewrite <- app_assoc.
    replace (Z.of_nat (length pre + (length run + 1)) - 1) with (Z.of_nat (length pre + length run)) by lia.
    apply IH; [done|lia].
Qed.

Lemma decode_loop_run k pre r post :
  0 ≤ r < 2 ^ 26 →
  decode_loop k (pre ++ conts k r ++ post) (length pre) (r / 64 ^ Z.of_nat k) = Some r.
Proof.
  intros Hr. revert pre. induction k as [|k IH]; intros pre; [cbn [decode_loop]; by rewrite Z.div_1_r|].
  pose proof (conts_cont (S k) r) as Hc. rewrite conts_S in Hc |- *. apply Forall_cons in Hc as [Hc _].
  cbn [decode_loop app]. rewrite chr_mid, Hc. cbn [negb].
  assert (Hp : 0 < 64 ^ Z.of_nat k) by (apply Z.pow_pos_nonneg; lia).
  rewrite decode_step; [| |apply Z.mod_pos_bound; lia].
  2:{ split; [apply Z.div_pos; [lia|apply Z.pow_pos_nonneg; lia]|]. assert (Hp' : 0 < 64 ^ Z.of_nat (S k)) by (apply Z.pow_pos_nonneg; lia).
      revert Hp'. generalize (64 ^ Z.of_nat (S k)). intros q Hq.
      apply Z.div_lt_upper_bound; [lia|]. nia. }
  replace (r / 64 ^ Z.of_nat (S k) * 64 + r / 64 ^ Z.of_nat k mod 64) with (r / 64 ^ Z.of_nat k).
  2:{ rewrite Nat2Z.inj_succ, Z.pow_succ_r, (Z.mul_comm 64 (64 ^ _)), <- Z.div_div by lia.
      pose proof (Z.div_mod (r / 64 ^ Z.of_nat k) 64 ltac:(lia)). lia. }
  specialize (IH (pre ++ [0x80 + r / 64 ^ Z.of_nat k mod 64])).
  rewrite length_app, <- app_assoc in IH. cbn [length app] in IH.
  by replace (S (length pre)) with (length pre + 1)%nat by lia.
Qed.

(** One character of a buffer, with the text around it. *)
Lemma char_steps pre r post len :
  0 ≤ r < 0x110000 →
  let pos := Z.of_nat (length pre) in let e := pos + Z.of_nat (length (encode r)) in
  let buf := pre ++ encode r ++ post in
  e ≤ len → (e = len ∨ utf8_cont (chr post 0) = false) →
  utf8_next buf pos len = e ∧ utf8_prev buf e = pos ∧ utf8_decode buf pos e = r
  ∧ utf8_input_len (chr buf (Z.to_nat pos)) = e - pos.
Proof.
  intros Hr. destruct (encode_shape r Hr) as (lead & k & E & Hl & Hk & Hlc & Hlen & Hk0 & Hk1).
  cbv zeta. rewrite E. cbn [length app]. rewrite conts_length, Nat2Z.id, chr_mid. intros He Hend.
  pose proof (conts_cont k r) as Hc. pose proof (conts_length k r) as Hcl. split_and!.
  - unfold utf8_next. rewrite (proj2 (Z.leb_gt _ _)) by lia.
    pose proof (next_loop_run (Z.to_nat (len - Z.of_nat (length pre))) (pre ++ [lead]) (conts k r) post len Hc) as H.
    rewrite Hcl, length_app, <- app_assoc in H. cbn [length app] in H. cbv zeta in H.
    replace (Z.of_nat (length pre) + 1) with (Z.of_nat (length pre + 1)) by lia.
    rewrite H; [lia|lia|lia|]. destruct Hend; [left; lia|by right].
  - unfold utf8_prev. rewrite (proj2 (Z.leb_gt _ _)) by lia.
    replace (Z.of_nat (length pre) + Z.of_nat (S k) - 1) with (Z.of_nat (length pre + length (conts k r))) by lia.
    apply prev_loop_run; [done|done|lia].
  - unfold utf8_decode. rewrite Nat2Z.id, chr_mid.
    replace (Z.of_nat (length pre) + Z.of_nat (S k) - Z.of_nat (length pre)) with (Z.of_nat (S k)) by lia.
    assert (Eu : u8 lead = lead) by (unfold u8; apply Z.mod_small; lia). rewrite Eu.
    destruct k as [|k]; [by apply Hk0|]. specialize (Hk1 ltac:(done)).
    rewrite (proj2 (Z.eqb_neq _ 1)) by lia.
    replace (Z.to_nat (Z.of_nat (S (S k)) - 1)) with (S k) by lia.
    pose proof (decode_loop_run (S k) (pre ++ [lead]) r post ltac:(lia)) as Hd.
    rewrite length_app, <- app_assoc in Hd. cbn [length app] in Hd. rewrite Nat.add_1_r in Hd.
    destruct k as [|[|[|k]]]; [| | |lia]; cbv zeta.
    + change (Z.land lead 0x1F = r / 64 ^ Z.of_nat 1) in Hk1. cbv iota. by rewrite Hk1, Hd.
    + change (Z.land lead 0x0F = r / 64 ^ Z.of_nat 2) in Hk1. cbv iota. by rewrite Hk1, Hd.
    + change (Z.land lead 0x07 = r / 64 ^ Z.of_nat 3) in Hk1. cbv iota. by rewrite Hk1, Hd.
  - rewrite Hlen. lia.
Qed.

(** What follows a character of a text is no continuation byte. *)
Lemma text_head rs junk :
  Forall is_rune rs → rs ≠ [] → utf8_cont (chr (encode_text rs ++ junk) 0) = false.
Proof.
  intros Hrs Hne. destruct Hrs as [|r rs [Hr _] Hrs]; [done|].
  destruct (encode_shape r Hr) as (lead & k & E & _ & _ & Hc & _).
  change (encode_text (r :: rs)) with (encode r ++ encode_text rs). by rewrite E.
Qed.

Lemma encode_text_app rs rs' : encode_text (rs ++ rs') = encode_text rs ++ encode_text rs'.
Proof. apply bind_app. Qed.

Lemma text_steps rs1 r rs2 junk :
  Forall is_rune (rs1 ++ r :: rs2) →
  let buf := encode_text (rs1 ++ r :: rs2) ++ junk in
  let pos := Z.of_nat (length (encode_text rs1)) in
  let e := pos + Z.of_nat (length (encode r)) in
  let len := Z.of_nat (length (encode_text (rs1 ++ r :: rs2))) in
  utf8_next buf pos len = e ∧ utf8_prev buf e = pos ∧ utf8_decode buf pos e = r
  ∧ utf8_input_len (chr buf (Z.to_nat pos)) = e - pos.
Proof.
  intros Hrs. apply Forall_app in Hrs as [_ Hrs]. apply Forall_cons in Hrs as [Hr Hrs2].
  rewrite encode_text_app. change (encode_text (r :: rs2)) with (encode r ++ encode_text rs2).
  cbv zeta. rewrite <- !app_assoc. apply char_steps; [apply Hr|rewrite !length_app; lia|].
  destruct rs2 as [|r2 rs2]; [left|right; by apply text_head].
  rewrite !length_app. simpl. lia.
Qed.

(** C38 [roundtrip]. In a buffer that holds UTF-8 text, from the start of a
    character [utf8_next] moves to its end and [utf8_prev] back, [utf8_decode]
    of the bytes between is the code point that was encoded, and
    [utf8_input_len] of the first byte is their number. *)
Theorem utf8_text_roundtrip rs1 r rs2 junk :
  Forall is_rune (rs1 ++ r :: rs2) →
  let buf := encode_text (rs1 ++ r :: rs2) ++ junk in
  let pos := Z.of_nat (length (encode_text rs1)) in
  let e := pos + Z.of_nat (length (encode r)) in
  let len := Z.of_nat (length (encode_text (rs1 ++ r :: rs2))) in
  utf8_next buf pos len = e ∧ utf8_prev buf e = pos ∧ utf8_decode buf pos e = r
  ∧ utf8_input_len (chr buf (Z.to_nat pos)) = e - pos.
Proof. apply text_steps. Qed.

Definition widths (rs : list Z) : Z := foldr (λ r n, utf8_rune_width r + n) 0 rs.

Lemma rune_width_range r : 0 ≤ utf8_rune_width r ≤ 2.
Proof. unfold utf8_rune_width. destruct (r <? 32), (r <? 128), (wide r); lia. Qed.

Lemma widths_pos rs : 0 ≤ widths rs.
Proof. induction rs as [|r rs IH]; [done|]. pose proof (rune_width_range r). cbn [widths foldr]. fold (widths rs). lia. Qed.

Lemma encode_nonempty r : 0 ≤ r < 0x110000 → (0 < length (encode r))%nat.
Proof. intros Hr. destruct (encode_shape r Hr) as (lead & k & -> & _). simpl. lia. Qed.

Lemma width_loop_run fuel rs1 rs2 junk w :
  Forall is_rune (rs1 ++ rs2) → (length (encode_text rs2) ≤ fuel)%nat → 0 ≤ w → w + widths rs2 < 2 ^ 31 →
  width_loop fuel (encode_text (rs1 ++ rs2) ++ junk) (Z.of_nat (length (encode_text rs1)))
    (Z.of_nat (length (encode_text (rs1 ++ rs2)))) w = w + widths rs2.
Proof.
  revert fuel rs1 w. induction rs2 as [|r rs2 IH]; intros fuel rs1 w Hrs Hf Hw Hmax.
  - rewrite app_nil_r. cbn [widths foldr]. rewrite Z.add_0_r. destruct fuel; [done|]. cbn [width_loop].
    by rewrite Z.ltb_irrefl.
  - destruct (text_steps rs1 r rs2 junk Hrs) as (En & _ & Ed & _).
    assert (Hr : is_rune r) by (apply Forall_app in Hrs as [_ Hrs]; by apply Forall_cons in Hrs as [? _]).
    pose proof (encode_nonempty r (proj1 Hr)) as Hpos.
    change (encode_text (r :: rs2)) with (encode r ++ encode_text rs2) in Hf. rewrite length_app in Hf.
    destruct fuel as [|f]; [lia|]. cbn [width_loop].
    rewrite (proj2 (Z.ltb_lt _ _)).
    2:{ rewrite encode_text_app, length_app. change (encode_text (r :: rs2)) with (encode r ++ encode_text rs2).
        rewrite length_app. lia. }
    cbv zeta. rewrite En, Ed. change (widths (r :: rs2)) with (utf8_rune_width r + widths rs2) in *.
    pose proof (rune_width_range r). pose proof (widths_pos rs2). rewrite s32_id by lia.
    specialize (IH f (rs1 ++ [r]) (w + utf8_rune_width r)). rewrite <- app_assoc in IH. simpl app in IH.
    rewrite (encode_text_app rs1 [r]) in IH. change (encode_text [r]) with (encode r ++ []) in IH.
    rewrite app_nil_r, length_app, Nat2Z.inj_add in IH. rewrite IH; [lia|done|lia|lia|lia].
Qed.

(** The width [utf8_text_width] computes for a UTF-8 text is
    the sum of the display widths of its characters. *)
Theorem utf8_text_width_sum rs junk :
  Forall is_rune rs → widths rs < 2 ^ 31 →
  utf8_text_width (encode_text rs ++ junk) 0 (Z.of_nat (length (encode_text rs))) = widths rs.
Proof.
  intros Hrs Hmax. unfold utf8_text_width.
  apply (width_loop_run _ [] rs junk 0 Hrs); [lia|lia|done].
Qed.

Lemma utf8_text_roundtrip_witness :
  utf8_decode (encode_text [0x41; 0x4F60; 0x1F600] ++ [0]) 1 4 = 0x4F60
  ∧ utf8_prev (encode_text [0x41; 0x4F60; 0x1F600] ++ [0]) 4 = 1.
Proof.
  destruct (utf8_text_roundtrip [0x41] 0x4F60 [0x1F600] [0]) as (_ & H1 & H2 & _).
  - repeat constructor; lia.
  - split; [exact H2|exact H1].
Defined.

Lemma utf8_text_width_sum_witness : utf8_text_width (encode_text [0x41; 0x4F60] ++ [0]) 0 4 = 3.
Proof. apply (utf8_text_width_sum [0x41; 0x4F60] [0]); [repeat constructor; lia|reflexivity]. Defined.
