(* ===== verification/Ulib.v ===== *)
(** user/lib/ulib.c: the string and memory functions of user programs, on
    character arrays given as the lists of their bytes.  Positions inside one
    array stand for pointers into it. *)

From S2P Require Import Prelude Machine CString.

(** [while (( *s++ = *t++) != 0);] *)
Fixpoint strcpy_loop (fuel : nat) (i : nat) (s t : list Z) : list Z :=
  match fuel with
  | O => s
  | S f =>
      let s' := <[i := chr t i]> s in
      if negb (chr t i =? 0) then strcpy_loop f (S i) s' t else s'
  end.

Definition strcpy (s t : list Z) : list Z := strcpy_loop (S (length t)) 0 s t.

Fixpoint strcmp_loop (fuel : nat) (i : nat) (p q : list Z) : Z :=
  match fuel with
  | O => 0
  | S f =>
      if negb (chr p i =? 0) && (chr p i =? chr q i) then strcmp_loop f (S i) p q
      else chr p i - chr q i
  end.

Definition strcmp (p q : list Z) : Z := strcmp_loop (S (length p)) 0 p q.

(** The position of the first [c], if it comes before the NUL. *)
Fixpoint strchr (s : list Z) (c : Z) (i : nat) : option nat :=
  match s with
  | [] => None
  | x :: s' => if x =? 0 then None else if x =? c then Some i else strchr s' c (S i)
  end.

(** [while (n-- > 0) *dst++ = *src++] and [while (n-- > 0) *--dst = *--src]
    inside one array. *)
Fixpoint move_up (n : nat) (b : list Z) (dst src : nat) : list Z :=
  match n with
  | O => b
  | S n' => move_up n' (<[dst := chr b src]> b) (S dst) (S src)
  end.

Fixpoint move_down (n : nat) (b : list Z) (dst src : nat) : list Z :=
  match n with
  | O => b
  | S n' => move_down n' (<[dst + n' := chr b (src + n')]> b)%nat dst src
  end.

(** [memmove(b + dst, b + src, n)] *)
Definition umemmove (b : list Z) (dst src n : nat) : list Z :=
  if (dst <? src)%nat then move_up n b dst src else move_down n b dst src.

(** [memmove(b + dst, s, n)] from another array. *)
Fixpoint copy_in (n : nat) (b : list Z) (dst : nat) (s : list Z) (i : nat) : list Z :=
  match n with
  | O => b
  | S n' => copy_in n' (<[dst := chr s i]> b) (S dst) s (S i)
  end.

Fixpoint umemcmp (n : nat) (p q : list Z) (i : nat) : Z :=
  match n with
  | O => 0
  | S n' => if negb (chr p i =? chr q i) then chr p i - chr q i else umemcmp n' p q (S i)
  end.

(** [memset(dst, c, n)] *)
Fixpoint umemset (n : nat) (i : nat) (c : Z) (b : list Z) : list Z :=
  match n with
  | O => b
  | S n' => umemset n' (S i) c (<[i := u8 c]> b)
  end.

(** [gets]: one byte at a time from [input], which ends where [read] fails.
    The results are [buf] and the input left. *)
Fixpoint gets_loop (fuel : nat) (max : Z) (buf input : list Z) (i : nat) : list Z * list Z :=
  match fuel with
  | O => (<[i := 0]> buf, input)
  | S f =>
      if negb (Z.of_nat i + 1 <? max) then (<[i := 0]> buf, input)
      else
        match input with
        | [] => (<[i := 0]> buf, [])
        | c :: input' =>
            let buf' := <[i := c]> buf in
            if (c =? 10) || (c =? 13) then (<[S i := 0]> buf', input')
            else gets_loop f max buf' input' (S i)
        end
  end.

Definition ugets (max : Z) (buf input : list Z) : list Z * list Z :=
  gets_loop (Z.to_nat max) max buf input 0.

(** ** Copies inside an array *)

(** [n] elements of [b] from [src], laid over [dst]. *)
Definition blit (b : list Z) (dst : nat) (s : list Z) : list Z :=
  take dst b ++ s ++ drop (dst + length s) b.

Lemma blit_length b dst s : (dst + length s ≤ length b)%nat → length (blit b dst s) = length b.
Proof. intros. unfold blit. rewrite !length_app, length_take, length_drop. lia. Qed.

Lemma lookup_blit b dst s i :
  (dst + length s ≤ length b)%nat →
  blit b dst s !! i = if decide (dst ≤ i < dst + length s)%nat then s !! (i - dst)%nat else b !! i.
Proof.
  intros Hb. unfold blit. destruct (decide (i < dst)%nat).
  - rewrite decide_False by lia. rewrite lookup_app_l, lookup_take_lt by (rewrite ?length_take; lia). done.
  - rewrite lookup_app_r by (rewrite length_take; lia). rewrite length_take.
    replace (i - dst `min` length b)%nat with (i - dst)%nat by lia.
    destruct (decide (i < dst + length s)%nat).
    + rewrite decide_True, lookup_app_l by lia. done.
    + rewrite decide_False, lookup_app_r, lookup_drop by lia. f_equal. lia.
Qed.

Lemma chr_lookup b i : (i < length b)%nat → b !! i = Some (chr b i).
Proof. intros Hi. unfold chr. rewrite nth_lookup. destruct (lookup_lt_is_Some_2 b i Hi) as [x ->]. done. Qed.

Lemma lookup_move_up n : ∀ b dst src i,
  (dst ≤ src)%nat → (src + n ≤ length b)%nat →
  move_up n b dst src !! i = if decide (dst ≤ i < dst + n)%nat then b !! (src + (i - dst))%nat else b !! i.
Proof.
  induction n as [|n IH]; intros b dst src i Hle Hb; cbn [move_up]; [by rewrite decide_False by lia|].
  rewrite IH by (rewrite ?length_insert; lia).
  destruct (decide (i = dst)) as [->|Hne].
  - rewrite decide_False, decide_True by lia. rewrite list_lookup_insert_eq by lia.
    rewrite Nat.sub_diag, Nat.add_0_r. symmetry. apply chr_lookup. lia.
  - destruct (decide (S dst ≤ i < S dst + n)%nat).
    + rewrite decide_True, list_lookup_insert_ne by lia. f_equal. lia.
    + rewrite decide_False, list_lookup_insert_ne by lia. done.
Qed.

Lemma lookup_move_down n : ∀ b dst src i,
  (src ≤ dst)%nat → (dst + n ≤ length b)%nat →
  move_down n b dst src !! i = if decide (dst ≤ i < dst + n)%nat then b !! (src + (i - dst))%nat else b !! i.
Proof.
  induction n as [|n IH]; intros b dst src i Hle Hb; cbn [move_down]; [by rewrite decide_False by lia|].
  rewrite IH by (rewrite ?length_insert; lia).
  destruct (decide (i = dst + n)%nat) as [->|Hne].
  - rewrite decide_False, decide_True by lia. rewrite list_lookup_insert_eq by lia.
    replace (src + (dst + n - dst))%nat with (src + n)%nat by lia. symmetry. apply chr_lookup. lia.
  - destruct (decide (dst ≤ i < dst + n)%nat).
    + rewrite decide_True, list_lookup_insert_ne by lia. done.
    + rewrite decide_False, list_lookup_insert_ne by lia. done.
Qed.

(** [memmove] copies as if through a temporary array, however the two ranges
    overlap. *)
Lemma umemmove_blit b dst src n :
  (src + n ≤ length b)%nat → (dst + n ≤ length b)%nat →
  umemmove b dst src n = blit b dst (take n (drop src b)).
Proof.
  intros Hs Hd. apply list_eq. intros i.
  assert (Hl : length (take n (drop src b)) = n) by (rewrite length_take, length_drop; lia).
  rewrite lookup_blit by lia. rewrite Hl. unfold umemmove.
  assert (Hi : (dst ≤ i < dst + n)%nat → take n (drop src b) !! (i - dst)%nat = b !! (src + (i - dst))%nat).
  { intros. rewrite lookup_take_lt, lookup_drop by lia. done. }
  destruct (Nat.ltb_spec dst src).
  - rewrite lookup_move_up by lia. destruct (decide _) as [H1|]; [by rewrite Hi|done].
  - rewrite lookup_move_down by lia. destruct (decide _) as [H1|]; [by rewrite Hi|done].
Qed.

Lemma copy_in_blit n : ∀ b dst s i,
  (dst + n ≤ length b)%nat → (i + n ≤ length s)%nat →
  copy_in n b dst s i = blit b dst (take n (drop i s)).
Proof.
  induction n as [|n IH]; intros b dst s i Hb Hs; cbn [copy_in].
  - unfold blit. rewrite take_0. simpl. by rewrite Nat.add_0_r, take_drop.
  - rewrite IH by (rewrite ?length_insert; lia). apply list_eq. intros k.
    assert (H1 : length (take n (drop (S i) s)) = n) by (rewrite length_take, length_drop; lia).
    assert (H2 : length (take (S n) (drop i s)) = S n) by (rewrite length_take, length_drop; lia).
    rewrite !lookup_blit by (rewrite ?length_insert; lia). rewrite H1, H2.
    destruct (decide (k = dst)) as [->|].
    + rewrite decide_False, decide_True by lia. rewrite list_lookup_insert_eq by lia.
      rewrite Nat.sub_diag, lookup_take_lt, lookup_drop, Nat.add_0_r by lia. symmetry. apply chr_lookup. lia.
    + rewrite list_lookup_insert_ne by lia. destruct (decide (S dst ≤ k < S dst + n)%nat).
      * rewrite decide_True by lia. rewrite !lookup_take_lt, !lookup_drop by lia. f_equal. lia.
      * rewrite decide_False by lia. done.
Qed.
