(* ===== verification/Sh.v ===== *)
(** user/bin/sh.c: the shell's line editor, its history, completion and the
    parser of command lines.

    The terminal and the current directory are the state [term]: the bytes that
    [read(0, ...)] still returns, the bytes written to descriptor 2, the history
    and the directory entries.  The line buffer is an array with the variables
    [len] and [cursor]. *)

From S2P Require Import Prelude Machine CString Utf8 Ulib.

Definition MAXARGS : nat := 10.

Definition HISTSIZE : nat := 16.

(** Size of the buffers [buf], [draft] and of a history line. *)
Definition NBUFFER : nat := 100.

Definition DIRSIZE : nat := 14.

Record term := Term {
  input : list Z;
  output : list Z;
  history : list (list Z);             (* HISTSIZE arrays *)
  nhistory : nat;
  rawmode : bool;
  dirents : option (list (Z * list Z)) (* the entries of ".", when it can be opened *)
}.

#[global] Instance eta_term : Eta term := λ t,
  Term (input t) (output t) (history t) (nhistory t) (rawmode t) (dirents t).

Record line := Line {
  lbuf : list Z;
  len : nat;
  cursor : nat;
}.

#[global] Instance eta_line : Eta line := λ l, Line (lbuf l) (len l) (cursor l).

Abbreviation T := (M term).

Definition QUOTE : Z := 39.

Definition DQUOTE : Z := 34.

Definition command_char (c : Z) : bool :=
  negb (c =? 0) && negb (c =? 32) && negb (c =? 9) && negb (c =? 13) && negb (c =? 10).

Definition blank_char (c : Z) : bool := (c =? 32) || (c =? 9) || (c =? 13) || (c =? 10).

(** [write(2, s, n)] *)
Definition emit (s : list Z) : T unit := modify (λ t, t <| output := output t ++ s |>).

(** [read(0, &c, 1)]: [None] unless it returns 1. *)
Definition read1 : T (option Z) :=
  let! i := gets input in
  match i with
  | [] => ret None
  | c :: i' => modify (λ t, t <| input := i' |>) ;;; ret (Some c)
  end.

Definition consolemode (raw : bool) : T unit := modify (λ t, t <| rawmode := raw |>).

(** The width of the text of a line between two positions. *)
Definition width (l : line) (a e : nat) : Z := utf8_text_width (lbuf l) (Z.of_nat a) (Z.of_nat e).

(** What [redraw] writes. *)
Definition redraw_out (l : line) : list Z :=
  let tail := width l (cursor l) (len l) in
  [13; 27; 91; 50; 75; 36; 32] ++ take (len l) (lbuf l)
  ++ (if 0 <? tail then [27; 91] ++ term_append_uint tail ++ [68] else []).

Definition redraw (l : line) : T unit := emit (redraw_out l).

Definition redraw_from (l : line) : T unit :=
  let tail := width l (cursor l) (len l) in
  emit (take (len l - cursor l) (drop (cursor l) (lbuf l))) ;;;
  emit term_clear_eol ;;;
  emit (term_move_cursor 68 tail).

Definition insert_bytes (l : line) (nbuf : nat) (s : list Z) (n : nat) : line * nat :=
  if (nbuf <=? len l + n)%nat then (l, 0%nat)
  else
    let b := umemmove (lbuf l) (cursor l + n) (cursor l) (len l - cursor l) in
    let b := copy_in n b (cursor l) s 0 in
    (Line (<[(len l + n)%nat := 0]> b) (len l + n) (cursor l + n), n).

Definition delete_range (l : line) (start e : nat) : line :=
  let b := umemmove (lbuf l) start e (len l - e) in
  let len' := (len l - (e - start))%nat in
  Line (<[len' := 0]> b) len' (if (len' <? cursor l)%nat then len' else cursor l).

Definition blank_line (b : list Z) (n : nat) : bool := forallb (λ c, (c =? 32) || (c =? 9)) (take n b).

(** The loop that makes room in the history. *)
Definition shift_history (h : list (list Z)) : list (list Z) :=
  foldl (λ h i, <[(i - 1)%nat := strcpy (default [] (h !! (i - 1)%nat)) (default [] (h !! i))]> h) h (seq 1 (HISTSIZE - 1)).

Definition save_history (b : list Z) (n : nat) : T unit :=
  let n := if (0 <? n)%nat && (chr b (n - 1) =? 10) then (n - 1)%nat else n in
  if (n =? 0)%nat || blank_line b n then ret tt
  else
    let! t := gets id in
    let last := default [] (history t !! (nhistory t - 1)%nat) in
    if (0 <? nhistory t)%nat && (strlen last =? Z.of_nat n) && (umemcmp n last b 0 =? 0) then ret tt
    else
      (if (nhistory t =? HISTSIZE)%nat then
         modify (λ t, t <| history := shift_history (history t) |> <| nhistory := (nhistory t - 1)%nat |>)
       else ret tt) ;;;
      modify (λ t, t <| history := <[nhistory t :=
        <[n := 0]> (copy_in n (default [] (history t !! nhistory t)) 0 b 0)]> (history t) |>) ;;;
      modify (λ t, t <| nhistory := S (nhistory t) |>).

Definition set_line (l : line) (src : list Z) (nbuf : nat) : line :=
  let n := Z.to_nat (strlen src) in
  let n := if (nbuf <=? n)%nat then (nbuf - 1)%nat else n in
  Line (<[n := 0]> (copy_in n (lbuf l) 0 src 0)) n n.

(** ** Completion *)

(** [direntname]: the name up to its NUL, at most DIRSIZ bytes. *)
Definition direntname (name : list Z) : list Z := cstr DIRSIZE name ++ [0].

Definition file_entry (name : list Z) : bool :=
  negb (strcmp name [46; 0] =? 0) && negb (strcmp name (chars "console" ++ [0]) =? 0).

Definition command_entry (name : list Z) : bool :=
  file_entry name && (match strchr name 46 0 with None => true | Some _ => false end).

Fixpoint match_prefix (n : nat) (i : nat) (name : list Z) (b : list Z) (start : nat) : bool :=
  match n with
  | O => true
  | S n' => if negb (chr name i =? chr b (start + i)) then false else match_prefix n' (S i) name b start
  end.

Fixpoint token_start (b : list Z) (start : nat) : nat :=
  match start with
  | O => O
  | S s => if negb (blank_char (chr b s)) then token_start b s else S s
  end.

Definition first_token (b : list Z) (start : nat) : bool := forallb (λ c, negb (command_char c)) (take start b).

(** The loop over the directory: the last name that matches and the count. *)
Fixpoint matches_loop (es : list (Z * list Z)) (command : bool) (b : list Z) (start n : nat)
    (mt : list Z) (matches : nat) : list Z * nat :=
  match es with
  | [] => (mt, matches)
  | (inum, nm) :: es' =>
      if inum =? 0 then matches_loop es' command b start n mt matches
      else
        let name := direntname nm in
        if (command && negb (command_entry name)) || (negb command && negb (file_entry name))
        then matches_loop es' command b start n mt matches
        else if negb (match_prefix n 0 name b start) then matches_loop es' command b start n mt matches
        else matches_loop es' command b start n (strcpy mt name) (S matches)
  end.

Definition is_quote (c : Z) : bool := (c =? QUOTE) || (c =? DQUOTE).

(** With the cursor on an opening quote, [token_len] is -1: every name then
    matches, and when there is exactly one the source reads [match[-1]], which
    is outside the array ([Panic "fault"]). *)
Definition complete_token (l : line) (nbuf : nat) : T (line * nat) :=
  let b := lbuf l in
  let cur := cursor l in
  if (cur <? len l)%nat && negb (blank_char (chr b cur)) && negb (is_quote (chr b cur)) then ret (l, 0%nat)
  else
    let start := token_start b cur in
    let quoted := is_quote (chr b start) in
    if quoted && (cur <? len l)%nat && negb (chr b cur =? chr b start) then ret (l, 0%nat)
    else
      let prefix_start := if quoted then S start else start in
      let token_len := Z.of_nat cur - Z.of_nat prefix_start in
      if Z.of_nat DIRSIZE <=? token_len then ret (l, 0%nat)
      else if existsb (λ c, c =? 47) (take (cur - prefix_start) (drop prefix_start b)) then ret (l, 0%nat)
      else
        let! d := gets dirents in
        match d with
        | None => ret (l, 0%nat)
        | Some es =>
            let n := Z.to_nat token_len in
            let '(mt, matches) := matches_loop es (first_token b start) b prefix_start n (replicate 15 0) 0 in
            if (matches =? 1)%nat then
              if token_len <? 0 then panic "fault"
              else
              let suffix := drop n mt in
              ret (insert_bytes l nbuf suffix (Z.to_nat (strlen suffix)))
            else ret (l, 0%nat)
        end.

(** ** The editor *)

Record editor := Editor {
  ln : line;
  hpos : nat;
  saved : bool;
  draft : list Z;
}.

#[global] Instance eta_editor : Eta editor := λ e, Editor (ln e) (hpos e) (saved e) (draft e).

(** After a key: go on, or leave the loop with the line, or return -1. *)
Inductive after := Continue (e : editor) | Break (e : editor) | Fail.

Definition UP : Z := 65.
Definition DOWN : Z := 66.
Definition RIGHT : Z := 67.
Definition LEFT : Z := 68.

(** The escape sequences: [ESC [ c]. *)
Definition escape (nbuf : nat) (e : editor) (c : Z) : T editor :=
  let l := ln e in
  if c =? UP then
    if (0 <? hpos e)%nat then
      let e := if negb (saved e)
               then e <| draft := <[len l := 0]> (copy_in (len l) (draft e) 0 (lbuf l) 0) |> <| saved := true |> else e in
      let! h := gets history in
      let l := set_line l (default [] (h !! (hpos e - 1)%nat)) nbuf in
      redraw l ;;;
      ret (e <| hpos := (hpos e - 1)%nat |> <| ln := l |>)
    else ret e
  else if c =? DOWN then
    let! t := gets id in
    if (hpos e <? nhistory t)%nat then
      let l := set_line l (if (S (hpos e) =? nhistory t)%nat then draft e
                           else default [] (history t !! S (hpos e))) nbuf in
      redraw l ;;;
      ret (e <| hpos := S (hpos e) |> <| ln := l |>)
    else ret e
  else if c =? RIGHT then
    let next := Z.to_nat (utf8_next (lbuf l) (Z.of_nat (cursor l)) (Z.of_nat (len l))) in
    emit (term_move_cursor RIGHT (width l (cursor l) next)) ;;;
    ret (e <| ln := l <| cursor := next |> |>)
  else if c =? LEFT then
    let prev := Z.to_nat (utf8_prev (lbuf l) (Z.of_nat (cursor l))) in
    emit (term_move_cursor LEFT (width l prev (cursor l))) ;;;
    ret (e <| ln := l <| cursor := prev |> |>)
  else if c =? 51 then
    let! r := read1 in
    match r with
    | Some x =>
        if (x =? 126) && (cursor l <? len l)%nat then
          let l := delete_range l (cursor l) (Z.to_nat (utf8_next (lbuf l) (Z.of_nat (cursor l)) (Z.of_nat (len l)))) in
          redraw_from l ;;;
          ret (e <| ln := l |>)
        else ret e
    | None => ret e
    end
  else ret e.

(** Backspace. *)
Definition erase (l : line) : T line :=
  if (0 <? cursor l)%nat then
    let start := Z.to_nat (utf8_prev (lbuf l) (Z.of_nat (cursor l))) in
    let w := width l start (cursor l) in
    let l := (delete_range l start (cursor l)) <| cursor := start |> in
    emit (term_move_cursor LEFT w) ;;;
    redraw_from l ;;;
    ret l
  else ret l.

(** The rest of a multi-byte character: at most [n] more bytes. *)
Fixpoint read_more (n : nat) (acc : list Z) : T (list Z) :=
  match n with
  | O => ret acc
  | S n' =>
      let! r := read1 in
      match r with
      | None => ret acc
      | Some c => read_more n' (acc ++ [c])
      end
  end.

(** What is echoed after an insertion at the old position. *)
Definition echo (old l : line) (s : list Z) : T unit :=
  if (cursor old =? len old)%nat then emit s else redraw l.

Definition type_char (l : line) (nbuf : nat) (c : Z) : T line :=
  let! s := read_more (Z.to_nat (utf8_input_len c - 1)) [c] in
  let '(l', k) := insert_bytes l nbuf s (length s) in
  (if (0 <? k)%nat then echo l l' s else ret tt) ;;;
  ret l'.

(** One round of the loop of [getcmd] with the character [c]. *)
Definition key (nbuf : nat) (e : editor) (c : Z) : T after :=
  let l := ln e in
  if c =? 27 then
    let! a := read1 in
    match a with
    | None => ret (Continue e)
    | Some a =>
        let! b := read1 in
        match b with
        | None => ret (Continue e)
        | Some b =>
            if a =? 91 then let! e := escape nbuf e b in ret (Continue e) else ret (Continue e)
        end
    end
  else if c =? 9 then
    let! r := complete_token l nbuf in
    let '(l', n) := r in
    (if (0 <? n)%nat then echo l l' (take n (drop (cursor l) (lbuf l'))) else ret tt) ;;;
    ret (Continue (e <| ln := l' |>))
  else if c =? 4 then ret Fail
  else if c =? 21 then
    let l := Line (<[0%nat := 0]> (lbuf l)) 0 0 in
    redraw l ;;;
    ret (Continue (e <| ln := l |>))
  else if (c =? 8) || (c =? 127) then
    let! l := erase l in
    ret (Continue (e <| ln := l |>))
  else if (c =? 10) || (c =? 13) then
    let l := Line (<[S (len l) := 0]> (<[len l := 10]> (lbuf l))) (S (len l)) (cursor l) in
    emit [10] ;;;
    ret (Break (e <| ln := l |>))
  else
    let! l := type_char l nbuf c in
    ret (Continue (e <| ln := l |>)).

(** [while (len + 1 < nbuf)]; [None] when [getcmd] returns -1. *)
Fixpoint getcmd_loop (fuel : nat) (nbuf : nat) (e : editor) : T (option editor) :=
  match fuel with
  | O => nofuel
  | S f =>
      if negb (len (ln e) + 1 <? nbuf)%nat then ret (Some e)
      else
        let! c := read1 in
        match c with
        | None => consolemode false ;;; ret None
        | Some c =>
            let! r := key nbuf e c in
            match r with
            | Continue e => getcmd_loop f nbuf e
            | Break e => ret (Some e)
            | Fail => consolemode false ;;; ret None
            end
        end
  end.

(** [getcmd(buf, nbuf)]: the result is the buffer, or [None] for -1.  Every
    round of its loop reads at least one byte. *)
Definition getcmd (buf : list Z) (nbuf : nat) : T (option (list Z)) :=
  consolemode true ;;;
  emit [36; 32] ;;;
  let! t := gets id in
  let e := Editor (Line (umemset nbuf 0 0 buf) 0 0) (nhistory t) false (replicate NBUFFER 0) in
  let! r := getcmd_loop (S (length (input t))) nbuf e in
  match r with
  | None => ret None
  | Some e =>
      save_history (lbuf (ln e)) (len (ln e)) ;;;
      consolemode false ;;;
      ret (Some (lbuf (ln e)))
  end.

(** ** The parser, in place *)

(** [while (blank_char( *src)) src++] *)
Fixpoint skip_blanks (fuel : nat) (b : list Z) (src : nat) : nat :=
  match fuel with
  | O => src
  | S f => if blank_char (chr b src) then skip_blanks f b (S src) else src
  end.

(** [while ( *src && *src != quote) *dst++ = *src++] *)
Fixpoint quote_loop (fuel : nat) (b : list Z) (src dst : nat) (quote : Z) : list Z * nat * nat :=
  match fuel with
  | O => (b, src, dst)
  | S f =>
      if negb (chr b src =? 0) && negb (chr b src =? quote)
      then quote_loop f (<[dst := chr b src]> b) (S src) (S dst) quote else (b, src, dst)
  end.

(** [while ( *src && !blank_char( *src)) ...] *)
Fixpoint word_loop (fuel : nat) (b : list Z) (src dst : nat) : list Z * nat * nat :=
  match fuel with
  | O => (b, src, dst)
  | S f =>
      if negb (chr b src =? 0) && negb (blank_char (chr b src)) then
        if is_quote (chr b src) then
          let quote := chr b src in
          let '(b, src, dst) := quote_loop f b (S src) dst quote in
          word_loop f b (if chr b src =? quote then S src else src) dst
        else word_loop f (<[dst := chr b src]> b) (S src) (S dst)
      else (b, src, dst)
  end.

(** What [parsecmd] does: it returns the buffer, in which the arguments now lie
    as C strings, and their positions; or it calls [panic("too many args")],
    which exits. *)
Inductive parsed := Args (b : list Z) (argv : list nat) | TooMany | OutOfFuel.

Fixpoint parse_loop (fuel : nat) (b : list Z) (src dst : nat) (argv : list nat) : parsed :=
  match fuel with
  | O => OutOfFuel
  | S f =>
      if chr b src =? 0 then Args b argv
      else
        let src := skip_blanks (length b) b src in
        if chr b src =? 0 then Args b argv
        else if (MAXARGS - 1 <=? length argv)%nat then TooMany
        else
          let argv := argv ++ [dst] in
          let '(b, src, dst) := word_loop (length b) b src dst in
          let src := if blank_char (chr b src) then S src else src in
          parse_loop f (<[dst := 0]> b) src (S dst) argv
  end.

(** Every round of the outer loop moves [src] on. *)
Definition parsecmd (b : list Z) : parsed := parse_loop (S (length b)) b 0 0 [].
