(* ===== verification/ShParse.v ===== *)
(** The command-line parser of user/bin/sh.c against the grammar of command
    lines: words separated by blanks, with quotes. *)

From S2P Require Import Prelude Machine CString Utf8 Ulib Sh.

(** ** The grammar *)

Definition ends_word (s : list Z) : Prop := match s with [] => True | c :: _ => blank_char c = true end.

(** [word s w r]: the text [s] starts with a word that stands for [w]; [r]
    follows it.  A quote extends to the next quote of its kind, or to the end. *)
Inductive word : list Z → list Z → list Z → Prop :=
| word_end s : ends_word s → word s [] s
| word_plain c s w r :
    blank_char c = false → is_quote c = false → word s w r → word (c :: s) (c :: w) r
| word_quoted q body s w r :
    is_quote q = true → q ∉ body → word s w r → word (q :: body ++ q :: s) (body ++ w) r
| word_open q body : is_quote q = true → q ∉ body → word (q :: body) body [].

(** [words s ws]: the line [s] consists of the words [ws]. *)
Inductive words : list Z → list (list Z) → Prop :=
| words_end s : Forall (λ c, blank_char c = true) s → words s []
| words_cons bl s w r ws :
    Forall (λ c, blank_char c = true) bl → ¬ ends_word s → word s w r → words r ws → words (bl ++ s) (w :: ws).

(** ** Every line has a reading *)

Lemma split_at (q : Z) s : (∃ body s', s = body ++ q :: s' ∧ q ∉ body) ∨ q ∉ s.
Proof.
  destruct (decide (q ∈ s)) as [Hin|]; [left|by right].
  apply list_elem_of_split_l in Hin as (body & s' & -> & Hn). by exists body, s'.
Qed.

Lemma word_total n : ∀ s, (length s ≤ n)%nat → ∃ w r, word s w r ∧ (length r ≤ length s)%nat ∧ ends_word r
  ∧ (¬ ends_word s → (length r < length s)%nat).
Proof.
  induction n as [|n IH]; intros s Hs.
  { destruct s; [|simpl in Hs; lia]. exists [], []. split_and!; [by constructor|done|done|done]. }
  destruct s as [|c s]; [exists [], []; split_and!; [by constructor|done|done|done]|].
  simpl in Hs. destruct (blank_char c) eqn:Eb.
  { exists [], (c :: s). split_and!; [by constructor|done|done|done]. }
  destruct (is_quote c) eqn:Eq.
  - destruct (split_at c s) as [(body & s' & -> & Hn)|Hn].
    + rewrite length_app in Hs. simpl in Hs. destruct (IH s') as (w & r & Hw & Hl & He & _); [lia|].
      exists (body ++ w), r. split_and!; [by constructor| |done|]; simpl; rewrite length_app; simpl; lia.
    + exists s, []. split_and!; [by constructor|simpl; lia|done|simpl; lia].
  - destruct (IH s) as (w & r & Hw & Hl & He & _); [lia|]. exists (c :: w), r.
    split_and!; [by constructor|simpl; lia|done|simpl; lia].
Qed.

Lemma split_blanks s : ∃ bl s', s = bl ++ s' ∧ Forall (λ c, blank_char c = true) bl ∧ (s' = [] ∨ ¬ ends_word s').
Proof.
  induction s as [|c s (bl & s' & -> & Hb & Hs)]; [exists [], []; auto|].
  destruct (blank_char c) eqn:E.
  - exists (c :: bl), s'. auto.
  - exists [], (c :: bl ++ s'). split_and!; [done|constructor|]. right. simpl. by rewrite E.
Qed.

Lemma words_total n : ∀ s, (length s ≤ n)%nat → ∃ ws, words s ws.
Proof.
  induction n as [|n IH]; intros s Hs.
  { destruct s; [|simpl in Hs; lia]. exists []. constructor. constructor. }
  destruct (split_blanks s) as (bl & s' & -> & Hb & [->|Hne]).
  - exists []. rewrite app_nil_r. by constructor.
  - destruct (word_total (length s') s') as (w & r & Hw & Hl & _ & Hlt); [done|]. specialize (Hlt Hne).
    rewrite length_app in Hs. destruct (IH r) as [ws Hws]; [lia|]. exists (w :: ws). by econstructor.
Qed.

(** ** The loops

    [at_ b src rest s]: at position [src] of the buffer lies the text [s], then
    a NUL. *)

Definition text_at (b : list Z) (src : nat) (s : list Z) : Prop := 0 ∉ s ∧ ∃ rest, drop src b = s ++ 0 :: rest.

Lemma text_chr b src s : text_at b src s → chr b src = default 0 (head s).
Proof.
  intros [_ [rest E]]. unfold chr. rewrite nth_lookup. replace (b !! src) with (drop src b !! 0%nat).
  - rewrite E. by destruct s.
  - by rewrite lookup_drop, Nat.add_0_r.
Qed.

Lemma text_bound b src s : text_at b src s → (src + length s < length b)%nat.
Proof. intros [_ [rest E]]. apply (f_equal length) in E. rewrite length_drop, length_app in E. simpl in E. lia. Qed.

Lemma text_skip b src s1 s2 : text_at b src (s1 ++ s2) → text_at b (src + length s1) s2.
Proof.
  intros [H0 [rest E]]. split; [set_solver|]. exists rest. rewrite <- drop_drop, E, <- app_assoc.
  by rewrite drop_app_length.
Qed.

Lemma text_tail b src c s : text_at b src (c :: s) → text_at b (S src) s.
Proof. intros H. rewrite <- Nat.add_1_r. by apply (text_skip b src [c] s). Qed.

(** A store before the text. *)
Lemma text_insert b src s dst v : text_at b src s → (dst < src)%nat → text_at (<[dst := v]> b) src s.
Proof. intros [H0 [rest E]] Hlt. split; [done|]. exists rest. by rewrite drop_insert_lt. Qed.

Lemma skip_blanks_ok bl : ∀ fuel b src s,
  Forall (λ c, blank_char c = true) bl → (s = [] ∨ ¬ ends_word s) → (length bl < fuel)%nat → text_at b src (bl ++ s) →
  skip_blanks fuel b src = (src + length bl)%nat.
Proof.
  induction bl as [|c bl IH]; intros fuel b src s Hb Hs Hf Ht; (destruct fuel as [|fuel]; [simpl in Hf; lia|]);
    cbn [skip_blanks]; rewrite (text_chr _ _ _ Ht).
  - simpl. destruct s as [|c s]; simpl; [lia|]. destruct Hs as [|Hs]; [done|]. simpl in Hs.
    destruct (blank_char c); [done|lia].
  - apply Forall_cons in Hb as [Hc Hb]. simpl. rewrite Hc. rewrite (IH fuel b (S src) s); [lia|done|done|simpl in Hf; lia|].
    by apply text_tail in Ht.
Qed.

(** The state of the copying loops: [dst] has not overtaken [src], [s] is still
    to be read and [done_] has been written. *)
Definition copying (b : list Z) (src dst : nat) (s done_ : list Z) : Prop :=
  (dst ≤ src)%nat ∧ text_at b src s ∧ take dst b = done_.

Lemma copy_char b src dst c s dn :
  copying b src dst (c :: s) dn → copying (<[dst := c]> b) (S src) (S dst) s (dn ++ [c]).
Proof.
  intros (Hle & Ht & Hd). pose proof (text_bound _ _ _ Ht). simpl in *. split_and!; [lia| |].
  - apply text_insert; [|lia]. by apply text_tail in Ht.
  - rewrite take_S_insert by lia. by rewrite Hd.
Qed.

Lemma quote_loop_ok q body : ∀ fuel b src dst s dn,
  q ∉ body → q ≠ 0 → (s = [] ∨ head s = Some q) → (length body < fuel)%nat → copying b src dst (body ++ s) dn →
  ∃ b' dst', quote_loop fuel b src dst q = (b', src + length body, dst')%nat
    ∧ copying b' (src + length body) dst' s (dn ++ body) ∧ length b' = length b.
Proof.
  induction body as [|c body IH]; intros fuel b src dst s dn Hq Hq0 Hs Hf Hc;
    (destruct fuel as [|fuel]; [simpl in Hf; lia|]); cbn [quote_loop]; pose proof Hc as (Hle & Ht & Hd);
    rewrite (text_chr _ _ _ Ht).
  - simpl in *. rewrite Nat.add_0_r. exists b, dst. rewrite app_nil_r.
    destruct Hs as [->|Hs]; [done|]. destruct s as [|c s]; [done|]. simpl in Hs. injection Hs as ->.
    change (default 0 (head (q :: s))) with q. rewrite Z.eqb_refl. cbn [negb]. by rewrite (andb_false_r (negb (q =? 0))).
  - destruct Ht as [Ht0 _]. change (default 0 (head ((c :: body) ++ s))) with c.
    rewrite (proj2 (Z.eqb_neq c 0)), (proj2 (Z.eqb_neq c q)) by set_solver. cbn [negb andb].
    destruct (IH fuel (<[dst := c]> b) (S src) (S dst) s (dn ++ [c])) as (b' & dst' & E & Hc' & Hl);
      [set_solver|done|done|simpl in Hf; lia|by apply copy_char|].
    exists b', dst'. rewrite E. rewrite <- app_assoc in Hc'. simpl length.
    replace (src + S (length body))%nat with (S src + length body)%nat by lia.
    split_and!; [done|exact Hc'|by rewrite Hl, length_insert].
Qed.

Lemma is_quote_facts q : is_quote q = true → q ≠ 0 ∧ blank_char q = false.
Proof. unfold is_quote, QUOTE, DQUOTE. intros [E|E]%orb_true_iff; apply Z.eqb_eq in E as ->; done. Qed.

Lemma word_loop_ok s w r : word s w r → ∀ fuel b src dst dn,
  (length s < fuel)%nat → copying b src dst s dn →
  ∃ b' src' dst', word_loop fuel b src dst = (b', src', dst')
    ∧ copying b' src' dst' r (dn ++ w) ∧ length b' = length b.
Proof.
  induction 1 as [s He|c s w r Hb Hq Hw IH|q body s w r Hq Hn Hw IH|q body Hq Hn]; intros fuel b src dst dn Hf Hc;
    (destruct fuel as [|fuel]; [simpl in Hf; lia|]); pose proof Hc as (Hle & Ht & Hd);
    pose proof (proj1 Ht) as Ht0; cbn [word_loop]; rewrite (text_chr _ _ _ Ht).
  - exists b, src, dst. rewrite app_nil_r. split_and!; try done. destruct s as [|c s]; [done|]. simpl in *.
    change (default 0 (Some c)) with c. rewrite He. cbn [negb]. by rewrite (andb_false_r (negb (c =? 0))).
  - change (default 0 (head (c :: s))) with c.
    rewrite (proj2 (Z.eqb_neq c 0)) by set_solver. rewrite Hb, Hq. cbn [negb andb].
    destruct (IH fuel (<[dst := c]> b) (S src) (S dst) (dn ++ [c])) as (b' & s' & d' & E & Hc' & Hl);
      [simpl in Hf; lia|by apply copy_char|].
    exists b', s', d'. rewrite E, <- app_assoc in *. split_and!; [done|done|by rewrite Hl, length_insert].
  - destruct (is_quote_facts q Hq) as [Hq0 Hqb]. change (default 0 (head (q :: body ++ q :: s))) with q.
    rewrite (proj2 (Z.eqb_neq q 0)) by done. rewrite Hqb, Hq. cbn [negb andb].
    simpl in Hf. rewrite length_app in Hf. simpl in Hf.
    destruct (quote_loop_ok q body fuel b (S src) dst (q :: s) dn) as (b' & d' & E & Hc' & Hl);
      [done|done|by right|lia|split_and!; [lia|by apply text_tail in Ht|done]|].
    rewrite E. pose proof Hc' as (Hle' & Ht' & Hd'). rewrite (text_chr _ _ _ Ht'). simpl. rewrite Z.eqb_refl.
    destruct (IH fuel b' (S (S (src + length body))) d' (dn ++ body)) as (b2 & s2 & d2 & E2 & Hc2 & Hl2);
      [lia|split_and!; [lia|by apply text_tail in Ht'|done]|].
    exists b2, s2, d2. rewrite E2, <- app_assoc in *. split_and!; [done|done|congruence].
  - destruct (is_quote_facts q Hq) as [Hq0 Hqb]. change (default 0 (head (q :: body))) with q.
    rewrite (proj2 (Z.eqb_neq q 0)) by done. rewrite Hqb, Hq. cbn [negb andb]. simpl in Hf.
    destruct (quote_loop_ok q body fuel b (S src) dst [] dn) as (b' & d' & E & Hc' & Hl);
      [done|done|by left|lia|split_and!; [lia|rewrite app_nil_r; by apply text_tail in Ht|done]|].
    rewrite E. pose proof Hc' as (Hle' & Ht' & Hd'). rewrite (text_chr _ _ _ Ht').
    change (default 0 (head [])) with 0. rewrite (proj2 (Z.eqb_neq 0 q)) by done. exists b', (S (src + length body))%nat, d'.
    split_and!; [|done|done]. destruct fuel as [|f]; [lia|]. cbn [word_loop]. rewrite (text_chr _ _ _ Ht'). done.
Qed.

(** ** The outer loop *)

(** The buffer begins with the given C strings. *)
Definition packed (ws : list (list Z)) : list Z := ws ≫= λ w, w ++ [0].

(** The positions of the strings in [packed ws], from [n]. *)
Fixpoint positions (n : nat) (ws : list (list Z)) : list nat :=
  match ws with
  | [] => []
  | w :: ws' => n :: positions (n + S (length w)) ws'
  end.

Lemma packed_app ws ws' : packed (ws ++ ws') = packed ws ++ packed ws'.
Proof. apply bind_app. Qed.

Lemma positions_app ws : ∀ n ws', positions n (ws ++ ws') = positions n ws ++ positions (n + length (packed ws)) ws'.
Proof.
  induction ws as [|w ws IH]; intros n ws'; simpl; [by rewrite Nat.add_0_r|].
  rewrite IH. do 3 f_equal. rewrite !length_app. simpl. lia.
Qed.

Lemma positions_length ws : ∀ n, length (positions n ws) = length ws.
Proof. induction ws; intros n; simpl; auto. Qed.

Lemma word_rest s w r : word s w r → ends_word r ∧ ∃ p, s = p ++ r.
Proof.
  induction 1 as [s He|c s w r Hb Hq Hw [He [p ->]]|q body s w r Hq Hn Hw [He [p ->]]|q body Hq Hn].
  - split; [done|]. by exists [].
  - split; [done|]. by exists (c :: p).
  - split; [done|]. exists (q :: body ++ q :: p). simpl. by rewrite <- app_assoc.
  - split; [done|]. exists (q :: body). by rewrite app_nil_r.
Qed.

(** What [*dst++ = 0] and the step over the blank leave. *)
Lemma end_word b src dst r dn :
  ends_word r → copying b src dst r dn →
  let src' := if blank_char (chr b src) then S src else src in
  (S dst ≤ src')%nat ∧ copying (<[dst := 0]> b) src' (S dst) (tail r) (dn ++ [0])
  ∨ r = [] ∧ chr (<[dst := 0]> b) src' = 0 ∧ take (S dst) (<[dst := 0]> b) = dn ++ [0].
Proof.
  intros He (Hle & Ht & Hd). pose proof (text_bound _ _ _ Ht). rewrite (text_chr _ _ _ Ht).
  assert (Hk : take (S dst) (<[dst := 0]> b) = dn ++ [0]) by (rewrite take_S_insert by lia; by rewrite Hd).
  destruct r as [|c r]; simpl in *.
  - right. split_and!; [done| |done]. pose proof (text_chr _ _ _ Ht) as Hz. simpl in Hz.
    destruct (decide (dst = src)) as [->|Hne].
    + unfold chr. rewrite nth_lookup, list_lookup_insert_eq by lia. done.
    + unfold chr in *. rewrite nth_lookup in *. by rewrite list_lookup_insert_ne.
  - left. rewrite He. split; [lia|]. split_and!; [lia| |done]. apply text_insert; [|lia]. by apply text_tail in Ht.
Qed.

Lemma words_blank c s ws : blank_char c = true → words (c :: s) ws → words s ws.
Proof.
  intros Hc. inversion 1 as [s' Hb|bl s' w r ws' Hb Hn Hw Hws E]; subst.
  - apply Forall_cons in Hb as [_ Hb]. by constructor.
  - destruct bl as [|c' bl]; simpl in E; [subst; by destruct Hn|]. injection E as -> <-.
    apply Forall_cons in Hb as [_ Hb]. by econstructor.
Qed.

Lemma words_nil ws : words [] ws → ws = [].
Proof.
  inversion 1 as [|bl s w r ws' Hb Hn Hw Hws E]; [done|]. apply app_eq_nil in E as [_ ->]. exfalso. by apply Hn.
Qed.

(** What [parse_loop] does with the rest of a line that consists of [ws], after
    [ws0]. *)
Definition parses (b : list Z) (ws0 ws : list (list Z)) (r : parsed) : Prop :=
  if decide (length (ws0 ++ ws) < MAXARGS)%nat
  then ∃ b', r = Args b' (positions 0 (ws0 ++ ws)) ∧ take (length (packed (ws0 ++ ws))) b' = packed (ws0 ++ ws)
             ∧ length b' = length b
  else r = TooMany.

Lemma parses_done b ws0 b' r :
  (length ws0 < MAXARGS)%nat → r = Args b' (positions 0 ws0) → take (length (packed ws0)) b' = packed ws0 →
  length b' = length b → parses b ws0 [] r.
Proof. intros Hk -> Ht Hl. unfold parses. rewrite app_nil_r, decide_True by done. by exists b'. Qed.

Lemma text_nonzero b src s : text_at b src s → s ≠ [] → chr b src ≠ 0.
Proof.
  intros Ht Hs. rewrite (text_chr _ _ _ Ht). destruct s as [|c s]; [done|]. simpl. intros ->.
  destruct Ht as [Hz _]. set_solver.
Qed.

Lemma parse_loop_ok fuel : ∀ s ws b src dst ws0,
  words s ws → (length s < fuel)%nat → (length ws0 < MAXARGS)%nat → copying b src dst s (packed ws0) →
  dst = length (packed ws0) →
  parses b ws0 ws (parse_loop fuel b src dst (positions 0 ws0)).
Proof.
  induction fuel as [|fuel IH]; [lia|]. intros s ws b src dst ws0 Hws Hf Hk Hc ->.
  pose proof Hc as (Hle & Ht & Hd); cbn [parse_loop]; pose proof (text_bound _ _ _ Ht) as Hbd.
  inversion Hws as [s' Hb|bl s' w r ws' Hb Hne Hw Hws' E]; subst.
  - apply (parses_done b ws0 b); [done| |done|done]. destruct (Z.eqb_spec (chr b src) 0); [done|].
    rewrite (skip_blanks_ok s _ b src []); [|done|by left|lia|by rewrite app_nil_r].
    assert (Ht' : text_at b (src + length s) []) by (apply text_skip; by rewrite app_nil_r).
    by rewrite (text_chr _ _ _ Ht').
  - rewrite length_app in Hf, Hbd. assert (Hs0 : s' ≠ []) by (intros ->; by apply Hne).
    assert (Ht' : text_at b (src + length bl) s') by (by apply text_skip).
    rewrite (proj2 (Z.eqb_neq _ _)) by (apply (text_nonzero _ _ _ Ht); by destruct bl).
    rewrite (skip_blanks_ok bl _ b src s') by (done || (by right) || lia).
    rewrite (proj2 (Z.eqb_neq _ _)) by (by apply (text_nonzero _ _ _ Ht')).
    rewrite positions_length. destruct (Nat.leb_spec (MAXARGS - 1) (length ws0)) as [Hmany|Hfew].
    { unfold parses. rewrite decide_False; [done|]. rewrite length_app. simpl. unfold MAXARGS in *. lia. }
    destruct (word_loop_ok s' w r Hw (length b) b (src + length bl) (length (packed ws0)) (packed ws0))
      as (b1 & src1 & dst1 & E1 & Hc1 & Hl1); [lia|split_and!; [lia|done|done]|].
    rewrite E1. destruct (word_rest s' w r Hw) as [He [p Ep]].
    pose proof (end_word b1 src1 dst1 r _ He Hc1) as Hend. cbv zeta in Hend.
    set (src2 := if blank_char (chr b1 src1) then S src1 else src1) in *. set (b2 := <[dst1 := 0]> b1) in *.
    assert (Hdst : dst1 = length (packed ws0 ++ w)).
    { destruct Hc1 as (Hle1 & Ht1 & Hd1). rewrite <- Hd1, length_take. pose proof (text_bound _ _ _ Ht1). lia. }
    assert (Hpk : packed (ws0 ++ [w]) = (packed ws0 ++ w) ++ [0]).
    { rewrite packed_app. simpl. by rewrite app_nil_r, app_assoc. }
    assert (Hlen : length (packed (ws0 ++ [w])) = S dst1) by (rewrite Hpk, length_app; simpl; lia).
    replace (positions 0 ws0 ++ [length (packed ws0)]) with (positions 0 (ws0 ++ [w])) by (by rewrite positions_app).
    assert (Hw1 : (length (ws0 ++ [w]) < MAXARGS)%nat) by (rewrite length_app; simpl; unfold MAXARGS in *; lia).
    assert (Hb2 : length b2 = length b) by (unfold b2; by rewrite length_insert).
    assert (Hgo : parses b2 (ws0 ++ [w]) ws' (parse_loop fuel b2 src2 (S dst1) (positions 0 (ws0 ++ [w])))).
    { assert (Hfp : (0 < fuel)%nat) by (destruct s'; [done|simpl in Hf; lia]).
      destruct Hend as [(Hle2 & Hc2)|(-> & Hz & Htk)].
      - assert (Hnil : r = [] → words (tail r) ws') by (intros ->; done).
        apply (IH (tail r)); [|rewrite Ep in Hf; rewrite length_app in Hf; destruct r; simpl in *; lia|done|by rewrite Hpk|done].
        destruct r as [|c r]; [by apply Hnil|]. by apply (words_blank c).
      - apply words_nil in Hws' as ->. destruct fuel as [|f]; [lia|]. cbn [parse_loop]. rewrite Hz.
        apply (parses_done b2 _ b2); [done|done|by rewrite Hlen, Htk|done]. }
    unfold parses in *. rewrite <- app_assoc in Hgo. simpl in Hgo. rewrite Hb2 in Hgo. exact Hgo.
Qed.

(** The C string at position [i]. *)
Definition string_at (b : list Z) (i : nat) : list Z := cstr (length b) (drop i b).

Lemma cstr_word w rest : ∀ n, 0 ∉ w → (length w < n)%nat → cstr n (w ++ 0 :: rest) = w.
Proof.
  induction w as [|c w IH]; intros n H0 Hn; (destruct n as [|n]; [simpl in Hn; lia|]); simpl; [done|].
  rewrite (proj2 (Z.eqb_neq c 0)) by set_solver. rewrite IH; [done|set_solver|simpl in Hn; lia].
Qed.

Lemma packed_strings ws : ∀ pre post,
  Forall (λ w, 0 ∉ w) ws → string_at (pre ++ packed ws ++ post) <$> positions (length pre) ws = ws.
Proof.
  induction ws as [|w ws IH]; intros pre post H0; [done|]. apply Forall_cons in H0 as [Hw H0].
  cbn [positions fmap list_fmap]. f_equal.
  - unfold string_at. rewrite drop_app_length. cbn [packed mbind list_bind]. rewrite <- !app_assoc. cbn [app].
    apply cstr_word; [done|]. rewrite length_app, length_app. simpl. lia.
  - specialize (IH (pre ++ w ++ [0]) post H0). rewrite !length_app in IH. cbn [length] in IH.
    replace (length pre + S (length w))%nat with (length pre + (length w + 1))%nat by lia.
    etransitivity; [|exact IH]. f_equal. unfold string_at. f_equal.
    cbn [packed mbind list_bind]. by rewrite <- !app_assoc.
Qed.

Lemma word_sub s w r c : word s w r → c ∈ w → c ∈ s.
Proof. induction 1; set_solver. Qed.

Lemma words_nonzero s ws : words s ws → 0 ∉ s → Forall (λ w, 0 ∉ w) ws.
Proof.
  induction 1 as [s Hb|bl s w r ws Hb Hn Hw Hws IH]; intros H0; constructor.
  - intros Hin. apply H0. apply elem_of_app. right. by apply (word_sub s w r).
  - apply IH. destruct (word_rest s w r Hw) as [_ [p ->]]. set_solver.
Qed.

(** C17 [equivalence]. For every command line (the characters before the NUL of
    the buffer), [parsecmd] terminates and agrees with the grammar of words and
    quotes: the line has a reading as words, and for every such reading with
    fewer than MAXARGS words the buffer holds exactly these words as C strings
    at the returned positions, in order, although they were unquoted in place;
    with MAXARGS words or more the shell reports too many arguments. *)
Theorem parsecmd_reads_words s rest :
  0 ∉ s →
  (∃ ws, words s ws)
  ∧ ∀ ws, words s ws →
      if decide (length ws < MAXARGS)%nat
      then ∃ b argv, parsecmd (s ++ 0 :: rest) = Args b argv ∧ string_at b <$> argv = ws
                     ∧ length b = length (s ++ 0 :: rest)
      else parsecmd (s ++ 0 :: rest) = TooMany.
Proof.
  intros H0. split; [by apply (words_total (length s))|]. intros ws Hws.
  assert (Hc : copying (s ++ 0 :: rest) 0 0 s (packed [])) by (split_and!; [done|split; [done|by exists rest]|done]).
  pose proof (parse_loop_ok (S (length (s ++ 0 :: rest))) s ws (s ++ 0 :: rest) 0 0 [] Hws) as Hp.
  specialize (Hp ltac:(rewrite length_app; simpl; lia) ltac:(unfold MAXARGS; simpl; lia) Hc eq_refl).
  unfold parses in Hp. rewrite app_nil_l in Hp. destruct (decide _); [|done].
  destruct Hp as (b & E & Htk & Hl). exists b, (positions 0 ws). split_and!; [done| |done].
  rewrite <- (take_drop (length (packed ws)) b), Htk.
  apply (packed_strings ws [] (drop (length (packed ws)) b)). by apply (words_nonzero s).
Qed.

(** echo 'a b'c "" x *)
Lemma parsecmd_reads_words_witness :
  ∃ b argv, parsecmd (chars "echo 'a b'c '' x" ++ 0 :: replicate 3 0) = Args b argv
            ∧ string_at b <$> argv = [chars "echo"; chars "a bc"; []; chars "x"].
Proof.
  assert (Hws : words (chars "echo 'a b'c '' x") [chars "echo"; chars "a bc"; []; chars "x"]).
  { change (chars "echo 'a b'c '' x") with ([] ++ chars "echo" ++ chars " 'a b'c '' x").
    apply (words_cons [] _ _ (chars " 'a b'c '' x")); [constructor|done| |].
    { repeat (apply word_plain; [done|done|]). by apply word_end. }
    apply (words_cons [32] (chars "'a b'c '' x") _ (chars " '' x")); [by repeat constructor|done| |].
    { apply (word_quoted QUOTE (chars "a b") (chars "c '' x") [99] (chars " '' x")); [done|evaluate|].
      apply word_plain; [done|done|]. by apply word_end. }
    apply (words_cons [32] (chars "'' x") _ (chars " x")); [by repeat constructor|done| |].
    { apply (word_quoted QUOTE [] (chars " x") [] (chars " x")); [done|evaluate|]. by apply word_end. }
    apply (words_cons [32] (chars "x") _ []); [by repeat constructor|done| |].
    { apply word_plain; [done|done|]. by apply word_end. }
    constructor. constructor. }
  destruct (parsecmd_reads_words (chars "echo 'a b'c '' x") (replicate 3 0)) as [_ H]; [evaluate|].
  destruct (H _ Hws) as (b & argv & E & Hs & _). exists b, argv. split; [exact E|exact Hs].
Defined.
