(* ===== verification/ShEdit.v ===== *)
(** The line editor of user/bin/sh.c against a cursor in a text of characters. *)

From S2P Require Import Prelude Machine CString Utf8 Ulib Sh.

(** ** The abstract editor

    A text with a cursor: the characters before it, last first, and those
    after it. *)

Record cursor_text := CursorText {
  before : list Z;
  behind : list Z;
}.

Definition text (z : cursor_text) : list Z := reverse (before z) ++ behind z.

Inductive edit :=
| TypeChar (r : Z)
| MoveLeft
| MoveRight
| EraseLeft
| EraseRight
| EraseAll.

(** The number of bytes of a text. *)
Definition size (z : cursor_text) : nat := length (encode_text (text z)).

(** What an editing command means; a character that does not fit the buffer of
    [n] bytes is dropped. *)
Definition apply_edit (n : nat) (z : cursor_text) (k : edit) : cursor_text :=
  match k with
  | TypeChar r => if decide (size z + length (encode r) < n)%nat then CursorText (r :: before z) (behind z) else z
  | MoveLeft => match before z with r :: bs => CursorText bs (r :: behind z) | [] => z end
  | MoveRight => match behind z with r :: bs => CursorText (r :: before z) bs | [] => z end
  | EraseLeft => match before z with _ :: bs => CursorText bs (behind z) | [] => z end
  | EraseRight => match behind z with _ :: bs => CursorText (before z) bs | [] => z end
  | EraseAll => CursorText [] []
  end.

(** What the terminal sends for it. *)
Definition edit_bytes (k : edit) : list Z :=
  match k with
  | TypeChar r => encode r
  | MoveLeft => [27; 91; 68]
  | MoveRight => [27; 91; 67]
  | EraseLeft => [127]
  | EraseRight => [27; 91; 51; 126]
  | EraseAll => [21]
  end.

(** Characters other than control characters. *)
Definition typable (k : edit) : Prop :=
  match k with TypeChar r => is_rune r ∧ 32 ≤ r ∧ r ≠ 127 | _ => True end.

(** ** The buffer *)

(** The line buffer holds the text, a NUL after it, and the cursor lies between
    its two parts. *)
Definition shows (n : nat) (l : line) (z : cursor_text) : Prop :=
  Forall is_rune (text z) ∧ length (lbuf l) = n
  ∧ (∃ junk, lbuf l = encode_text (text z) ++ 0 :: junk)
  ∧ len l = size z ∧ cursor l = length (encode_text (reverse (before z))).

Lemma insert_at_end (E T : list Z) i v : i = length E → (0 < length T)%nat → <[i := v]> (E ++ T) = E ++ v :: tail T.
Proof. intros -> HT. destruct T as [|x T]; [simpl in HT; lia|]. rewrite insert_app_r_alt by lia. by rewrite Nat.sub_diag. Qed.

Lemma insert_text (E1 E2 T s : list Z) l n :
  lbuf l = E1 ++ E2 ++ T → cursor l = length E1 → len l = length (E1 ++ E2) → length (lbuf l) = n →
  (len l + length s < n)%nat →
  insert_bytes l n s (length s)
  = (Line (E1 ++ s ++ E2 ++ 0 :: tail (drop (length s) T)) (len l + length s) (cursor l + length s), length s).
Proof.
  intros Eb Ec El En Hfit. unfold insert_bytes. rewrite (proj2 (Nat.leb_gt _ _)) by lia.
  assert (Hlen : (length E1 + length E2 + length T = n)%nat) by (rewrite <- En, Eb, !length_app; lia).
  rewrite length_app in El. rewrite El in Hfit. rewrite El, Ec, Eb. f_equal. f_equal.
  replace (length E1 + length E2 - length E1)%nat with (length E2) by lia.
  rewrite umemmove_blit by (rewrite !length_app; lia). rewrite drop_app_length, take_app_length.
  unfold blit at 1. rewrite copy_in_blit.
  2:{ rewrite !length_app, length_take, length_drop, !length_app. lia. }
  2:{ lia. }
  rewrite drop_0, (take_ge s) by lia. unfold blit.
  assert (Ht : length (take (length E1 + length s) (E1 ++ E2 ++ T)) = (length E1 + length s)%nat).
  { rewrite length_take, !length_app. lia. }
  replace (take (length E1) (take _ _ ++ _)) with E1.
  2:{ rewrite take_app_le by lia. rewrite take_take, Nat.min_l by lia. by rewrite take_app_length. }
  rewrite drop_app_ge by lia. rewrite Ht, Nat.sub_diag, drop_0.
  replace (drop (length E1 + length s + length E2) (E1 ++ E2 ++ T)) with (drop (length s) T).
  2:{ rewrite app_assoc, drop_app_ge by (rewrite length_app; lia). f_equal. rewrite length_app. lia. }
  rewrite !app_assoc. rewrite insert_at_end; [by rewrite <- !app_assoc| |].
  - rewrite !length_app. lia.
  - rewrite length_drop. lia.
Qed.

Lemma delete_text (E1 D E2 T : list Z) l n :
  lbuf l = E1 ++ D ++ E2 ++ T → len l = length (E1 ++ D ++ E2) → length (lbuf l) = n → (len l < n)%nat →
  (0 < length D + length T)%nat →
  delete_range l (length E1) (length E1 + length D)
  = Line (E1 ++ E2 ++ 0 :: tail (drop (length E2) (D ++ E2 ++ T))) (length (E1 ++ E2))
      (if (length (E1 ++ E2) <? cursor l)%nat then length (E1 ++ E2) else cursor l).
Proof.
  intros Eb El En Hlt HT. unfold delete_range.
  assert (Hlen : (length E1 + length D + length E2 + length T = n)%nat) by (rewrite <- En, Eb, !length_app; lia).
  rewrite !length_app in El. rewrite El, Eb, !length_app.
  replace (length E1 + (length D + length E2) - (length E1 + length D))%nat with (length E2) by lia.
  replace (length E1 + (length D + length E2) - (length E1 + length D - length E1))%nat with (length E1 + length E2)%nat by lia.
  f_equal. rewrite umemmove_blit by (rewrite !length_app; lia).
  replace (drop (length E1 + length D) (E1 ++ D ++ E2 ++ T)) with (E2 ++ T).
  2:{ rewrite app_assoc, drop_app_ge by (rewrite length_app; lia). by rewrite length_app, Nat.sub_diag. }
  rewrite take_app_length. unfold blit. rewrite take_app_length.
  rewrite (drop_app_ge E1) by lia. replace (length E1 + length E2 - length E1)%nat with (length E2) by lia.
  rewrite app_assoc, insert_at_end; [by rewrite <- app_assoc|by rewrite length_app|].
  rewrite length_drop, !length_app. lia.
Qed.

Lemma text_split z : encode_text (text z) = encode_text (reverse (before z)) ++ encode_text (behind z).
Proof. apply encode_text_app. Qed.

Lemma shows_bounds n l z : shows n l z → (cursor l ≤ len l < n)%nat.
Proof.
  intros (_ & Hn & [junk E] & El & Ec). unfold size in El. rewrite E, length_app in Hn.
  rewrite text_split in *. rewrite !length_app in *. simpl in *. lia.
Qed.

(** ** The operations *)

Lemma typed n l z r :
  shows n l z → is_rune r →
  let '(l', _) := insert_bytes l n (encode r) (length (encode r)) in shows n l' (apply_edit n z (TypeChar r)).
Proof.
  intros Hs Hr. pose proof Hs as (Hrs & Hn & [junk E] & El & Ec). cbn [apply_edit].
  destruct (decide (size z + length (encode r) < n)%nat) as [Hfit|Hno].
  - assert (E' : lbuf l = encode_text (reverse (before z)) ++ encode_text (behind z) ++ 0 :: junk)
      by (by rewrite E, text_split, <- app_assoc).
    rewrite (insert_text _ _ (0 :: junk) _ l n E' Ec); [|rewrite El; unfold size; by rewrite text_split|done|lia].
    assert (Et : text (CursorText (r :: before z) (behind z)) = reverse (before z) ++ r :: behind z).
    { unfold text. cbn [before behind]. by rewrite reverse_cons, <- app_assoc. }
    assert (Ee : encode_text (reverse (before z) ++ r :: behind z)
        = encode_text (reverse (before z)) ++ encode r ++ encode_text (behind z)) by (apply encode_text_app).
    unfold shows, size. cbn [lbuf len cursor before]. rewrite Et. split_and!.
    + unfold text in Hrs. apply Forall_app in Hrs as [H1 H2]. apply Forall_app. split; [done|]. by constructor.
    + rewrite <- Hn, E'. unfold size in Hfit. rewrite text_split, !length_app in Hfit.
      pose proof (f_equal length E') as Hl. rewrite Hn in Hl. rewrite !length_app in *. cbn [length] in *.
      assert (Htl : length (tail (drop (length (encode r)) (0 :: junk))) = (S (length junk) - length (encode r) - 1)%nat).
      { rewrite length_tl, length_drop. simpl. lia. }
      rewrite Htl. lia.
    + eexists. by rewrite Ee, <- !app_assoc.
    + rewrite El, Ee. unfold size. rewrite text_split, !length_app. lia.
    + rewrite reverse_cons, encode_text_app, length_app, Ec. change (encode_text [r]) with (encode r ++ []).
      by rewrite app_nil_r.
  - unfold insert_bytes. rewrite (proj2 (Nat.leb_le _ _)) by lia. exact Hs.
Qed.

Lemma moved_right n l z :
  shows n l z →
  shows n (l <| cursor := Z.to_nat (utf8_next (lbuf l) (Z.of_nat (cursor l)) (Z.of_nat (len l))) |>) (apply_edit n z MoveRight).
Proof.
  intros Hs. pose proof Hs as (Hrs & Hn & [junk E] & El & Ec). pose proof (shows_bounds _ _ _ Hs) as Hb.
  cbn [apply_edit]. destruct z as [bs [|r rs]]; cbn [behind before] in *.
  - unfold utf8_next. unfold size in El. rewrite text_split in El. cbn [behind before] in El.
    rewrite app_nil_r in El. rewrite (proj2 (Z.leb_le _ _)) by lia. rewrite Nat2Z.id.
    replace (l <| cursor := len l |>) with l; [exact Hs|]. destruct l; simpl in *. by rewrite El, <- Ec.
  - destruct (text_steps (reverse bs) r rs (0 :: junk) Hrs) as (Hnext & _). cbv zeta in Hnext.
    rewrite E, Ec, El. unfold size, text. cbn [behind before]. unfold text in Hnext. rewrite Hnext.
    assert (Et : text (CursorText (r :: bs) rs) = text (CursorText bs (r :: rs))).
    { unfold text. cbn [before behind]. by rewrite reverse_cons, <- app_assoc. }
    unfold shows, size. rewrite Et. split_and!; [done|done|by exists junk|done|].
    cbn [before cursor]. rewrite reverse_cons, encode_text_app, length_app.
    change (encode_text [r]) with (encode r ++ []). rewrite app_nil_r. simpl. lia.
Qed.

Lemma moved_left n l z :
  shows n l z →
  shows n (l <| cursor := Z.to_nat (utf8_prev (lbuf l) (Z.of_nat (cursor l))) |>) (apply_edit n z MoveLeft).
Proof.
  intros Hs. pose proof Hs as (Hrs & Hn & [junk E] & El & Ec). cbn [apply_edit].
  destruct z as [[|r bs] rs]; cbn [behind before] in *.
  - rewrite Ec. simpl. destruct l; simpl in *. rewrite Ec in Hs. exact Hs.
  - assert (Et : text (CursorText bs (r :: rs)) = text (CursorText (r :: bs) rs)).
    { unfold text. cbn [before behind]. by rewrite reverse_cons, <- app_assoc. }
    rewrite <- Et in *. destruct (text_steps (reverse bs) r rs (0 :: junk) Hrs) as (_ & Hprev & _). cbv zeta in Hprev.
    rewrite reverse_cons, encode_text_app, length_app in Ec. change (encode_text [r]) with (encode r ++ []) in Ec.
    rewrite app_nil_r in Ec. rewrite E, Ec, Nat2Z.inj_add. unfold text. cbn [behind before].
    unfold text in Hprev. rewrite Hprev, Nat2Z.id.
    split_and!; [done|done|by exists junk| |done]. transitivity (len l); [done|]. rewrite El. unfold size. by rewrite Et.
Qed.

(** Removing the first character behind the position where [bs] ends. *)
Lemma deleted n l bs r rs :
  shows n l (CursorText bs (r :: rs)) ∨ shows n l (CursorText (r :: bs) rs) →
  let a := length (encode_text (reverse bs)) in
  shows n ((delete_range l a (a + length (encode r))) <| cursor := a |>) (CursorText bs rs)
  ∧ (cursor l = a → delete_range l a (a + length (encode r)) = (delete_range l a (a + length (encode r))) <| cursor := a |>).
Proof.
  intros Hs a.
  assert (Hc : Forall is_rune (reverse bs ++ r :: rs) ∧ length (lbuf l) = n
    ∧ (∃ junk, lbuf l = encode_text (reverse bs ++ r :: rs) ++ 0 :: junk) ∧ len l = length (encode_text (reverse bs ++ r :: rs))).
  { destruct Hs as [(H1 & H2 & H3 & H4 & _)|(H1 & H2 & H3 & H4 & _)]; unfold size, text in *; cbn [before behind] in *;
      rewrite ?reverse_cons, <- ?app_assoc in *; by split_and!. }
  destruct Hc as (Hrs & Hn & [junk E] & El). clear Hs.
  assert (Ee : encode_text (reverse bs ++ r :: rs) = encode_text (reverse bs) ++ encode r ++ encode_text rs)
    by apply encode_text_app.
  rewrite Ee in *. rewrite <- !app_assoc in E.
  pose proof (f_equal length E) as HL. rewrite Hn, !length_app in HL. cbn [length] in HL.
  pose proof El as El'. rewrite !length_app in El'.
  pose proof (delete_text _ _ _ _ l n E El Hn ltac:(lia) ltac:(simpl; lia)) as Hd. fold a in Hd. rewrite Hd.
  split.
  - unfold shows, size. rewrite text_split. cbn [before behind lbuf len cursor setter]. split_and!.
    + unfold text. cbn [before behind]. apply Forall_app in Hrs as [H1 H2]. apply Forall_cons in H2 as [_ H2].
      by apply Forall_app.
    + cbn [lbuf]. rewrite !length_app. cbn [length]. rewrite length_tl, length_drop, !length_app. cbn [length]. lia.
    + eexists. cbn [lbuf]. by rewrite <- app_assoc.
    + done.
    + done.
  - intros Ecur. rewrite Ecur. unfold a. rewrite length_app, (proj2 (Nat.ltb_ge _ _)) by lia. done.
Qed.

(** ** Keys *)

(** Only the output and the bytes read differ. *)
Definition only_io (t t' : term) (more : list Z) : Prop :=
  input t' = more ∧ history t' = history t ∧ nhistory t' = nhistory t ∧ rawmode t' = rawmode t ∧ dirents t' = dirents t.

Lemma only_io_trans t1 t2 t3 m m' : only_io t1 t2 m → only_io t2 t3 m' → only_io t1 t3 m'.
Proof. intros (? & ? & ? & ? & ?) (? & ? & ? & ? & ?). split_and!; congruence. Qed.

Lemma emit_ok s t m : input t = m → returns (emit s) t (λ _ t', only_io t t' m).
Proof. intros <-. by apply returns_modify. Qed.

Lemma read1_ok c m t : input t = c :: m → returns read1 t (λ r t', r = Some c ∧ only_io t t' m).
Proof. intros E. unfold read1, returns, bind, gets, modify, ret. rewrite E. by eexists _, _. Qed.

(** Sequencing steps that only read and write. *)
Lemma io_bind {A C} (m : T A) (k : A → T C) t more (R : A → Prop) (Q : C → term → Prop) :
  returns m t (λ a t', R a ∧ only_io t t' more) →
  (∀ a t', R a → only_io t t' more → returns (k a) t' Q) → returns (bind m k) t Q.
Proof. intros Hm Hk. eapply returns_bind; [exact Hm|]. intros a t' [Ha Ht]. by apply Hk. Qed.

Lemma io_emit {C} s (k : unit → T C) t more (Q : C → term → Prop) :
  input t = more → (∀ t', only_io t t' more → returns (k tt) t' Q) → returns (bind (emit s) k) t Q.
Proof. intros E Hk. eapply returns_bind; [by apply emit_ok|]. intros [] t' Ht. by apply Hk. Qed.

Lemma io_read {C} c (k : option Z → T C) t more (Q : C → term → Prop) :
  input t = c :: more → (∀ t', only_io t t' more → returns (k (Some c)) t' Q) → returns (bind read1 k) t Q.
Proof. intros E Hk. eapply returns_bind; [by apply read1_ok|]. intros a t' [-> Ht]. by apply Hk. Qed.

Lemma redraw_from_ok l t m : input t = m → returns (redraw_from l) t (λ _ t', only_io t t' m).
Proof.
  intros E. unfold redraw_from. eapply io_emit; [exact E|]. intros t1 H1.
  eapply io_emit; [apply H1|]. intros t2 H2. eapply returns_mono; [apply emit_ok, H2|].
  intros u t3 H3. eauto using only_io_trans.
Qed.

Lemma read_more_ok s : ∀ acc t m,
  input t = s ++ m → returns (read_more (length s) acc) t (λ r t', r = acc ++ s ∧ only_io t t' m).
Proof.
  induction s as [|c s IH]; intros acc t m E; cbn [length read_more].
  - apply returns_ret. rewrite app_nil_r. by split_and!.
  - eapply io_read; [exact E|]. intros t1 H1. eapply returns_mono; [apply IH, H1|].
    intros r t2 [-> H2]. rewrite <- app_assoc. eauto using only_io_trans.
Qed.

(** The first byte of a typable character is no control byte. *)
Lemma encode_first r :
  is_rune r → 32 ≤ r → r ≠ 127 →
  ∃ c s, encode r = c :: s ∧ 32 ≤ c ∧ c ≠ 127 ∧ Z.to_nat (utf8_input_len c - 1) = length s.
Proof.
  intros [Hr _] Hlo Hne. destruct (encode_shape r Hr) as (lead & k & E & Hl & Hk & Hlc & Hlen & Hk0 & Hk1).
  exists lead, (conts k r). rewrite conts_length, Hlen. split_and!; [done| | |lia].
  - revert E. unfold encode. intros E. destruct (r <? 128) eqn:E1; [injection E as <- _; lia|].
    apply Z.ltb_ge in E1. destruct (r <? 2048), (r <? 65536); injection E as <- _; dlia.
  - revert E. unfold encode. intros E. destruct (r <? 128) eqn:E1; [injection E as <- _; lia|].
    apply Z.ltb_ge in E1. destruct (r <? 2048), (r <? 65536); injection E as <- _; dlia.
Qed.

(** One round of the loop for an editing command: [key] goes on with a line that
    shows the edited text. *)
Definition goes_on (n : nat) (e : editor) (z : cursor_text) (k : edit) (more : list Z) (t : term) (r : after) (t' : term) : Prop :=
  ∃ l, r = Continue (e <| ln := l |>) ∧ shows n l (apply_edit n z k) ∧ only_io t t' more.

Lemma key_escape n e c t m Q :
  input t = [91; c] ++ m →
  (∀ t', only_io t t' m → returns (let! e := escape n e c in ret (Continue e)) t' Q) →
  returns (key n e 27) t Q.
Proof.
  intros E Hk. unfold key. change (27 =? 27) with true. cbn iota.
  eapply io_read; [exact E|]. intros t1 H1. eapply io_read; [apply H1|]. intros t2 H2.
  change (91 =? 91) with true. cbn iota. apply Hk. eauto using only_io_trans.
Qed.

Lemma edit_left n e z t m :
  shows n (ln e) z → input t = [91; 68] ++ m → returns (key n e 27) t (goes_on n e z MoveLeft m t).
Proof.
  intros Hs E. eapply key_escape; [exact E|]. intros t1 H1.
  unfold escape, UP, DOWN, RIGHT, LEFT. change (68 =? 65) with false. change (68 =? 66) with false.
  change (68 =? 67) with false. change (68 =? 68) with true. cbn iota. cbv zeta. apply returns_assoc.
  eapply io_emit; [apply H1|]. intros t2 H2. apply returns_ret. eexists. split_and!;
    [done|by apply moved_left|eauto using only_io_trans].
Qed.

Lemma edit_right n e z t m :
  shows n (ln e) z → input t = [91; 67] ++ m → returns (key n e 27) t (goes_on n e z MoveRight m t).
Proof.
  intros Hs E. eapply key_escape; [exact E|]. intros t1 H1.
  unfold escape, UP, DOWN, RIGHT, LEFT. change (67 =? 65) with false. change (67 =? 66) with false.
  change (67 =? 67) with true. cbn iota. cbv zeta. apply returns_assoc.
  eapply io_emit; [apply H1|]. intros t2 H2. apply returns_ret. eexists. split_and!;
    [done|by apply moved_right|eauto using only_io_trans].
Qed.

(** The character behind the cursor ends where [utf8_next] says. *)
Lemma next_char n l bs r rs :
  shows n l (CursorText bs (r :: rs)) →
  Z.to_nat (utf8_next (lbuf l) (Z.of_nat (cursor l)) (Z.of_nat (len l))) = (cursor l + length (encode r))%nat
  ∧ (cursor l < len l)%nat.
Proof.
  intros (Hrs & Hn & [junk E] & El & Ec). cbn [before] in Ec.
  destruct (text_steps (reverse bs) r rs (0 :: junk) Hrs) as (Hnext & _). cbv zeta in Hnext.
  unfold size, text in *. cbn [before behind] in *. rewrite E, Ec, El, Hnext. split; [lia|].
  unfold text in Hrs. cbn [before behind] in Hrs. apply Forall_app in Hrs as [_ Hrs].
  apply Forall_cons in Hrs as [[Hr _] _]. pose proof (encode_nonempty r Hr).
  rewrite encode_text_app, length_app. change (encode_text (r :: rs)) with (encode r ++ encode_text rs).
  rewrite length_app. lia.
Qed.

Lemma prev_char n l bs r rs :
  shows n l (CursorText (r :: bs) rs) →
  Z.to_nat (utf8_prev (lbuf l) (Z.of_nat (cursor l))) = length (encode_text (reverse bs))
  ∧ cursor l = (length (encode_text (reverse bs)) + length (encode r))%nat ∧ (0 < cursor l)%nat.
Proof.
  intros Hs. pose proof (moved_left _ _ _ Hs) as (_ & _ & _ & _ & Hp). cbn [apply_edit before cursor setter] in Hp.
  destruct Hs as (Hrs & _ & _ & _ & Ec). cbn [before] in Ec. split; [exact Hp|].
  rewrite reverse_cons, encode_text_app, length_app in Ec. change (encode_text [r]) with (encode r ++ []) in Ec.
  rewrite app_nil_r in Ec. split; [done|]. unfold text in Hrs. cbn [before behind] in Hrs.
  apply Forall_app in Hrs as [Hrs _]. rewrite reverse_cons in Hrs. apply Forall_app in Hrs as [_ Hrs].
  apply Forall_cons in Hrs as [[Hr _] _]. pose proof (encode_nonempty r Hr). lia.
Qed.

Lemma edit_delete n e z t m :
  shows n (ln e) z → input t = [91; 51; 126] ++ m → returns (key n e 27) t (goes_on n e z EraseRight m t).
Proof.
  intros Hs E. eapply (key_escape n e 51 t (126 :: m)); [exact E|]. intros t1 H1.
  unfold escape, UP, DOWN, RIGHT, LEFT. change (51 =? 65) with false. change (51 =? 66) with false.
  change (51 =? 67) with false. change (51 =? 68) with false. change (51 =? 51) with true. cbn iota. cbv zeta.
  apply returns_assoc. eapply io_read; [apply H1|]. intros t2 H2. change (126 =? 126) with true. cbn [andb].
  assert (H02 : only_io t t2 m) by eauto using only_io_trans.
  destruct z as [bs [|r rs]].
  - pose proof Hs as (_ & _ & _ & El & Ec). unfold size in El. rewrite text_split in El. cbn [before behind] in *.
    rewrite app_nil_r in El. rewrite (proj2 (Nat.ltb_ge _ _)) by lia. apply returns_ret.
    exists (ln e). split_and!; [by destruct e|done|done].
  - destruct (next_char _ _ _ _ _ Hs) as [En Hlt]. rewrite (proj2 (Nat.ltb_lt _ _)) by done. rewrite En.
    apply returns_assoc. eapply returns_bind; [apply redraw_from_ok, H2|]. intros u t3 H3.
    apply returns_ret. eexists. split_and!; [done| |eauto using only_io_trans].
    destruct (deleted n (ln e) bs r rs) as [Hd Heq]; [by left|].
    pose proof Hs as (_ & _ & _ & _ & Ec). cbn [before] in Ec. rewrite Ec, Heq by done. exact Hd.
Qed.

Lemma edit_erase n e z t m :
  shows n (ln e) z → input t = m → returns (key n e 127) t (goes_on n e z EraseLeft m t).
Proof.
  intros Hs E. unfold key. change (127 =? 27) with false. change (127 =? 9) with false. change (127 =? 4) with false.
  change (127 =? 21) with false. change ((127 =? 8) || (127 =? 127)) with true. cbn iota. unfold erase.
  destruct z as [[|r bs] rs].
  - pose proof Hs as (_ & _ & _ & _ & Ec). cbn [before] in Ec. simpl in Ec. rewrite Ec.
    change (0 <? 0)%nat with false. cbn iota. apply returns_ret. exists (ln e).
    split_and!; [by destruct e|done|by split_and!].
  - destruct (prev_char _ _ _ _ _ Hs) as (Ep & Ec & Hpos). rewrite (proj2 (Nat.ltb_lt _ _)) by done. cbv zeta.
    rewrite Ep. apply returns_assoc. eapply io_emit; [exact E|]. intros t1 H1. apply returns_assoc.
    eapply returns_bind; [apply redraw_from_ok, H1|]. intros u t2 H2. apply returns_ret.
    eexists. split_and!; [done| |eauto using only_io_trans].
    destruct (deleted n (ln e) bs r rs) as [Hd _]; [by right|]. rewrite Ec. exact Hd.
Qed.

Lemma edit_clear n e z t m :
  shows n (ln e) z → (0 < n)%nat → input t = m → returns (key n e 21) t (goes_on n e z EraseAll m t).
Proof.
  intros Hs Hn E. unfold key. change (21 =? 27) with false. change (21 =? 9) with false. change (21 =? 4) with false.
  change (21 =? 21) with true. cbn iota. eapply io_emit; [exact E|]. intros t1 H1. apply returns_ret.
  eexists. split_and!; [done| |done]. destruct Hs as (_ & Hl & _ & _).
  split_and!; [constructor|by simpl; rewrite length_insert| |done|done].
  cbn [lbuf]. destruct (lbuf (ln e)) as [|x b]; [simpl in Hl; lia|]. by exists b.
Qed.

Lemma edit_type n e z r t c s m :
  shows n (ln e) z → is_rune r → 32 ≤ r → r ≠ 127 → encode r = c :: s → input t = s ++ m →
  returns (key n e c) t (goes_on n e z (TypeChar r) m t).
Proof.
  intros Hs Hr Hlo Hne Ee E. destruct (encode_first r Hr Hlo Hne) as (c' & s' & Ee' & Hc & Hc' & Hlen).
  rewrite Ee in Ee'. injection Ee' as <- <-. unfold key.
  rewrite !(proj2 (Z.eqb_neq c _)) by lia. cbn [orb]. unfold type_char. rewrite Hlen.
  apply returns_assoc. eapply returns_bind; [by apply read_more_ok|]. intros r1 t1 [-> H1]. cbn [app].
  rewrite <- Ee. pose proof (typed n (ln e) z r Hs Hr) as Ht.
  destruct (insert_bytes (ln e) n (encode r) (length (encode r))) as [l' k].
  assert (Hecho : ∀ x : bool, returns (if x then echo (ln e) l' (encode r) else ret tt) t1 (λ _ t2, only_io t1 t2 m)).
  { intros [|]; [|apply returns_ret; destruct H1 as (? & _); by split_and!].
    unfold echo. destruct (cursor (ln e) =? len (ln e))%nat; apply emit_ok, H1. }
  apply returns_assoc. eapply returns_bind; [apply Hecho|]. intros u t2 H2. apply returns_ret.
  exists l'. split_and!; [done|done|eauto using only_io_trans].
Qed.

(** Every editing command. *)
Lemma edit_step n e z k t m :
  shows n (ln e) z → typable k → input t = edit_bytes k ++ m →
  returns (let! c := read1 in match c with Some c => key n e c | None => ret Fail end) t (goes_on n e z k m t).
Proof.
  intros Hs Hk E. pose proof (shows_bounds _ _ _ Hs) as Hb.
  assert (Hgo : ∀ c s, edit_bytes k = c :: s → (∀ t', input t' = s ++ m → returns (key n e c) t' (goes_on n e z k m t')) →
     returns (let! c := read1 in match c with Some c => key n e c | None => ret Fail end) t (goes_on n e z k m t)).
  { intros c s Ek Hkey. rewrite Ek in E. eapply io_read; [exact E|]. intros t1 H1.
    eapply returns_mono; [apply Hkey, H1|]. intros a t2 (l & Ha & Hl & H2). exists l. eauto using only_io_trans. }
  destruct k as [r| | | | |]; cbn [edit_bytes] in *.
  - destruct Hk as (Hr & Hlo & Hne). destruct (encode_first r Hr Hlo Hne) as (c & s & Ee & _).
    apply (Hgo c s Ee). intros t' E'. by apply (edit_type n e z r t' c s m).
  - apply (Hgo 27 [91; 68] eq_refl). intros t' E'. by apply edit_left.
  - apply (Hgo 27 [91; 67] eq_refl). intros t' E'. by apply edit_right.
  - apply (Hgo 127 [] eq_refl). intros t' E'. by apply edit_erase.
  - apply (Hgo 27 [91; 51; 126] eq_refl). intros t' E'. by apply edit_delete.
  - apply (Hgo 21 [] eq_refl). intros t' E'. apply edit_clear; [done|lia|done].
Qed.

(** ** The whole line *)

(** The texts after each of the commands leave room for the newline. *)
Fixpoint fits (n : nat) (z : cursor_text) (ks : list edit) : Prop :=
  (size z + 1 < n)%nat ∧ match ks with [] => True | k :: ks' => fits n (apply_edit n z k) ks' end.

Lemma key_newline n e z t m :
  shows n (ln e) z → (size z + 1 < n)%nat → input t = m →
  returns (key n e 10) t (λ r t', ∃ l junk, r = Break (e <| ln := l |>)
    ∧ lbuf l = encode_text (text z) ++ 10 :: 0 :: junk ∧ len l = S (size z) ∧ length (lbuf l) = n ∧ only_io t t' m).
Proof.
  intros (Hrs & Hn & [junk E] & El & Ec) Hfit Ei. unfold key.
  change (10 =? 27) with false. change (10 =? 9) with false. change (10 =? 4) with false.
  change (10 =? 21) with false. change ((10 =? 8) || (10 =? 127)) with false. change ((10 =? 10) || (10 =? 13)) with true.
  cbn iota. cbv zeta. eapply io_emit; [exact Ei|]. intros t1 H1. apply returns_ret.
  eexists _, (tail junk). split_and!; [reflexivity| |by simpl; rewrite El| |done].
  - cbn [lbuf setter]. rewrite El, E. rewrite insert_at_end; [|done|simpl; lia]. cbn [tail].
    unfold size in *. rewrite (cons_middle 10), app_assoc, insert_at_end; [by rewrite <- app_assoc| |].
    + rewrite length_app. simpl. lia.
    + apply (f_equal length) in E. rewrite length_app, Hn in E. simpl in E. lia.
  - cbn [lbuf setter]. by rewrite !length_insert.
Qed.

Lemma getcmd_loop_edits ks : ∀ fuel n e z t m,
  shows n (ln e) z → Forall typable ks → fits n z ks → input t = (ks ≫= edit_bytes) ++ 10 :: m →
  (length (input t) < fuel)%nat →
  returns (getcmd_loop fuel n e) t (λ r t', ∃ l junk, r = Some (e <| ln := l |>)
    ∧ lbuf l = encode_text (text (foldl (apply_edit n) z ks)) ++ 10 :: 0 :: junk
    ∧ len l = S (size (foldl (apply_edit n) z ks)) ∧ length (lbuf l) = n ∧ only_io t t' m).
Proof.
  induction ks as [|k ks IH]; intros fuel n e z t m Hs Hk [Hfit Hfits] Ei Hf;
    (destruct fuel as [|fuel]; [lia|]); cbn [getcmd_loop]; pose proof Hs as (_ & _ & _ & El & _);
    rewrite (proj2 (Nat.ltb_lt _ _)) by lia; cbn [negb].
  - eapply io_read; [exact Ei|]. intros t1 H1. eapply returns_bind; [apply (key_newline n e z t1 m Hs Hfit), H1|].
    intros r t2 (l & junk & -> & Hl & Hlen & Hn & H2). apply returns_ret. exists l, junk.
    split_and!; [done|done|done|done|eauto using only_io_trans].
  - apply Forall_cons in Hk as [Hk Hks].
    assert (Ei' : input t = edit_bytes k ++ (ks ≫= edit_bytes) ++ 10 :: m) by (rewrite Ei; simpl; by rewrite <- app_assoc).
    destruct (edit_step n e z k t _ Hs Hk Ei') as (a & t1 & Estep & l & -> & Hl & H1).
    destruct (input t) as [|c i] eqn:Ein; [exfalso; by destruct ((k :: ks) ≫= edit_bytes)|].
    destruct (read1_ok c i t Ein) as (? & t0 & Er & -> & _). rewrite (bind_ok _ _ _ _ _ Er) in Estep.
    destruct (IH fuel n (e <| ln := l |>) (apply_edit n z k) t1 m) as (r & t2 & Eloop & l2 & junk & -> & Hb & Hlen & Hn & H2);
      [done|done|done|apply H1| |].
    { destruct H1 as (-> & _). apply (f_equal length) in Ei'. rewrite length_app in Ei'.
      assert (0 < length (edit_bytes k))%nat; [|simpl in *; lia].
      destruct k as [r| | | | |]; simpl; try lia. destruct Hk as (Hr & Hlo & Hne).
      destruct (encode_first r Hr Hlo Hne) as (? & ? & -> & _). simpl. lia. }
    eexists _, t2. split.
    + rewrite (bind_ok _ _ _ _ _ Er), (bind_ok _ _ _ _ _ Estep). exact Eloop.
    + exists l2, junk. split_and!; [by destruct e|done|done|done|eauto using only_io_trans].
Qed.

Lemma save_history_ok b k t : returns (save_history b k) t (λ _ t', input t' = input t).
Proof.
  unfold save_history. cbv zeta. destruct (_ || _); [by apply returns_ret|].
  eapply returns_bind; [by apply (returns_gets id t (λ x t', t' = t))|]. intros x ? ->.
  destruct (_ && _); [by apply returns_ret|].
  eapply (returns_bind _ _ _ (λ _ t', input t' = input t)).
  { destruct (_ =? _)%nat; [by apply returns_modify|by apply returns_ret]. }
  intros u t1 H1. eapply (returns_bind _ _ _ (λ _ t', input t' = input t)); [by apply returns_modify|].
  intros u' t2 H2. by apply returns_modify.
Qed.

Lemma umemset_length n : ∀ i c b, length (umemset n i c b) = length b.
Proof. induction n as [|n IH]; intros i c b; simpl; [done|]. by rewrite IH, length_insert. Qed.

Lemma umemset_zero n : ∀ i b, (0 < n)%nat → (i < length b)%nat → umemset n i 0 b !! i = Some 0.
Proof.
  assert (Hkeep : ∀ n i j b, (j < i)%nat → umemset n i 0 b !! j = b !! j).
  { clear n. induction n as [|n IH]; intros i j b Hj; simpl; [done|].
    rewrite IH by lia. by rewrite list_lookup_insert_ne by lia. }
  intros i b Hn Hi. destruct n as [|n]; [lia|]. simpl. rewrite Hkeep by lia. by rewrite list_lookup_insert_eq.
Qed.

(** C16 [refinement]. The line editor of the shell implements a cursor in a text
    of Unicode characters: when the terminal sends the bytes of a sequence of
    editing commands (typed characters in UTF-8, cursor keys, backspace, delete,
    kill line) and then newline, [getcmd] returns, the buffer holds exactly the
    UTF-8 encoding of the text that the commands produce character by character,
    then a newline and a NUL, no later input is consumed and the console is back
    in line mode.  This holds whenever the text never fills the buffer. *)
Theorem getcmd_edits_text n buf ks more t :
  length buf = n → (0 < n)%nat → Forall typable ks → fits n (CursorText [] []) ks →
  input t = (ks ≫= edit_bytes) ++ 10 :: more →
  returns (getcmd buf n) t (λ r t', ∃ b junk, r = Some b
    ∧ b = encode_text (text (foldl (apply_edit n) (CursorText [] []) ks)) ++ 10 :: 0 :: junk
    ∧ length b = n ∧ input t' = more ∧ rawmode t' = false).
Proof.
  intros Hb Hn Hk Hfit Ei. unfold getcmd.
  eapply (returns_bind _ _ _ (λ _ t', input t' = input t)); [by apply returns_modify|]. intros u t1 E1.
  eapply io_emit; [reflexivity|]. intros t2 (E2 & _).
  eapply returns_bind; [by apply (returns_gets id t2 (λ x t', x = t2 ∧ t' = t2))|]. intros x t' [-> ->].
  assert (Hs : shows n (Line (umemset n 0 0 buf) 0 0) (CursorText [] [])).
  { split_and!; [constructor|by cbn [lbuf]; rewrite umemset_length| |done|done]. cbn [lbuf].
    pose proof (umemset_zero n 0 buf Hn ltac:(lia)) as Hz.
    destruct (umemset n 0 0 buf) as [|x b]; [done|]. simpl in Hz. injection Hz as ->. by exists b. }
  cbv zeta. eapply returns_bind; [apply (getcmd_loop_edits ks _ n (Editor (Line (umemset n 0 0 buf) 0 0) _ _ _) (CursorText [] []) t2 more Hs Hk Hfit)|].
  - by rewrite E2, E1.
  - lia.
  - intros r t3 (l & junk & -> & El & _ & Hlen & H3). cbn iota.
    eapply returns_bind; [apply save_history_ok|]. intros u' t4 E4.
    eapply (returns_bind _ _ _ (λ _ t', input t' = input t4 ∧ rawmode t' = false)); [by apply returns_modify|].
    intros u'' t5 [E5 H5]. apply returns_ret. exists (lbuf l), junk.
    split_and!; [done|done|done| |done]. destruct H3 as (E3 & _). congruence.
Qed.

(** Typing "h你", left, "i", right, backspace. *)
Lemma getcmd_edits_text_witness :
  returns (getcmd (replicate 100 0) 100)
    (Term ([104; 228; 189; 160; 27; 91; 68; 105; 27; 91; 67; 127] ++ [10; 33]) [] [] 0 false None)
    (λ r t', ∃ junk, r = Some (104 :: 105 :: 10 :: 0 :: junk) ∧ input t' = [33] ∧ rawmode t' = false).
Proof.
  eapply returns_mono; [apply (getcmd_edits_text 100 (replicate 100 0)
    [TypeChar 104; TypeChar 0x4F60; MoveLeft; TypeChar 105; MoveRight; EraseLeft] [33]); try reflexivity|].
  - lia.
  - repeat constructor; lia.
  - vm_compute. lia.
  - intros r t' (b & junk & -> & -> & _ & Hi & Hr). exists junk. split; [reflexivity|]. split; [exact Hi|exact Hr].
Defined.

(** Tab on an opening quote, in a directory with one matching name: completion
    reads the byte before its array. *)
Lemma complete_token_reads_outside :
  complete_token (Line ([39; 97] ++ replicate 98 0) 2 0) 100
    (Term [] [] [] 0 false (Some [(1, [46]); (2, [104; 105])])) = Panic "fault".
Proof. vm_compute. reflexivity. Qed.
