(* ===== verification/Kalloc.v ===== *)
(** kernel/mm/kalloc.c: the physical page allocator.

    The free list is the one of the source: a chain of page addresses, each
    page holding the address of the next in its first eight bytes.  The
    refinement relation [kinv s l] says that the state [s] represents the list
    [l] of free pages.  A call runs inside the critical section of [kmem.lock],
    so it is one atomic step here. *)

From S2P Require Import Prelude Machine CString Fdt.

(** ** Definitions *)

(** Addresses fixed by the linker script. *)
Class Linker := {
  kend : Z;        (* end: first address after the kernel *)
  etext : Z;       (* end of the kernel text *)
  trampoline : Z;  (* the page of trampoline.S *)
}.

Record kmem_state := KMem {
  mem : memory;
  freelist : Z;    (* 0 is the null pointer *)
  phys_top : Z;
}.

Definition with_mem (m : memory) (s : kmem_state) : kmem_state :=
  KMem m (freelist s) (phys_top s).

Definition with_freelist (r : Z) (s : kmem_state) : kmem_state :=
  KMem (mem s) r (phys_top s).

Definition with_phys_top (t : Z) (s : kmem_state) : kmem_state :=
  KMem (mem s) (freelist s) t.

Abbreviation K := (M kmem_state).

Section Operations.
Context `{Linker}.

Definition kfree (pa : Z) : K unit :=
  let! s := gets id in
  if negb (pa mod PGSIZE =? 0) || (pa <? kend) || (phys_top s <=? pa)
  then panic "kfree"
  else
    modify (λ s, with_mem (memset (mem s) pa 1 PGSIZE) s) ;;;
    modify (λ s, with_mem (store64 (mem s) pa (freelist s)) s) ;;;
    modify (with_freelist pa).

Definition kalloc : K Z :=
  let! r := gets freelist in
  if r =? 0 then ret 0
  else
    modify (λ s, with_freelist (load64 (mem s) r) s) ;;;
    modify (λ s, with_mem (memset (mem s) r 5 PGSIZE) s) ;;;
    ret r.

Fixpoint freerange_loop (fuel : nat) (p pa_end : Z) : K unit :=
  match fuel with
  | O => nofuel
  | S f =>
      if p + PGSIZE <=? pa_end then kfree p ;;; freerange_loop f (p + PGSIZE) pa_end
      else ret tt
  end.

Definition freerange (pa_start pa_end : Z) : K unit :=
  freerange_loop (S (Z.to_nat (pa_end / PGSIZE))) (PGROUNDUP pa_start) pa_end.

Definition kinit (fuel : nat) (dtb_addr : Z) : K unit :=
  let! m := gets mem in
  match fdt_get_memory_size fuel m dtb_addr with
  | None => nofuel
  | Some t =>
      modify (with_phys_top t) ;;;
      (if t =? 0 then modify (with_phys_top PHYSTOP) else ret tt) ;;;
      let! top := gets phys_top in
      freerange kend top
  end.

Definition kphys_top : K Z := gets phys_top.

Fixpoint count_free (fuel : nat) (m : memory) (r pages : Z) : option Z :=
  match fuel with
  | O => None
  | S f => if r =? 0 then Some pages else count_free f m (load64 m r) (u64 (pages + 1))
  end.

Definition kfreemem : K Z :=
  let! s := gets id in
  match count_free (S (Z.to_nat (phys_top s / PGSIZE))) (mem s) (freelist s) 0 with
  | None => nofuel
  | Some pages => ret (u64 (pages * PGSIZE))
  end.

(** ** The represented free list *)

Definition page_ok (top pa : Z) : Prop :=
  pa mod PGSIZE = 0 ∧ kend ≤ pa ∧ pa < top.

Fixpoint chain (m : memory) (r : Z) (l : list Z) : Prop :=
  match l with
  | [] => r = 0
  | p :: l' => r = p ∧ chain m (load64 m p) l'
  end.

Record kinv (s : kmem_state) (l : list Z) : Prop := {
  kinv_chain : chain (mem s) (freelist s) l;
  kinv_nodup : NoDup l;
  kinv_pages : Forall (page_ok (phys_top s)) l;
  kinv_top : phys_top s ≤ 2 ^ 55;
}.

End Operations.

(** What linker/kernel.ld fixes: the kernel is linked at [KERNBASE], the
    trampoline is the last page of the text, [etext] is page-aligned and [end]
    comes after it; the image lies in the physical address space. *)
Class LinkerOk `{Linker} : Prop := {
  trampoline_low : KERNBASE ≤ trampoline;
  trampoline_text : trampoline + PGSIZE = etext;
  etext_aligned : etext mod PGSIZE = 0;
  etext_kend : etext ≤ kend;
  kend_small : kend < 2 ^ 55;
}.

(** ** Memory frames

    [mem_frame ps m m']: outside the pages [ps], [m'] agrees with [m]. *)

Definition in_page (p b : Z) : Prop := p ≤ b < p + PGSIZE.

Definition mem_frame (ps : list Z) (m m' : memory) : Prop :=
  ∀ b, (∀ p, p ∈ ps → ¬ in_page p b) → mget m' b = mget m b.

Lemma mem_frame_refl ps m : mem_frame ps m m.
Proof. by intros b Hb. Qed.

Lemma mem_frame_trans ps m1 m2 m3 :
  mem_frame ps m1 m2 → mem_frame ps m2 m3 → mem_frame ps m1 m3.
Proof. intros H1 H2 b Hb. by rewrite H2, H1. Qed.

Lemma mem_frame_mono ps qs m m' : ps ⊆ qs → mem_frame ps m m' → mem_frame qs m m'.
Proof. intros Hsub H b Hb. apply H. auto. Qed.

(** Only the set of pages matters. *)
#[export] Instance mem_frame_proper : Proper ((≡ₚ) ==> eq ==> eq ==> iff) mem_frame.
Proof.
  intros ps qs Hp m ? <- m' ? <-.
  split; apply mem_frame_mono; intros q; by rewrite Hp.
Qed.

Create HintDb frame.
#[export] Hint Resolve mem_frame_refl : frame.

Lemma page_disjoint p q b :
  p mod PGSIZE = 0 → q mod PGSIZE = 0 → in_page p b → in_page q b → p = q.
Proof. unfold in_page, PGSIZE. intros. dlia. Qed.

Lemma mem_frame_memset m p c : mem_frame [p] m (memset m p c PGSIZE).
Proof.
  intros b Hb. rewrite mget_memset by done. rewrite decide_False; [done|].
  apply (Hb p). by left.
Qed.

Lemma mem_frame_store64 m p a v :
  p ≤ a → a + 8 ≤ p + PGSIZE → mem_frame [p] m (store64 m a v).
Proof.
  intros H1 H2 b Hb. apply mget_store64_out.
  specialize (Hb p ltac:(by left)). unfold in_page in Hb. lia.
Qed.

(** A word inside an aligned page outside the frame's pages is unchanged. *)
Lemma mem_frame_load64 ps m m' q a :
  mem_frame ps m m' → Forall (λ p, p mod PGSIZE = 0) ps → q mod PGSIZE = 0 → q ∉ ps →
  q ≤ a → a + 8 ≤ q + PGSIZE → load64 m' a = load64 m a.
Proof.
  intros Hf Hps Hq Hnin H1 H2. apply load64_ext. intros b Hb. apply Hf. intros p Hp Hin.
  rewrite Forall_forall in Hps. apply Hnin.
  replace q with p; [done|]. eapply page_disjoint; eauto. unfold in_page. lia.
Qed.

Lemma mem_frame_byte ps m m' q b :
  mem_frame ps m m' → Forall (λ p, p mod PGSIZE = 0) ps → q mod PGSIZE = 0 → q ∉ ps →
  in_page q b → mget m' b = mget m b.
Proof.
  intros Hf Hps Hq Hnin Hb. apply Hf. intros p Hp Hin. apply Hnin.
  rewrite Forall_forall in Hps. replace q with p; [done|]. eapply page_disjoint; eauto.
Qed.

(** ** The allocator implements its free list *)

Section Facts.
Context {LK : Linker} {LKok : LinkerOk}.

Lemma kend_pos : 0 < kend.
Proof.
  pose proof trampoline_low. pose proof trampoline_text. pose proof etext_kend.
  unfold KERNBASE, PGSIZE in *. lia.
Qed.

Lemma page_ok_aligned top p : page_ok top p → p mod PGSIZE = 0.
Proof. by intros []. Qed.

Lemma page_ok_nonzero top p : page_ok top p → p ≠ 0.
Proof. intros (? & ? & ?). pose proof kend_pos. lia. Qed.

Lemma page_ok_range top p : page_ok top p → top ≤ 2 ^ 55 → 0 ≤ p < 2 ^ 56.
Proof. intros (? & ? & ?) ?. pose proof kend_pos. lia. Qed.

Lemma pages_aligned top l : Forall (page_ok top) l → Forall (λ p, p mod PGSIZE = 0) l.
Proof. intros Hl. eapply Forall_impl; [exact Hl|]. intros p. apply page_ok_aligned. Qed.

Lemma chain_frame ps m m' r l :
  mem_frame ps m m' → Forall (λ p, p mod PGSIZE = 0) ps → Forall (λ p, p mod PGSIZE = 0) l →
  (∀ p, p ∈ l → p ∉ ps) → chain m r l → chain m' r l.
Proof.
  intros Hf Hps. revert r. induction l as [|p l IH]; intros r Hl Hd Hc; [done|].
  inversion_clear Hl. destruct Hc as [-> Hc]. split; [done|].
  rewrite (mem_frame_load64 ps m m' p); try done.
  - apply IH; auto. intros q Hq. apply Hd. by right.
  - apply Hd. by left.
  - unfold PGSIZE; lia.
Qed.

(** The free list survives changes outside the free pages. *)
Lemma kinv_frame ps s s' l :
  kinv s l → mem_frame ps (mem s) (mem s') → freelist s' = freelist s →
  phys_top s' = phys_top s → Forall (λ p, p mod PGSIZE = 0) ps → (∀ p, p ∈ l → p ∉ ps) →
  kinv s' l.
Proof.
  intros [Hc Hnd Hp Ht] Hf Hfl Htop Hps Hd. split; rewrite ?Htop, ?Hfl; try done.
  eapply chain_frame; eauto using pages_aligned.
Qed.

Lemma kinv_empty s : freelist s = 0 → phys_top s ≤ 2 ^ 55 → kinv s [].
Proof. intros Hr Ht. split; [done| constructor | constructor | done]. Qed.

Lemma kalloc_some s p l :
  kinv s (p :: l) →
  returns kalloc s (λ r s',
    r = p ∧ kinv s' l ∧ mem_frame [p] (mem s) (mem s') ∧ phys_top s' = phys_top s
    ∧ ∀ b, in_page p b → mget (mem s') b = 5).
Proof.
  intros [Hc Hnd Hp Ht]. destruct Hc as [Hr Hc]. inversion_clear Hnd. inversion_clear Hp.
  assert (freelist s ≠ 0) by (rewrite Hr; eapply page_ok_nonzero; eauto).
  unfold kalloc, returns, bind, gets, modify, ret.
  destruct (Z.eqb_spec (freelist s) 0); [done|].
  eexists _, _. split; [done|]. rewrite Hr. simpl. split; [done|]. split.
  - apply (kinv_frame [p] (with_freelist (load64 (mem s) p) s)); simpl; auto.
    + split; done.
    + apply mem_frame_memset.
    + repeat constructor. eapply page_ok_aligned; eauto.
    + intros q Hq ->%list_elem_of_singleton. done.
  - split; [apply mem_frame_memset|]. split; [done|]. intros b Hb.
    rewrite mget_memset by done. by rewrite decide_True.
Qed.

Lemma kalloc_none s : kinv s [] → kalloc s = Ok 0 s.
Proof. intros [Hc _ _ _]. simpl in Hc. unfold kalloc, bind, gets. by rewrite Hc. Qed.

Lemma kfree_ok s pa l :
  kinv s l → page_ok (phys_top s) pa → pa ∉ l →
  returns (kfree pa) s (λ _ s',
    kinv s' (pa :: l) ∧ mem_frame [pa] (mem s) (mem s') ∧ phys_top s' = phys_top s).
Proof.
  intros Hinv Hpa Hnin. pose proof Hpa as (Hal & Hlo & Hhi).
  unfold kfree, returns, bind, gets, modify. simpl.
  rewrite (proj2 (Z.eqb_eq _ _) Hal), (proj2 (Z.ltb_ge _ _) Hlo). simpl.
  rewrite (proj2 (Z.leb_gt _ _) Hhi). eexists _, _. split; [done|]. simpl.
  assert (Hf : mem_frame [pa] (mem s)
                 (store64 (memset (mem s) pa 1 PGSIZE) pa (freelist s))).
  { eapply mem_frame_trans; [apply mem_frame_memset|]. apply mem_frame_store64; unfold PGSIZE; lia. }
  destruct Hinv as [Hc Hnd Hp Ht]. split_and!; [|done|done]. split; simpl; try done.
  - split; [done|]. rewrite load64_store64.
    + eapply chain_frame; eauto using pages_aligned. intros q Hq ->%list_elem_of_singleton. done.
    + destruct l as [|q l']; simpl in Hc; [rewrite Hc; done|]. destruct Hc as [-> _].
      apply Forall_cons in Hp as [Hq _]. pose proof (page_ok_range _ _ Hq Ht). lia.
  - by constructor.
  - by constructor.
Qed.

Lemma kfree_bad s pa :
  pa mod PGSIZE ≠ 0 ∨ pa < kend ∨ phys_top s ≤ pa → kfree pa s = Panic "kfree".
Proof.
  intros Hbad. unfold kfree, bind, gets, panic. simpl.
  destruct (Z.eqb_spec (pa mod PGSIZE) 0); [|done]. simpl.
  destruct (Z.ltb_spec pa kend); [done|]. simpl.
  destruct (Z.leb_spec (phys_top s) pa); [done|]. lia.
Qed.

(** Distinct allocator pages below [top] are at most [top / PGSIZE] many. *)
Lemma pages_pigeonhole top l :
  NoDup l → Forall (page_ok top) l → (length l ≤ Z.to_nat (top / PGSIZE))%nat.
Proof.
  intros Hnd Hl. rewrite Forall_forall in Hl. pose proof kend_pos as Hk.
  rewrite <- (length_fmap (λ p, Z.to_nat (p / PGSIZE)) l).
  rewrite <- (length_seq (Z.to_nat (top / PGSIZE)) 1).
  apply submseteq_length, NoDup_submseteq.
  - apply NoDup_fmap_2_strong; [|done]. intros p q Hp Hq E.
    destruct (Hl p Hp) as (? & ? & ?), (Hl q Hq) as (? & ? & ?).
    apply Z2Nat.inj in E; unfold PGSIZE in *; dlia.
  - intros x (p & -> & Hp)%list_elem_of_fmap. destruct (Hl p Hp) as (Hal & ? & ?).
    apply elem_of_seq. unfold PGSIZE in *. dlia.
Qed.

Lemma count_free_chain fuel m r l n :
  chain m r l → Forall (λ p, p ≠ 0) l → (length l < fuel)%nat →
  0 ≤ n → n + Z.of_nat (length l) < 2 ^ 64 →
  count_free fuel m r n = Some (n + Z.of_nat (length l)).
Proof.
  revert fuel r n. induction l as [|p l IH]; intros [|fuel] r n Hc Hl Hf Hn Hb; simpl in *; try lia.
  - subst r. simpl. f_equal. lia.
  - destruct Hc as [-> Hc]. inversion_clear Hl as [|?? Hp Hl']. destruct (Z.eqb_spec p 0); [done|].
    rewrite u64_id by lia. rewrite IH by (done || lia). f_equal. lia.
Qed.

Lemma kfreemem_ok s l :
  kinv s l → kfreemem s = Ok (PGSIZE * Z.of_nat (length l)) s.
Proof.
  intros [Hc Hnd Hp Ht]. unfold kfreemem, bind, gets, id.
  pose proof (pages_pigeonhole _ _ Hnd Hp) as Hlen.
  assert (0 ≤ PGSIZE * Z.of_nat (length l) < 2 ^ 64) by (unfold PGSIZE in *; dlia).
  rewrite (count_free_chain _ _ _ l).
  - by rewrite Z.add_0_l, (Z.mul_comm (Z.of_nat _)), u64_id.
  - done.
  - eapply Forall_impl; [exact Hp|]. intros q. apply page_ok_nonzero.
  - lia.
  - done.
  - unfold PGSIZE in *; lia.
Qed.

(** The [n] pages from [p] upwards. *)
Definition pages_from (p : Z) (n : nat) : list Z := (λ i, p + PGSIZE * Z.of_nat i) <$> seq 0 n.

Lemma pages_from_S p n : pages_from p (S n) = p :: pages_from (p + PGSIZE) n.
Proof.
  unfold pages_from. cbn [seq fmap list_fmap]. f_equal; [lia|].
  rewrite <- fmap_S_seq, <- list_fmap_compose. apply list_fmap_ext. intros i x _.
  unfold compose. lia.
Qed.

Lemma elem_of_pages_from q p n :
  q ∈ pages_from p n ↔ ∃ i, q = p + PGSIZE * i ∧ 0 ≤ i < Z.of_nat n.
Proof.
  unfold pages_from. rewrite list_elem_of_fmap. split.
  - intros (i & -> & Hi%elem_of_seq). exists (Z.of_nat i). lia.
  - intros (i & -> & Hi). exists (Z.to_nat i). rewrite elem_of_seq, Z2Nat.id by lia. split; [done|lia].
Qed.

Lemma freerange_loop_ok fuel n s p pa_end l :
  kinv s l → p mod PGSIZE = 0 → kend ≤ p → pa_end ≤ phys_top s →
  n = Z.to_nat ((pa_end - p) / PGSIZE) → (n < fuel)%nat →
  (∀ q, q ∈ pages_from p n → q ∉ l) →
  returns (freerange_loop fuel p pa_end) s (λ _ s',
    kinv s' (reverse (pages_from p n) ++ l) ∧ phys_top s' = phys_top s).
Proof.
  revert n s p l. induction fuel as [|f IH]; intros n s p l Hinv Hal Hlo Hhi Hn Hf Hnew; [lia|].
  cbn [freerange_loop]. destruct (Z.leb_spec (p + PGSIZE) pa_end) as [Hle|Hgt].
  - destruct n as [|n]; [unfold PGSIZE in *; dlia|]. rewrite pages_from_S in *.
    eapply returns_bind; [apply kfree_ok; eauto|].
    + repeat split; try done. unfold PGSIZE in *; lia.
    + apply Hnew. by left.
    + intros u s1 (Hinv1 & _ & Ht1). eapply returns_mono; [apply (IH n); eauto|].
      * unfold PGSIZE in *. dlia.
      * unfold PGSIZE in *. lia.
      * by rewrite Ht1.
      * unfold PGSIZE in *. dlia.
      * lia.
      * intros q Hq. rewrite not_elem_of_cons. split.
        -- intros ->. apply elem_of_pages_from in Hq as (i & ? & ?). unfold PGSIZE in *. lia.
        -- apply Hnew. by right.
      * intros v s2 (Hinv2 & Ht2). rewrite Ht2, Ht1. split; [|done].
        by rewrite reverse_cons, <- app_assoc.
  - replace n with 0%nat by (unfold PGSIZE in *; dlia). by apply returns_ret.
Qed.

(** The pages that [kinit] hands to the allocator when memory ends at [top]. *)
Definition boot_pages (top : Z) : list Z :=
  pages_from (PGROUNDUP kend) (Z.to_nat ((top - PGROUNDUP kend) / PGSIZE)).

Lemma PGROUNDUP_kend : PGROUNDUP kend mod PGSIZE = 0 ∧ kend ≤ PGROUNDUP kend < kend + PGSIZE.
Proof.
  pose proof kend_pos. pose proof kend_small.
  rewrite PGROUNDUP_eq by (unfold PGSIZE; lia). unfold PGSIZE. dlia.
Qed.

Lemma freerange_ok s top :
  kinv s [] → phys_top s = top →
  returns (freerange kend top) s (λ _ s', kinv s' (reverse (boot_pages top)) ∧ phys_top s' = top).
Proof.
  intros Hinv <-. destruct PGROUNDUP_kend as (Hal & Hlo & Hhi). pose proof kend_pos.
  eapply returns_mono; [eapply freerange_loop_ok; eauto; try done|].
  - destruct (decide (phys_top s ≤ PGROUNDUP kend)).
    + replace (Z.to_nat _) with 0%nat by (unfold PGSIZE in *; dlia). lia.
    + unfold PGSIZE in *. dlia.
  - intros q _. apply not_elem_of_nil.
  - intros u s' [Hi Ht]. by rewrite app_nil_r in Hi.
Qed.

End Facts.

(** ** Clients of the allocator

    A client step allocates a page, frees one it holds, or writes the contents
    of one it holds; the second component is the list of pages held. *)

Section Clients.
Context {LK : Linker} {LKok : LinkerOk}.

Inductive astep : kmem_state * list Z → kmem_state * list Z → Prop :=
| astep_alloc s s' A p :
    kalloc s = Ok p s' → p ≠ 0 → astep (s, A) (s', p :: A)
| astep_oom s s' A :
    kalloc s = Ok 0 s' → astep (s, A) (s', A)
| astep_free s s' A1 A2 p :
    kfree p s = Ok tt s' → astep (s, A1 ++ p :: A2) (s', A1 ++ A2)
| astep_write s A p m :
    p ∈ A → mem_frame [p] (mem s) m → astep (s, A) (with_mem m s, A).

(** The invariant of a system of clients: the pages are partitioned into free
    and held ones. *)
Definition ainv (top : Z) (pages : list Z) (c : kmem_state * list Z) : Prop :=
  ∃ l, kinv c.1 l ∧ phys_top c.1 = top ∧ c.2 ++ l ≡ₚ pages ∧ NoDup (c.2 ++ l)
       ∧ Forall (page_ok top) (c.2 ++ l).

Lemma astep_ainv top pages c c' : astep c c' → ainv top pages c → ainv top pages c'.
Proof.
  intros Hstep (l & Hinv & Htop & Hperm & Hnd & Hok). destruct Hstep as
    [s s' A p Hal Hp|s s' A Hal|s s' A1 A2 p Hfr|s A p m Hp Hfr]; simpl in *.
  - destruct l as [|q l].
    + rewrite kalloc_none in Hal by done. naive_solver.
    + destruct (kalloc_some _ _ _ Hinv) as (r & s2 & Hr & -> & Hinv' & _ & Ht' & _).
      rewrite Hal in Hr. simplify_eq. exists l. cbn [fst snd].
      assert (E : (q :: A) ++ l ≡ₚ A ++ q :: l) by apply Permutation_middle.
      rewrite E, Ht'. done.
  - destruct l as [|q l].
    + rewrite kalloc_none in Hal by done. simplify_eq. by exists [].
    + destruct (kalloc_some _ _ _ Hinv) as (r & s2 & Hr & -> & _). rewrite Hal in Hr.
      simplify_eq. destruct Hinv as [_ _ Hl _]. inversion_clear Hl as [|?? Hq].
      by apply page_ok_nonzero in Hq.
  - assert (E : (A1 ++ p :: A2) ++ l ≡ₚ (A1 ++ A2) ++ p :: l).
    { rewrite <- !app_assoc. simpl. apply Permutation_app; [done|]. apply Permutation_middle. }
    rewrite E in Hperm, Hnd, Hok.
    assert (Hp : p ∉ l ∧ page_ok (phys_top s) p).
    { apply NoDup_app in Hnd as (_ & _ & [Hn _]%NoDup_cons).
      apply Forall_app in Hok as [_ [Hok _]%Forall_cons]. by rewrite Htop. }
    destruct (kfree_ok s p l) as (u & s2 & Hs2 & Hinv' & _ & Ht'); try tauto.
    rewrite Hfr in Hs2. simplify_eq. exists (p :: l). cbn [fst snd]. by rewrite Ht'.
  - exists l. split_and!; try done. apply (kinv_frame [p] s); simpl; try done.
    + repeat constructor. rewrite Forall_app in Hok. destruct Hok as [HA _].
      rewrite Forall_forall in HA. by apply (page_ok_aligned _ _ (HA p Hp)).
    + intros q Hq ->%list_elem_of_singleton. apply NoDup_app in Hnd as (_ & Hd & _).
      by apply (Hd p).
Qed.

Lemma pages_from_NoDup p n : NoDup (pages_from p n).
Proof.
  unfold pages_from. apply NoDup_fmap_2_strong; [|apply NoDup_seq].
  intros i j _ _ E. unfold PGSIZE in E. lia.
Qed.

Lemma boot_pages_ok top : Forall (page_ok top) (boot_pages top).
Proof.
  apply Forall_forall. intros q (i & -> & Hi)%elem_of_pages_from.
  destruct PGROUNDUP_kend as (Hal & Hlo & Hhi). unfold page_ok, PGSIZE in *. dlia.
Qed.

Lemma kinit_ok fuel dtb s t :
  let top := if t =? 0 then PHYSTOP else t in
  fdt_get_memory_size fuel (mem s) dtb = Some t → top ≤ 2 ^ 55 → freelist s = 0 →
  returns (kinit fuel dtb) s (λ _ s', phys_top s' = top ∧ kinv s' (reverse (boot_pages top))).
Proof.
  intros top Hfdt Htop Hnil.
  destruct (freerange_ok (with_phys_top top s) top) as (u & s2 & Hfr & Hi & Ht);
    [by apply kinv_empty|done|].
  exists u, s2. split; [|done]. unfold kinit, bind, gets, modify, ret. rewrite Hfdt. subst top.
  destruct (Z.eqb_spec t 0); simpl; unfold with_phys_top in *; simpl in *; exact Hfr.
Qed.

(** C25 [refinement]. On a state that represents a free list, [kalloc] returns
    the head page, filled with 5s, and represents the tail; with no free page
    it returns 0 and changes nothing.  [kfree] of an allocator page that is not
    free puts it at the head.  Neither touches memory outside that page.
    [kfree] of anything else (not page-aligned, below the end of the kernel, not
    below the end of memory) panics. *)
Theorem allocator_refines_list s l :
  kinv s l →
  match l with
  | [] => kalloc s = Ok 0 s
  | p :: l' => returns kalloc s (λ r s', r = p ∧ kinv s' l' ∧ mem_frame [p] (mem s) (mem s')
                 ∧ ∀ b, in_page p b → mget (mem s') b = 5)
  end
  ∧ (∀ pa, page_ok (phys_top s) pa → pa ∉ l →
      returns (kfree pa) s (λ _ s', kinv s' (pa :: l) ∧ mem_frame [pa] (mem s) (mem s')))
  ∧ ∀ pa, ¬ page_ok (phys_top s) pa → kfree pa s = Panic "kfree".
Proof.
  intros Hinv. split; [|split].
  - destruct l as [|p l]; [by apply kalloc_none|].
    eapply returns_mono; [by apply kalloc_some|].
    intros r s' (-> & Hi & Hf & _ & Hb). auto.
  - intros pa Hpa Hnin. eapply returns_mono; [by apply kfree_ok|].
    intros u s' (Hi & Hf & _). auto.
  - intros pa Hpa. apply kfree_bad. unfold page_ok in Hpa. lia.
Qed.

(** C1 [invariant]. [kinit] succeeds, and along any sequence of client steps
    after it the pages held and the free pages are exactly the pages of RAM
    above the kernel, each once: a page is never handed out twice and none is
    lost. *)
Theorem allocator_conserves_pages fuel dtb s0 t :
  let top := if t =? 0 then PHYSTOP else t in
  fdt_get_memory_size fuel (mem s0) dtb = Some t → top ≤ 2 ^ 55 → freelist s0 = 0 →
  returns (kinit fuel dtb) s0 (λ _ s1, ∀ s A, rtc astep (s1, []) (s, A) →
    ∃ l, kinv s l ∧ A ++ l ≡ₚ boot_pages top ∧ NoDup (A ++ l)).
Proof.
  intros top Hfdt Htop Hnil. eapply returns_mono; [by apply (kinit_ok fuel dtb s0 t)|].
  intros u s1 [Ht Hi] s A Hsteps.
  assert (Hinv1 : ainv top (boot_pages top) (s1, [])).
  { exists (reverse (boot_pages top)). simpl. split_and!; try done; rewrite ?reverse_Permutation; try done.
    - apply pages_from_NoDup.
    - apply boot_pages_ok. }
  assert (Hinv : ainv top (boot_pages top) (s, A)).
  { clear Ht Hi. induction Hsteps; eauto using astep_ainv. }
  destruct Hinv as (l & ? & ? & ? & ? & ?). eauto.
Qed.

(** C31 [functional]. [kinit] returns, and frees every page between the end of
    the kernel and the end of memory (the device tree's, or [PHYSTOP] when it
    gives none); [kfreemem] then counts exactly their bytes.  The walk of the
    device tree ends: [fdt_fuel] turns are enough once any byte after the
    structure block is zero (as the strings block of every tree ends in one),
    and more fuel gives the same end of memory.  The walk of the free list ends
    within the memory size. *)
Theorem kinit_frees_all_memory dtb s z :
  mget (mem s) z = 0 → fdt_end (mem s) dtb + 4 ≤ z → freelist s = 0 →
  ∃ t, let top := if t =? 0 then PHYSTOP else t in
    ∀ fuel, (fdt_fuel (mem s) dtb z ≤ fuel)%nat →
      fdt_get_memory_size fuel (mem s) dtb = Some t
      ∧ (top ≤ 2 ^ 55 → returns (kinit fuel dtb) s (λ _ s', phys_top s' = top
           ∧ kinv s' (reverse (boot_pages top))
           ∧ kfreemem s' = Ok (PGSIZE * Z.of_nat (Z.to_nat ((top - PGROUNDUP kend) / PGSIZE))) s')).
Proof.
  intros Hz Hend Hnil. destruct (fdt_get_memory_size_ends (mem s) dtb z Hz Hend) as [t Ht].
  exists t. intros top fuel Hf. split; [by apply Ht|]. intros Htop.
  eapply returns_mono; [apply (kinit_ok fuel dtb s t); [by apply Ht|done|done]|].
  intros u s' [Htop' Hi]. split_and!; try done.
  rewrite (kfreemem_ok _ _ Hi), length_reverse. unfold boot_pages, pages_from.
  by rewrite length_fmap, length_seq.
Qed.

End Clients.

(** ** A concrete kernel image *)

Module Demo.

Definition linker : Linker := {| kend := 0x80021000; etext := 0x80008000; trampoline := 0x80007000 |}.

Lemma linker_ok : @LinkerOk linker.
Proof. split; vm_compute; done. Qed.

(** Two free pages, the first linked to the second. *)
Definition two_pages : kmem_state :=
  KMem (store64 ∅ 0x80030000 0x80031000) 0x80030000 PHYSTOP.

Lemma two_pages_kinv : @kinv linker two_pages [0x80030000; 0x80031000].
Proof.
  split.
  - vm_compute. auto.
  - repeat (constructor; [vm_compute; set_solver|]). constructor.
  - repeat constructor; vm_compute; done.
  - vm_compute. done.
Qed.

(** A device tree at 0x82000000 with a root node and a memory node whose [reg]
    says that memory is 1 MB at [KERNBASE]; big-endian words. *)
Definition tree : list Z :=
  [FDT_MAGIC; 116; 40; 108; 40; 17; 16; 0; 8; 68;      (* header *)
   FDT_BEGIN_NODE; 0;                                   (* the root: an empty name *)
   FDT_BEGIN_NODE; 0x6d656d6f; 0x72794038; 0x30303030; 0x30303000;   (* memory@80000000 *)
   FDT_PROP; 16; 0; 0; 0x80000000; 0; 0x100000;         (* reg *)
   FDT_END_NODE; FDT_END_NODE; FDT_END;
   0x72656700; 0].                                      (* strings: reg *)

Fixpoint store_words (m : memory) (a : Z) (ws : list Z) : memory :=
  match ws with
  | [] => m
  | w :: ws' => store_words (store32 m a (bswap32 w)) (a + 4) ws'
  end.

Definition with_tree : kmem_state := KMem (store_words ∅ 0x82000000 tree) 0 0.

End Demo.

Lemma allocator_refines_list_witness :
  (returns (@kalloc) Demo.two_pages (λ r s', r = 0x80030000 ∧ @kinv Demo.linker s' [0x80031000]))
  ∧ returns (@kfree Demo.linker 0x80032000) Demo.two_pages (λ _ s',
      @kinv Demo.linker s' [0x80032000; 0x80030000; 0x80031000])
  ∧ @kfree Demo.linker 0x80032008 Demo.two_pages = Panic "kfree".
Proof.
  destruct (@allocator_refines_list Demo.linker Demo.linker_ok _ _ Demo.two_pages_kinv) as (H1 & H2 & H3).
  split_and!; [| |apply H3; intros [E _]; vm_compute in E; discriminate].
  - eapply returns_mono; [exact H1|]. intros r s' (? & ? & _). auto.
  - eapply returns_mono; [apply (H2 0x80032000)|].
    + repeat split; vm_compute; done.
    + set_solver.
    + intros u s' (? & _). done.
Defined.

Lemma allocator_conserves_pages_witness :
  returns (@kinit Demo.linker 0 0) (KMem ∅ 0 0) (λ _ s1, ∀ s A, rtc (@astep Demo.linker) (s1, []) (s, A) →
    ∃ l, @kinv Demo.linker s l ∧ A ++ l ≡ₚ @boot_pages Demo.linker PHYSTOP ∧ NoDup (A ++ l)).
Proof. by apply (@allocator_conserves_pages Demo.linker Demo.linker_ok 0 0 (KMem ∅ 0 0) 0). Defined.

(** The tree is walked to its [reg], and memory ends at 0x80100000. *)
Lemma kinit_frees_all_memory_witness :
  ∃ fuel, fdt_get_memory_size fuel (mem Demo.with_tree) 0x82000000 = Some 0x80100000
  ∧ returns (@kinit Demo.linker fuel 0x82000000) Demo.with_tree (λ _ s',
      phys_top s' = 0x80100000 ∧ @kfreemem s' = Ok (0x80100000 - 0x80021000) s').
Proof.
  set (N := fdt_fuel (mem Demo.with_tree) 0x82000000 0x82000074). exists N.
  destruct (@kinit_frees_all_memory Demo.linker Demo.linker_ok 0x82000000 Demo.with_tree 0x82000074)
    as [t Ht]; [reflexivity|vm_compute; discriminate|reflexivity|].
  destruct (Ht N (le_n _)) as [Et Hk].
  assert (E : fdt_get_memory_size N (mem Demo.with_tree) 0x82000000 = Some 0x80100000) by (vm_compute; reflexivity).
  assert (t = 0x80100000) as -> by congruence. split; [exact E|].
  eapply returns_mono; [apply Hk; vm_compute; discriminate|].
  intros u s' (E1 & _ & E2). split; [exact E1|]. rewrite E2. reflexivity.
Defined.
