(* ===== verification/Vm.v ===== *)
(** kernel/mm/vm.c and [proc_mapstacks] of kernel/proc/proc.c: Sv39 page tables
    in physical memory, user address spaces, and copies between the kernel and
    user space.

    A page table is the address of its root page; a PTE pointer is the address
    of an eight-byte word; 0 is the null pointer.  Kernel buffers that are not
    in pages (structures, stack arrays) are lists of bytes. *)

From S2P Require Import Prelude Machine CString Kalloc.

(** ** Memory accesses *)

Definition rd64 (a : Z) : K Z := gets (λ s, load64 (mem s) a).

Definition wr64 (a v : Z) : K unit := modify (λ s, with_mem (store64 (mem s) a v) s).

(** [memset(p, c, PGSIZE)] on a page. *)
Definition fill_page (p c : Z) : K unit := modify (λ s, with_mem (memset (mem s) p c PGSIZE) s).

(** [memmove] from a kernel buffer to memory. *)
Fixpoint put_bytes (m : memory) (a : Z) (bs : list Z) : memory :=
  match bs with
  | [] => m
  | b :: bs' => put_bytes (mset m a b) (a + 1) bs'
  end.

(** The indices of a page-table page. *)
Definition ptes : list Z := seqZ 0 512.

Section Operations.
Context `{Linker}.

(** ** Page tables *)

(** The loop of [walk], from [level] down to 1; [level = 0] is its end. *)
Fixpoint walk_loop (level : nat) (pagetable va : Z) (alloc : bool) : K Z :=
  match level with
  | O => ret (pagetable + 8 * PX 0 va)
  | S l =>
      let pte := pagetable + 8 * PX (Z.of_nat level) va in
      let! e := rd64 pte in
      if has e PTE_V then walk_loop l (PTE2PA e) va alloc
      else if negb alloc then ret 0
      else
        let! page := kalloc in
        if page =? 0 then ret 0
        else
          fill_page page 0 ;;;
          wr64 pte (Z.lor (PA2PTE page) PTE_V) ;;;
          walk_loop l page va alloc
  end.

Definition walk (pagetable va : Z) (alloc : bool) : K Z :=
  if MAXVA <=? va then panic "walk" else walk_loop 2 pagetable va alloc.

Definition walkaddr (pagetable va : Z) : K Z :=
  if MAXVA <=? va then ret 0
  else
    let! pte := walk pagetable va false in
    if pte =? 0 then ret 0
    else
      let! e := rd64 pte in
      if negb (has e PTE_V) then ret 0
      else if negb (has e PTE_U) then ret 0
      else ret (PTE2PA e).

(** The [for (;;)] loop of [mappages]; its [size / PGSIZE]-th round has
    [a == last]. *)
Fixpoint mappages_loop (fuel : nat) (pagetable a last pa perm : Z) : K Z :=
  match fuel with
  | O => nofuel
  | S f =>
      let! pte := walk pagetable a true in
      if pte =? 0 then ret (-1)
      else
        let! e := rd64 pte in
        if has e PTE_V then panic "mappages: remap"
        else
          wr64 pte (Z.lor (Z.lor (PA2PTE pa) perm) PTE_V) ;;;
          if a =? last then ret 0
          else mappages_loop f pagetable (u64 (a + PGSIZE)) last (u64 (pa + PGSIZE)) perm
  end.

Definition mappages (pagetable va size pa perm : Z) : K Z :=
  if negb (va mod PGSIZE =? 0) then panic "mappages: va not aligned"
  else if negb (size mod PGSIZE =? 0) then panic "mappages: size not aligned"
  else if size =? 0 then panic "mappages: size"
  else mappages_loop (Z.to_nat (size / PGSIZE)) pagetable va (u64 (va + size - PGSIZE)) pa perm.

Definition kvmmap (kpgtbl va pa sz perm : Z) : K unit :=
  let! r := mappages kpgtbl va sz pa perm in
  if negb (r =? 0) then panic "kvmmap" else ret tt.

(** [proc_mapstacks] of proc.c. *)
Definition NPROC : Z := 64.

Definition proc_mapstacks (kpgtbl : Z) : K unit :=
  for_each (seqZ 0 NPROC) (λ p,
    let! pa := kalloc in
    if pa =? 0 then panic "kalloc"
    else kvmmap kpgtbl (KSTACK p) pa PGSIZE (Z.lor PTE_R PTE_W)).

Definition UART0 : Z := 0x10000000.

Definition VIRT_TEST : Z := 0x100000.

Definition VIRTIO0 : Z := 0x10001000.

Definition PLIC : Z := 0x0c000000.

Definition kvmmake : K Z :=
  let! kpgtbl := kalloc in
  fill_page kpgtbl 0 ;;;
  kvmmap kpgtbl UART0 UART0 PGSIZE (Z.lor PTE_R PTE_W) ;;;
  kvmmap kpgtbl VIRT_TEST VIRT_TEST PGSIZE (Z.lor PTE_R PTE_W) ;;;
  kvmmap kpgtbl VIRTIO0 VIRTIO0 PGSIZE (Z.lor PTE_R PTE_W) ;;;
  kvmmap kpgtbl PLIC PLIC 0x4000000 (Z.lor PTE_R PTE_W) ;;;
  kvmmap kpgtbl KERNBASE KERNBASE (u64 (etext - KERNBASE)) (Z.lor PTE_R PTE_X) ;;;
  let! top := kphys_top in
  kvmmap kpgtbl etext etext (u64 (top - etext)) (Z.lor PTE_R PTE_W) ;;;
  kvmmap kpgtbl TRAMPOLINE trampoline PGSIZE (Z.lor PTE_R PTE_X) ;;;
  proc_mapstacks kpgtbl ;;;
  ret kpgtbl.

(** ** User address spaces *)

Definition uvmcreate : K Z :=
  let! pagetable := kalloc in
  if pagetable =? 0 then ret 0
  else fill_page pagetable 0 ;;; ret pagetable.

Fixpoint uvmunmap_loop (fuel : nat) (pagetable a last : Z) (do_free : bool) : K unit :=
  match fuel with
  | O => nofuel
  | S f =>
      if negb (a <? last) then ret tt
      else
        let next := uvmunmap_loop f pagetable (u64 (a + PGSIZE)) last do_free in
        let! pte := walk pagetable a false in
        if pte =? 0 then next
        else
          let! e := rd64 pte in
          if negb (has e PTE_V) then next
          else
            (if do_free then kfree (PTE2PA e) else ret tt) ;;;
            wr64 pte 0 ;;;
            next
  end.

Definition uvmunmap (pagetable va npages : Z) (do_free : bool) : K unit :=
  if negb (va mod PGSIZE =? 0) then panic "uvmunmap: not aligned"
  else uvmunmap_loop (S (Z.to_nat npages)) pagetable va (u64 (va + u64 (npages * PGSIZE))) do_free.

Definition uvmdealloc (pagetable oldsz newsz : Z) : K Z :=
  if oldsz <=? newsz then ret oldsz
  else
    (if PGROUNDUP newsz <? PGROUNDUP oldsz then
       let npages := s32 ((PGROUNDUP oldsz - PGROUNDUP newsz) / PGSIZE) in
       uvmunmap pagetable (PGROUNDUP newsz) (u64 npages) true
     else ret tt) ;;;
    ret newsz.

Fixpoint uvmalloc_loop (fuel : nat) (pagetable a oldsz newsz xperm : Z) : K Z :=
  match fuel with
  | O => nofuel
  | S f =>
      if negb (a <? newsz) then ret newsz
      else
        let! page := kalloc in
        if page =? 0 then uvmdealloc pagetable a oldsz ;;; ret 0
        else
          fill_page page 0 ;;;
          let! r := mappages pagetable a PGSIZE page (Z.lor (Z.lor PTE_R PTE_U) xperm) in
          if negb (r =? 0) then
            kfree page ;;;
            uvmdealloc pagetable a oldsz ;;;
            ret 0
          else uvmalloc_loop f pagetable (u64 (a + PGSIZE)) oldsz newsz xperm
  end.

Definition uvmalloc (pagetable oldsz newsz xperm : Z) : K Z :=
  if newsz <? oldsz then ret oldsz
  else
    let oldsz := PGROUNDUP oldsz in
    uvmalloc_loop (S (Z.to_nat (newsz / PGSIZE + 1))) pagetable oldsz oldsz newsz xperm.

(** [freewalk]: the source's recursion follows the levels of the table. *)
Fixpoint freewalk (depth : nat) (pagetable : Z) : K unit :=
  match depth with
  | O => nofuel
  | S d =>
      for_each ptes (λ i,
        let! pte := rd64 (pagetable + 8 * i) in
        if has pte PTE_V && (Z.land pte (Z.lor (Z.lor PTE_R PTE_W) PTE_X) =? 0) then
          freewalk d (PTE2PA pte) ;;;
          wr64 (pagetable + 8 * i) 0
        else if has pte PTE_V then panic "freewalk: leaf"
        else ret tt) ;;;
      kfree pagetable
  end.

Definition uvmfree (pagetable sz : Z) : K unit :=
  (if 0 <? sz then uvmunmap pagetable 0 (PGROUNDUP sz / PGSIZE) true else ret tt) ;;;
  freewalk 3 pagetable.

Definition copy_page (dst src : Z) : K unit :=
  modify (λ s, with_mem (memmove (mem s) dst src PGSIZE) s).

Fixpoint uvmcopy_loop (fuel : nat) (old new i sz : Z) : K Z :=
  let err := uvmunmap new 0 (i / PGSIZE) true ;;; ret (-1) in
  match fuel with
  | O => nofuel
  | S f =>
      if negb (i <? sz) then ret 0
      else
        let next := uvmcopy_loop f old new (u64 (i + PGSIZE)) sz in
        let! pte := walk old i false in
        if pte =? 0 then next
        else
          let! e := rd64 pte in
          if negb (has e PTE_V) then next
          else
            let pa := PTE2PA e in
            let flags := PTE_FLAGS e in
            let! page := kalloc in
            if page =? 0 then err
            else
              copy_page page pa ;;;
              let! r := mappages new i PGSIZE page flags in
              if negb (r =? 0) then kfree page ;;; err
              else next
  end.

Definition uvmcopy (old new sz : Z) : K Z :=
  uvmcopy_loop (S (Z.to_nat (sz / PGSIZE + 1))) old new 0 sz.

Definition uvmclear (pagetable va : Z) : K unit :=
  let! pte := walk pagetable va false in
  if pte =? 0 then panic "uvmclear"
  else
    let! e := rd64 pte in
    wr64 pte (Z.land e (Z.lnot PTE_U)).

(** ** Copies between the kernel and user space *)

Fixpoint copyout_loop (fuel : nat) (pagetable dstva : Z) (src : list Z) (len : Z) : K Z :=
  match fuel with
  | O => nofuel
  | S f =>
      if negb (0 <? len) then ret 0
      else
        let va0 := PGROUNDDOWN dstva in
        if MAXVA <=? va0 then ret (-1)
        else
          let! pa0 := walkaddr pagetable va0 in
          if pa0 =? 0 then ret (-1)
          else
            let! pte := walk pagetable va0 false in
            let! e := rd64 pte in
            if negb (has e PTE_W) then ret (-1)
            else
              let n := Z.min (PGSIZE - (dstva - va0)) len in
              modify (λ s, with_mem (put_bytes (mem s) (pa0 + (dstva - va0)) (take (Z.to_nat n) src)) s) ;;;
              copyout_loop f pagetable (u64 (va0 + PGSIZE)) (drop (Z.to_nat n) src) (len - n)
  end.

Definition copyout (pagetable dstva : Z) (src : list Z) (len : Z) : K Z :=
  copyout_loop (Z.to_nat (len / PGSIZE + 3)) pagetable dstva src len.

(** [copyin] returns its result and the bytes it stored at [dst]. *)
Fixpoint copyin_loop (fuel : nat) (pagetable : Z) (dst : list Z) (srcva len : Z) : K (Z * list Z) :=
  match fuel with
  | O => nofuel
  | S f =>
      if negb (0 <? len) then ret (0, dst)
      else
        let va0 := PGROUNDDOWN srcva in
        let! pa0 := walkaddr pagetable va0 in
        if pa0 =? 0 then ret (-1, dst)
        else
          let n := Z.min (PGSIZE - (srcva - va0)) len in
          let! bs := gets (λ s, load_bytes (mem s) (pa0 + (srcva - va0)) (Z.to_nat n)) in
          copyin_loop f pagetable (dst ++ bs) (u64 (va0 + PGSIZE)) (len - n)
  end.

Definition copyin (pagetable srcva len : Z) : K (Z * list Z) :=
  copyin_loop (Z.to_nat (len / PGSIZE + 3)) pagetable [] srcva len.

(** The inner loop of [copyinstr] over the [n] bytes at [p]: what it stores at
    [dst], and whether it met the NUL. *)
Fixpoint copyinstr_page (n : nat) (m : memory) (p : Z) : list Z * bool :=
  match n with
  | O => ([], false)
  | S n' =>
      if mget m p =? 0 then ([0], true)
      else let '(bs, got_null) := copyinstr_page n' m (p + 1) in (mget m p :: bs, got_null)
  end.

Fixpoint copyinstr_loop (fuel : nat) (pagetable : Z) (dst : list Z) (srcva max : Z) : K (Z * list Z) :=
  match fuel with
  | O => nofuel
  | S f =>
      if negb (0 <? max) then ret (-1, dst)
      else
        let va0 := PGROUNDDOWN srcva in
        let! pa0 := walkaddr pagetable va0 in
        if pa0 =? 0 then ret (-1, dst)
        else
          let n := Z.min (PGSIZE - (srcva - va0)) max in
          let! r := gets (λ s, copyinstr_page (Z.to_nat n) (mem s) (pa0 + (srcva - va0))) in
          let '(bs, got_null) := r in
          if got_null then ret (0, dst ++ bs)
          else copyinstr_loop f pagetable (dst ++ bs) (u64 (va0 + PGSIZE)) (max - n)
  end.

Definition copyinstr (pagetable srcva max : Z) : K (Z * list Z) :=
  copyinstr_loop (Z.to_nat (max / PGSIZE + 3)) pagetable [] srcva max.

(** The lab's page-fault hook is not written yet: every fault is refused. *)
Definition vmfault (pagetable va read : Z) : K Z := ret 0.

End Operations.
