(* ===== verification/PageTable.v ===== *)
(** The page-table tree that a root page represents, and [walk].

    [pt_pages] lists the pages of the tree, [pte_of] is the leaf entry that a
    virtual address selects (0 when a table on the way is missing): the
    abstract page table is the function [pte_of].  The lemmas say that [walk]
    extends the tree without changing that function, and that a store through
    a leaf pointer changes it at one virtual page. *)

From S2P Require Import Prelude Machine CString Kalloc Vm.

(** ** The tree in memory *)

Definition pte_at (m : memory) (pt i : Z) : Z := load64 m (pt + 8 * i).

Definition child (m : memory) (pt i : Z) : Z := PTE2PA (pte_at m pt i).

Definition present (m : memory) (pt i : Z) : bool := has (pte_at m pt i) PTE_V.

Fixpoint pt_pages (level : nat) (m : memory) (pt : Z) : list Z :=
  match level with
  | O => [pt]
  | S l => pt :: (ptes ≫= λ i, if present m pt i then pt_pages l m (child m pt i) else [])
  end.

#[global] Arguments pt_pages : simpl never.

(** The address of the leaf entry of [va], or 0. *)
Fixpoint slot_of (level : nat) (m : memory) (pt va : Z) : Z :=
  match level with
  | O => pt + 8 * PX 0 va
  | S l =>
      let i := PX (Z.of_nat level) va in
      if present m pt i then slot_of l m (child m pt i) va else 0
  end.

Definition pte_of (level : nat) (m : memory) (pt va : Z) : Z :=
  let a := slot_of level m pt va in if a =? 0 then 0 else load64 m a.

(** Do two addresses select the same entry at every level up to [level]? *)
Fixpoint same_index (level : nat) (va va' : Z) : bool :=
  (PX (Z.of_nat level) va =? PX (Z.of_nat level) va')
  && match level with O => true | S l => same_index l va va' end.

Definition sub_pages (l : nat) (m : memory) (pt i : Z) : list Z :=
  if present m pt i then pt_pages l m (child m pt i) else [].

(** ** Lists of subtrees *)

Lemma bind_ext (f g : Z → list Z) (js : list Z) :
  (∀ j, j ∈ js → f j = g j) → (js ≫= f) = (js ≫= g).
Proof.
  intros Heq. induction js as [|k js IH]; [done|]. cbn [mbind list_bind].
  rewrite (Heq k) by left. f_equal. apply IH. intros j Hj. apply Heq. by right.
Qed.

(** Replacing the sublist that one index contributes. *)
Lemma bind_update_perm (f g : Z → list Z) (js : list Z) (i : Z) (new : list Z) :
  NoDup js → i ∈ js → f i ≡ₚ new ++ g i → (∀ j, j ∈ js → j ≠ i → f j = g j) →
  (js ≫= f) ≡ₚ new ++ (js ≫= g).
Proof.
  intros Hnd Hi Hfi Hfj. induction js as [|j js IH]; [by apply not_elem_of_nil in Hi|].
  apply NoDup_cons in Hnd as [Hj Hnd]. cbn [mbind list_bind].
  apply elem_of_cons in Hi as [->|Hi].
  - rewrite Hfi, <- app_assoc. f_equiv. f_equiv.
    rewrite (bind_ext f g); [done|]. intros k Hk. apply Hfj; [by right|]. by intros ->.
  - rewrite (Hfj j) by (left || (intros ->; done)).
    rewrite (IH Hnd Hi); [|intros; apply Hfj; [by right|done]].
    rewrite !app_assoc. f_equiv. apply Permutation_app_comm.
Qed.

(** Distinct indices contribute disjoint sublists of a duplicate-free list. *)
Lemma bind_nodup (f : Z → list Z) (js : list Z) i :
  NoDup (js ≫= f) → i ∈ js →
  NoDup (f i) ∧ (∀ j x, NoDup js → j ∈ js → j ≠ i → x ∈ f i → x ∉ f j).
Proof.
  intros Hnd Hi. induction js as [|k js IH]; [by apply not_elem_of_nil in Hi|].
  cbn [mbind list_bind] in Hnd. apply NoDup_app in Hnd as (Hk & Hd & Hjs).
  apply elem_of_cons in Hi as [->|Hi].
  - split; [done|]. intros j x _ [->|Hj]%elem_of_cons Hne Hx Hxj; [done|].
    apply (Hd x Hx). apply list_elem_of_bind. eauto.
  - destruct (IH Hjs Hi) as [Hnd' Hdis]. split; [done|].
    intros j x [Hkj Hndj]%NoDup_cons [->|Hj]%elem_of_cons Hne Hx Hxj.
    + apply (Hd x Hxj). apply list_elem_of_bind. eauto.
    + eapply Hdis; eauto.
Qed.

Lemma indices_nodup : NoDup (ptes).
Proof. apply NoDup_seqZ. Qed.

Lemma indices_elem i : i ∈ ptes ↔ 0 ≤ i < 512.
Proof. unfold ptes. rewrite elem_of_seqZ. lia. Qed.

Lemma PX_index level va : PX (Z.of_nat level) va ∈ ptes.
Proof. rewrite indices_elem. apply PX_bound. lia. Qed.

#[export] Hint Resolve indices_nodup PX_index : frame.

(** ** Structure of the tree *)

Lemma pt_pages_S l m pt :
  pt_pages (S l) m pt = pt :: (ptes ≫= sub_pages l m pt).
Proof. reflexivity. Qed.

Lemma root_in level m pt : pt ∈ pt_pages level m pt.
Proof. destruct level; [|rewrite pt_pages_S]; left. Qed.

Lemma sub_pages_in l m pt i p :
  i ∈ ptes → p ∈ sub_pages l m pt i → p ∈ pt_pages (S l) m pt.
Proof. intros Hi Hp. rewrite pt_pages_S. right. apply list_elem_of_bind. eauto. Qed.

Lemma sub_pages_sep l m pt i :
  NoDup (pt_pages (S l) m pt) → i ∈ ptes →
  NoDup (sub_pages l m pt i) ∧ pt ∉ sub_pages l m pt i
  ∧ (∀ j p, j ∈ ptes → j ≠ i → p ∈ sub_pages l m pt i → p ∉ sub_pages l m pt j).
Proof.
  rewrite pt_pages_S. intros Hnd0 Hi. apply NoDup_cons in Hnd0 as [Hpt Hnd].
  destruct (bind_nodup _ _ i Hnd Hi) as [Hndi Hdis]. split_and!; [done| |].
  - intros Hin. apply Hpt, list_elem_of_bind. eauto.
  - intros j p Hj Hne Hp. eapply Hdis; eauto using indices_nodup.
Qed.

Lemma slot_of_S l m pt va :
  slot_of (S l) m pt va
  = (let i := PX (Z.of_nat (S l)) va in if present m pt i then slot_of l m (child m pt i) va else 0).
Proof. done. Qed.

Lemma pte_of_S l m pt va :
  pte_of (S l) m pt va
  = (let i := PX (Z.of_nat (S l)) va in if present m pt i then pte_of l m (child m pt i) va else 0).
Proof. unfold pte_of. rewrite slot_of_S. simpl. by destruct (present m pt _). Qed.

(** A slot lies in a page of the tree. *)
Lemma slot_of_page level m pt va :
  slot_of level m pt va ≠ 0 →
  ∃ p, p ∈ pt_pages level m pt ∧ slot_of level m pt va = p + 8 * PX 0 va.
Proof.
  revert pt. induction level as [|l IH]; intros pt.
  - intros _. exists pt. split; [apply root_in|done].
  - rewrite slot_of_S. simpl. set (i := PX _ va). destruct (present m pt i) eqn:E; [|done].
    intros Ha. destruct (IH _ Ha) as (p & Hp & Heq). exists p. split; [|done].
    apply (sub_pages_in l m pt i); [apply PX_index|]. unfold sub_pages. by rewrite E.
Qed.

(** ** Frames *)

(** The tables [ps] have the same entries in both memories. *)
Definition same_tables (ps : list Z) (m m' : memory) : Prop :=
  ∀ p i, p ∈ ps → 0 ≤ i < 512 → pte_at m' p i = pte_at m p i.

Lemma same_tables_frame qs ps m m' :
  mem_frame qs m m' → Forall (λ p, p mod PGSIZE = 0) qs → Forall (λ p, p mod PGSIZE = 0) ps →
  (∀ p, p ∈ ps → p ∉ qs) → same_tables ps m m'.
Proof.
  intros Hf Hqs Hps Hd p i Hp Hi. rewrite Forall_forall in Hps.
  apply (mem_frame_load64 qs m m' p); auto; unfold PGSIZE; lia.
Qed.

Lemma same_tables_present ps m m' p i :
  same_tables ps m m' → p ∈ ps → 0 ≤ i < 512 →
  present m' p i = present m p i ∧ child m' p i = child m p i.
Proof. intros Hs Hp Hi. unfold present, child. by rewrite (Hs p i). Qed.

(** A change that leaves the tree's tables alone leaves the tree alone. *)
Lemma tree_frame level m m' pt :
  same_tables (pt_pages level m pt) m m' →
  pt_pages level m' pt = pt_pages level m pt
  ∧ (∀ va, slot_of level m' pt va = slot_of level m pt va)
  ∧ (∀ va, pte_of level m' pt va = pte_of level m pt va).
Proof.
  revert pt. induction level as [|l IH]; intros pt Hs.
  - split_and!; [done|done|]. intros va. unfold pte_of. simpl.
    destruct (Z.eqb_spec (pt + 8 * PX 0 va) 0); [done|].
    apply (Hs pt (PX 0 va)); [apply root_in|]. by apply PX_bound.
  - assert (Hroot : ∀ i, i ∈ ptes →
              present m' pt i = present m pt i ∧ child m' pt i = child m pt i).
    { intros i Hi%indices_elem. eapply same_tables_present; eauto using root_in. }
    assert (Hsub : ∀ i, i ∈ ptes → present m pt i = true →
              same_tables (pt_pages l m (child m pt i)) m m').
    { intros i Hi Ep p j Hp. apply Hs. apply (sub_pages_in l m pt i); [done|].
      unfold sub_pages. by rewrite Ep. }
    split_and!.
    + rewrite !pt_pages_S. f_equal. apply bind_ext. intros i Hi. unfold sub_pages.
      destruct (Hroot i Hi) as [-> ->]. destruct (present m pt i) eqn:E; [|done].
      by apply IH, Hsub.
    + intros va. rewrite !slot_of_S. simpl. set (i := PX _ va).
      destruct (Hroot i (PX_index _ _)) as [-> ->]. destruct (present m pt i) eqn:E; [|done].
      apply IH, Hsub; [apply PX_index|done].
    + intros va. rewrite !pte_of_S. simpl. set (i := PX _ va).
      destruct (Hroot i (PX_index _ _)) as [-> ->]. destruct (present m pt i) eqn:E; [|done].
      apply IH, Hsub; [apply PX_index|done].
Qed.

(** The entries above the leaves are pointers: no permission bits. *)
Definition pointer (e : Z) : bool := Z.land e (Z.lor (Z.lor PTE_R PTE_W) PTE_X) =? 0.

Fixpoint plain (level : nat) (m : memory) (pt : Z) : Prop :=
  match level with
  | O => True
  | S l => ∀ i, i ∈ ptes → present m pt i = true →
             pointer (pte_at m pt i) = true ∧ plain l m (child m pt i)
  end.

Lemma plain_frame level m m' pt :
  same_tables (pt_pages level m pt) m m' → plain level m pt → plain level m' pt.
Proof.
  revert pt. induction level as [|l IH]; intros pt Hs Hp; [done|].
  intros i Hi Ei. assert (Epte : pte_at m' pt i = pte_at m pt i).
  { apply Hs; [apply root_in|]. by apply indices_elem. }
  unfold present, child in *. rewrite Epte in Ei |- *. destruct (Hp i Hi Ei) as [Hptr Hsub].
  split; [done|]. apply IH; [|done]. intros p j Hin. apply Hs.
  apply (sub_pages_in l m pt i); [done|]. unfold sub_pages, present. by rewrite Ei.
Qed.

(** ** Stores through a leaf pointer *)

Definition aligned_tree (level : nat) (m : memory) (pt : Z) : Prop :=
  Forall (λ p, p mod PGSIZE = 0) (pt_pages level m pt).

Lemma slot_page_unique p q i j :
  p mod PGSIZE = 0 → q mod PGSIZE = 0 → 0 ≤ i < 512 → 0 ≤ j < 512 →
  p + 8 * i = q + 8 * j → p = q ∧ i = j.
Proof. unfold PGSIZE. intros. dlia. Qed.

Lemma aligned_sub l m pt i :
  aligned_tree (S l) m pt → i ∈ ptes → present m pt i = true →
  aligned_tree l m (child m pt i).
Proof.
  intros Hal Hi E. unfold aligned_tree in *. rewrite Forall_forall in Hal |- *.
  intros p Hp. apply Hal. apply (sub_pages_in l m pt i); [done|]. unfold sub_pages. by rewrite E.
Qed.

(** Two addresses with the same leaf entry agree on every index. *)
Lemma slot_of_inj level m pt va va' :
  NoDup (pt_pages level m pt) → aligned_tree level m pt →
  slot_of level m pt va ≠ 0 → slot_of level m pt va = slot_of level m pt va' →
  same_index level va va' = true.
Proof.
  revert pt. induction level as [|l IH]; intros pt Hnd Hal Hne Heq.
  - cbn [slot_of] in Heq. cbn [same_index]. change (Z.of_nat 0) with 0.
    replace (PX 0 va') with (PX 0 va) by lia. by rewrite Z.eqb_refl.
  - rewrite !slot_of_S in *. cbn [same_index]. simpl in Hne, Heq.
    set (i := PX _ va) in *. set (j := PX _ va') in *.
    destruct (present m pt i) eqn:Ei; [|done]. destruct (present m pt j) eqn:Ej; [|done].
    destruct (sub_pages_sep l m pt i Hnd (PX_index _ _)) as (Hndi & _ & Hdis).
    destruct (slot_of_page l m (child m pt i) va Hne) as (p & Hp & Hsp).
    destruct (slot_of_page l m (child m pt j) va' ltac:(by rewrite <- Heq)) as (q & Hq & Hsq).
    assert (p = q) as <-.
    { unfold aligned_tree in Hal. rewrite Forall_forall in Hal.
      apply (slot_page_unique p q (PX 0 va) (PX 0 va')); try (by apply PX_bound).
      - apply Hal, (sub_pages_in l m pt i); [apply PX_index|]. unfold sub_pages. by rewrite Ei.
      - apply Hal, (sub_pages_in l m pt j); [apply PX_index|]. unfold sub_pages. by rewrite Ej.
      - lia. }
    assert (j = i) as Hji.
    { destruct (decide (j = i)) as [|Hne']; [done|]. exfalso.
      apply (Hdis j p (PX_index _ _) Hne'); unfold sub_pages; [by rewrite Ei|by rewrite Ej]. }
    rewrite Hji in *. rewrite Z.eqb_refl. simpl. unfold sub_pages in Hndi. rewrite Ei in Hndi.
    apply (IH (child m pt i)); [done| |done|done].
    apply aligned_sub; [done|apply PX_index|done].
Qed.

(** A store through the leaf pointer of [va] keeps the tree, and changes the
    entries of exactly the addresses that share [va]'s indices. *)
Lemma leaf_store_tree level m pt va v :
  NoDup (pt_pages level m pt) → aligned_tree level m pt → slot_of level m pt va ≠ 0 →
  let m' := store64 m (slot_of level m pt va) v in
  pt_pages level m' pt = pt_pages level m pt
  ∧ (∀ va', slot_of level m' pt va' = slot_of level m pt va')
  ∧ (plain level m pt → plain level m' pt).
Proof.
  revert pt. induction level as [|l IH]; intros pt Hnd Hal Hne; [done|].
  cbv zeta. rewrite slot_of_S in *. cbv zeta in *. set (i := PX _ va) in *.
  destruct (present m pt i) eqn:Ei; [|done].
  set (c := child m pt i) in *. set (a := slot_of l m c va) in *. set (m' := store64 m a v).
  destruct (slot_of_page l m c va Hne) as (p & Hp & Hap). fold a in Hap.
  destruct (sub_pages_sep l m pt i Hnd (PX_index _ _)) as (Hndi & Hpti & Hdis).
  unfold sub_pages in Hndi, Hpti, Hdis. rewrite Ei in Hndi, Hpti, Hdis. fold c in Hndi, Hpti, Hdis.
  assert (Hali : aligned_tree l m c) by (apply aligned_sub; [done|apply PX_index|done]).
  assert (Hpal : p mod PGSIZE = 0)
    by (unfold aligned_tree in Hali; rewrite Forall_forall in Hali; auto).
  assert (Hfr : mem_frame [p] m m').
  { pose proof (PX_bound 0 va ltac:(lia)). apply mem_frame_store64; rewrite Hap; unfold PGSIZE; lia. }
  assert (Hst : ∀ ps, (∀ q, q ∈ ps → q ∈ pt_pages (S l) m pt) → p ∉ ps → same_tables ps m m').
  { intros ps Hps Hpps. apply (same_tables_frame [p]); auto.
    - apply Forall_forall. intros q Hq. unfold aligned_tree in Hal. rewrite Forall_forall in Hal. auto.
    - intros q Hq ->%list_elem_of_singleton. done. }
  assert (Hrt : same_tables [pt] m m').
  { apply Hst; [|intros ->%list_elem_of_singleton; done].
    intros q ->%list_elem_of_singleton. apply root_in. }
  assert (Hroot : ∀ j, j ∈ ptes → present m' pt j = present m pt j ∧ child m' pt j = child m pt j).
  { intros j Hj%indices_elem. apply (same_tables_present [pt]); [done|left|done]. }
  assert (Hoth : ∀ j, j ∈ ptes → j ≠ i → present m pt j = true →
            same_tables (pt_pages l m (child m pt j)) m m').
  { intros j Hj Hji Ej. apply Hst.
    - intros q Hq. apply (sub_pages_in l m pt j); [done|]. unfold sub_pages. by rewrite Ej.
    - intros Hpj. apply (Hdis j p Hj Hji Hp). by rewrite Ej. }
  destruct (IH c Hndi Hali Hne) as (IHp & IHs & IHpl). fold a m' in IHp, IHs, IHpl.
  split_and!.
  - rewrite !pt_pages_S. f_equal. apply bind_ext. intros j Hj. unfold sub_pages.
    destruct (Hroot j Hj) as [-> ->]. destruct (present m pt j) eqn:Ej; [|done].
    destruct (decide (j = i)) as [->|Hji]; [exact IHp|]. by apply tree_frame, Hoth.
  - intros va'. rewrite !slot_of_S. cbv zeta. set (j := PX _ va').
    destruct (Hroot j (PX_index _ _)) as [-> ->]. destruct (present m pt j) eqn:Ej; [|done].
    destruct (decide (j = i)) as [Hji|Hji]; [rewrite Hji; apply IHs|].
    apply tree_frame, Hoth; [apply PX_index|done|done].
  - intros Hpl j Hj Ej. destruct (Hroot j Hj) as [E1 E2]. rewrite E1 in Ej. rewrite E2.
    rewrite (Hrt pt j) by (left || by apply indices_elem). destruct (Hpl j Hj Ej) as [Hptr Hsub].
    split; [done|]. destruct (decide (j = i)) as [->|Hji]; [by apply IHpl|].
    apply (plain_frame l m); [by apply Hoth|done].
Qed.

Lemma same_index_slot level m pt va va' :
  same_index level va va' = true → slot_of level m pt va = slot_of level m pt va'.
Proof.
  revert pt. induction level as [|l IH]; intros pt; cbn [same_index]; intros [E E']%andb_prop.
  - apply Z.eqb_eq in E. cbn [slot_of]. change (Z.of_nat 0) with 0 in E. by rewrite E.
  - apply Z.eqb_eq in E. rewrite !slot_of_S. cbv zeta. rewrite E. destruct (present _ _ _); auto.
Qed.

Lemma leaf_store level m pt va v :
  NoDup (pt_pages level m pt) → aligned_tree level m pt → slot_of level m pt va ≠ 0 →
  0 ≤ v < 2 ^ 64 →
  ∀ va', pte_of level (store64 m (slot_of level m pt va) v) pt va'
    = if same_index level va va' then v else pte_of level m pt va'.
Proof.
  intros Hnd Hal Hne Hv va'. destruct (leaf_store_tree level m pt va v Hnd Hal Hne) as (_ & Hs & _).
  unfold pte_of. rewrite Hs. destruct (same_index level va va') eqn:E.
  - rewrite <- (same_index_slot level m pt va va' E).
    destruct (Z.eqb_spec (slot_of level m pt va) 0); [done|]. by apply load64_store64.
  - destruct (Z.eqb_spec (slot_of level m pt va') 0) as [|Hne']; [done|].
    destruct (slot_of_page _ _ _ _ Hne) as (p & Hp & Hsp).
    destruct (slot_of_page _ _ _ _ Hne') as (q & Hq & Hsq).
    assert (slot_of level m pt va ≠ slot_of level m pt va') as Hd.
    { intros Heq. rewrite (slot_of_inj level m pt va va') in E; done. }
    unfold aligned_tree in Hal. rewrite Forall_forall in Hal.
    pose proof (Hal p Hp). pose proof (Hal q Hq).
    apply load64_store64_ne. rewrite Hsp, Hsq in *. unfold PGSIZE in *. dlia.
Qed.

(** ** [walk] *)

Section Walk.
Context {LK : Linker} {LKok : LinkerOk}.

(** The free list [l] and the tables of [pt] are separate allocator pages. *)
Record pt_ok (level : nat) (s : kmem_state) (pt : Z) (l : list Z) : Prop := {
  pt_kinv : kinv s l;
  pt_sep : NoDup (l ++ pt_pages level (mem s) pt);
  pt_range : Forall (page_ok (phys_top s)) (pt_pages level (mem s) pt);
  pt_plain : plain level (mem s) pt;
}.

Lemma pt_ok_aligned level s pt l : pt_ok level s pt l → aligned_tree level (mem s) pt.
Proof. intros [_ _ Hr _]. by eapply pages_aligned. Qed.

Lemma pt_ok_nodup level s pt l : pt_ok level s pt l → NoDup (pt_pages level (mem s) pt).
Proof. intros [_ Hs _ _]. by apply NoDup_app in Hs as (_ & _ & ?). Qed.

Lemma pt_ok_disjoint level s pt l p : pt_ok level s pt l → p ∈ l → p ∉ pt_pages level (mem s) pt.
Proof. intros [_ Hs _ _] Hp. apply NoDup_app in Hs as (_ & Hd & _). auto. Qed.

Lemma walk_noalloc level pt va s :
  walk_loop level pt va false s = Ok (slot_of level (mem s) pt va) s.
Proof.
  revert pt. induction level as [|l IH]; intros pt; [done|].
  cbn [walk_loop]. rewrite slot_of_S. cbv zeta. unfold rd64, bind, gets, present, child, pte_at.
  destruct (has _ PTE_V); [apply IH|done].
Qed.

Lemma slot_of_nonzero level s pt l va :
  pt_ok level s pt l → level = 0%nat → slot_of level (mem s) pt va ≠ 0.
Proof.
  intros [_ _ Hr _] ->. cbn [slot_of]. pose proof (PX_bound 0 va ltac:(lia)).
  rewrite Forall_forall in Hr. destruct (Hr pt (root_in _ _ _)) as (_ & ? & _).
  pose proof kend_pos. lia.
Qed.

(** What [walk] with [alloc] set ends in: it moves the pages [new] from the
    free list to the tree, keeps the abstract page table, touches nothing else,
    and returns the leaf pointer unless memory ran out. *)
Definition walk_post (level : nat) (s : kmem_state) (pt va : Z) (l : list Z) (r : Z)
    (s' : kmem_state) : Prop :=
  ∃ new l', l = new ++ l' ∧ pt_ok level s' pt l' ∧ phys_top s' = phys_top s
    ∧ pt_pages level (mem s') pt ≡ₚ new ++ pt_pages level (mem s) pt
    ∧ mem_frame (new ++ pt_pages level (mem s) pt) (mem s) (mem s')
    ∧ (∀ va', pte_of level (mem s') pt va' = pte_of level (mem s) pt va')
    ∧ (r = 0 ∧ l' = [] ∨ r ≠ 0 ∧ slot_of level (mem s') pt va = r).

(** A change inside one subtree and to fresh pages, seen from the root. *)
Lemma subtree_change l s s' pt i lf new lf' :
  pt_ok (S l) s pt lf → i ∈ ptes → present (mem s) pt i = true →
  lf = new ++ lf' → phys_top s' = phys_top s → pt_ok l s' (child (mem s) pt i) lf' →
  pt_pages l (mem s') (child (mem s) pt i) ≡ₚ new ++ pt_pages l (mem s) (child (mem s) pt i) →
  mem_frame (new ++ pt_pages l (mem s) (child (mem s) pt i)) (mem s) (mem s') →
  pt_ok (S l) s' pt lf'
  ∧ pt_pages (S l) (mem s') pt ≡ₚ new ++ pt_pages (S l) (mem s) pt
  ∧ mem_frame (new ++ pt_pages (S l) (mem s) pt) (mem s) (mem s')
  ∧ (∀ j, j ∈ ptes → present (mem s') pt j = present (mem s) pt j
                     ∧ child (mem s') pt j = child (mem s) pt j)
  ∧ (∀ j, j ∈ ptes → j ≠ i → present (mem s) pt j = true →
       same_tables (pt_pages l (mem s) (child (mem s) pt j)) (mem s) (mem s')).
Proof.
  intros Hok Hi Ei Hlf Htop Hok' Hperm Hfr. set (c := child (mem s) pt i) in *.
  pose proof (pt_ok_aligned _ _ _ _ Hok) as Hal. pose proof (pt_ok_nodup _ _ _ _ Hok) as Hnd.
  destruct (sub_pages_sep l (mem s) pt i Hnd Hi) as (Hndi & Hpti & Hdis).
  unfold sub_pages in Hndi, Hpti, Hdis. rewrite Ei in Hndi, Hpti, Hdis. fold c in Hndi, Hpti, Hdis.
  assert (Hsub : ∀ p, p ∈ pt_pages l (mem s) c → p ∈ pt_pages (S l) (mem s) pt).
  { intros p Hp. apply (sub_pages_in l (mem s) pt i); [done|]. unfold sub_pages. by rewrite Ei. }
  assert (Hnew : ∀ p, p ∈ new → p ∉ pt_pages (S l) (mem s) pt).
  { intros p Hp. eapply pt_ok_disjoint; [done|]. rewrite Hlf. apply elem_of_app. by left. }
  assert (Hqs : Forall (λ p, p mod PGSIZE = 0) (new ++ pt_pages l (mem s) c)).
  { apply Forall_app. split.
    - destruct Hok as [[_ _ Hp _] _ _ _]. rewrite Hlf in Hp. apply Forall_app in Hp as [Hp _].
      by eapply pages_aligned.
    - unfold aligned_tree in Hal. rewrite Forall_forall in Hal |- *. auto. }
  assert (Hst : ∀ ps, (∀ q, q ∈ ps → q ∈ pt_pages (S l) (mem s) pt) →
            (∀ q, q ∈ ps → q ∉ pt_pages l (mem s) c) → same_tables ps (mem s) (mem s')).
  { intros ps Hps Hd. apply (same_tables_frame (new ++ pt_pages l (mem s) c)); auto.
    - apply Forall_forall. intros q Hq. unfold aligned_tree in Hal. rewrite Forall_forall in Hal. auto.
    - intros q Hq [Hq'|Hq']%elem_of_app; [by apply (Hnew q Hq'), Hps|]. by apply (Hd q Hq). }
  assert (Hrt : same_tables [pt] (mem s) (mem s')).
  { apply Hst; intros q ->%list_elem_of_singleton; [apply root_in|done]. }
  assert (Hroot : ∀ j, j ∈ ptes → present (mem s') pt j = present (mem s) pt j
                                  ∧ child (mem s') pt j = child (mem s) pt j).
  { intros j Hj%indices_elem. apply (same_tables_present [pt]); [done|left|done]. }
  assert (Hoth : ∀ j, j ∈ ptes → j ≠ i → present (mem s) pt j = true →
            same_tables (pt_pages l (mem s) (child (mem s) pt j)) (mem s) (mem s')).
  { intros j Hj Hji Ej. apply Hst.
    - intros q Hq. apply (sub_pages_in l (mem s) pt j); [done|]. unfold sub_pages. by rewrite Ej.
    - intros q Hq Hqc. apply (Hdis j q Hj Hji Hqc). by rewrite Ej. }
  assert (Hpp : pt_pages (S l) (mem s') pt ≡ₚ new ++ pt_pages (S l) (mem s) pt).
  { rewrite !pt_pages_S, <- Permutation_middle. f_equiv.
    apply (bind_update_perm _ _ _ i); [apply indices_nodup|done| |].
    - unfold sub_pages. destruct (Hroot i Hi) as [-> ->]. by rewrite Ei.
    - intros j Hj Hji. unfold sub_pages. destruct (Hroot j Hj) as [-> ->].
      destruct (present (mem s) pt j) eqn:Ej; [|done]. by apply tree_frame, Hoth. }
  split_and!; try done.
  - destruct Hok as [Hk Hsep Hr Hpl]. split.
    + apply Hok'.
    + rewrite Hpp. rewrite Hlf in Hsep. rewrite app_assoc.
      eapply NoDup_Permutation_proper; [|exact Hsep]. f_equiv. apply Permutation_app_comm.
    + rewrite Hpp, Htop. apply Forall_app. split; [|done].
      destruct Hk as [_ _ Hp _]. rewrite Hlf in Hp. by apply Forall_app in Hp as [Hp _].
    + intros j Hj Ej. destruct (Hroot j Hj) as [E1 E2]. rewrite E1 in Ej. rewrite E2.
      rewrite (Hrt pt j) by (left || by apply indices_elem). destruct (Hpl j Hj Ej) as [Hptr Hsubj].
      split; [done|]. destruct (decide (j = i)) as [->|Hji]; [apply Hok'|].
      apply (plain_frame l (mem s)); [by apply Hoth|done].
  - eapply mem_frame_mono; [|exact Hfr]. intros p [Hp|Hp]%elem_of_app; apply elem_of_app; auto.
Qed.

Lemma zero_table level m p :
  (∀ j, 0 ≤ j < 512 → pte_at m p j = 0) →
  pt_pages level m p = [p] ∧ (∀ va, pte_of level m p va = 0) ∧ plain level m p.
Proof.
  intros Hz. assert (Habs : ∀ j, j ∈ ptes → present m p j = false).
  { intros j Hj%indices_elem. unfold present. by rewrite Hz. }
  destruct level as [|l].
  - split_and!; [done| |done]. intros va. unfold pte_of. cbn [slot_of].
    destruct (Z.eqb_spec (p + 8 * PX 0 va) 0); [done|]. apply Hz. by apply PX_bound.
  - split_and!.
    + rewrite pt_pages_S. f_equal. rewrite (bind_ext _ (λ _, [])).
      * clear. generalize ptes. intros js. by induction js.
      * intros j Hj. unfold sub_pages. by rewrite Habs.
    + intros va. rewrite pte_of_S. cbv zeta. by rewrite Habs by apply PX_index.
    + intros i Hi Ei. by rewrite Habs in Ei.
Qed.

Lemma load64_zero m a : (∀ b, a ≤ b < a + 8 → mget m b = 0) → load64 m a = 0.
Proof.
  intros Hz. unfold load64. cbn [load_le]. rewrite !Hz by lia. done.
Qed.

(** [memset(page, 0, PGSIZE)] on a page makes an empty table. *)
Lemma memset_zero_table m p j :
  0 ≤ j < 512 → pte_at (memset m p 0 PGSIZE) p j = 0.
Proof.
  intros Hj. apply load64_zero. intros b Hb. rewrite mget_memset by done.
  rewrite decide_True; [done|]. unfold PGSIZE. lia.
Qed.

(** The memory after clearing the fresh page [p] and storing its pointer in
    entry [i] of the root. *)
Lemma link_memory top m m1 pt i p :
  page_ok top p → page_ok top pt → top ≤ 2 ^ 55 → p ≠ pt → i ∈ ptes → mem_frame [p] m m1 →
  let m3 := store64 (memset m1 p 0 PGSIZE) (pt + 8 * i) (Z.lor (PA2PTE p) PTE_V) in
  mem_frame [p; pt] m1 m3
  ∧ pte_at m3 pt i = Z.lor (PA2PTE p) PTE_V
  ∧ (∀ j, j ∈ ptes → j ≠ i → pte_at m3 pt j = pte_at m pt j)
  ∧ (∀ j, 0 ≤ j < 512 → pte_at m3 p j = 0).
Proof.
  intros Hp Hpt Htop Hne Hi%indices_elem Hf1.
  assert (Halp : Forall (λ q, q mod PGSIZE = 0) [p]) by (repeat constructor; by eapply page_ok_aligned).
  assert (Halt : Forall (λ q, q mod PGSIZE = 0) [pt]) by (repeat constructor; by eapply page_ok_aligned).
  cbv zeta. split_and!.
  - apply (mem_frame_trans _ _ (memset m1 p 0 PGSIZE)).
    + eapply mem_frame_mono; [|apply mem_frame_memset]. set_solver.
    + eapply mem_frame_mono; [|apply (mem_frame_store64 _ pt)]; [set_solver|lia|unfold PGSIZE; lia].
  - apply load64_store64, make_bound; [by eapply page_ok_range|done].
  - intros j Hj%indices_elem Hji. unfold pte_at. rewrite load64_store64_ne by lia.
    apply (mem_frame_load64 [p] _ _ pt); unfold PGSIZE; try lia.
    + eapply mem_frame_trans; [exact Hf1|apply mem_frame_memset].
    + exact Halp.
    + by eapply page_ok_aligned.
    + intros E%list_elem_of_singleton. by rewrite E in Hne.
  - intros j Hj. transitivity (pte_at (memset m1 p 0 PGSIZE) p j); [|by apply memset_zero_table].
    unfold pte_at.
    apply (mem_frame_load64 [pt] _ _ p); unfold PGSIZE; try lia.
    + apply mem_frame_store64; unfold PGSIZE; lia.
    + exact Halt.
    + by eapply page_ok_aligned.
    + intros E%list_elem_of_singleton. by rewrite E in Hne.
Qed.

Lemma pointer_make p : pointer (Z.lor (PA2PTE p) PTE_V) = true.
Proof.
  apply Z.eqb_eq, Z.bits_inj'. intros k Hk. rewrite Z.testbit_0_l, Z.land_spec.
  destruct (decide (1 ≤ k < 4)) as [Hk'|Hk'].
  - rewrite testbit_make by (done || lia). assert (k = 1 ∨ k = 2 ∨ k = 3) as [->|[->| ->]] by lia; done.
  - change (Z.lor (Z.lor PTE_R PTE_W) PTE_X) with 14.
    destruct (decide (k = 0)) as [->|]; [by rewrite andb_false_r|].
    rewrite (Z.bits_above_log2 14) by (simpl; lia). by rewrite andb_false_r.
Qed.

(** Hanging a fresh empty table below an absent entry of the root. *)
Lemma link_table l s s1 pt i p lf :
  pt_ok (S l) s pt (p :: lf) → i ∈ ptes → present (mem s) pt i = false →
  kinv s1 lf → mem_frame [p] (mem s) (mem s1) → phys_top s1 = phys_top s →
  let m3 := store64 (memset (mem s1) p 0 PGSIZE) (pt + 8 * i) (Z.lor (PA2PTE p) PTE_V) in
  present m3 pt i = true ∧ child m3 pt i = p
  ∧ pt_ok (S l) (with_mem m3 s1) pt lf
  ∧ pt_pages (S l) m3 pt ≡ₚ p :: pt_pages (S l) (mem s) pt
  ∧ mem_frame (p :: pt_pages (S l) (mem s) pt) (mem s) m3
  ∧ (∀ va', pte_of (S l) m3 pt va' = pte_of (S l) (mem s) pt va').
Proof.
  intros Hok Hi Ei Hk1 Hf1 Ht1 m3.
  pose proof (pt_ok_aligned _ _ _ _ Hok) as Hal. unfold aligned_tree in Hal.
  pose proof (pt_ok_disjoint _ _ _ _ p Hok ltac:(left)) as Hp.
  destruct Hok as [[_ _ Hl Htop] Hsep Hr Hplain]. apply Forall_cons in Hl as [Hpok Hl].
  assert (Hpt : page_ok (phys_top s) pt) by (rewrite Forall_forall in Hr; apply Hr, root_in).
  assert (Hppt : p ≠ pt) by (intros ->; apply Hp, root_in).
  destruct (link_memory _ _ _ pt i p Hpok Hpt Htop Hppt Hi Hf1) as (Hf3 & Hei & Hej & Hzero).
  fold m3 in Hf3, Hei, Hej, Hzero. clearbody m3.
  assert (Hfr : mem_frame [p; pt] (mem s) m3).
  { eapply mem_frame_trans; [|exact Hf3]. eapply mem_frame_mono; [|exact Hf1].
    intros q ->%list_elem_of_singleton. left. }
  assert (Hals : Forall (λ q, q mod PGSIZE = 0) [p; pt]).
  { repeat constructor; by eapply page_ok_aligned. }
  assert (Epi : present m3 pt i = true).
  { unfold present. rewrite Hei. unfold PTE_V. rewrite has_testbit by done. by rewrite testbit_make. }
  assert (Eci : child m3 pt i = p).
  { unfold child. rewrite Hei. apply PTE2PA_make; [by eapply page_ok_range| |done].
    by eapply page_ok_aligned. }
  assert (Hptr : pointer (pte_at m3 pt i) = true).
  { rewrite Hei. apply pointer_make. }
  clear Hei.
  assert (Hj : ∀ j, j ∈ ptes → j ≠ i → present m3 pt j = present (mem s) pt j
             ∧ child m3 pt j = child (mem s) pt j).
  { intros j Hj Hji. unfold present, child. by rewrite Hej. }
  assert (Hsub : ∀ j, j ∈ ptes → present (mem s) pt j = true →
            same_tables (pt_pages l (mem s) (child (mem s) pt j)) (mem s) m3).
  { intros j Hjin Ej. assert (Hin : ∀ q, q ∈ pt_pages l (mem s) (child (mem s) pt j) →
      q ∈ pt_pages (S l) (mem s) pt ∧ q ≠ pt).
    { intros q Hq. assert (Hq' : q ∈ sub_pages l (mem s) pt j) by (unfold sub_pages; by rewrite Ej).
      split; [by apply (sub_pages_in l _ pt j)|]. intros ->.
      apply NoDup_app in Hsep as (_ & _ & Hnd).
      by destruct (sub_pages_sep l (mem s) pt j Hnd Hjin) as (_ & Hx & _). }
    apply (same_tables_frame [p; pt]); [done|done| |].
    - rewrite Forall_forall in Hal |- *. intros q Hq. by apply Hal, Hin.
    - intros q Hq. destruct (Hin q Hq) as [H1 H2]. rewrite !not_elem_of_cons.
      split_and!; [by intros ->|done|apply not_elem_of_nil]. }
  assert (Hpp : pt_pages (S l) m3 pt ≡ₚ p :: pt_pages (S l) (mem s) pt).
  { rewrite !pt_pages_S. rewrite Permutation_swap. f_equiv.
    apply (bind_update_perm _ _ _ i [p]); [apply indices_nodup|done| |].
    - unfold sub_pages. rewrite Epi, Eci, Ei. by rewrite (proj1 (zero_table l m3 p Hzero)).
    - intros j Hjin Hji. unfold sub_pages. destruct (Hj j Hjin Hji) as [-> ->].
      destruct (present (mem s) pt j) eqn:Ej; [|done]. by apply tree_frame, Hsub. }
  split_and!; [done|done| |done| |].
  - split; simpl.
    + apply (kinv_frame [p; pt] s1); simpl; try done.
      intros q Hq. apply NoDup_app in Hsep as ([Hpl _]%NoDup_cons & Hd & _).
      rewrite !not_elem_of_cons. split_and!; [by intros ->| |apply not_elem_of_nil].
      intros ->. apply (Hd pt); [by right|apply root_in].
    + rewrite Hpp. by rewrite <- Permutation_middle.
    + rewrite Hpp, Ht1. by constructor.
    + intros j Hjin Ej. destruct (decide (j = i)) as [->|Hji].
      * split; [done|]. rewrite Eci. apply (zero_table l m3 p Hzero).
      * destruct (Hj j Hjin Hji) as [E1 E2]. rewrite E1 in Ej. rewrite E2, Hej by done.
        destruct (Hplain j Hjin Ej) as [? ?]. split; [done|].
        apply (plain_frame l (mem s)); [by apply Hsub|done].
  - eapply mem_frame_mono; [|exact Hfr]. intros q [->|Hq]%elem_of_cons; [left|].
    apply list_elem_of_singleton in Hq as ->. right. apply root_in.
  - intros va'. rewrite !pte_of_S. cbv zeta. set (j := PX _ va').
    destruct (decide (j = i)) as [Hji|Hji].
    + rewrite Hji, Epi, Eci, Ei. apply (zero_table l m3 p Hzero).
    + destruct (Hj j (PX_index _ _) Hji) as [-> ->]. destruct (present (mem s) pt j) eqn:Ej; [|done].
      apply tree_frame, Hsub; [apply PX_index|done].
Qed.

Lemma walk_loop_alloc level pt va s l :
  pt_ok level s pt l →
  returns (walk_loop level pt va true) s (walk_post level s pt va l).
Proof.
  revert pt s l. induction level as [|lv IH]; intros pt s l Hok.
  - cbn [walk_loop]. apply returns_ret. exists [], l. split_and!; auto with frame.
    right. split; [|done]. by apply (slot_of_nonzero 0 s pt l va).
  - assert (Hvalid : ∀ s l, pt_ok (S lv) s pt l → present (mem s) pt (PX (Z.of_nat (S lv)) va) = true →
      returns (walk_loop lv (child (mem s) pt (PX (Z.of_nat (S lv)) va)) va true) s
        (walk_post (S lv) s pt va l)).
    { clear s l Hok. intros s l Hok Ei. set (i := PX _ va) in *.
      assert (Hi : i ∈ ptes) by apply PX_index.
      eapply returns_mono; [apply (IH _ _ l)|].
      - destruct Hok as [Hk Hsep Hr Hpl].
        assert (Hsub : ∀ p, p ∈ pt_pages lv (mem s) (child (mem s) pt i) → p ∈ pt_pages (S lv) (mem s) pt).
        { intros p Hp. apply (sub_pages_in lv (mem s) pt i); [done|]. unfold sub_pages. by rewrite Ei. }
        apply NoDup_app in Hsep as (Hndl & Hd & Hnd). split; [done| | |by apply Hpl].
        + apply NoDup_app. split_and!; [done|naive_solver|].
          destruct (sub_pages_sep lv (mem s) pt i Hnd Hi) as (Hx & _). unfold sub_pages in Hx.
          by rewrite Ei in Hx.
        + rewrite Forall_forall in Hr |- *. auto.
      - intros r s' (new & l' & Hl & Hok' & Ht & Hp & Hf & Hpte & Hr).
        destruct (subtree_change lv s s' pt i l new l') as (Hok2 & Hp2 & Hf2 & Hroot & Hoth); try done.
        exists new, l'. split_and!; try done.
        + intros va'. rewrite !pte_of_S. cbv zeta. set (j := PX _ va').
          destruct (Hroot j (PX_index _ _)) as [-> ->]. destruct (present (mem s) pt j) eqn:Ej; [|done].
          destruct (decide (j = i)) as [Hji|Hji]; [rewrite Hji; apply Hpte|].
          apply tree_frame, Hoth; [apply PX_index|done|done].
        + destruct Hr as [Hr|[Hne Hs]]; [by left|]. right. split; [done|].
          rewrite slot_of_S. cbv zeta. fold i. destruct (Hroot i Hi) as [-> ->]. by rewrite Ei. }
    cbn [walk_loop]. set (i := PX _ va) in *. assert (Hi : i ∈ ptes) by apply PX_index.
    eapply returns_bind; [by apply (returns_gets _ _ (λ e s', s' = s ∧ e = pte_at (mem s) pt i))|].
    intros e s0 [-> ->]. fold (present (mem s) pt i). destruct (present (mem s) pt i) eqn:Ei.
    { exact (Hvalid s l Hok Ei). }
    cbn [negb]. destruct l as [|p l].
    { destruct Hok as [Hk Hsep Hr Hpl]. eexists _, _. split; [unfold bind; rewrite kalloc_none by exact Hk; reflexivity|].
      clear Hvalid Ei. exists [], []. split_and!; auto with frame. by split. }
    eapply returns_bind; [apply kalloc_some, Hok|].
    intros r s1 (-> & Hk1 & Hf1 & Ht1 & _).
    assert (Hp0 : p ≠ 0).
    { destruct Hok as [[_ _ Hl _] _ _ _]. apply Forall_cons in Hl as [Hl _].
      eapply page_ok_nonzero, Hl. }
    rewrite (proj2 (Z.eqb_neq p 0) Hp0).
    destruct (link_table lv s s1 pt i p l Hok Hi Ei Hk1 Hf1 Ht1) as (Epi & Eci & Hok3 & Hp3 & Hf3 & Hpte3).
    set (m3 := store64 _ _ _) in *. specialize (Hvalid _ _ Hok3 Epi). cbn [mem with_mem] in Hvalid.
    rewrite Eci in Hvalid.
    change (returns (walk_loop lv p va true) (with_mem m3 s1) (walk_post (S lv) s pt va (p :: l))).
    clearbody m3. clear Epi Eci Ei.
    eapply returns_mono; [exact Hvalid|].
    intros r s' (new & l' & Hl & Hok' & Ht & Hpp & Hf & Hpte & Hr). simpl in *.
    exists (p :: new), l'. split_and!; try done.
    + by rewrite Hl.
    + by rewrite Ht, Ht1.
    + rewrite Hpp, Hp3. simpl. by rewrite Permutation_middle.
    + apply (mem_frame_trans _ _ m3).
      * eapply mem_frame_mono; [|exact Hf3]. intros q. simpl. rewrite !elem_of_cons, elem_of_app. tauto.
      * eapply mem_frame_mono; [|exact Hf]. intros q. simpl. rewrite elem_of_app, Hp3.
        rewrite !elem_of_cons, elem_of_app. tauto.
    + intros va'. by rewrite Hpte, Hpte3.
Qed.

End Walk.
