(* ===== verification/AddrSpace.v ===== *)
(** User address spaces: the operations of vm.c on the abstract page table.

    [vpte s pt va] is the leaf entry of [va] in the three-level table [pt].
    Each operation is specified by what it does to this function, to the free
    list, and to the contents of memory. *)

From S2P Require Import Prelude Machine CString Kalloc Vm PageTable.

(** The addresses that the three indices of Sv39 distinguish. *)
Definition VATOP : Z := 2 ^ 39.

(** Arithmetic on page numbers and addresses below [MAXVA]. *)
Ltac page_lia :=
  unfold PGSIZE in *; change MAXVA with 274877906944 in *; change VATOP with 549755813888 in *; dlia.

(** ** The abstract page table *)

Definition tables (s : kmem_state) (pt : Z) : list Z := pt_pages 2 (mem s) pt.

Definition vpte (s : kmem_state) (pt va : Z) : Z := pte_of 2 (mem s) pt va.

Definition mapped (s : kmem_state) (pt va : Z) : bool := has (vpte s pt va) PTE_V.

(** [s'] is [s] with some free pages moved into the tree of [pt], and nothing
    outside those pages and the tree changed. *)
Definition grows (pt : Z) (l : list Z) (s : kmem_state) (l' : list Z) (s' : kmem_state) : Prop :=
  ∃ new, l = new ++ l' ∧ phys_top s' = phys_top s
    ∧ tables s' pt ≡ₚ new ++ tables s pt
    ∧ mem_frame (new ++ tables s pt) (mem s) (mem s').

Lemma grows_refl pt l s : grows pt l s l s.
Proof. exists []. split_and!; auto with frame. Qed.

Lemma grows_same pt l s s' :
  phys_top s' = phys_top s → tables s' pt = tables s pt →
  mem_frame (tables s pt) (mem s) (mem s') → grows pt l s l s'.
Proof. intros Ht Htab Hf. exists []. by rewrite Htab. Qed.

Lemma grows_trans pt l1 s1 l2 s2 l3 s3 :
  grows pt l1 s1 l2 s2 → grows pt l2 s2 l3 s3 → grows pt l1 s1 l3 s3.
Proof.
  intros (n1 & -> & Ht1 & Hp1 & Hf1) (n2 & -> & Ht2 & Hp2 & Hf2).
  exists (n1 ++ n2). split_and!.
  - by rewrite <- app_assoc.
  - by rewrite Ht2.
  - rewrite Hp2, Hp1, !app_assoc. f_equiv. apply Permutation_app_comm.
  - apply (mem_frame_trans _ _ (mem s2)).
    + eapply mem_frame_mono; [|exact Hf1]. intros q. rewrite !elem_of_app. tauto.
    + eapply mem_frame_mono; [|exact Hf2]. intros q. rewrite !elem_of_app, Hp1, elem_of_app. tauto.
Qed.

(** Below [MAXVA] the three indices are the page number. *)
Lemma same_index_vpn va va' :
  0 ≤ va < VATOP → 0 ≤ va' < VATOP →
  same_index 2 va va' = (va / PGSIZE =? va' / PGSIZE).
Proof.
  intros Hva Hva'. change VATOP with 549755813888 in *. cbn [same_index].
  change (Z.of_nat 2) with 2. change (Z.of_nat 1) with 1. change (Z.of_nat 0) with 0.
  rewrite !PX_eq by lia. unfold PGSIZE.
  change (2 ^ (12 + 9 * 2)) with 1073741824. change (2 ^ (12 + 9 * 1)) with 2097152.
  change (2 ^ (12 + 9 * 0)) with 4096.
  assert (E : ∀ v, 0 ≤ v < 549755813888 →
    v / 4096 = 262144 * (v / 1073741824 mod 512) + 512 * (v / 2097152 mod 512) + v / 4096 mod 512).
  { intros v Hv.
    assert (v / 2097152 = v / 4096 / 512) as -> by (rewrite Z.div_div by lia; done).
    assert (v / 1073741824 = v / 4096 / 512 / 512) as -> by (rewrite !Z.div_div by lia; done).
    assert (Hx : 0 ≤ v / 4096 < 134217728)
      by (split; [apply Z.div_pos; lia|apply Z.div_lt_upper_bound; lia]).
    generalize dependent (v / 4096). intros x Hx.
    rewrite (Z.mod_small (x / 512 / 512)) by dlia.
    pose proof (Z.div_mod x 512 ltac:(done)). pose proof (Z.div_mod (x / 512) 512 ltac:(done)). lia. }
  pose proof (E va Hva). pose proof (E va' Hva').
  assert (B : ∀ x, 0 ≤ x mod 512 < 512) by (intros; by apply Z.mod_pos_bound).
  pose proof (B (va / 1073741824)). pose proof (B (va' / 1073741824)).
  pose proof (B (va / 2097152)). pose proof (B (va' / 2097152)).
  pose proof (B (va / 4096)). pose proof (B (va' / 4096)).
  clear E B. apply eq_true_iff_eq. rewrite !andb_true_iff, !Z.eqb_eq. lia.
Qed.

(** The union of two sets of flag bits is one. *)
Lemma lor_bound a b : 0 ≤ a < 1024 → 0 ≤ b < 1024 → 0 ≤ Z.lor a b < 1024.
Proof.
  intros [Ha0 Ha1] [Hb0 Hb1]. assert (Hn : 0 ≤ Z.lor a b) by (by apply Z.lor_nonneg).
  split; [done|]. destruct (Z.eq_dec (Z.lor a b) 0) as [->|]; [done|].
  assert (L : ∀ c, 0 ≤ c < 1024 → Z.log2 c < 10).
  { intros c Hc. destruct (Z.eq_dec c 0) as [->|]; [done|]. apply Z.log2_lt_pow2; lia. }
  apply (Z.log2_lt_pow2 _ 10); [lia|].
  rewrite Z.log2_lor by done. apply Z.max_lub_lt; by apply L.
Qed.

Lemma flags_bound perm : 0 ≤ perm < 1024 → 0 ≤ Z.lor perm PTE_V < 1024.
Proof. intros. by apply lor_bound. Qed.

(** The leaf entry that maps [pa] with permissions [perm]. *)
Definition leaf (pa perm : Z) : Z := Z.lor (Z.lor (PA2PTE pa) perm) PTE_V.

Lemma leaf_make pa perm : leaf pa perm = Z.lor (PA2PTE pa) (Z.lor perm PTE_V).
Proof. unfold leaf. by rewrite Z.lor_assoc. Qed.

Lemma leaf_valid pa perm : has (leaf pa perm) PTE_V = true.
Proof.
  unfold PTE_V. rewrite has_testbit by done. unfold leaf. rewrite Z.lor_spec.
  by rewrite orb_true_r.
Qed.

Lemma leaf_has pa perm k :
  0 ≤ perm < 1024 → 1 ≤ k < 10 → has (leaf pa perm) (Z.shiftl 1 k) = Z.testbit perm k.
Proof.
  intros Hp Hk. rewrite has_testbit by lia. rewrite leaf_make, testbit_make by (try apply flags_bound; lia).
  rewrite Z.lor_spec. unfold PTE_V. change (Z.shiftl 1 0) with (2 ^ 0).
  rewrite Z.pow2_bits_false by lia. by rewrite orb_false_r.
Qed.

Lemma leaf_PTE2PA pa perm :
  0 ≤ pa < 2 ^ 56 → pa mod PGSIZE = 0 → 0 ≤ perm < 1024 → PTE2PA (leaf pa perm) = pa.
Proof. intros. rewrite leaf_make. apply PTE2PA_make; try done. by apply flags_bound. Qed.

Lemma leaf_flags pa perm : 0 ≤ perm < 1024 → PTE_FLAGS (leaf pa perm) = Z.lor perm PTE_V.
Proof. intros. rewrite leaf_make. apply PTE_FLAGS_make. by apply flags_bound. Qed.

Lemma leaf_bound pa perm : 0 ≤ pa < 2 ^ 56 → 0 ≤ perm < 1024 → 0 ≤ leaf pa perm < 2 ^ 64.
Proof. intros. rewrite leaf_make. apply make_bound; [done|]. by apply flags_bound. Qed.

Section Mapping.
Context {LK : Linker} {LKok : LinkerOk}.

(** ** Stores to leaf entries *)

Lemma set_leaf s pt l va v :
  pt_ok 2 s pt l → 0 ≤ va < MAXVA → slot_of 2 (mem s) pt va ≠ 0 → 0 ≤ v < 2 ^ 64 →
  let s' := with_mem (store64 (mem s) (slot_of 2 (mem s) pt va) v) s in
  pt_ok 2 s' pt l ∧ tables s' pt = tables s pt ∧ mem_frame (tables s pt) (mem s) (mem s')
  ∧ (∀ va', 0 ≤ va' < VATOP →
       vpte s' pt va' = if va / PGSIZE =? va' / PGSIZE then v else vpte s pt va').
Proof.
  intros Hok Hva Hne Hv. cbv zeta. set (a := slot_of 2 (mem s) pt va) in *.
  pose proof (pt_ok_nodup _ _ _ _ Hok) as Hnd. pose proof (pt_ok_aligned _ _ _ _ Hok) as Hal.
  destruct (leaf_store_tree 2 (mem s) pt va v Hnd Hal Hne) as (Htree & _ & Hpl).
  pose proof (leaf_store 2 (mem s) pt va v Hnd Hal Hne Hv) as Hleaf.
  fold a in Htree, Hleaf, Hpl.
  destruct (slot_of_page 2 (mem s) pt va Hne) as (p & Hp & Hap). fold a in Hap.
  assert (Hfr : mem_frame [p] (mem s) (store64 (mem s) a v)).
  { pose proof (PX_bound 0 va ltac:(lia)). apply mem_frame_store64; rewrite Hap; unfold PGSIZE; lia. }
  assert (Hfr2 : mem_frame (tables s pt) (mem s) (store64 (mem s) a v)).
  { eapply mem_frame_mono; [|exact Hfr]. intros q ->%list_elem_of_singleton. exact Hp. }
  set (m' := store64 (mem s) a v) in *. clearbody m'. split_and!.
  - destruct Hok as [Hk Hsep Hr Hplain]. split; cbn [mem with_mem phys_top].
    + apply (kinv_frame (tables s pt) s); try done.
      intros q Hq Hq'. apply NoDup_app in Hsep as (_ & Hd & _). by apply (Hd q).
    + by rewrite Htree.
    + by rewrite Htree.
    + by apply Hpl.
  - exact Htree.
  - exact Hfr2.
  - intros va' Hva'. unfold vpte. cbn [mem with_mem]. rewrite Hleaf.
    by rewrite same_index_vpn by page_lia.
Qed.

(** [walk] with [alloc] set, on a whole page table. *)
Lemma walk_alloc s pt l va :
  pt_ok 2 s pt l → 0 ≤ va < MAXVA →
  returns (walk pt va true) s (λ r s', ∃ l', pt_ok 2 s' pt l' ∧ grows pt l s l' s'
    ∧ (∀ va', vpte s' pt va' = vpte s pt va')
    ∧ (r = 0 ∧ l' = [] ∨ r ≠ 0 ∧ slot_of 2 (mem s') pt va = r)).
Proof.
  intros Hok Hva. unfold walk. rewrite (proj2 (Z.leb_gt MAXVA va)) by lia.
  eapply returns_mono; [by apply walk_loop_alloc|].
  intros r s' (new & l' & Hl & Hok' & Ht & Hp & Hf & Hpte & Hr).
  exists l'. split_and!; try assumption. exists new. auto.
Qed.

Lemma walk_lookup s pt va :
  0 ≤ va < MAXVA → walk pt va false s = Ok (slot_of 2 (mem s) pt va) s.
Proof.
  intros Hva. unfold walk. rewrite (proj2 (Z.leb_gt MAXVA va)) by lia. apply walk_noalloc.
Qed.

Lemma slot_vpte s pt va :
  slot_of 2 (mem s) pt va ≠ 0 → load64 (mem s) (slot_of 2 (mem s) pt va) = vpte s pt va.
Proof. intros Hne. unfold vpte, pte_of. by rewrite (proj2 (Z.eqb_neq _ _) Hne). Qed.

Lemma mapped_slot s pt va : mapped s pt va = true → slot_of 2 (mem s) pt va ≠ 0.
Proof.
  unfold mapped, vpte, pte_of. intros Hm E. rewrite E in Hm. simpl in Hm.
  by vm_compute in Hm.
Qed.

(** ** [mappages] *)

(** The abstract effect of mapping [n] pages from [va] to [pa]. *)
Definition maps_range (pt va pa perm n : Z) (s s' : kmem_state) : Prop :=
  ∀ va', 0 ≤ va' < VATOP →
    vpte s' pt va' = if decide (va ≤ va' < va + n * PGSIZE)
                     then leaf (pa + (va' - va) / PGSIZE * PGSIZE) perm else vpte s pt va'.

Lemma mappages_loop_ok k s pt l va pa perm :
  pt_ok 2 s pt l → va mod PGSIZE = 0 → 0 ≤ va → (0 < k)%nat → va + Z.of_nat k * PGSIZE ≤ MAXVA →
  0 ≤ pa → pa mod PGSIZE = 0 → pa + Z.of_nat k * PGSIZE ≤ 2 ^ 56 → 0 ≤ perm < 1024 →
  (∀ va', va ≤ va' < va + Z.of_nat k * PGSIZE → mapped s pt va' = false) →
  returns (mappages_loop k pt va (va + (Z.of_nat k - 1) * PGSIZE) pa perm) s (λ r s',
    ∃ l' n, pt_ok 2 s' pt l' ∧ grows pt l s l' s' ∧ maps_range pt va pa perm n s s'
      ∧ (r = 0 ∧ n = Z.of_nat k ∨ r = -1 ∧ l' = [] ∧ 0 ≤ n < Z.of_nat k)).
Proof.
  revert s l va pa. induction k as [|k IH]; intros s l va pa Hok Hva H0 Hk Hmax Hpa Hpal Hpmax Hperm Hfree;
    [lia|].
  unfold PGSIZE in Hmax, Hpmax, Hva, Hpal. change MAXVA with 274877906944 in *.
  cbn [mappages_loop]. eapply returns_bind; [apply (walk_alloc s pt l va Hok)|].
  { change MAXVA with 274877906944. lia. }
  intros r s1 (l1 & Hok1 & Hg1 & Hv1 & [[-> Hl1]|[Hr Hslot]]).
  { rewrite Z.eqb_refl. apply returns_ret. exists l1, 0. split_and!; try assumption.
    - intros va' _. rewrite decide_False by lia. apply Hv1.
    - right. split; [done|]. split; [done|lia]. }
  rewrite (proj2 (Z.eqb_neq r 0) Hr).
  eapply returns_bind; [apply (returns_gets _ _ (λ e s', s' = s1 ∧ e = load64 (mem s1) r)); auto|].
  intros e s1' [-> ->]. rewrite <- Hslot, slot_vpte by congruence. rewrite Hv1.
  specialize (Hfree va ltac:(unfold PGSIZE; lia)) as Hfva. unfold mapped in Hfva. rewrite Hfva. clear Hfva.
  destruct (set_leaf s1 pt l1 va (leaf pa perm)) as (Hok2 & Htab2 & Hf2 & Hv2);
    [done|change MAXVA with 274877906944; lia|congruence|apply leaf_bound; [lia|done]|].
  eapply returns_bind; [apply (returns_modify _ _ (λ _ s', s' = with_mem (store64 (mem s1) (slot_of 2 (mem s1) pt va) (leaf pa perm)) s1)); reflexivity|].
  intros u s2 ->. set (s2 := with_mem _ s1) in *.
  assert (Hg2 : grows pt l1 s1 l1 s2) by (by apply grows_same).
  clearbody s2. clear Htab2 Hf2.
  destruct (Z.eqb_spec va (va + (Z.of_nat (S k) - 1) * PGSIZE)) as [E|E].
  - assert (k = 0%nat) as -> by (unfold PGSIZE in E; lia). apply returns_ret.
    exists l1, 1. split_and!; [done|by eapply grows_trans| |by left].
    intros va' Hva'. rewrite Hv2 by done. rewrite Hv1. unfold PGSIZE in *.
    destruct (Z.eqb_spec (va / 4096) (va' / 4096)) as [E'|E'].
    + rewrite decide_True by dlia. f_equal. dlia.
    + rewrite decide_False by dlia. done.
  - rewrite !u64_id by page_lia.
    replace (va + (Z.of_nat (S k) - 1) * PGSIZE) with (va + PGSIZE + (Z.of_nat k - 1) * PGSIZE) by lia.
    eapply returns_mono; [apply (IH s2 l1 (va + PGSIZE) (pa + PGSIZE))|]; try done;
      try page_lia.
    + intros va' Hva'. unfold mapped. rewrite Hv2 by page_lia.
      rewrite Hv1, (proj2 (Z.eqb_neq _ _)) by page_lia.
      apply Hfree. page_lia.
    + intros r' s3 (l' & n & Hok3 & Hg3 & Hm3 & Hr'). exists l', (n + 1).
      split_and!; [done|by eapply grows_trans; [|eapply grows_trans]| |].
      * intros va' Hva'. rewrite Hm3, Hv2, Hv1 by done. unfold PGSIZE in *.
        destruct (Z.eqb_spec (va / 4096) (va' / 4096)) as [E'|E'].
        -- rewrite decide_False by dlia. rewrite decide_True by dlia. f_equal. dlia.
        -- destruct (decide (va + 4096 ≤ va' < va + 4096 + n * 4096)).
           ++ rewrite decide_True by lia. f_equal. dlia.
           ++ rewrite decide_False by dlia. done.
      * destruct Hr' as [[-> ->]|(-> & -> & ?)]; [left|right]; split_and!; try done; lia.
Qed.

Lemma mappages_ok s pt l va n pa perm :
  pt_ok 2 s pt l → va mod PGSIZE = 0 → 0 ≤ va → 0 < n → va + n * PGSIZE ≤ MAXVA →
  0 ≤ pa → pa mod PGSIZE = 0 → pa + n * PGSIZE ≤ 2 ^ 56 → 0 ≤ perm < 1024 →
  (∀ va', va ≤ va' < va + n * PGSIZE → mapped s pt va' = false) →
  returns (mappages pt va (n * PGSIZE) pa perm) s (λ r s',
    ∃ l' k, pt_ok 2 s' pt l' ∧ grows pt l s l' s' ∧ maps_range pt va pa perm k s s'
      ∧ (r = 0 ∧ k = n ∨ r = -1 ∧ l' = [] ∧ 0 ≤ k < n)).
Proof.
  intros Hok Hva H0 Hn Hmax Hpa Hpal Hpmax Hperm Hfree. unfold mappages.
  rewrite (proj2 (Z.eqb_eq _ _) Hva), Z.mod_mul by done.
  rewrite (proj2 (Z.eqb_neq (n * PGSIZE) 0)) by page_lia. simpl.
  rewrite Z.div_mul by done. rewrite u64_id by page_lia.
  replace (va + n * PGSIZE - PGSIZE) with (va + (Z.of_nat (Z.to_nat n) - 1) * PGSIZE) by page_lia.
  eapply returns_mono; [apply (mappages_loop_ok _ s pt l)|]; rewrite ?Z2Nat.id by lia; auto; lia.
Qed.

(** ** Lookups *)

Lemma walkaddr_ok s pt va :
  0 ≤ va →
  walkaddr pt va s
  = Ok (if (va <? MAXVA) && has (vpte s pt va) PTE_V && has (vpte s pt va) PTE_U
        then PTE2PA (vpte s pt va) else 0) s.
Proof.
  intros H0. unfold walkaddr. destruct (Z.leb_spec MAXVA va).
  { by rewrite (proj2 (Z.ltb_ge va MAXVA)) by lia. }
  rewrite (proj2 (Z.ltb_lt va MAXVA)) by lia. unfold bind. rewrite walk_lookup by lia.
  destruct (Z.eqb_spec (slot_of 2 (mem s) pt va) 0) as [E|E].
  - unfold vpte, pte_of. rewrite E. reflexivity.
  - unfold rd64, gets. rewrite slot_vpte by exact E. cbn [andb].
    destruct (has (vpte s pt va) PTE_V); [|reflexivity].
    destruct (has (vpte s pt va) PTE_U); reflexivity.
Qed.

(** ** Changes outside the page table *)

Lemma pt_ok_change ps s s' pt l :
  pt_ok 2 s pt l → mem_frame ps (mem s) (mem s') → Forall (λ p, p mod PGSIZE = 0) ps →
  (∀ p, p ∈ tables s pt → p ∉ ps) →
  tables s' pt = tables s pt ∧ (∀ va, slot_of 2 (mem s') pt va = slot_of 2 (mem s) pt va)
  ∧ (∀ va, vpte s' pt va = vpte s pt va) ∧ plain 2 (mem s') pt.
Proof.
  intros Hok Hf Hps Hd. assert (Hst : same_tables (tables s pt) (mem s) (mem s')).
  { apply (same_tables_frame ps); try done. by apply (pt_ok_aligned _ _ _ _ Hok). }
  destruct (tree_frame 2 (mem s) (mem s') pt Hst) as (? & ? & ?).
  split_and!; try done. apply (plain_frame 2 (mem s)); [done|apply Hok].
Qed.

Lemma pt_ok_write ps s s' pt l :
  pt_ok 2 s pt l → mem_frame ps (mem s) (mem s') → freelist s' = freelist s →
  phys_top s' = phys_top s → Forall (λ p, p mod PGSIZE = 0) ps →
  (∀ p, p ∈ l ++ tables s pt → p ∉ ps) → pt_ok 2 s' pt l.
Proof.
  intros Hok Hf Hfl Ht Hps Hd.
  destruct (pt_ok_change ps s s' pt l) as (Htab & _ & _ & Hpl); try done.
  { intros p Hp. apply Hd, elem_of_app. by right. }
  unfold tables in Htab. destruct Hok as [Hk Hsep Hr _]. split; rewrite ?Htab, ?Ht; [|done|done|done].
  apply (kinv_frame ps s); try done. intros p Hp. apply Hd, elem_of_app. by left.
Qed.

Lemma kfree_pt s pt l pa :
  pt_ok 2 s pt l → page_ok (phys_top s) pa → pa ∉ l ++ tables s pt →
  returns (kfree pa) s (λ _ s', pt_ok 2 s' pt (pa :: l) ∧ tables s' pt = tables s pt
    ∧ phys_top s' = phys_top s ∧ mem_frame [pa] (mem s) (mem s')
    ∧ (∀ va, slot_of 2 (mem s') pt va = slot_of 2 (mem s) pt va)
    ∧ (∀ va, vpte s' pt va = vpte s pt va)).
Proof.
  intros Hok Hpa Hnin. rewrite elem_of_app in Hnin.
  eapply returns_mono; [apply kfree_ok; [apply Hok|done|tauto]|].
  intros u s' (Hk & Hf & Ht).
  destruct (pt_ok_change [pa] s s' pt l) as (Htab & Hsl & Hv & Hpl); try done.
  { repeat constructor. by eapply page_ok_aligned. }
  { intros p Hp ->%list_elem_of_singleton. tauto. }
  split_and!; try assumption. unfold tables in *. destruct Hok as [_ Hsep Hr _].
  split; rewrite ?Htab, ?Ht; try done. simpl. apply NoDup_cons. split; [|done].
  rewrite elem_of_app. tauto.
Qed.

Lemma kalloc_pt s pt p l :
  pt_ok 2 s pt (p :: l) →
  returns kalloc s (λ r s', r = p ∧ pt_ok 2 s' pt l ∧ tables s' pt = tables s pt
    ∧ phys_top s' = phys_top s ∧ mem_frame [p] (mem s) (mem s')
    ∧ page_ok (phys_top s) p ∧ p ∉ l ++ tables s pt
    ∧ (∀ va, vpte s' pt va = vpte s pt va)).
Proof.
  intros Hok. eapply returns_mono; [apply kalloc_some, Hok|].
  intros r s' (-> & Hk & Hf & Ht & _). pose proof Hok as [[_ _ Hl _] Hsep Hr _].
  apply Forall_cons in Hl as [Hp Hl]. simpl in Hsep. apply NoDup_cons in Hsep as [Hnin Hsep].
  destruct (pt_ok_change [p] s s' pt (p :: l)) as (Htab & Hsl & Hv & Hpl); try done.
  { repeat constructor. by eapply page_ok_aligned. }
  { intros q Hq ->%list_elem_of_singleton. apply Hnin, elem_of_app. by right. }
  split_and!; try done. unfold tables in *. split; rewrite ?Htab, ?Ht; done.
Qed.

(** ** [uvmunmap] *)

(** The physical pages mapped by the [n] pages from [va]. *)
Fixpoint frames (n : nat) (s : kmem_state) (pt va : Z) : list Z :=
  match n with
  | O => []
  | S n' => (if mapped s pt va then [PTE2PA (vpte s pt va)] else []) ++ frames n' s pt (va + PGSIZE)
  end.

Lemma frames_ext n s s' pt va :
  0 ≤ va → va + Z.of_nat n * PGSIZE ≤ MAXVA →
  (∀ va', va ≤ va' < va + Z.of_nat n * PGSIZE → vpte s' pt va' = vpte s pt va') →
  frames n s' pt va = frames n s pt va.
Proof.
  revert va. induction n as [|n IH]; intros va H0 Hmax Hv; [done|]. cbn [frames].
  unfold mapped. rewrite Hv by page_lia. f_equal. apply IH; try page_lia.
  intros va' Hva'. apply Hv. page_lia.
Qed.

(** The abstract effect of removing the mappings of [n] pages from [va]. *)
Definition unmaps_range (pt va n : Z) (s s' : kmem_state) : Prop :=
  ∀ va', 0 ≤ va' < VATOP →
    vpte s' pt va' = if decide (va ≤ va' < va + n * PGSIZE) then
                       (if mapped s pt va' then 0 else vpte s pt va')
                     else vpte s pt va'.

Lemma vpte_same_page s pt va va' :
  0 ≤ va < VATOP → 0 ≤ va' < VATOP → va / PGSIZE = va' / PGSIZE → vpte s pt va = vpte s pt va'.
Proof.
  intros Hva Hva' E. unfold vpte, pte_of.
  rewrite (same_index_slot 2 (mem s) pt va va'); [done|].
  rewrite same_index_vpn by done. by apply Z.eqb_eq.
Qed.

(** One round: the page at [va] is unmapped, and freed if asked. *)
Lemma unmap_page s pt l va (do_free : bool) :
  pt_ok 2 s pt l → va mod PGSIZE = 0 → 0 ≤ va < MAXVA → mapped s pt va = true →
  (do_free = true → page_ok (phys_top s) (PTE2PA (vpte s pt va))
                    ∧ PTE2PA (vpte s pt va) ∉ l ++ tables s pt) →
  returns ((if do_free then kfree (PTE2PA (vpte s pt va)) else ret tt) ;;;
           wr64 (slot_of 2 (mem s) pt va) 0) s (λ _ s',
    pt_ok 2 s' pt ((if do_free then [PTE2PA (vpte s pt va)] else []) ++ l)
    ∧ tables s' pt = tables s pt ∧ phys_top s' = phys_top s
    ∧ mem_frame ((if do_free then [PTE2PA (vpte s pt va)] else []) ++ tables s pt) (mem s) (mem s')
    ∧ unmaps_range pt va 1 s s').
Proof.
  intros Hok Hva Hrange Hm Hfree.
  set (fr := if do_free then [PTE2PA (vpte s pt va)] else []) in *.
  assert (H1 : returns (if do_free then kfree (PTE2PA (vpte s pt va)) else ret tt) s (λ _ s1,
    pt_ok 2 s1 pt (fr ++ l) ∧ tables s1 pt = tables s pt ∧ phys_top s1 = phys_top s
    ∧ mem_frame fr (mem s) (mem s1)
    ∧ (∀ va, slot_of 2 (mem s1) pt va = slot_of 2 (mem s) pt va)
    ∧ (∀ va, vpte s1 pt va = vpte s pt va))).
  { subst fr. destruct do_free.
    - destruct (Hfree eq_refl) as [Hp Hn]. by apply kfree_pt.
    - apply returns_ret. split_and!; auto with frame. }
  clearbody fr. eapply returns_bind; [exact H1|]. clear H1.
  intros u s1 (Hok1 & Htab1 & Ht1 & Hf1 & Hsl1 & Hv1). rewrite <- Hsl1.
  destruct (set_leaf s1 pt (fr ++ l) va 0) as (Hok2 & Htab2 & Hf2 & Hv2); try done.
  { rewrite Hsl1. by apply mapped_slot. }
  apply returns_modify. set (s2 := with_mem _ s1) in *.
  assert (Ht2 : phys_top s2 = phys_top s1) by reflexivity. clearbody s2.
  split_and!; try assumption; try congruence.
  - apply (mem_frame_trans _ _ (mem s1)).
    + eapply mem_frame_mono; [|exact Hf1]. intros q. rewrite elem_of_app. tauto.
    + rewrite Htab1 in Hf2. eapply mem_frame_mono; [|exact Hf2]. intros q. rewrite elem_of_app. tauto.
  - intros va' Hva'. rewrite Hv2, Hv1 by done.
    destruct (Z.eqb_spec (va / PGSIZE) (va' / PGSIZE)) as [E|E].
    + rewrite decide_True by page_lia. unfold mapped in *.
      by rewrite <- (vpte_same_page s pt va va'), Hm by (done || page_lia).
    + rewrite decide_False by page_lia. done.
Qed.

Lemma uvmunmap_loop_ok n fuel s pt l va (do_free : bool) :
  pt_ok 2 s pt l → va mod PGSIZE = 0 → 0 ≤ va → va + Z.of_nat n * PGSIZE ≤ MAXVA → (n < fuel)%nat →
  (do_free = true → NoDup (frames n s pt va ++ l ++ tables s pt)
                    ∧ Forall (page_ok (phys_top s)) (frames n s pt va)) →
  returns (uvmunmap_loop fuel pt va (va + Z.of_nat n * PGSIZE) do_free) s (λ _ s',
    let fr := if do_free then frames n s pt va else [] in
    pt_ok 2 s' pt (reverse fr ++ l) ∧ tables s' pt = tables s pt ∧ phys_top s' = phys_top s
    ∧ mem_frame (fr ++ tables s pt) (mem s) (mem s')
    ∧ unmaps_range pt va (Z.of_nat n) s s').
Proof.
  revert fuel s l va. induction n as [|n IH]; intros fuel s l va Hok Hva H0 Hmax Hfuel Hfree;
    (destruct fuel as [|fuel]; [lia|]); cbn [uvmunmap_loop].
  { rewrite (proj2 (Z.ltb_ge _ _)) by lia. apply returns_ret. cbv zeta. cbn [frames].
    destruct do_free; (split_and!; [done|done|done|auto with frame|]);
      intros va' _; by rewrite decide_False by page_lia. }
  rewrite (proj2 (Z.ltb_lt _ _)) by page_lia. cbn [negb]. rewrite u64_id by page_lia.
  replace (va + Z.of_nat (S n) * PGSIZE) with (va + PGSIZE + Z.of_nat n * PGSIZE) by page_lia.
  set (next := uvmunmap_loop fuel pt _ _ do_free).
  assert (Hnext : ∀ s1 l1, pt_ok 2 s1 pt l1 →
    (do_free = true → NoDup (frames n s pt (va + PGSIZE) ++ l1 ++ tables s1 pt)
                    ∧ Forall (page_ok (phys_top s1)) (frames n s pt (va + PGSIZE))) →
    (∀ va', va + PGSIZE ≤ va' < MAXVA → vpte s1 pt va' = vpte s pt va') →
    returns next s1 (λ _ s',
      let fr := if do_free then frames n s pt (va + PGSIZE) else [] in
      pt_ok 2 s' pt (reverse fr ++ l1) ∧ tables s' pt = tables s1 pt ∧ phys_top s' = phys_top s1
      ∧ mem_frame (fr ++ tables s1 pt) (mem s1) (mem s')
      ∧ unmaps_range pt (va + PGSIZE) (Z.of_nat n) s1 s')).
  { intros s1 l1 Hok1 Hfree1 Hv1. subst next.
    assert (Efr : frames n s1 pt (va + PGSIZE) = frames n s pt (va + PGSIZE)).
    { apply frames_ext; try page_lia. intros va' Hva'. apply Hv1. page_lia. }
    eapply returns_mono; [apply (IH fuel s1 l1 (va + PGSIZE)); try done; try page_lia|].
    - by rewrite Efr.
    - intros u s'. by rewrite Efr. }
  assert (Hskip : mapped s pt va = false → returns next s (λ _ s',
    let fr := if do_free then frames (S n) s pt va else [] in
    pt_ok 2 s' pt (reverse fr ++ l) ∧ tables s' pt = tables s pt ∧ phys_top s' = phys_top s
    ∧ mem_frame (fr ++ tables s pt) (mem s) (mem s')
    ∧ unmaps_range pt va (Z.of_nat (S n)) s s')).
  { intros Hm. cbn [frames] in Hfree |- *. rewrite Hm in Hfree |- *. simpl in Hfree.
    eapply returns_mono; [apply (Hnext s l); done|].
    intros u s' (Hok' & Htab & Ht & Hf & Hun). split_and!; try done.
    intros va' Hva'. rewrite Hun by done.
    destruct (decide (va + PGSIZE ≤ va' < va + PGSIZE + Z.of_nat n * PGSIZE)).
    - by rewrite decide_True by page_lia.
    - destruct (decide (va ≤ va' < va + Z.of_nat (S n) * PGSIZE)); [|done].
      unfold mapped in *. rewrite (vpte_same_page s pt va' va), Hm by page_lia. done. }
  eapply returns_bind; [apply (returns_eq _ _ _ _ (walk_lookup s pt va ltac:(page_lia)))|].
  intros r s0 [-> ->]. destruct (Z.eqb_spec (slot_of 2 (mem s) pt va) 0) as [E|E].
  { apply Hskip. destruct (mapped s pt va) eqn:Hm; [|done]. by apply mapped_slot in Hm. }
  eapply returns_bind; [apply (returns_gets _ _ (λ e s', s' = s ∧ e = load64 (mem s) (slot_of 2 (mem s) pt va))); auto|].
  intros e s0 [-> ->]. rewrite slot_vpte by exact E. fold (mapped s pt va).
  destruct (mapped s pt va) eqn:Hm; [|by apply Hskip]. cbn [negb].
  cbn [frames] in Hfree |- *. rewrite Hm in Hfree |- *. simpl in Hfree.
  set (pa := PTE2PA (vpte s pt va)) in *.
  rewrite <- returns_assoc. eapply returns_bind; [apply (unmap_page s pt l va do_free); try done; try page_lia|].
  { intros ->. destruct (Hfree eq_refl) as [[Hn _]%NoDup_cons [Hp _]%Forall_cons].
    fold pa. split; [done|]. intros Hin. apply Hn, elem_of_app. by right. }
  intros u s1 (Hok1 & Htab1 & Ht1 & Hf1 & Hun1). fold pa in Hok1, Hf1.
  eapply returns_mono; [apply (Hnext s1 _ Hok1)|].
  - intros ->. destruct (Hfree eq_refl) as [Hnd [_ Hp]%Forall_cons]. rewrite Htab1, Ht1. split; [|done].
    simpl. by rewrite <- Permutation_middle.
  - intros va' Hva'. rewrite Hun1 by page_lia. by rewrite decide_False by page_lia.
  - intros v s2 (Hok2 & Htab2 & Ht2 & Hf2 & Hun2). rewrite Htab1 in Hf2. split_and!; try congruence.
    + destruct do_free; simpl in *; [|done]. by rewrite reverse_cons, <- app_assoc.
    + apply (mem_frame_trans _ _ (mem s1)).
      * eapply mem_frame_mono; [|exact Hf1]. intros q. destruct do_free; simpl; [|done].
        rewrite !elem_of_cons, elem_of_app. tauto.
      * eapply mem_frame_mono; [|exact Hf2]. intros q. destruct do_free; simpl; [|done].
        rewrite !elem_of_cons, elem_of_app. tauto.
    + intros va' Hva'. rewrite Hun2 by done.
      destruct (decide (va + PGSIZE ≤ va' < va + PGSIZE + Z.of_nat n * PGSIZE)).
      * rewrite decide_True by page_lia. unfold mapped. rewrite Hun1 by done.
        by rewrite decide_False by page_lia.
      * rewrite Hun1 by done. destruct (decide (va ≤ va' < va + 1 * PGSIZE)).
        -- by rewrite decide_True by page_lia.
        -- by rewrite decide_False by page_lia.
Qed.

End Mapping.
