(* ===== verification/Uvm.v ===== *)
(** Growing, shrinking and copying user address spaces: [uvmalloc],
    [uvmdealloc], [uvmcopy] (vm.c), with the ownership of physical pages. *)

From S2P Require Import Prelude Machine CString Kalloc Vm PageTable AddrSpace.

(** The number of pages that hold [sz] bytes. *)
Definition pages_of (sz : Z) : nat := Z.to_nat ((sz + PGSIZE - 1) / PGSIZE).

(** Arithmetic below the trapframe. *)
Ltac va_lia :=
  unfold pages_of in *; change TRAPFRAME with 274877898752 in *; page_lia.

(** The pages an address space of [n] pages and the free list [l] own: mapped
    frames, free pages, page-table pages. *)
Definition owned (n : nat) (s : kmem_state) (pt : Z) (l : list Z) : list Z :=
  frames n s pt 0 ++ l ++ tables s pt.

(** The tables of [pt] have grown: those it had are still there. *)
Definition more_tables (pt : Z) (s s' : kmem_state) : Prop :=
  ∃ new, tables s' pt ≡ₚ new ++ tables s pt.

(** A call that wanted [m] frames found no memory.  Of the free pages [l] it
    started with, some became page tables of [pt], which stay; the rest, [l'],
    are free again, and they are no more than the frames it wanted. *)
Definition ran_out (m : nat) (pt : Z) (l : list Z) (s : kmem_state) (l' : list Z) (s' : kmem_state) : Prop :=
  ∃ new, tables s' pt ≡ₚ new ++ tables s pt ∧ l ≡ₚ l' ++ new ∧ (length l' ≤ m)%nat.

Lemma more_tables_refl pt s : more_tables pt s s.
Proof. by exists []. Qed.

Lemma more_tables_trans pt s1 s2 s3 : more_tables pt s1 s2 → more_tables pt s2 s3 → more_tables pt s1 s3.
Proof. intros [n1 E1] [n2 E2]. exists (n2 ++ n1). by rewrite E2, E1, app_assoc. Qed.

Lemma more_tables_eq pt s1 s2 s3 : more_tables pt s1 s2 → tables s3 pt = tables s2 pt → more_tables pt s1 s3.
Proof. intros [n E] Et. exists n. by rewrite Et. Qed.

(** When all pages are accounted for, that is how the free list went. *)
Lemma ran_out_intro m pt l s l' s' :
  more_tables pt s s' → l' ++ tables s' pt ≡ₚ l ++ tables s pt → (length l' ≤ m)%nat → ran_out m pt l s l' s'.
Proof.
  intros [new E] Hp Hl. exists new. split_and!; [done| |done].
  rewrite E, app_assoc in Hp. apply Permutation_app_inv_r in Hp. done.
Qed.

Lemma length_frames n s pt va : (length (frames n s pt va) ≤ n)%nat.
Proof.
  revert va. induction n as [|n IH]; intros va; [done|]. cbn [frames]. rewrite length_app.
  specialize (IH (va + PGSIZE)). destruct (mapped s pt va); simpl; lia.
Qed.

Section Uvm.
Context {LK : Linker} {LKok : LinkerOk}.

(** An address space of [n] pages from address 0: its frames, its tables and
    the free pages are pairwise distinct allocator pages, and nothing is mapped
    between its end and the trapframe, nor from [MAXVA] on. *)
Record uvm (s : kmem_state) (pt : Z) (n : nat) (l : list Z) : Prop := {
  uvm_pt : pt_ok 2 s pt l;
  uvm_sep : NoDup (owned n s pt l);
  uvm_range : Forall (page_ok (phys_top s)) (frames n s pt 0);
  uvm_top : Z.of_nat n * PGSIZE ≤ TRAPFRAME;
  uvm_above : ∀ va, Z.of_nat n * PGSIZE ≤ va < TRAPFRAME → mapped s pt va = false;
  uvm_high : ∀ va, MAXVA ≤ va < VATOP → mapped s pt va = false;
}.

Lemma frames_app n k s pt va :
  frames (n + k) s pt va = frames n s pt va ++ frames k s pt (va + Z.of_nat n * PGSIZE).
Proof.
  revert va. induction n as [|n IH]; intros va; simpl.
  - f_equal. lia.
  - rewrite IH, <- app_assoc. do 3 f_equal. unfold PGSIZE. lia.
Qed.

Lemma frames_unmapped n s pt va :
  0 ≤ va → (∀ va', va ≤ va' < va + Z.of_nat n * PGSIZE → mapped s pt va' = false) →
  frames n s pt va = [].
Proof.
  revert va. induction n as [|n IH]; intros va H0 Hm; [done|]. cbn [frames].
  rewrite Hm by page_lia. simpl. apply IH; [page_lia|]. intros va' Hva'. apply Hm. page_lia.
Qed.

Lemma PGROUNDUP_pages sz :
  0 ≤ sz ≤ TRAPFRAME → PGROUNDUP sz = Z.of_nat (pages_of sz) * PGSIZE.
Proof. intros Hsz. rewrite PGROUNDUP_eq by va_lia. va_lia. Qed.

Lemma pages_of_aligned n : pages_of (Z.of_nat n * PGSIZE) = n.
Proof. va_lia. Qed.

Lemma uvmunmap_ok n s pt l va (do_free : bool) :
  pt_ok 2 s pt l → va mod PGSIZE = 0 → 0 ≤ va → va + Z.of_nat n * PGSIZE ≤ MAXVA →
  (do_free = true → NoDup (frames n s pt va ++ l ++ tables s pt)
                    ∧ Forall (page_ok (phys_top s)) (frames n s pt va)) →
  returns (uvmunmap pt va (Z.of_nat n) do_free) s (λ _ s',
    let fr := if do_free then frames n s pt va else [] in
    pt_ok 2 s' pt (reverse fr ++ l) ∧ tables s' pt = tables s pt ∧ phys_top s' = phys_top s
    ∧ mem_frame (fr ++ tables s pt) (mem s) (mem s')
    ∧ unmaps_range pt va (Z.of_nat n) s s').
Proof.
  intros Hok Hva H0 Hmax Hfree. unfold uvmunmap. rewrite (proj2 (Z.eqb_eq _ _) Hva). cbn [negb].
  rewrite (u64_id (Z.of_nat n * PGSIZE)), u64_id by page_lia.
  apply uvmunmap_loop_ok; try done. lia.
Qed.

(** Cutting an address space of [n] pages down to its first [k]. *)
Lemma unmap_tail n k s pt l :
  uvm s pt n l → (k ≤ n)%nat →
  returns (uvmunmap pt (Z.of_nat k * PGSIZE) (Z.of_nat (n - k)) true) s (λ _ s',
    ∃ l', uvm s' pt k l' ∧ owned k s' pt l' ≡ₚ owned n s pt l ∧ tables s' pt = tables s pt
      ∧ phys_top s' = phys_top s
      ∧ mem_frame (frames (n - k) s pt (Z.of_nat k * PGSIZE) ++ tables s pt) (mem s) (mem s')
      ∧ (∀ va, 0 ≤ va < VATOP → ¬ Z.of_nat k * PGSIZE ≤ va < TRAPFRAME → vpte s' pt va = vpte s pt va)).
Proof.
  intros [Hok Hsep Hr Htop Habove Hhigh] Hk. unfold owned in Hsep.
  assert (En : frames n s pt 0 = frames k s pt 0 ++ frames (n - k) s pt (Z.of_nat k * PGSIZE)).
  { replace n with (k + (n - k))%nat at 1 by lia. by rewrite frames_app. }
  rewrite En in Hsep, Hr. apply Forall_app in Hr as [Hr1 Hr2].
  eapply returns_mono; [apply (uvmunmap_ok (n - k) s pt l); try done; try va_lia|].
  { intros _. split; [|done]. rewrite <- app_assoc in Hsep. by apply NoDup_app in Hsep as (_ & _ & ?). }
  cbv zeta. set (fr := frames (n - k) s pt _) in *.
  intros u s' (Hok' & Htab & Ht & Hf & Hun). exists (reverse fr ++ l).
  assert (Hv : ∀ va, 0 ≤ va < VATOP → ¬ Z.of_nat k * PGSIZE ≤ va < TRAPFRAME → vpte s' pt va = vpte s pt va).
  { intros va Hva Hlt. rewrite Hun by done. by rewrite decide_False by va_lia. }
  assert (Ek : frames k s' pt 0 = frames k s pt 0).
  { apply frames_ext; try va_lia. intros va' Hva'. apply Hv; va_lia. }
  assert (Hperm : owned k s' pt (reverse fr ++ l) ≡ₚ owned n s pt l).
  { unfold owned. rewrite Ek, Htab, En, <- !app_assoc. f_equiv. f_equiv. apply reverse_Permutation. }
  split_and!; try done. split; try done.
  - rewrite Hperm. unfold owned. by rewrite En.
  - by rewrite Ek, Ht.
  - va_lia.
  - intros va Hva. unfold mapped. rewrite Hun by va_lia.
    destruct (decide _) as [Hd|Hd].
    + destruct (mapped s pt va) eqn:Hm; [done|exact Hm].
    + apply Habove. va_lia.
  - intros va Hva. unfold mapped. rewrite Hv by va_lia. by apply Hhigh.
Qed.

Lemma uvmdealloc_ok s pt l oldsz newsz :
  uvm s pt (pages_of oldsz) l → 0 ≤ newsz ≤ oldsz → oldsz ≤ TRAPFRAME →
  returns (uvmdealloc pt oldsz newsz) s (λ r s',
    r = newsz ∧ ∃ l', uvm s' pt (pages_of newsz) l'
      ∧ owned (pages_of newsz) s' pt l' ≡ₚ owned (pages_of oldsz) s pt l ∧ tables s' pt = tables s pt
      ∧ phys_top s' = phys_top s
      ∧ mem_frame (frames (pages_of oldsz - pages_of newsz) s pt (Z.of_nat (pages_of newsz) * PGSIZE)
                   ++ tables s pt) (mem s) (mem s')
      ∧ (∀ va, 0 ≤ va < VATOP → ¬ PGROUNDUP newsz ≤ va < TRAPFRAME → vpte s' pt va = vpte s pt va)).
Proof.
  intros Hu Hsz Hmax. unfold uvmdealloc.
  destruct (Z.leb_spec oldsz newsz) as [Hle|Hlt].
  { assert (newsz = oldsz) as -> by lia. apply returns_ret. split; [done|]. exists l.
    split_and!; auto with frame. }
  rewrite !PGROUNDUP_pages by lia.
  assert (Hkn : (pages_of newsz ≤ pages_of oldsz)%nat) by va_lia.
  set (n := pages_of oldsz) in *. set (k := pages_of newsz) in *. clearbody n k.
  assert (Hn : Z.of_nat n * PGSIZE ≤ TRAPFRAME) by apply Hu.
  destruct (Z.ltb_spec (Z.of_nat k * PGSIZE) (Z.of_nat n * PGSIZE)) as [Hlt'|Hge].
  - replace (u64 (s32 _)) with (Z.of_nat (n - k)).
    + eapply returns_bind; [by apply (unmap_tail n k s pt l)|].
      intros u s' (l' & ? & ? & ? & ? & ? & ?). apply returns_ret. split; [done|]. exists l'.
      split_and!; assumption.
    + replace ((Z.of_nat n * PGSIZE - Z.of_nat k * PGSIZE) / PGSIZE) with (Z.of_nat (n - k))
        by (rewrite <- Z.mul_sub_distr_r, Z.div_mul by done; lia).
      assert (Z.of_nat (n - k) < 2 ^ 26) by va_lia.
      unfold s32. rewrite Z.mod_small by lia. rewrite u64_id; lia.
  - assert (n = k) as Enk by va_lia. apply returns_bind with (R := λ _ s', s' = s).
    { by apply returns_ret. }
    intros u s' ->. apply returns_ret. split; [done|]. exists l. rewrite <- Enk.
    split_and!; auto with frame.
Qed.

(** ** [uvmalloc] *)

(** A change that only moves pages between the free list and the tables. *)
Lemma uvm_same s s' pt n l l' :
  uvm s pt n l → pt_ok 2 s' pt l' → phys_top s' = phys_top s →
  l' ++ tables s' pt ≡ₚ l ++ tables s pt →
  (∀ va, 0 ≤ va < VATOP → vpte s' pt va = vpte s pt va) →
  uvm s' pt n l' ∧ owned n s' pt l' ≡ₚ owned n s pt l.
Proof.
  intros [Hok Hsep Hr Htop Habove Hhigh] Hok' Ht Hp Hv.
  assert (En : frames n s' pt 0 = frames n s pt 0).
  { apply frames_ext; try va_lia. intros va' Hva'. apply Hv. va_lia. }
  assert (Hown : owned n s' pt l' ≡ₚ owned n s pt l) by (unfold owned; by rewrite En, Hp).
  split; [|done]. split; try done.
  - by rewrite Hown.
  - by rewrite En, Ht.
  - intros va Hva. unfold mapped. rewrite Hv by va_lia. by apply Habove.
  - intros va Hva. unfold mapped. rewrite Hv by va_lia. by apply Hhigh.
Qed.

(** A change that maps one more page. *)
Lemma uvm_extend s s' pt k l l' p :
  uvm s pt k l → pt_ok 2 s' pt l' → phys_top s' = phys_top s →
  p :: l' ++ tables s' pt ≡ₚ l ++ tables s pt →
  Z.of_nat (S k) * PGSIZE ≤ TRAPFRAME → page_ok (phys_top s) p →
  PTE2PA (vpte s' pt (Z.of_nat k * PGSIZE)) = p → mapped s' pt (Z.of_nat k * PGSIZE) = true →
  (∀ va, 0 ≤ va < VATOP → ¬ Z.of_nat k * PGSIZE ≤ va < Z.of_nat (S k) * PGSIZE →
     vpte s' pt va = vpte s pt va) →
  uvm s' pt (S k) l' ∧ owned (S k) s' pt l' ≡ₚ owned k s pt l.
Proof.
  intros [Hok Hsep Hr Htop Habove Hhigh] Hok' Ht Hp Hmax Hpok Hpa Hm Hv.
  assert (En : frames (S k) s' pt 0 = frames k s pt 0 ++ [p]).
  { replace (S k) with (k + 1)%nat by lia. rewrite frames_app. cbn [frames].
    rewrite Z.add_0_l, Hm, Hpa. f_equal. apply frames_ext; try va_lia.
    intros va' Hva'. apply Hv; va_lia. }
  assert (Hown : owned (S k) s' pt l' ≡ₚ owned k s pt l).
  { unfold owned. rewrite En, <- app_assoc. simpl. by rewrite Hp. }
  split; [|done]. split; try done.
  - by rewrite Hown.
  - rewrite En, Ht. apply Forall_app. split; [done|]. by apply Forall_singleton.
  - intros va Hva. unfold mapped. rewrite Hv by va_lia. apply Habove. va_lia.
  - intros va Hva. unfold mapped. rewrite Hv by va_lia. by apply Hhigh.
Qed.

Lemma memset_zeroes m p b : in_page p b → mget (memset m p 0 PGSIZE) b = 0.
Proof. intros Hb. rewrite mget_memset by done. by rewrite decide_True. Qed.

(** Writing a page that is neither free nor a table. *)
Lemma write_pt s pt p l m :
  pt_ok 2 s pt l → page_ok (phys_top s) p → p ∉ l ++ tables s pt → mem_frame [p] (mem s) m →
  let s' := with_mem m s in
  pt_ok 2 s' pt l ∧ tables s' pt = tables s pt ∧ (∀ va, vpte s' pt va = vpte s pt va).
Proof.
  intros Hok Hp Hn Hf. cbv zeta.
  assert (Hal : Forall (λ p, p mod PGSIZE = 0) [p]).
  { repeat constructor. by eapply page_ok_aligned. }
  assert (Hd : ∀ q, q ∈ l ++ tables s pt → q ∉ [p]).
  { intros q Hq ->%list_elem_of_singleton. done. }
  destruct (pt_ok_change [p] s (with_mem m s) pt l) as (Htab & _ & Hv & _); try done.
  { intros q Hq. apply Hd, elem_of_app. by right. }
  split_and!; try done. by apply (pt_ok_write [p] s).
Qed.

(** Mapping a fresh page [p] as the next page of the address space. *)
Lemma map_next s0 s pt k l0 p l perm :
  uvm s0 pt k l0 → l0 = p :: l → pt_ok 2 s pt l → tables s pt = tables s0 pt →
  phys_top s = phys_top s0 → mem_frame [p] (mem s0) (mem s) → page_ok (phys_top s0) p →
  (∀ va, vpte s pt va = vpte s0 pt va) →
  Z.of_nat (S k) * PGSIZE ≤ TRAPFRAME → 0 ≤ perm < 1024 →
  returns (mappages pt (Z.of_nat k * PGSIZE) PGSIZE p perm) s (λ r s',
    ∃ l', mem_frame (l ++ tables s0 pt) (mem s) (mem s') ∧ phys_top s' = phys_top s0
    ∧ pt_ok 2 s' pt l'
    ∧ p :: l' ++ tables s' pt ≡ₚ l0 ++ tables s0 pt ∧ more_tables pt s0 s'
    ∧ (r = 0 ∧ uvm s' pt (S k) l' ∧ owned (S k) s' pt l' ≡ₚ owned k s0 pt l0
         ∧ (∀ va, 0 ≤ va < VATOP → vpte s' pt va
              = if decide (Z.of_nat k * PGSIZE ≤ va < Z.of_nat (S k) * PGSIZE) then leaf p perm
                else vpte s0 pt va)
       ∨ r = -1 ∧ l' = [] ∧ (∀ va, 0 ≤ va < VATOP → vpte s' pt va = vpte s0 pt va))).
Proof.
  intros Hu El Hok Htab Ht Hf Hp Hv Hmax Hperm.
  pose proof (page_ok_range _ _ Hp (kinv_top _ _ (pt_kinv _ _ _ _ (uvm_pt _ _ _ _ Hu)))) as Hpr.
  pose proof (page_ok_aligned _ _ Hp) as Hpal.
  assert (Hp55 : p < 2 ^ 55).
  { destruct Hp as (_ & _ & ?). pose proof (kinv_top _ _ (pt_kinv _ _ _ _ (uvm_pt _ _ _ _ Hu))). lia. }
  replace PGSIZE with (1 * PGSIZE) at 2 by reflexivity.
  eapply returns_mono; [apply (mappages_ok s pt l); try done; try va_lia|].
  { intros va' Hva'. unfold mapped. rewrite Hv. apply (uvm_above _ _ _ _ Hu). va_lia. }
  intros r s' (l' & n & Hok' & (new & Hl & Ht' & Htab' & Hf') & Hm & Hr). exists l'.
  assert (Hperm1 : p :: l' ++ tables s' pt ≡ₚ l0 ++ tables s0 pt).
  { rewrite El, Hl, Htab', Htab. simpl. f_equiv. rewrite <- app_assoc. apply Permutation_app_swap_app. }
  split_and!; try done; try congruence.
  - rewrite Htab in Hf'. eapply mem_frame_mono; [|exact Hf'].
    intros q. rewrite Hl, !elem_of_app. tauto.
  - exists new. by rewrite Htab', Htab.
  - destruct Hr as [[-> ->]|(-> & -> & Hn)]; [left|right].
    + assert (Hvp : ∀ va, 0 ≤ va < VATOP → vpte s' pt va
              = if decide (Z.of_nat k * PGSIZE ≤ va < Z.of_nat (S k) * PGSIZE) then leaf p perm
                else vpte s0 pt va).
      { intros va Hva. rewrite Hm, Hv by done. destruct (decide (Z.of_nat k * PGSIZE ≤ va < _)).
        - rewrite decide_True by page_lia. f_equal. page_lia.
        - by rewrite decide_False by page_lia. }
      destruct (uvm_extend s0 s' pt k l0 l' p) as [Hu' Hown]; [done|done|congruence|done|done|done| | | |].
      * rewrite Hvp, decide_True by va_lia. by apply leaf_PTE2PA.
      * unfold mapped. rewrite Hvp, decide_True by va_lia. apply leaf_valid.
      * intros va Hva Hne. rewrite Hvp by va_lia. by rewrite decide_False.
      * split_and!; try assumption; reflexivity.
    + split; [done|]. split; [done|]. intros va Hva. rewrite Hm, Hv by done. by rewrite decide_False by page_lia.
Qed.

(** The common step of [uvmalloc] and [uvmcopy]: allocate a page, write it, map
    it as the next page, and give it back if that fails. *)
Lemma alloc_map_page s pt k l (f : memory → Z → memory) perm (undo next : K Z) (Q : Z → kmem_state → Prop) :
  uvm s pt k l → Z.of_nat (S k) * PGSIZE ≤ TRAPFRAME → 0 ≤ perm < 1024 →
  (∀ m p, mem_frame [p] m (f m p)) →
  (∀ s' l', pt_ok 2 s' pt l' → phys_top s' = phys_top s → l' ++ tables s' pt ≡ₚ l ++ tables s pt →
     mem_frame (l ++ tables s pt) (mem s) (mem s') → more_tables pt s s' → (length l' ≤ 1)%nat →
     (∀ va, 0 ≤ va < VATOP → vpte s' pt va = vpte s pt va) → returns undo s' Q) →
  (∀ p l1 m1 m2 s3 l3, l = p :: l1 → page_ok (phys_top s) p →
     mem_frame [p] (mem s) m1 → m2 = f m1 p → mem_frame [p] (mem s) m2 →
     mem_frame (l1 ++ tables s pt) m2 (mem s3) → phys_top s3 = phys_top s →
     p :: l3 ++ tables s3 pt ≡ₚ (p :: l1) ++ tables s pt →
     uvm s3 pt (S k) l3 → owned (S k) s3 pt l3 ≡ₚ owned k s pt (p :: l1) → more_tables pt s s3 →
     (∀ va, 0 ≤ va < VATOP → vpte s3 pt va
        = if decide (Z.of_nat k * PGSIZE ≤ va < Z.of_nat (S k) * PGSIZE) then leaf p perm
          else vpte s pt va) → returns next s3 Q) →
  returns (let! page := kalloc in
           if page =? 0 then undo
           else
             modify (λ s, with_mem (f (mem s) page) s) ;;;
             let! r := mappages pt (Z.of_nat k * PGSIZE) PGSIZE page perm in
             if negb (r =? 0) then kfree page ;;; undo else next) s Q.
Proof.
  intros Hu Hmax Hperm Hf Hundo Hnext. pose proof (uvm_pt _ _ _ _ Hu) as Hok.
  destruct l as [|p l].
  { eapply returns_bind; [apply (returns_eq _ _ _ _ (kalloc_none s (pt_kinv _ _ _ _ Hok)))|].
    intros r s' [-> ->]. rewrite Z.eqb_refl. apply (Hundo s []); auto using more_tables_refl with frame. }
  eapply returns_bind; [apply (kalloc_pt s pt p l Hok)|].
  intros r s1 (-> & Hok1 & Htab1 & Ht1 & Hf1 & Hp & Hn & Hv1).
  rewrite (proj2 (Z.eqb_neq p 0)) by (by eapply page_ok_nonzero).
  destruct (write_pt s1 pt p l (f (mem s1) p)) as (Hok2 & Htab2 & Hv2);
    [done|by rewrite Ht1|by rewrite Htab1|apply Hf|].
  eapply returns_bind; [apply (returns_modify _ _ (λ _ s', s' = with_mem (f (mem s1) p) s1)); reflexivity|].
  intros u s2 ->. set (s2 := with_mem _ s1) in *.
  assert (Em2 : mem s2 = f (mem s1) p) by reflexivity.
  assert (Hf2 : mem_frame [p] (mem s) (mem s2)).
  { apply (mem_frame_trans _ _ (mem s1)); [done|]. rewrite Em2. apply Hf. }
  assert (Ht2 : phys_top s2 = phys_top s) by (by rewrite <- Ht1).
  assert (Hvs2 : ∀ va, vpte s2 pt va = vpte s pt va) by (intros va; by rewrite Hv2).
  rewrite Htab1 in Htab2. clearbody s2.
  eapply returns_bind; [apply (map_next s s2 pt k (p :: l) p l perm); done|].
  intros r s3 (l3 & Hf3 & Ht3 & Hok3 & Hp3 & Hmt & [(-> & Hu3 & Hown3 & Hv3)|(-> & -> & Hv3)]); cbn [Z.eqb negb].
  - by apply (Hnext p l (mem s1) (mem s2) s3 l3).
  - eapply returns_bind; [apply (kfree_pt s3 pt [] p); try done|].
    { by rewrite Ht3. }
    { destruct Hok as [_ Hsep _ _]. change ((p :: l) ++ _) with ((p :: l) ++ tables s pt) in Hsep.
      rewrite <- Hp3 in Hsep. by apply NoDup_cons in Hsep as [? _]. }
    intros u' s4 (Hok4 & Htab4 & Ht4 & Hf4 & _ & Hv4).
    apply (Hundo s4 [p]); try done.
    + congruence.
    + by rewrite Htab4.
    + apply (mem_frame_trans _ _ (mem s2)); [|apply (mem_frame_trans _ _ (mem s3))].
      * eapply mem_frame_mono; [|exact Hf2]. intros q ->%list_elem_of_singleton. left.
      * eapply mem_frame_mono; [|exact Hf3]. intros q Hq. by right.
      * eapply mem_frame_mono; [|exact Hf4]. intros q ->%list_elem_of_singleton. left.
    + by eapply more_tables_eq.
    + intros va Hva. rewrite Hv4. by apply Hv3.
Qed.

(** The page of [va] maps a zeroed page with permissions [perm]. *)
Definition fresh (s : kmem_state) (pt va perm : Z) : Prop :=
  ∃ pa, vpte s pt va = leaf pa perm ∧ page_ok (phys_top s) pa ∧ ∀ b, in_page pa b → mget (mem s) b = 0.

(** What growing from [k] pages to [newsz] bytes does, with [n0] pages to go
    back to on failure. *)
Definition grown (n0 k : nat) (pt newsz perm : Z) (l : list Z) (s : kmem_state) (r : Z)
    (s' : kmem_state) : Prop :=
  ∃ l' n', uvm s' pt n' l' ∧ owned n' s' pt l' ≡ₚ owned k s pt l ∧ phys_top s' = phys_top s
    ∧ mem_frame (frames (k - n0) s pt (Z.of_nat n0 * PGSIZE) ++ l ++ tables s pt) (mem s) (mem s')
    ∧ (∀ va, 0 ≤ va < VATOP → ¬ Z.of_nat n0 * PGSIZE ≤ va < TRAPFRAME → vpte s' pt va = vpte s pt va)
    ∧ (r = newsz ∧ n' = Nat.max k (pages_of newsz)
         ∧ mem_frame (l ++ tables s pt) (mem s) (mem s')
         ∧ (∀ va, 0 ≤ va < Z.of_nat k * PGSIZE → vpte s' pt va = vpte s pt va)
         ∧ (∀ va, Z.of_nat k * PGSIZE ≤ va < Z.of_nat n' * PGSIZE → fresh s' pt va perm)
       ∨ r = 0 ∧ n' = n0 ∧ more_tables pt s s' ∧ (length l' ≤ pages_of newsz - n0)%nat).

(** Undoing a failed growth: back to [n0] pages. *)
Lemma alloc_undo n0 k s0 s pt l0 l newsz perm :
  uvm s0 pt k l0 → (n0 ≤ k)%nat → (k < pages_of newsz)%nat → pt_ok 2 s pt l → phys_top s = phys_top s0 →
  more_tables pt s0 s → (length l ≤ 1)%nat → l ++ tables s pt ≡ₚ l0 ++ tables s0 pt →
  mem_frame (l0 ++ tables s0 pt) (mem s0) (mem s) →
  (∀ va, 0 ≤ va < VATOP → vpte s pt va = vpte s0 pt va) →
  returns (uvmdealloc pt (Z.of_nat k * PGSIZE) (Z.of_nat n0 * PGSIZE) ;;; ret 0) s
    (grown n0 k pt newsz perm l0 s0).
Proof.
  intros Hu Hk Hkn Hok Ht Hmt Hone Hp Hf Hv. pose proof (uvm_top _ _ _ _ Hu).
  destruct (uvm_same s0 s pt k l0 l) as [Hu1 Hown1]; try done.
  eapply returns_bind; [apply (uvmdealloc_ok s pt l)|]; rewrite ?pages_of_aligned; try done; try va_lia.
  intros r s' (_ & l' & Hu' & Hown' & Htab' & Ht' & Hf' & Hv'). apply returns_ret.
  exists l', n0. split_and!; try done.
  - by rewrite Hown'.
  - congruence.
  - rewrite (frames_ext (k - n0) s0 s) in Hf'; try va_lia; [|intros va' Hva'; apply Hv; va_lia].
    apply (mem_frame_trans _ _ (mem s)).
    + eapply mem_frame_mono; [|exact Hf]. intros q. rewrite !elem_of_app. tauto.
    + eapply mem_frame_mono; [|exact Hf']. intros q. rewrite elem_of_app. intros [?|Hq]; [apply elem_of_app; by left|].
      apply elem_of_app. right. rewrite <- Hp. apply elem_of_app. by right.
  - intros va Hva Hne. rewrite Hv' by (rewrite ?PGROUNDUP_pages, ?pages_of_aligned; va_lia || done). by apply Hv.
  - right. split_and!; [done|done|by eapply more_tables_eq|].
    assert (En : frames n0 s' pt 0 = frames n0 s pt 0).
    { apply frames_ext; try va_lia. intros va' Hva'. apply Hv'; [va_lia|].
      rewrite PGROUNDUP_pages, pages_of_aligned by va_lia. va_lia. }
    unfold owned in Hown'. rewrite Htab', En in Hown'. replace k with (n0 + (k - n0))%nat in Hown' by lia.
    rewrite frames_app, <- app_assoc in Hown'. apply Permutation_app_inv_l in Hown'.
    rewrite app_assoc in Hown'. apply Permutation_app_inv_r, Permutation_length in Hown'.
    rewrite length_app in Hown'. pose proof (length_frames (k - n0) s pt (0 + Z.of_nat n0 * PGSIZE)). lia.
Qed.

(** One more page mapped and zeroed, then the rest. *)
Lemma grown_step n0 k s s2 s3 s4 pt p l l3 r newsz perm :
  uvm s pt k (p :: l) → uvm s3 pt (S k) l3 → (n0 ≤ k)%nat → Z.of_nat k * PGSIZE < newsz →
  0 ≤ newsz ≤ TRAPFRAME → page_ok (phys_top s) p → 0 ≤ perm < 1024 →
  (∀ b, in_page p b → mget (mem s2) b = 0) →
  mem_frame [p] (mem s) (mem s2) → mem_frame (l ++ tables s pt) (mem s2) (mem s3) →
  phys_top s3 = phys_top s → owned (S k) s3 pt l3 ≡ₚ owned k s pt (p :: l) →
  p :: l3 ++ tables s3 pt ≡ₚ (p :: l) ++ tables s pt → more_tables pt s s3 →
  (∀ va, 0 ≤ va < VATOP → vpte s3 pt va
     = if decide (Z.of_nat k * PGSIZE ≤ va < Z.of_nat (S k) * PGSIZE) then leaf p perm
       else vpte s pt va) →
  grown n0 (S k) pt newsz perm l3 s3 r s4 → grown n0 k pt newsz perm (p :: l) s r s4.
Proof.
  intros Hu Hu3 Hk Hlt Hsz Hp Hperm Hz Hf2 Hf3 Ht3 Hown3 Hp3 Hmt Hv3 (l4 & n' & Hu4 & Hown4 & Ht4 & Hf4 & Hv4 & Hr).
  pose proof (uvm_top _ _ _ _ Hu) as Htop.
  assert (Hsub3 : l3 ++ tables s3 pt ≡ₚ l ++ tables s pt) by (by apply Permutation_cons_inv in Hp3).
  assert (Hpn : p ∉ l ++ tables s pt).
  { destruct (uvm_pt _ _ _ _ Hu) as [_ Hsep _ _]. by apply NoDup_cons in Hsep as [? _]. }
  assert (Hf13 : mem_frame ((p :: l) ++ tables s pt) (mem s) (mem s3)).
  { apply (mem_frame_trans _ _ (mem s2)).
    - eapply mem_frame_mono; [|exact Hf2]. intros q ->%list_elem_of_singleton. left.
    - eapply mem_frame_mono; [|exact Hf3]. intros q Hq. by right. }
  assert (Hal : Forall (λ p, p mod PGSIZE = 0) (l ++ tables s pt)).
  { destruct (uvm_pt _ _ _ _ Hu) as [[_ _ Hl _] _ Hr1 _].
    apply (pages_aligned (phys_top s)), Forall_app. by apply Forall_cons in Hl as [_ Hl]. }
  assert (Efr : frames (S k - n0) s3 pt (Z.of_nat n0 * PGSIZE)
                = frames (k - n0) s pt (Z.of_nat n0 * PGSIZE) ++ [p]).
  { replace (S k - n0)%nat with ((k - n0) + 1)%nat by lia. rewrite frames_app. cbn [frames].
    unfold mapped. replace (Z.of_nat n0 * PGSIZE + Z.of_nat (k - n0) * PGSIZE) with (Z.of_nat k * PGSIZE) by page_lia.
    rewrite Hv3, decide_True, leaf_valid by va_lia. simpl.
    rewrite leaf_PTE2PA.
    - f_equal. apply frames_ext; try va_lia. intros va' Hva'. rewrite Hv3 by va_lia. by rewrite decide_False by lia.
    - eapply page_ok_range; [done|]. apply (uvm_pt _ _ _ _ Hu).
    - by eapply page_ok_aligned.
    - done. }
  exists l4, n'. split_and!; try done.
  - by rewrite Hown4.
  - congruence.
  - apply (mem_frame_trans _ _ (mem s3)).
    + eapply mem_frame_mono; [|exact Hf13]. intros q Hq. apply elem_of_app. by right.
    + rewrite Efr in Hf4. eapply mem_frame_mono; [|exact Hf4].
      intros q. rewrite Hsub3. rewrite !elem_of_app, list_elem_of_singleton, elem_of_cons. tauto.
  - intros va Hva Hne. rewrite Hv4 by done. rewrite Hv3 by done. by rewrite decide_False by va_lia.
  - destruct Hr as [(-> & -> & Hfl & Hold & Hnew)|(-> & -> & Hmt' & Hlen)];
      [left|right; split_and!; [done|done|by eapply more_tables_trans|done]].
    rewrite Hsub3 in Hfl.
    split_and!; [done|va_lia| | |].
    + apply (mem_frame_trans _ _ (mem s3)); [done|].
      eapply mem_frame_mono; [|exact Hfl]. intros q Hq. by right.
    + intros va Hva. rewrite Hold by va_lia. rewrite Hv3 by va_lia. by rewrite decide_False by lia.
    + intros va Hva. destruct (decide (va < Z.of_nat (S k) * PGSIZE)); [|apply Hnew; va_lia].
      exists p. rewrite Hold, Hv3, decide_True by va_lia. split_and!; try done.
      { by rewrite Ht4, Ht3. }
      intros b Hb. assert (Hpal : p mod PGSIZE = 0) by (by eapply page_ok_aligned).
      rewrite (mem_frame_byte (l ++ tables s pt) (mem s3) (mem s4) p b) by done.
      rewrite (mem_frame_byte (l ++ tables s pt) (mem s2) (mem s3) p b) by done. by apply Hz.
Qed.

Lemma uvmalloc_loop_ok fuel n0 k s pt l newsz xperm :
  uvm s pt k l → (n0 ≤ k)%nat → 0 ≤ newsz ≤ TRAPFRAME → 0 ≤ xperm < 1024 →
  (pages_of newsz - k < fuel)%nat →
  returns (uvmalloc_loop fuel pt (Z.of_nat k * PGSIZE) (Z.of_nat n0 * PGSIZE) newsz xperm) s
    (grown n0 k pt newsz (Z.lor (Z.lor PTE_R PTE_U) xperm) l s).
Proof.
  intros Hu Hk Hsz Hx. revert k s l Hu Hk. induction fuel as [|f IH]; intros k s l Hu Hk Hfuel; [lia|].
  set (perm := Z.lor (Z.lor PTE_R PTE_U) xperm) in *.
  assert (Hperm : 0 ≤ perm < 1024) by (by apply lor_bound).
  cbn [uvmalloc_loop]. fold perm. destruct (Z.ltb_spec (Z.of_nat k * PGSIZE) newsz) as [Hlt|Hge]; cbn [negb].
  2:{ apply returns_ret. exists l, k. split_and!; auto with frame. left. split_and!; auto with frame.
      - va_lia.
      - intros va Hva. lia. }
  rewrite u64_id by va_lia. replace (Z.of_nat k * PGSIZE + PGSIZE) with (Z.of_nat (S k) * PGSIZE) by va_lia.
  apply (alloc_map_page s pt k l (λ m p, memset m p 0 PGSIZE)); [done|va_lia|done| | |].
  - intros m p. apply mem_frame_memset.
  - intros s' l' Hok' Ht' Hp' Hf' Hmt' Hl' Hv'. apply (alloc_undo n0 k s s' pt l l'); try done. va_lia.
  - intros p l1 m1 m2 s3 l3 -> Hp Hf1 Em2 Hf2 Hf3 Ht3 Hp3 Hu3 Hown3 Hmt Hv3.
    assert (Hz : ∀ b, in_page p b → mget m2 b = 0) by (rewrite Em2; apply memset_zeroes).
    clear Em2. eapply returns_mono; [apply (IH (S k) s3 l3); [done|lia|va_lia]|].
    intros r s4 Hg. by apply (grown_step n0 k s (with_mem m2 s) s3 s4 pt p l1 l3).
Qed.

Lemma uvmalloc_ok s pt l oldsz newsz xperm :
  uvm s pt (pages_of oldsz) l → 0 ≤ oldsz ≤ newsz → newsz ≤ TRAPFRAME → 0 ≤ xperm < 1024 →
  returns (uvmalloc pt oldsz newsz xperm) s
    (grown (pages_of oldsz) (pages_of oldsz) pt newsz (Z.lor (Z.lor PTE_R PTE_U) xperm) l s).
Proof.
  intros Hu Hsz Hmax Hx. unfold uvmalloc. rewrite (proj2 (Z.ltb_ge _ _)) by lia. cbv zeta.
  rewrite PGROUNDUP_pages by lia. apply uvmalloc_loop_ok; try done; va_lia.
Qed.

(** A growth that was undone: the frames are as before, so the free list went
    into tables. *)
Lemma grown_failed n pt newsz l s l' s' :
  uvm s pt n l → owned n s' pt l' ≡ₚ owned n s pt l → more_tables pt s s' →
  (length l' ≤ pages_of newsz - n)%nat →
  (∀ va, 0 ≤ va < VATOP → ¬ Z.of_nat n * PGSIZE ≤ va < TRAPFRAME → vpte s' pt va = vpte s pt va) →
  ran_out (pages_of newsz - n) pt l s l' s'.
Proof.
  intros Hu Hown Hmt Hl Hv. apply ran_out_intro; [done| |done]. pose proof (uvm_top _ _ _ _ Hu).
  unfold owned in Hown. rewrite (frames_ext n s s') in Hown; try va_lia.
  - by apply Permutation_app_inv_l in Hown.
  - intros va Hva. apply Hv; va_lia.
Qed.

End Uvm.
