(* ===== verification/UvmCopy.v ===== *)
(** [uvmcopy] and [uvmfree] (vm.c): duplicating an address space for [fork] and
    giving all of its pages back. *)

From S2P Require Import Prelude Machine CString Kalloc Vm PageTable AddrSpace Uvm.

Section Copy.
Context {LK : Linker} {LKok : LinkerOk}.

Lemma frames_elem n s pt va :
  0 ≤ va < Z.of_nat n * PGSIZE → Z.of_nat n * PGSIZE ≤ MAXVA → mapped s pt va = true →
  PTE2PA (vpte s pt va) ∈ frames n s pt 0.
Proof.
  intros Hva Hmax Hm. set (k := Z.to_nat (va / PGSIZE)).
  assert (Ev : vpte s pt va = vpte s pt (Z.of_nat k * PGSIZE)).
  { apply vpte_same_page; subst k; page_lia. }
  replace n with (k + (1 + (n - k - 1)))%nat by (subst k; page_lia).
  rewrite frames_app. apply elem_of_app. right. cbn [frames Nat.add]. apply elem_of_app. left.
  unfold mapped in *. rewrite Z.add_0_l, <- Ev, Hm. left.
Qed.

(** The valid bit is already among the flags of a valid entry. *)
Lemma flags_valid e : has e PTE_V = true → Z.lor (PTE_FLAGS e) PTE_V = PTE_FLAGS e.
Proof.
  intros Hv. unfold PTE_V in *. rewrite has_testbit in Hv by done.
  apply Z.bits_inj'. intros i Hi. unfold PTE_FLAGS. rewrite Z.lor_spec, !Z.land_spec.
  destruct (decide (i = 0)) as [->|Hne].
  - by rewrite Hv.
  - change (Z.shiftl 1 0) with (2 ^ 0). rewrite Z.pow2_bits_false by lia. by rewrite orb_false_r.
Qed.

Lemma flags_range e : 0 ≤ PTE_FLAGS e < 1024.
Proof.
  unfold PTE_FLAGS. change 0x3FF with (Z.ones 10). rewrite Z.land_ones by lia. by apply Z.mod_pos_bound.
Qed.

Lemma memmove_page m p q o :
  0 ≤ o < PGSIZE → mget (memmove m p q PGSIZE) (p + o) = mget m (q + o).
Proof. intros Ho. rewrite mget_memmove by done. rewrite decide_True by lia. f_equal. lia. Qed.

Lemma mem_frame_memmove m p q : mem_frame [p] m (memmove m p q PGSIZE).
Proof.
  intros b Hb. rewrite mget_memmove by done. rewrite decide_False; [done|]. apply (Hb p). left.
Qed.

(** The address space [old] survives changes to pages it does not own. *)
Lemma uvm_other Q s0 s old n l0 l :
  uvm s0 old n l0 → mem_frame Q (mem s0) (mem s) → phys_top s = phys_top s0 → kinv s l →
  Forall (λ p, p mod PGSIZE = 0) Q → l ⊆ Q →
  (∀ p, p ∈ frames n s0 old 0 ++ tables s0 old → p ∉ Q) →
  uvm s old n l ∧ tables s old = tables s0 old ∧ (∀ va, vpte s old va = vpte s0 old va)
  ∧ (∀ p b, p ∈ frames n s0 old 0 → in_page p b → mget (mem s) b = mget (mem s0) b).
Proof.
  intros [Hok Hsep Hr Htop Habove Hhigh] Hf Ht Hk Hal Hl Hd.
  destruct (pt_ok_change Q s0 s old l0) as (Htab & _ & Hv & Hpl); try done.
  { intros p Hp. apply Hd, elem_of_app. by right. }
  assert (En : frames n s old 0 = frames n s0 old 0).
  { apply frames_ext; try va_lia. intros va' Hva'. apply Hv. }
  unfold owned in Hsep. apply NoDup_app in Hsep as (Hsf & Hsft & Hslt).
  apply NoDup_app in Hslt as (_ & Hslt & Hst).
  assert (Hsep' : NoDup (l ++ tables s old)).
  { rewrite Htab. apply NoDup_app. split_and!; [apply Hk| |done].
    intros p Hp Hp'. apply (Hd p); [|by apply Hl]. apply elem_of_app. by right. }
  split_and!; try done.
  - split.
    + destruct Hok as [_ _ Hrt _]. unfold tables in *. split; [done|done| |done]. rewrite Htab, Ht. done.
    + unfold owned. rewrite En. apply NoDup_app. split_and!; try done.
      intros p Hp. rewrite Htab, elem_of_app. intros [Hp'|Hp'].
      * apply (Hd p); [|by apply Hl]. apply elem_of_app. by left.
      * apply (Hsft p Hp), elem_of_app. by right.
    + by rewrite En, Ht.
    + done.
    + intros va Hva. unfold mapped. rewrite Hv. by apply Habove.
    + intros va Hva. unfold mapped. rewrite Hv. by apply Hhigh.
  - intros p b Hp Hb. apply (mem_frame_byte Q _ _ p); try done.
    + rewrite Forall_forall in Hr. by apply (page_ok_aligned _ _ (Hr p Hp)).
    + apply Hd, elem_of_app. by left.
Qed.

(** The page of [va] in [new] is a copy of the page of [va] in [old]: mapped
    alike, with the same flags and the same bytes. *)
Definition copied (s0 : kmem_state) (old : Z) (s : kmem_state) (new va : Z) : Prop :=
  if mapped s0 old va then
    mapped s new va = true ∧ PTE_FLAGS (vpte s new va) = PTE_FLAGS (vpte s0 old va)
    ∧ ∀ o, 0 ≤ o < PGSIZE →
        mget (mem s) (PTE2PA (vpte s new va) + o) = mget (mem s0) (PTE2PA (vpte s0 old va) + o)
  else mapped s new va = false.

Section Loop.
Context (s0 : kmem_state) (old new : Z) (n : nat) (l0 : list Z).
Context (Hold : uvm s0 old n l0) (Hnew : uvm s0 new 0 l0).
Context (Hsep : ∀ p, p ∈ frames n s0 old 0 ++ tables s0 old → p ∉ l0 ++ tables s0 new).

(** After [k] pages: the child owns the pages the allocator and its tables had,
    and nothing else was touched. *)
Record copy_inv (k : nat) (s : kmem_state) (l : list Z) : Prop := {
  cinv_uvm : uvm s new k l;
  cinv_own : owned k s new l ≡ₚ l0 ++ tables s0 new;
  cinv_frame : mem_frame (l0 ++ tables s0 new) (mem s0) (mem s);
  cinv_top : phys_top s = phys_top s0;
  cinv_high : ∀ va, TRAPFRAME ≤ va < VATOP → vpte s new va = vpte s0 new va;
  cinv_copied : ∀ va, 0 ≤ va < Z.of_nat k * PGSIZE → copied s0 old s new va;
  cinv_tables : more_tables new s0 s;
}.

Lemma own_aligned : Forall (λ p, p mod PGSIZE = 0) (l0 ++ tables s0 new).
Proof.
  destruct (uvm_pt _ _ _ _ Hnew) as [[_ _ Hl _] _ Hr _].
  apply (pages_aligned (phys_top s0)), Forall_app. done.
Qed.

Lemma copy_inv_old k s l :
  copy_inv k s l →
  uvm s old n l ∧ (∀ va, vpte s old va = vpte s0 old va)
  ∧ (∀ p b, p ∈ frames n s0 old 0 → in_page p b → mget (mem s) b = mget (mem s0) b).
Proof.
  intros [Hu Hown Hf Ht _ _ _].
  destruct (uvm_other (l0 ++ tables s0 new) s0 s old n l0 l) as (? & _ & ? & ?); try done.
  - apply (uvm_pt _ _ _ _ Hu).
  - apply own_aligned.
  - intros p Hp. rewrite <- Hown. unfold owned. rewrite !elem_of_app. tauto.
Qed.

Lemma copy_inv_start : copy_inv 0 s0 l0.
Proof. split; auto using more_tables_refl with frame. intros va Hva. page_lia. Qed.

(** A page the parent does not map stays unmapped in the child. *)
Lemma copy_inv_skip k s l :
  copy_inv k s l → (k < n)%nat → mapped s0 old (Z.of_nat k * PGSIZE) = false → copy_inv (S k) s l.
Proof.
  intros [Hu Hown Hf Ht Hh Hc Hmt] Hk Hm. pose proof (uvm_top _ _ _ _ Hold).
  assert (Hab : ∀ va, Z.of_nat k * PGSIZE ≤ va < Z.of_nat (S k) * PGSIZE → mapped s new va = false).
  { intros va Hva. apply (uvm_above _ _ _ _ Hu). va_lia. }
  assert (En : frames (S k) s new 0 = frames k s new 0).
  { replace (S k) with (k + 1)%nat by lia. rewrite frames_app, (frames_unmapped 1); [apply app_nil_r|page_lia|].
    intros va' Hva'. apply Hab. page_lia. }
  split; try done.
  - destruct Hu as [Hok Hs Hr Htop Habove Hhigh]. unfold owned in *.
    split; unfold owned; rewrite ?En; try done; try va_lia. intros va Hva. apply Habove. va_lia.
  - unfold owned. by rewrite En.
  - intros va Hva. destruct (decide (va < Z.of_nat k * PGSIZE)); [apply Hc; lia|].
    unfold copied. unfold mapped at 1 in Hm. unfold mapped at 1.
    rewrite (vpte_same_page s0 old va (Z.of_nat k * PGSIZE)), Hm by va_lia. apply Hab. lia.
Qed.

(** The next page is mapped to a copy. *)
Lemma copy_inv_step k s p l s2 s3 l3 :
  copy_inv k s (p :: l) → (k < n)%nat → mapped s0 old (Z.of_nat k * PGSIZE) = true →
  mem_frame [p] (mem s) (mem s2) →
  (∀ o, 0 ≤ o < PGSIZE →
     mget (mem s2) (p + o) = mget (mem s0) (PTE2PA (vpte s0 old (Z.of_nat k * PGSIZE)) + o)) →
  mem_frame (l ++ tables s new) (mem s2) (mem s3) → phys_top s3 = phys_top s →
  uvm s3 new (S k) l3 → owned (S k) s3 new l3 ≡ₚ owned k s new (p :: l) → more_tables new s s3 →
  (∀ va, 0 ≤ va < VATOP → vpte s3 new va
     = if decide (Z.of_nat k * PGSIZE ≤ va < Z.of_nat (S k) * PGSIZE)
       then leaf p (PTE_FLAGS (vpte s0 old (Z.of_nat k * PGSIZE))) else vpte s new va) →
  copy_inv (S k) s3 l3.
Proof.
  intros [Hu Hown Hf Ht Hh Hc Hmt] Hk Hm Hf2 Hb Hf3 Ht3 Hu3 Hown3 Hmt3 Hv3.
  pose proof (uvm_top _ _ _ _ Hold) as Htop.
  set (e := vpte s0 old (Z.of_nat k * PGSIZE)) in *.
  assert (Hin : ∀ q, q ∈ (p :: l) ++ tables s new → q ∈ l0 ++ tables s0 new).
  { intros q Hq. rewrite <- Hown. unfold owned. apply elem_of_app. by right. }
  pose proof (uvm_pt _ _ _ _ Hu) as [[_ _ Hlp Htop55] Hnd Hrt _].
  apply Forall_cons in Hlp as [Hp Hlp]. pose proof (page_ok_aligned _ _ Hp) as Hpal.
  assert (Hal : Forall (λ p, p mod PGSIZE = 0) (l ++ tables s new)).
  { apply (pages_aligned (phys_top s)), Forall_app. done. }
  assert (Hpn : p ∉ l ++ tables s new) by (by apply NoDup_cons in Hnd as [? _]).
  assert (Hf13 : mem_frame ((p :: l) ++ tables s new) (mem s) (mem s3)).
  { apply (mem_frame_trans _ _ (mem s2)).
    - eapply mem_frame_mono; [|exact Hf2]. intros q ->%list_elem_of_singleton. left.
    - eapply mem_frame_mono; [|exact Hf3]. intros q Hq. by right. }
  pose proof (flags_range e) as Hfl.
  split.
  - done.
  - by rewrite Hown3.
  - apply (mem_frame_trans _ _ (mem s)); [done|]. eapply mem_frame_mono; [|exact Hf13]. exact Hin.
  - congruence.
  - intros va Hva. rewrite Hv3 by va_lia. rewrite decide_False by va_lia. by apply Hh.
  - intros va Hva. destruct (decide (va < Z.of_nat k * PGSIZE)) as [Hlt|Hge].
    + specialize (Hc va ltac:(lia)). unfold copied, mapped in Hc |- *.
      rewrite Hv3, decide_False by va_lia. destruct (has (vpte s0 old va) PTE_V); [|exact Hc].
      destruct Hc as (Hm' & Hfl' & Hby). split_and!; [done|done|]. intros o Ho. rewrite <- Hby by done.
      assert (Hq : PTE2PA (vpte s new va) ∈ frames k s new 0).
      { apply frames_elem; [lia|va_lia|done]. }
      destruct Hu as [_ Hs Hr _ _ _]. rewrite Forall_forall in Hr.
      apply (mem_frame_byte ((p :: l) ++ tables s new) _ _ (PTE2PA (vpte s new va))); try done.
      * simpl. by constructor.
      * by apply (page_ok_aligned _ _ (Hr _ Hq)).
      * unfold owned in Hs. apply NoDup_app in Hs as (_ & Hd & _). by apply Hd.
      * unfold in_page. lia.
    + assert (Ev : vpte s0 old va = e) by (apply vpte_same_page; va_lia).
      unfold copied. unfold mapped in Hm |- *. rewrite Ev. fold e in Hm. rewrite Hm.
      rewrite Hv3, decide_True by va_lia. rewrite leaf_valid, leaf_flags, leaf_PTE2PA; try done.
      2:{ by eapply page_ok_range. }
      split_and!; [done|by apply flags_valid|]. intros o Ho. rewrite <- Hb by done.
      apply (mem_frame_byte (l ++ tables s new) _ _ p); try done. unfold in_page. lia.
  - by eapply more_tables_trans.
Qed.

(** The child has as many frames as the parent in the pages copied so far. *)
Lemma copied_frames s k va :
  0 ≤ va → va mod PGSIZE = 0 → va + Z.of_nat k * PGSIZE ≤ TRAPFRAME →
  (∀ va', va ≤ va' < va + Z.of_nat k * PGSIZE → copied s0 old s new va') →
  length (frames k s new va) = length (frames k s0 old va).
Proof.
  revert va. induction k as [|k IH]; intros va H0 Hal Hmax Hc; [done|]. cbn [frames]. rewrite !length_app.
  rewrite (IH (va + PGSIZE)) by first [page_lia | intros va' Hva'; apply Hc; page_lia].
  specialize (Hc va ltac:(page_lia)). unfold copied in Hc.
  destruct (mapped s0 old va); [destruct Hc as [-> _]; done|by rewrite Hc].
Qed.

(** The error exit, at a page the parent maps: unmapping what was copied gives
    every frame back. *)
Lemma copy_undo k s s1 l l1 :
  copy_inv k s l → (k < n)%nat → mapped s0 old (Z.of_nat k * PGSIZE) = true →
  pt_ok 2 s1 new l1 → phys_top s1 = phys_top s → more_tables new s s1 → (length l1 ≤ 1)%nat →
  l1 ++ tables s1 new ≡ₚ l ++ tables s new →
  mem_frame (l ++ tables s new) (mem s) (mem s1) →
  (∀ va, 0 ≤ va < VATOP → vpte s1 new va = vpte s new va) →
  returns (uvmunmap new 0 (Z.of_nat k * PGSIZE / PGSIZE) true ;;; ret (-1)) s1
    (λ r s', r = -1 ∧ ∃ l', copy_inv 0 s' l' ∧ (length l' ≤ length (frames n s0 old 0))%nat).
Proof.
  intros [Hu Hown Hf Ht Hh Hc Hmt] Hkn Hmk Hok1 Ht1 Hmt1 Hone Hp1 Hf1 Hv1.
  destruct (uvm_same s s1 new k l l1) as [Hu1 Hown1]; try done.
  rewrite Z.div_mul by done. replace (Z.of_nat k) with (Z.of_nat (k - 0)) by lia.
  change 0 with (Z.of_nat 0 * PGSIZE) at 1.
  eapply returns_bind; [apply (unmap_tail k 0 s1 new l1); [done|lia]|].
  intros u s' (l' & Hu' & Hown' & Htab' & Ht' & Hf' & Hv'). apply returns_ret. split; [done|].
  assert (Hown2 : owned k s1 new l1 ≡ₚ l0 ++ tables s0 new) by (by rewrite Hown1).
  exists l'. split; [split; [done| | |congruence| | |]|].
  - by rewrite Hown', Hown2.
  - apply (mem_frame_trans _ _ (mem s)); [done|]. apply (mem_frame_trans _ _ (mem s1)).
    + eapply mem_frame_mono; [|exact Hf1]. intros q Hq. rewrite <- Hown. unfold owned. apply elem_of_app. by right.
    + eapply mem_frame_mono; [|exact Hf']. intros q. rewrite Nat.sub_0_r.
      rewrite <- Hown2. unfold owned. rewrite !elem_of_app. tauto.
  - intros va Hva. rewrite Hv', Hv1 by va_lia. by apply Hh.
  - intros va Hva. page_lia.
  - eapply more_tables_eq; [|done]. eapply more_tables_trans; done.
  - pose proof (uvm_top _ _ _ _ Hold) as Htop.
    unfold owned in Hown'. rewrite Htab' in Hown'. cbn [frames app] in Hown'.
    rewrite app_assoc in Hown'. apply Permutation_app_inv_r, Permutation_length in Hown'.
    rewrite length_app, (frames_ext k s s1) in Hown'; try va_lia; [|intros va' Hva'; apply Hv1; va_lia].
    rewrite (copied_frames s k 0) in Hown' by first [done | va_lia | intros va' Hva'; apply Hc; lia].
    replace n with (k + (1 + (n - k - 1)))%nat by lia. rewrite !frames_app, !length_app. cbn [frames Nat.add].
    rewrite Z.add_0_l, Hmk. simpl. lia.
Qed.

(** What [memmove] puts in the new page is what the parent had at the start. *)
Lemma copied_bytes k s p l m1 pa :
  copy_inv k s (p :: l) → pa ∈ frames n s0 old 0 → mem_frame [p] (mem s) m1 →
  ∀ o, 0 ≤ o < PGSIZE → mget (memmove m1 p pa PGSIZE) (p + o) = mget (mem s0) (pa + o).
Proof.
  intros Hc Hpa Hf o Ho. destruct (copy_inv_old k s _ Hc) as (Hu & _ & Hby).
  rewrite memmove_page by done. rewrite <- (Hby pa) by (done || unfold in_page; lia).
  assert (Hr : Forall (page_ok (phys_top s0)) (frames n s0 old 0)) by apply Hold.
  rewrite Forall_forall in Hr. apply Hf. intros q ->%list_elem_of_singleton Hin.
  assert (Hp : p ∈ l0 ++ tables s0 new).
  { rewrite <- (cinv_own _ _ _ Hc). unfold owned. rewrite !elem_of_app. right. left. left. }
  apply (Hsep pa); [apply elem_of_app; by left|].
  replace pa with p; [done|]. apply (page_disjoint p pa (pa + o)); try done.
  - pose proof own_aligned as Ha. rewrite Forall_forall in Ha. by apply Ha.
  - by apply (page_ok_aligned _ _ (Hr pa Hpa)).
  - unfold in_page. lia.
Qed.

(** How it ends: all pages copied, or none, for want of memory. *)
Definition copy_end (r : Z) (s : kmem_state) (l : list Z) : Prop :=
  r = 0 ∧ copy_inv n s l
  ∨ r = -1 ∧ copy_inv 0 s l ∧ ran_out (length (frames n s0 old 0)) new l0 s0 l s.

Lemma copy_failed s l :
  copy_inv 0 s l → (length l ≤ length (frames n s0 old 0))%nat → copy_end (-1) s l.
Proof.
  intros Hc Hl. right. split; [done|]. split; [done|]. apply ran_out_intro; [apply Hc| |done]. apply (cinv_own _ _ _ Hc).
Qed.

Lemma uvmcopy_loop_ok fuel k s l sz :
  copy_inv k s l → pages_of sz = n → 0 ≤ sz → (k ≤ n)%nat → (n - k < fuel)%nat →
  returns (uvmcopy_loop fuel old new (Z.of_nat k * PGSIZE) sz) s (λ r s',
    ∃ l', copy_end r s' l').
Proof.
  intros Hc Hn Hsz. pose proof (uvm_top _ _ _ _ Hold) as Htop.
  revert k s l Hc. induction fuel as [|f IH]; intros k s l Hc Hk Hf; [lia|].
  cbn [uvmcopy_loop]. destruct (Z.ltb_spec (Z.of_nat k * PGSIZE) sz) as [Hlt|Hge]; cbn [negb].
  2:{ apply returns_ret. exists l. left. split; [done|]. assert (k = n) as <- by va_lia. done. }
  assert (Hkn : (k < n)%nat) by va_lia.
  rewrite u64_id by va_lia. replace (Z.of_nat k * PGSIZE + PGSIZE) with (Z.of_nat (S k) * PGSIZE) by va_lia.
  set (next := uvmcopy_loop f old new _ sz).
  assert (Hnext : ∀ s' l', copy_inv (S k) s' l' → returns next s' (λ r s',
    ∃ l', copy_end r s' l')).
  { intros s' l' Hc'. apply (IH (S k) s' l'); [done|lia|lia]. }
  assert (Hundo : ∀ m s1, returns m s1 (λ r s', r = -1 ∧ ∃ l', copy_inv 0 s' l'
      ∧ (length l' ≤ length (frames n s0 old 0))%nat) →
    returns m s1 (λ r s', ∃ l', copy_end r s' l')).
  { intros m s1 Hm. eapply returns_mono; [exact Hm|]. intros r s' (-> & l' & ? & ?). exists l'. by apply copy_failed. }
  clearbody next. clear IH.
  destruct (copy_inv_old k s l Hc) as (Hold' & Hv & Hby).
  assert (Hskip : mapped s old (Z.of_nat k * PGSIZE) = false → returns next s (λ r s',
    ∃ l', copy_end r s' l')).
  { intros Hm. apply (Hnext s l), copy_inv_skip; try done. unfold mapped in *. by rewrite <- Hv. }
  eapply returns_bind; [apply (returns_eq _ _ _ _ (walk_lookup s old (Z.of_nat k * PGSIZE) ltac:(va_lia)))|].
  intros r s' [-> ->]. destruct (Z.eqb_spec (slot_of 2 (mem s) old (Z.of_nat k * PGSIZE)) 0) as [E|E].
  { apply Hskip. destruct (mapped s old _) eqn:Hm; [|done]. by apply mapped_slot in Hm. }
  eapply returns_bind; [apply (returns_gets _ _ (λ e s', s' = s ∧ e = load64 (mem s) (slot_of 2 (mem s) old (Z.of_nat k * PGSIZE)))); auto|].
  intros e s' [-> ->]. rewrite slot_vpte by exact E. fold (mapped s old (Z.of_nat k * PGSIZE)).
  destruct (mapped s old (Z.of_nat k * PGSIZE)) eqn:Hm; [|by apply Hskip]. cbn [negb]. clear E Hskip.
  unfold mapped in Hm. rewrite Hv in Hm |- *.
  set (pa := PTE2PA (vpte s0 old (Z.of_nat k * PGSIZE))) in *.
  set (flags := PTE_FLAGS (vpte s0 old (Z.of_nat k * PGSIZE))) in *.
  assert (Hpa : pa ∈ frames n s0 old 0) by (apply frames_elem; [page_lia|va_lia|done]).
  pose proof (cinv_uvm _ _ _ Hc) as Hu.
  apply (alloc_map_page s new k l (λ m p, memmove m p pa PGSIZE)); [done|va_lia|apply flags_range| | |].
  - intros m p. apply mem_frame_memmove.
  - intros s' l' Hok' Ht' Hp' Hf' Hmt' Hl' Hv'. by apply Hundo, (copy_undo k s s' l l').
  - intros p l1 m1 m2 s3 l3 -> Hp Hf1 Em2 Hf2 Hf3 Ht3 Hp3 Hu3 Hown3 Hmt3 Hv3.
    apply (Hnext s3 l3). apply (copy_inv_step k s p l1 (with_mem m2 s) s3 l3); try assumption.
    cbn [mem with_mem]. rewrite Em2. apply (copied_bytes k s p l1 m1); assumption.
Qed.

End Loop.
End Copy.
