(* ===== verification/UvmFree.v ===== *)
(** [freewalk] and [uvmfree] (vm.c): a user page table is given back page by
    page, without a panic and without a leak. *)

From S2P Require Import Prelude Machine CString Kalloc Vm PageTable AddrSpace Uvm.

Section Free.
Context {LK : Linker} {LKok : LinkerOk}.

(** No leaf entry of the tree is valid. *)
Fixpoint no_leaf (level : nat) (m : memory) (pt : Z) : Prop :=
  match level with
  | O => ∀ i, i ∈ ptes → present m pt i = false
  | S l => ∀ i, i ∈ ptes → present m pt i = true → no_leaf l m (child m pt i)
  end.

Lemma no_leaf_frame level m m' pt :
  same_tables (pt_pages level m pt) m m' → no_leaf level m pt → no_leaf level m' pt.
Proof.
  revert pt. induction level as [|l IH]; intros pt Hs Hp i Hi.
  - unfold present. rewrite (Hs pt i); [by apply Hp|apply root_in|by apply indices_elem].
  - intros Ei. assert (Epte : pte_at m' pt i = pte_at m pt i).
    { apply Hs; [apply root_in|]. by apply indices_elem. }
    unfold present, child in *. rewrite Epte in Ei |- *. apply IH; [|by apply Hp].
    intros p j Hin. apply Hs. apply (sub_pages_in l m pt i); [done|].
    unfold sub_pages, present. by rewrite Ei.
Qed.

(** The address that selects the entries [i2], [i1], [i0]. *)
Lemma indices_va i2 i1 i0 :
  i2 ∈ ptes → i1 ∈ ptes → i0 ∈ ptes → ∃ va, 0 ≤ va < VATOP ∧ PX 2 va = i2 ∧ PX 1 va = i1 ∧ PX 0 va = i0.
Proof.
  rewrite !indices_elem. intros H2 H1 H0. exists (i2 * 1073741824 + i1 * 2097152 + i0 * 4096).
  rewrite !PX_eq by lia. change (2 ^ (12 + 9 * 2)) with 1073741824.
  change (2 ^ (12 + 9 * 1)) with 2097152. change (2 ^ (12 + 9 * 0)) with 4096.
  change VATOP with 549755813888. split_and!; [lia|lia|dlia|dlia|dlia].
Qed.

Lemma unmapped_no_leaf s pt :
  (∀ p, p ∈ tables s pt → 0 < p) →
  (∀ va, 0 ≤ va < VATOP → mapped s pt va = false) → no_leaf 2 (mem s) pt.
Proof.
  intros Hpos Hm i2 H2 E2 i1 H1 E1 i0 H0.
  destruct (indices_va i2 i1 i0 H2 H1 H0) as (va & Hva & P2 & P1 & P0).
  specialize (Hm va Hva). unfold mapped, vpte in Hm. rewrite pte_of_S in Hm. cbv zeta in Hm.
  change (Z.of_nat 2) with 2 in Hm. rewrite P2, E2, pte_of_S in Hm. cbv zeta in Hm.
  change (Z.of_nat 1) with 1 in Hm. rewrite P1, E1 in Hm. unfold pte_of in Hm. cbn [slot_of] in Hm.
  rewrite P0 in Hm. set (c := child (mem s) (child (mem s) pt i2) i1) in *.
  assert (Hc : c ∈ tables s pt).
  { apply (sub_pages_in 1 (mem s) pt i2); [done|]. unfold sub_pages. rewrite E2.
    apply (sub_pages_in 0 (mem s) _ i1); [done|]. unfold sub_pages. rewrite E1. apply root_in. }
  apply indices_elem in H0. rewrite (proj2 (Z.eqb_neq _ _)) in Hm; [exact Hm|].
  specialize (Hpos c Hc). lia.
Qed.

(** A subtree of a table, as a tree of its own. *)
Definition sub_ok (lv : nat) (m : memory) (pt i : Z) : Prop :=
  present m pt i = true →
  pointer (pte_at m pt i) = true ∧ plain lv m (child m pt i) ∧ no_leaf lv m (child m pt i).

(** What the recursive call of [freewalk] does. *)
Definition frees (lv : nat) : Prop := ∀ s pt l,
  pt_ok lv s pt l → no_leaf lv (mem s) pt →
  returns (freewalk (S lv) pt) s (λ _ s', ∃ l', kinv s' l' ∧ l' ≡ₚ pt_pages lv (mem s) pt ++ l
    ∧ phys_top s' = phys_top s ∧ mem_frame (pt_pages lv (mem s) pt) (mem s) (mem s')).

Definition freewalk_entry (lv : nat) (pt i : Z) : K unit :=
  let! pte := rd64 (pt + 8 * i) in
  if has pte PTE_V && (Z.land pte (Z.lor (Z.lor PTE_R PTE_W) PTE_X) =? 0) then
    freewalk (S lv) (PTE2PA pte) ;;;
    wr64 (pt + 8 * i) 0
  else if has pte PTE_V then panic "freewalk: leaf"
  else ret tt.

(** Freeing the subtree below one entry. *)
Lemma freewalk_entry_ok lv s pt i l :
  frees lv → kinv s l → NoDup (l ++ pt :: sub_pages lv (mem s) pt i) →
  Forall (page_ok (phys_top s)) (pt :: sub_pages lv (mem s) pt i) → i ∈ ptes →
  sub_ok lv (mem s) pt i →
  returns (freewalk_entry lv pt i) s (λ _ s', ∃ l', kinv s' l' ∧ l' ≡ₚ sub_pages lv (mem s) pt i ++ l
    ∧ phys_top s' = phys_top s ∧ mem_frame (pt :: sub_pages lv (mem s) pt i) (mem s) (mem s')
    ∧ ∀ j, j ∈ ptes → j ≠ i → pte_at (mem s') pt j = pte_at (mem s) pt j).
Proof.
  intros Hfr Hk Hnd Hr Hi Hs. unfold freewalk_entry.
  eapply returns_bind; [apply (returns_gets _ _ (λ e s', s' = s ∧ e = pte_at (mem s) pt i)); auto|].
  intros e s' [-> ->]. fold (present (mem s) pt i). unfold sub_pages in *.
  destruct (present (mem s) pt i) eqn:Ei; cbn [andb].
  2:{ apply returns_ret. exists l. split_and!; auto with frame. }
  destruct (Hs Ei) as (Hptr & Hpl & Hnl). unfold pointer in Hptr. rewrite Hptr.
  fold (child (mem s) pt i). set (c := child (mem s) pt i) in *.
  apply Forall_cons in Hr as [Hpt Hr]. rewrite <- Permutation_middle in Hnd.
  apply NoDup_cons in Hnd as [Hptn Hnd].
  eapply returns_bind; [apply (Hfr s c l); [by split|done]|].
  intros u s1 (l1 & Hk1 & Hl1 & Ht1 & Hf1). apply returns_modify. exists l1.
  assert (Hal : Forall (λ p, p mod PGSIZE = 0) [pt]) by (repeat constructor; by eapply page_ok_aligned).
  apply indices_elem in Hi.
  assert (Hfs : mem_frame [pt] (mem s1) (store64 (mem s1) (pt + 8 * i) 0)).
  { apply mem_frame_store64; unfold PGSIZE; lia. }
  split_and!; [|done|done| |].
  - apply (kinv_frame [pt] s1); try done.
    intros p Hp ->%list_elem_of_singleton. apply Hptn. rewrite Hl1 in Hp.
    rewrite elem_of_app in Hp |- *. tauto.
  - apply (mem_frame_trans _ _ (mem s1)).
    + eapply mem_frame_mono; [|exact Hf1]. intros p Hp. by right.
    + eapply mem_frame_mono; [|exact Hfs]. intros p ->%list_elem_of_singleton. left.
  - intros j Hj%indices_elem Hji. unfold pte_at. cbn [mem with_mem]. rewrite load64_store64_ne by lia.
    apply (mem_frame_load64 (pt_pages lv (mem s) c) _ _ pt); unfold PGSIZE; try lia.
    + exact Hf1.
    + by eapply pages_aligned.
    + by eapply page_ok_aligned.
    + intros Hin. apply Hptn, elem_of_app. by right.
Qed.

Lemma freewalk_entries_ok lv pt js s l :
  frees lv → kinv s l → NoDup js → js ⊆ ptes →
  NoDup (l ++ pt :: (js ≫= sub_pages lv (mem s) pt)) →
  Forall (page_ok (phys_top s)) (pt :: (js ≫= sub_pages lv (mem s) pt)) →
  (∀ i, i ∈ js → sub_ok lv (mem s) pt i) →
  returns (for_each js (freewalk_entry lv pt)) s (λ _ s', ∃ l', kinv s' l'
    ∧ l' ≡ₚ (js ≫= sub_pages lv (mem s) pt) ++ l ∧ phys_top s' = phys_top s
    ∧ mem_frame (pt :: (js ≫= sub_pages lv (mem s) pt)) (mem s) (mem s')).
Proof.
  intros Hfr. revert s l. induction js as [|i js IH]; intros s l Hk Hnjs Hin Hnd Hr Hs.
  { apply returns_ret. exists l. split_and!; auto with frame. }
  cbn [for_each]. cbn [mbind list_bind] in Hnd, Hr |- *.
  change (mbind (sub_pages lv (mem s) pt) js) with (js ≫= sub_pages lv (mem s) pt).
  set (rest := js ≫= sub_pages lv (mem s) pt) in *. set (sub := sub_pages lv (mem s) pt i) in *.
  apply NoDup_cons in Hnjs as [Hijs Hnjs].
  apply Forall_cons in Hr as [Hpt Hr]. apply Forall_app in Hr as [Hrs Hrr].
  assert (Hnd1 : NoDup (l ++ pt :: sub)).
  { change (pt :: sub ++ rest) with ((pt :: sub) ++ rest) in Hnd. rewrite app_assoc in Hnd.
    by apply NoDup_app in Hnd as (? & _ & _). }
  eapply returns_bind; [apply (freewalk_entry_ok lv s pt i l); try done|].
  { by apply Forall_cons. }
  { apply Hin. left. }
  { apply Hs. left. }
  intros u s1 (l1 & Hk1 & Hl1 & Ht1 & Hf1 & Hj1). fold sub in Hl1, Hf1.
  assert (Hst : ∀ j, j ∈ js → present (mem s) pt j = true →
            same_tables (pt_pages lv (mem s) (child (mem s) pt j)) (mem s) (mem s1)).
  { intros j Hj Ej. apply (same_tables_frame (pt :: sub)); try done.
    - constructor; [by eapply page_ok_aligned|by eapply pages_aligned].
    - apply (pages_aligned (phys_top s)). rewrite Forall_forall in Hrr |- *. intros p Hp. apply Hrr.
      apply list_elem_of_bind. exists j. split; [|done]. unfold sub_pages. by rewrite Ej.
    - intros p Hp Hps. assert (Hpr : p ∈ rest).
      { apply list_elem_of_bind. exists j. split; [|done]. unfold sub_pages. by rewrite Ej. }
      change (pt :: sub ++ rest) with ((pt :: sub) ++ rest) in Hnd.
      apply NoDup_app in Hnd as (_ & _ & Hnd). apply NoDup_app in Hnd as (_ & Hd & _). by apply (Hd p). }
  assert (Hpc : ∀ j, j ∈ js → pte_at (mem s1) pt j = pte_at (mem s) pt j).
  { intros j Hj. apply Hj1; [apply Hin; by right|]. by intros ->. }
  assert (Er : (js ≫= sub_pages lv (mem s1) pt) = rest).
  { apply bind_ext. intros j Hj. unfold sub_pages, present, child. rewrite Hpc by done.
    fold (present (mem s) pt j) (child (mem s) pt j).
    destruct (present (mem s) pt j) eqn:Ej; [|done]. by apply tree_frame, Hst. }
  eapply returns_mono; [apply (IH s1 l1)|]; rewrite ?Er; try done.
  - intros j Hj. apply Hin. by right.
  - assert (E : l1 ++ pt :: rest ≡ₚ l ++ pt :: sub ++ rest).
    { rewrite Hl1, (Permutation_app_comm sub l), <- app_assoc. f_equiv. symmetry. apply Permutation_middle. }
    by rewrite E.
  - rewrite Ht1. by apply Forall_cons.
  - intros j Hj Ej. unfold present, child in *. rewrite Hpc in Ej |- * by done.
    destruct (Hs j ltac:(by right) Ej) as (? & Hpl & Hnl). split_and!; [done| |].
    + by apply (plain_frame lv (mem s)); [apply Hst|].
    + by apply (no_leaf_frame lv (mem s)); [apply Hst|].
  - intros v s2 (l2 & Hk2 & Hl2 & Ht2 & Hf2). exists l2. split_and!; try done.
    + rewrite Hl2, Hl1, !app_assoc. f_equiv. apply Permutation_app_comm.
    + congruence.
    + apply (mem_frame_trans _ _ (mem s1)).
      * eapply mem_frame_mono; [|exact Hf1]. intros p. rewrite !elem_of_cons, elem_of_app. tauto.
      * eapply mem_frame_mono; [|exact Hf2]. intros p. rewrite !elem_of_cons, elem_of_app. tauto.
Qed.

Lemma frees_0 : frees 0.
Proof.
  intros s pt l Hok Hnl. cbn [freewalk].
  eapply returns_bind; [apply (for_each_inv _ _ (λ s', s' = s)); [|done]|].
  { intros i s' Hi ->. eapply returns_bind;
      [apply (returns_gets _ _ (λ e s', s' = s ∧ e = pte_at (mem s) pt i)); auto|].
    intros e s' [-> ->]. fold (present (mem s) pt i). rewrite (Hnl i Hi). by apply returns_ret. }
  intros u s' ->. destruct Hok as [Hk Hsep Hr _]. change (pt_pages 0 (mem s) pt) with [pt] in *.
  apply Forall_cons in Hr as [Hr _]. apply NoDup_app in Hsep as (_ & Hd & _).
  eapply returns_mono; [apply (kfree_ok s pt l); [exact Hk|exact Hr|]|].
  { intros Hin. apply (Hd pt Hin). left. }
  intros v s' (Hk' & Hf' & Ht'). exists (pt :: l). by split_and!.
Qed.

Lemma frees_S lv : frees lv → frees (S lv).
Proof.
  intros Hfr s pt l [Hk Hsep Hr Hpl] Hnl. rewrite pt_pages_S in *.
  set (sub := ptes ≫= sub_pages lv (mem s) pt) in *.
  change (freewalk (S (S lv)) pt) with (for_each ptes (freewalk_entry lv pt) ;;; kfree pt).
  eapply returns_bind; [apply (freewalk_entries_ok lv pt ptes s l); try done|].
  { apply indices_nodup. }
  { intros i Hi Ei. destruct (Hpl i Hi Ei). by split_and!; try apply Hnl. }
  fold sub. intros u s1 (l1 & Hk1 & Hl1 & Ht1 & Hf1). apply Forall_cons in Hr as [Hpt Hr].
  assert (Hptn : pt ∉ l1).
  { rewrite Hl1. rewrite <- Permutation_middle in Hsep. apply NoDup_cons in Hsep as [Hn _].
    rewrite elem_of_app in Hn |- *. tauto. }
  eapply returns_mono; [apply (kfree_ok s1 pt l1); [done|by rewrite Ht1|done]|].
  intros v s2 (Hk2 & Hf2 & Ht2). exists (pt :: l1). split_and!; [done|by rewrite Hl1|congruence|].
  apply (mem_frame_trans _ _ (mem s1)); [done|].
  eapply mem_frame_mono; [|exact Hf2]. intros p ->%list_elem_of_singleton. left.
Qed.

(** The whole of [uvmfree] on an address space with nothing mapped above it. *)
Lemma uvmfree_ok s pt l sz :
  uvm s pt (pages_of sz) l → 0 ≤ sz ≤ TRAPFRAME →
  (∀ va, TRAPFRAME ≤ va < MAXVA → mapped s pt va = false) →
  returns (uvmfree pt sz) s (λ _ s', ∃ l', kinv s' l' ∧ l' ≡ₚ owned (pages_of sz) s pt l
    ∧ phys_top s' = phys_top s ∧ mem_frame (owned (pages_of sz) s pt l) (mem s) (mem s')).
Proof.
  intros Hu Hsz Htf. set (n := pages_of sz) in *.
  assert (H1 : returns (if 0 <? sz then uvmunmap pt 0 (PGROUNDUP sz / PGSIZE) true else ret tt) s (λ _ s1,
    ∃ l1, uvm s1 pt 0 l1 ∧ owned 0 s1 pt l1 ≡ₚ owned n s pt l ∧ phys_top s1 = phys_top s
      ∧ mem_frame (owned n s pt l) (mem s) (mem s1)
      ∧ ∀ va, TRAPFRAME ≤ va < MAXVA → mapped s1 pt va = false)).
  { destruct (Z.ltb_spec 0 sz) as [Hpos|Hz].
    - rewrite PGROUNDUP_pages by lia. fold n. rewrite Z.div_mul by done.
      replace (Z.of_nat n) with (Z.of_nat (n - 0)) by lia. change 0 with (Z.of_nat 0 * PGSIZE) at 1.
      eapply returns_mono; [apply (unmap_tail n 0 s pt l); [done|lia]|].
      intros u s1 (l1 & Hu1 & Hown1 & Htab1 & Ht1 & Hf1 & Hv1). exists l1. split_and!; try done.
      + eapply mem_frame_mono; [|exact Hf1]. rewrite Nat.sub_0_r. intros p. unfold owned.
        rewrite !elem_of_app. tauto.
      + intros va Hva. unfold mapped. rewrite Hv1 by va_lia. by apply Htf.
    - apply returns_ret. assert (n = 0%nat) as -> by (subst n; va_lia). exists l.
      split_and!; auto with frame. }
  eapply returns_bind; [exact H1|]. clear H1.
  intros u s1 (l1 & Hu1 & Hown1 & Ht1 & Hf1 & Htf1). pose proof (uvm_pt _ _ _ _ Hu1) as Hok1.
  eapply returns_mono; [apply (frees_S 1 (frees_S 0 frees_0) s1 pt l1); [done|]|].
  { apply unmapped_no_leaf.
    - intros p Hp. destruct Hok1 as [_ _ Hr _]. rewrite Forall_forall in Hr. destruct (Hr p Hp) as (_ & ? & _).
      pose proof kend_pos. lia.
    - intros va Hva. destruct (decide (va < TRAPFRAME)); [apply (uvm_above _ _ _ _ Hu1); page_lia|].
      destruct (decide (va < MAXVA)); [apply Htf1; lia|]. apply (uvm_high _ _ _ _ Hu1). lia. }
  intros v s2 (l2 & Hk2 & Hl2 & Ht2 & Hf2). exists l2.
  assert (Hown2 : owned n s pt l ≡ₚ tables s1 pt ++ l1) by (rewrite <- Hown1; apply (Permutation_app_comm l1)).
  split_and!; [done|by rewrite Hl2, Hown2|congruence|].
  apply (mem_frame_trans _ _ (mem s1)); [done|]. eapply mem_frame_mono; [|exact Hf2].
  intros p Hp. rewrite Hown2. apply elem_of_app. by left.
Qed.

End Free.
