(* ===== verification/CopyIO.v ===== *)
(** [copyin], [copyinstr] and [copyout] (vm.c): what the kernel reads and writes
    in user memory is what the user sees there. *)

From S2P Require Import Prelude Machine CString Kalloc Vm PageTable AddrSpace Uvm UvmCopy.

(** ** User memory *)

(** The physical page of [va] if its entry is valid and a user page, else 0: the
    answer of [walkaddr], which does not look at [PTE_R]. *)
Definition upa (s : kmem_state) (pt va : Z) : Z :=
  if (va <? MAXVA) && has (vpte s pt va) PTE_V && has (vpte s pt va) PTE_U
  then PTE2PA (vpte s pt va) else 0.

(** The byte of user memory at [va]: readable here means valid and a user page
    (as for [walkaddr]), also where the entry lacks [PTE_R] and a load in user
    mode would fault. *)
Definition uget (s : kmem_state) (pt va : Z) : option Z :=
  if upa s pt va =? 0 then None else Some (mget (mem s) (upa s pt va + va mod PGSIZE)).

Fixpoint ubytes (n : nat) (s : kmem_state) (pt va : Z) : option (list Z) :=
  match n with
  | O => Some []
  | S n' =>
      match uget s pt va, ubytes n' s pt (va + 1) with
      | Some b, Some bs => Some (b :: bs)
      | _, _ => None
      end
  end.

(** The NUL-terminated string at [va], of at most [n] bytes with its NUL. *)
Fixpoint ustr (n : nat) (s : kmem_state) (pt va : Z) : option (list Z) :=
  match n with
  | O => None
  | S n' =>
      match uget s pt va with
      | None => None
      | Some b => if b =? 0 then Some [0] else cons b <$> ustr n' s pt (va + 1)
      end
  end.

(** May user code write the page of [va]? *)
Definition uwritable (s : kmem_state) (pt va : Z) : bool :=
  negb (upa s pt va =? 0) && has (vpte s pt va) PTE_W.

Lemma upa_page s pt va va' :
  0 ≤ va → 0 ≤ va' → va / PGSIZE = va' / PGSIZE → upa s pt va = upa s pt va'.
Proof.
  intros Hva Hva' E. unfold upa.
  destruct (Z.ltb_spec va MAXVA), (Z.ltb_spec va' MAXVA); try page_lia; [|done].
  by rewrite (vpte_same_page s pt va va') by page_lia.
Qed.

Lemma ubytes_app a b s pt va :
  ubytes (a + b) s pt va
  = match ubytes a s pt va, ubytes b s pt (va + Z.of_nat a) with
    | Some x, Some y => Some (x ++ y)
    | _, _ => None
    end.
Proof.
  revert va. induction a as [|a IH]; intros va.
  - replace (va + Z.of_nat 0) with va by lia. simpl. by destruct (ubytes b s pt va).
  - cbn [Nat.add ubytes]. rewrite IH. replace (va + 1 + Z.of_nat a) with (va + Z.of_nat (S a)) by lia.
    destruct (uget s pt va); [|done].
    destruct (ubytes a s pt (va + 1)); [|done]. by destruct (ubytes b s pt _).
Qed.

Lemma load_bytes_S m a n : load_bytes m a (S n) = mget m a :: load_bytes m (a + 1) n.
Proof.
  unfold load_bytes. cbn [seq fmap list_fmap]. f_equal; [f_equal; lia|].
  rewrite <- fmap_S_seq, <- list_fmap_compose. apply list_fmap_ext. intros i x _.
  unfold compose. f_equal. lia.
Qed.

(** Within one page, user bytes are consecutive physical bytes. *)
Lemma ubytes_page n s pt va :
  0 ≤ va → va mod PGSIZE + Z.of_nat n ≤ PGSIZE → upa s pt va ≠ 0 →
  ubytes n s pt va = Some (load_bytes (mem s) (upa s pt va + va mod PGSIZE) n).
Proof.
  revert va. induction n as [|n IH]; intros va Hva Hn Hu; [done|].
  cbn [ubytes]. unfold uget. rewrite (proj2 (Z.eqb_neq _ _) Hu), load_bytes_S.
  destruct n as [|n]; [done|].
  assert (Eu : upa s pt (va + 1) = upa s pt va) by (apply upa_page; page_lia).
  rewrite IH; [|lia|page_lia|by rewrite Eu]. rewrite Eu. do 3 f_equal. page_lia.
Qed.

Lemma ubytes_none n s pt va : upa s pt va = 0 → (0 < n)%nat → ubytes n s pt va = None.
Proof. intros Hu Hn. destruct n as [|n]; [lia|]. cbn [ubytes]. unfold uget. by rewrite Hu. Qed.

Lemma PGROUNDDOWN_page va :
  0 ≤ va → 0 ≤ PGROUNDDOWN va ∧ PGROUNDDOWN va / PGSIZE = va / PGSIZE ∧ va - PGROUNDDOWN va = va mod PGSIZE
           ∧ PGROUNDDOWN va = va - va mod PGSIZE.
Proof. intros Hva. rewrite PGROUNDDOWN_eq. page_lia. Qed.

Section Copies.
Context {LK : Linker} {LKok : LinkerOk}.

Lemma walkaddr_upa s pt va : 0 ≤ va → walkaddr pt (PGROUNDDOWN va) s = Ok (upa s pt va) s.
Proof.
  intros Hva. destruct (PGROUNDDOWN_page va Hva) as (H0 & H1 & _). rewrite walkaddr_ok by done.
  f_equal. fold (upa s pt (PGROUNDDOWN va)). by apply upa_page.
Qed.

Lemma upa_lt s pt va : upa s pt va ≠ 0 → va < MAXVA.
Proof. unfold upa. by destruct (Z.ltb_spec va MAXVA). Qed.

(** ** [copyin] *)

Lemma copyin_loop_ok fuel s pt dst va len :
  0 ≤ va → 0 ≤ len → (0 < fuel)%nat →
  (0 < len → 2 + (va mod PGSIZE + len - 1) / PGSIZE ≤ Z.of_nat fuel) →
  ∃ bs, copyin_loop fuel pt dst va len s
        = Ok (match ubytes (Z.to_nat len) s pt va with
              | Some bs' => (0, dst ++ bs') | None => (-1, bs) end) s.
Proof.
  revert dst va len. induction fuel as [|f IH]; intros dst va len Hva Hlen Hf0 Hf; [lia|].
  cbn [copyin_loop]. destruct (Z.ltb_spec 0 len) as [Hpos|Hz]; cbn [negb].
  2:{ assert (len = 0) as -> by lia. exists []. simpl. by rewrite app_nil_r. }
  rewrite (bind_ok _ _ _ _ _ (walkaddr_upa s pt va Hva)).
  destruct (PGROUNDDOWN_page va Hva) as (_ & _ & Eo & Ed). rewrite Eo, Ed.
  destruct (Z.eqb_spec (upa s pt va) 0) as [Hu|Hu].
  { exists dst. by rewrite ubytes_none by (done || lia). }
  set (n := Z.min (PGSIZE - va mod PGSIZE) len). unfold bind, gets.
  assert (Hn : 0 < n ≤ len ∧ va mod PGSIZE + n ≤ PGSIZE) by (subst n; page_lia).
  pose proof (upa_lt s pt va Hu). rewrite u64_id by page_lia.
  replace (Z.to_nat len) with (Z.to_nat n + Z.to_nat (len - n))%nat by lia.
  rewrite ubytes_app, ubytes_page by (done || lia). rewrite Z2Nat.id by lia.
  assert (Hnext : 0 < len - n → va - va mod PGSIZE + PGSIZE = va + n) by (subst n; page_lia).
  destruct (decide (0 < len - n)) as [Hmore|Hend].
  - rewrite Hnext by done.
    destruct (IH (dst ++ load_bytes (mem s) (upa s pt va + va mod PGSIZE) (Z.to_nat n)) (va + n) (len - n))
      as (bs & E); [lia|lia|page_lia|subst n; page_lia|].
    exists bs. rewrite E. destruct (ubytes (Z.to_nat (len - n)) s pt (va + n)); [|done].
    by rewrite app_assoc.
  - assert (len - n = 0) as -> by lia. exists []. simpl. rewrite app_nil_r.
    destruct f as [|f]; [specialize (Hf Hpos); page_lia|]. done.
Qed.

Lemma copyin_ok s pt va len :
  0 ≤ va → 0 ≤ len →
  ∃ bs, copyin pt va len s
        = Ok (match ubytes (Z.to_nat len) s pt va with
              | Some bs' => (0, bs') | None => (-1, bs) end) s.
Proof.
  intros Hva Hlen. unfold copyin.
  destruct (copyin_loop_ok (Z.to_nat (len / PGSIZE + 3)) s pt [] va len) as (bs & E); try page_lia.
  exists bs. exact E.
Qed.

(** ** [copyinstr] *)

Lemma copyinstr_page_ok n k s pt va :
  0 ≤ va → va mod PGSIZE + Z.of_nat n ≤ PGSIZE → upa s pt va ≠ 0 →
  let '(bs, got_null) := copyinstr_page n (mem s) (upa s pt va + va mod PGSIZE) in
  ustr (n + k) s pt va
  = if got_null then Some bs else app bs <$> ustr k s pt (va + Z.of_nat n).
Proof.
  revert va. induction n as [|n IH]; intros va Hva Hn Hu.
  { replace (va + Z.of_nat 0) with va by lia. simpl. by destruct (ustr k s pt va). }
  cbn [copyinstr_page Nat.add ustr]. unfold uget. rewrite (proj2 (Z.eqb_neq _ _) Hu).
  destruct (Z.eqb_spec (mget (mem s) (upa s pt va + va mod PGSIZE)) 0) as [E|E]; [done|].
  replace (va + Z.of_nat (S n)) with (va + 1 + Z.of_nat n) by lia.
  destruct n as [|n].
  { replace (va + 1 + Z.of_nat 0) with (va + 1) by lia. simpl. by destruct (ustr k s pt (va + 1)). }
  assert (Eu : upa s pt (va + 1) = upa s pt va) by (apply upa_page; page_lia).
  specialize (IH (va + 1) ltac:(lia) ltac:(page_lia) ltac:(by rewrite Eu)). rewrite Eu in IH.
  replace (upa s pt va + (va + 1) mod PGSIZE) with (upa s pt va + va mod PGSIZE + 1) in IH by page_lia.
  destruct (copyinstr_page (S n) (mem s) _) as [bs got]. rewrite IH.
  destruct got; [done|]. by destruct (ustr k s pt _).
Qed.

Lemma copyinstr_loop_ok fuel s pt dst va max :
  0 ≤ va → 0 ≤ max → (0 < fuel)%nat →
  (0 < max → 2 + (va mod PGSIZE + max - 1) / PGSIZE ≤ Z.of_nat fuel) →
  ∃ bs, copyinstr_loop fuel pt dst va max s
        = Ok (match ustr (Z.to_nat max) s pt va with
              | Some bs' => (0, dst ++ bs') | None => (-1, bs) end) s.
Proof.
  revert dst va max. induction fuel as [|f IH]; intros dst va max Hva Hmax Hf0 Hf; [lia|].
  cbn [copyinstr_loop]. destruct (Z.ltb_spec 0 max) as [Hpos|Hz]; cbn [negb].
  2:{ assert (max = 0) as -> by lia. by exists dst. }
  rewrite (bind_ok _ _ _ _ _ (walkaddr_upa s pt va Hva)).
  destruct (PGROUNDDOWN_page va Hva) as (_ & _ & Eo & Ed). rewrite Eo, Ed.
  destruct (Z.eqb_spec (upa s pt va) 0) as [Hu|Hu].
  { exists dst. replace (Z.to_nat max) with (S (Z.to_nat max - 1)) by lia. cbn [ustr]. unfold uget.
    by rewrite Hu. }
  set (n := Z.min (PGSIZE - va mod PGSIZE) max). unfold bind, gets.
  assert (Hn : 0 < n ≤ max ∧ va mod PGSIZE + n ≤ PGSIZE) by (subst n; page_lia).
  pose proof (upa_lt s pt va Hu). rewrite u64_id by page_lia.
  pose proof (copyinstr_page_ok (Z.to_nat n) (Z.to_nat (max - n)) s pt va Hva ltac:(lia) Hu) as Hpg.
  replace (Z.to_nat max) with (Z.to_nat n + Z.to_nat (max - n))%nat by lia.
  rewrite Z2Nat.id in Hpg by lia.
  destruct (copyinstr_page _ _ _) as [bs [|]]; [by exists []; rewrite Hpg|].
  destruct (decide (0 < max - n)) as [Hmore|Hend].
  - replace (va - va mod PGSIZE + PGSIZE) with (va + n) by (subst n; page_lia).
    destruct (IH (dst ++ bs) (va + n) (max - n)) as (junk & E); [lia|lia|page_lia|subst n; page_lia|].
    exists junk. rewrite E, Hpg. destruct (ustr _ s pt (va + n)); [|done]. simpl. by rewrite app_assoc.
  - rewrite Hpg. assert (max - n = 0) as -> by lia. exists (dst ++ bs).
    destruct f as [|f]; [specialize (Hf Hpos); page_lia|]. done.
Qed.

Lemma copyinstr_ok s pt va max :
  0 ≤ va → 0 ≤ max →
  ∃ bs, copyinstr pt va max s
        = Ok (match ustr (Z.to_nat max) s pt va with
              | Some bs' => (0, bs') | None => (-1, bs) end) s.
Proof.
  intros Hva Hmax. unfold copyinstr.
  destruct (copyinstr_loop_ok (Z.to_nat (max / PGSIZE + 3)) s pt [] va max) as (bs & E); try page_lia.
  exists bs. exact E.
Qed.

(** ** [copyout] *)

Lemma mget_put_bytes m a bs b :
  mget (put_bytes m a bs) b
  = if decide (a ≤ b < a + Z.of_nat (length bs)) then u8 (default 0 (bs !! Z.to_nat (b - a))) else mget m b.
Proof.
  revert m a. induction bs as [|c bs IH]; intros m a; cbn [put_bytes length].
  { by rewrite decide_False by lia. }
  rewrite IH. destruct (decide (b = a)) as [->|Hne].
  - rewrite decide_False, decide_True by lia. rewrite Z.sub_diag. apply mget_mset_eq.
  - rewrite mget_mset_ne by done. destruct (decide (a + 1 ≤ b < _)).
    + rewrite decide_True by lia. replace (Z.to_nat (b - a)) with (S (Z.to_nat (b - (a + 1)))) by lia. done.
    + by rewrite decide_False by lia.
Qed.

(** Writing a page of the address space leaves the address space as it was. *)
Lemma uvm_write_frame s pt n l q m :
  uvm s pt n l → q ∈ frames n s pt 0 → mem_frame [q] (mem s) m →
  uvm (with_mem m s) pt n l ∧ (∀ va, vpte (with_mem m s) pt va = vpte s pt va)
  ∧ frames n (with_mem m s) pt 0 = frames n s pt 0.
Proof.
  intros Hu Hq Hf. pose proof Hu as [Hok Hsep Hr Htop _ _]. rewrite Forall_forall in Hr.
  unfold owned in Hsep. apply NoDup_app in Hsep as (_ & Hd & _).
  destruct (write_pt s pt q l m Hok (Hr q Hq) (Hd q Hq) Hf) as (Hok' & Htab & Hv).
  split_and!; [|done|].
  - destruct (uvm_same s (with_mem m s) pt n l l) as [? _]; try done. by rewrite Htab.
  - apply frames_ext; try va_lia. intros va' _. apply Hv.
Qed.

(** Different pages of the address space are different frames. *)
Lemma frames_inj n s pt va va' :
  NoDup (frames n s pt 0) → Z.of_nat n * PGSIZE ≤ MAXVA →
  0 ≤ va → va / PGSIZE < va' / PGSIZE → va' < Z.of_nat n * PGSIZE →
  mapped s pt va = true → mapped s pt va' = true → PTE2PA (vpte s pt va) ≠ PTE2PA (vpte s pt va').
Proof.
  intros Hnd Hmax Hva Hlt Hva' Hm Hm' E. set (k := Z.to_nat (va / PGSIZE + 1)).
  replace n with (k + (n - k))%nat in Hnd by (subst k; page_lia).
  rewrite frames_app in Hnd. apply NoDup_app in Hnd as (_ & Hd & _).
  apply (Hd (PTE2PA (vpte s pt va))).
  - apply frames_elem; [subst k; page_lia..|done].
  - rewrite E. replace (n - k)%nat with (Z.to_nat (va' / PGSIZE - va / PGSIZE - 1) + S (n - k - 1 - Z.to_nat (va' / PGSIZE - va / PGSIZE - 1)))%nat by (subst k; page_lia).
    rewrite frames_app. apply elem_of_app. right. cbn [frames]. apply elem_of_app. left.
    assert (Ev : vpte s pt (0 + Z.of_nat k * PGSIZE + Z.of_nat (Z.to_nat (va' / PGSIZE - va / PGSIZE - 1)) * PGSIZE) = vpte s pt va')
      by (apply vpte_same_page; subst k; page_lia).
    unfold mapped in *. rewrite Ev, Hm'. left.
Qed.

(** Every address that user code may access is below [n] pages. *)
Definition user_below (s : kmem_state) (pt : Z) (n : nat) : Prop :=
  ∀ va, 0 ≤ va → upa s pt va ≠ 0 → va < Z.of_nat n * PGSIZE.

(** [s'] is [s] with the first [k] bytes of [src] stored at user address [va]. *)
Definition wrote (pt : Z) (n : nat) (l : list Z) (va : Z) (src : list Z) (k : Z) (s s' : kmem_state) : Prop :=
  uvm s' pt n l ∧ (∀ va, vpte s' pt va = vpte s pt va) ∧ phys_top s' = phys_top s
  ∧ mem_frame (frames n s pt 0) (mem s) (mem s')
  ∧ ∀ va', 0 ≤ va' →
      uget s' pt va' = if decide (va ≤ va' < va + k) then Some (u8 (default 0 (src !! Z.to_nat (va' - va))))
                       else uget s pt va'.

Lemma upa_vpte s s' pt va : vpte s' pt va = vpte s pt va → upa s' pt va = upa s pt va.
Proof. intros E. unfold upa. by rewrite E. Qed.

Lemma upa_mapped s pt va : upa s pt va ≠ 0 → mapped s pt va = true ∧ upa s pt va = PTE2PA (vpte s pt va).
Proof.
  unfold upa, mapped. destruct (va <? MAXVA); [|done]. destruct (has _ PTE_V); [|done].
  by destruct (has _ PTE_U).
Qed.

Lemma wrote_none pt n l va src s : uvm s pt n l → wrote pt n l va src 0 s s.
Proof.
  intros Hu. split_and!; auto with frame. intros va' _. by rewrite decide_False by lia.
Qed.

Lemma wrote_trans pt n l va src k1 k2 s s1 s2 :
  0 ≤ k1 → uvm s pt n l → wrote pt n l va src k1 s s1 →
  wrote pt n l (va + k1) (drop (Z.to_nat k1) src) k2 s1 s2 → 0 ≤ k2 → wrote pt n l va src (k1 + k2) s s2.
Proof.
  intros Hk1 Hu (Hu1 & Hv1 & Ht1 & Hf1 & Hg1) (Hu2 & Hv2 & Ht2 & Hf2 & Hg2) Hk2.
  pose proof (uvm_top _ _ _ _ Hu).
  rewrite (frames_ext n s s1) in Hf2 by (va_lia || (intros; apply Hv1)).
  split_and!; [done|intros va'; by rewrite Hv2|congruence|by apply (mem_frame_trans _ _ (mem s1))|].
  intros va' Hva'. rewrite Hg2, Hg1 by done.
  destruct (decide (va + k1 ≤ va' < va + k1 + k2)).
  - rewrite decide_True by lia. rewrite lookup_drop. do 4 f_equal. lia.
  - destruct (decide (va ≤ va' < va + k1)); [by rewrite decide_True by lia|]. by rewrite decide_False by lia.
Qed.

(** The stores of one round of the loop. *)
Lemma write_user s pt n l va src k :
  uvm s pt n l → user_below s pt n → 0 ≤ va → upa s pt va ≠ 0 → 0 < k →
  va mod PGSIZE + k ≤ PGSIZE → k ≤ Z.of_nat (length src) →
  wrote pt n l va src k s
    (with_mem (put_bytes (mem s) (upa s pt va + va mod PGSIZE) (take (Z.to_nat k) src)) s).
Proof.
  intros Hu Hb Hva Hpa Hk Hpg Hlen. pose proof (uvm_top _ _ _ _ Hu) as Htop.
  destruct (upa_mapped s pt va Hpa) as [Hm Epa]. set (q := upa s pt va) in *.
  assert (Hq : q ∈ frames n s pt 0).
  { rewrite Epa. apply frames_elem; [|va_lia|done]. specialize (Hb va Hva Hpa). lia. }
  set (bs := take (Z.to_nat k) src). set (a := q + va mod PGSIZE).
  assert (Hlb : Z.of_nat (length bs) = k) by (subst bs; rewrite length_take; lia).
  assert (Hmod : 0 ≤ va mod PGSIZE < PGSIZE) by page_lia.
  assert (Hbm := mget_put_bytes (mem s) a bs). set (m := put_bytes (mem s) a bs) in *. clearbody m.
  assert (Hf : mem_frame [q] (mem s) m).
  { intros b Hnb. rewrite Hbm, decide_False; [done|]. intros Hin. apply (Hnb q); [left|].
    unfold in_page. lia. }
  destruct (uvm_write_frame s pt n l q m Hu Hq Hf) as (Hu' & Hv' & Hfr').
  split_and!; [done|done|done| |].
  - eapply mem_frame_mono; [|exact Hf]. by intros p ->%list_elem_of_singleton.
  - intros va' Hva'. unfold uget. rewrite (upa_vpte s) by done. cbn [mem with_mem].
    destruct (Z.eqb_spec (upa s pt va') 0) as [Hz|Hnz].
    { rewrite decide_False; [done|]. intros Hin. apply Hpa. unfold q. rewrite <- Hz. apply upa_page; page_lia. }
    rewrite Hbm. destruct (decide (va / PGSIZE = va' / PGSIZE)) as [Epg|Npg].
    + rewrite <- (upa_page s pt va va') by done. fold q.
      destruct (decide (va ≤ va' < va + k)).
      * rewrite decide_True by (subst a; page_lia). do 2 f_equal. subst bs.
        rewrite lookup_take_lt by (subst a; page_lia). do 2 f_equal. subst a. page_lia.
      * by rewrite decide_False by (subst a; page_lia).
    + rewrite (decide_False (P := va ≤ va' < va + k)) by page_lia.
      rewrite decide_False; [done|]. intros Hin. apply Hnz. exfalso.
      destruct (upa_mapped s pt va' Hnz) as [Hm' Epa'].
      assert (Hq' : upa s pt va' ∈ frames n s pt 0).
      { rewrite Epa'. apply frames_elem; [|va_lia|done]. specialize (Hb va' Hva' Hnz). lia. }
      destruct Hu as [_ Hsep Hr _ _ _]. rewrite Forall_forall in Hr.
      apply NoDup_app in Hsep as (Hnd & _ & _).
      assert (E : upa s pt va' = q).
      { apply (page_disjoint _ _ (upa s pt va' + va' mod PGSIZE)).
        - by apply (page_ok_aligned _ _ (Hr _ Hq')).
        - by apply (page_ok_aligned _ _ (Hr _ Hq)).
        - unfold in_page. page_lia.
        - unfold in_page. subst a. lia. }
      rewrite Epa', Epa in E. specialize (Hb va Hva Hpa) as Hb1. specialize (Hb va' Hva' Hnz) as Hb2.
      destruct (decide (va / PGSIZE < va' / PGSIZE)).
      * by apply (frames_inj n s pt va va'); [done|va_lia| | | | | |].
      * by apply (frames_inj n s pt va' va); [done|va_lia| |page_lia| | | |].
Qed.

(** The permission check of one round of [copyout]. *)
Lemma copyout_check s pt va (k : Z → K Z) (fail : K Z) :
  0 ≤ va →
  (if MAXVA <=? PGROUNDDOWN va then fail
   else
     let! pa0 := walkaddr pt (PGROUNDDOWN va) in
     if pa0 =? 0 then fail
     else
       let! pte := walk pt (PGROUNDDOWN va) false in
       let! e := rd64 pte in
       if negb (has e PTE_W) then fail else k pa0) s
  = (if uwritable s pt va then k (upa s pt va) else fail) s.
Proof.
  intros Hva. destruct (PGROUNDDOWN_page va Hva) as (H0 & H1 & _). unfold uwritable.
  destruct (Z.leb_spec MAXVA (PGROUNDDOWN va)) as [Hge|Hlt].
  { rewrite (upa_page s pt va (PGROUNDDOWN va)) by done. unfold upa.
    by rewrite (proj2 (Z.ltb_ge _ _) Hge). }
  rewrite (bind_ok _ _ _ _ _ (walkaddr_upa s pt va Hva)).
  destruct (Z.eqb_spec (upa s pt va) 0) as [Hz|Hnz]; [done|].
  destruct (upa_mapped s pt va Hnz) as [Hm _].
  assert (Ev : vpte s pt (PGROUNDDOWN va) = vpte s pt va).
  { pose proof (upa_lt s pt va Hnz). apply vpte_same_page; [page_lia..|done]. }
  rewrite (bind_ok _ _ _ _ _ (walk_lookup s pt _ (conj H0 Hlt))). unfold rd64, bind, gets.
  rewrite slot_vpte by (apply mapped_slot; unfold mapped in *; by rewrite Ev). rewrite Ev.
  by destruct (has (vpte s pt va) PTE_W).
Qed.

Lemma user_below_ext s s' pt n :
  (∀ va, vpte s' pt va = vpte s pt va) → user_below s pt n → user_below s' pt n.
Proof. intros Hv Hb va Hva. rewrite (upa_vpte s) by done. by apply Hb. Qed.

Lemma copyout_loop_ok fuel s pt n l va src len :
  uvm s pt n l → user_below s pt n → 0 ≤ va → 0 ≤ len ≤ Z.of_nat (length src) → (0 < fuel)%nat →
  (0 < len → 2 + (va mod PGSIZE + len - 1) / PGSIZE ≤ Z.of_nat fuel) →
  returns (copyout_loop fuel pt va src len) s (λ r s',
    ∃ k, wrote pt n l va src k s s'
      ∧ (r = 0 ∧ k = len ∨ r = -1 ∧ 0 ≤ k < len ∧ uwritable s pt (va + k) = false)
      ∧ (∀ va', va ≤ va' < va + k → uwritable s pt va' = true)).
Proof.
  revert s va src len. induction fuel as [|f IH]; intros s va src len Hu Hb Hva Hlen Hf0 Hf; [lia|].
  cbn [copyout_loop]. destruct (Z.ltb_spec 0 len) as [Hpos|Hz]; cbn [negb].
  2:{ apply returns_ret. exists 0. split_and!; [by apply wrote_none|left; lia|lia]. }
  unfold returns. cbv zeta.
  rewrite (copyout_check s pt va (λ pa0, _) (ret (-1)) Hva).
  destruct (uwritable s pt va) eqn:Hw.
  2:{ apply returns_ret. exists 0. split_and!; [by apply wrote_none| |lia].
      right. replace (va + 0) with va by lia. by split_and!. }
  destruct (PGROUNDDOWN_page va Hva) as (_ & _ & Eo & Ed). rewrite Eo, Ed.
  assert (Hpa : upa s pt va ≠ 0).
  { unfold uwritable in Hw. by destruct (Z.eqb_spec (upa s pt va) 0). }
  set (n1 := Z.min (PGSIZE - va mod PGSIZE) len).
  assert (Hn1 : 0 < n1 ≤ len ∧ va mod PGSIZE + n1 ≤ PGSIZE) by (subst n1; page_lia).
  pose proof (upa_lt s pt va Hpa). rewrite u64_id by page_lia.
  pose proof (write_user s pt n l va src n1 Hu Hb Hva Hpa ltac:(lia) ltac:(lia) ltac:(lia)) as Hwr.
  set (s1 := with_mem _ s) in *. unfold bind at 1, modify. fold s1. clearbody s1.
  assert (Hwp : ∀ va', va ≤ va' < va + n1 → uwritable s pt va' = true).
  { intros va' Hva'. unfold uwritable in *. rewrite (upa_page s pt va' va) by page_lia.
    by rewrite (vpte_same_page s pt va' va) by page_lia. }
  pose proof Hwr as (Hu1 & Hv1 & _).
  destruct (decide (0 < len - n1)) as [Hmore|Hend].
  - replace (va - va mod PGSIZE + PGSIZE) with (va + n1) by (subst n1; page_lia).
    eapply returns_mono; [apply (IH s1 (va + n1) (drop (Z.to_nat n1) src) (len - n1)); try done|].
    + by apply (user_below_ext s).
    + lia.
    + rewrite length_drop. lia.
    + page_lia.
    + subst n1. page_lia.
    + assert (Ew : ∀ va', uwritable s1 pt va' = uwritable s pt va').
      { intros va'. unfold uwritable. by rewrite (upa_vpte s), Hv1. }
      intros r s2 (k & Hwr2 & Hr & Hall). exists (n1 + k). split_and!.
      * apply (wrote_trans pt n l va src n1 k s s1 s2); try done; lia.
      * rewrite Ew in Hr. replace (va + (n1 + k)) with (va + n1 + k) by lia.
        destruct Hr as [[-> ->]|(-> & Hk & Hfail)]; [left; lia|right; split_and!; try done; lia].
      * intros va' Hva'. destruct (decide (va' < va + n1)); [apply Hwp; lia|]. rewrite <- Ew. apply Hall. lia.
  - assert (Elen : n1 = len) by lia. rewrite Elen in *. rewrite Z.sub_diag. clear IH.
    destruct f as [|f]; [specialize (Hf Hpos); page_lia|]. cbn [copyout_loop]. apply returns_ret.
    exists len. split_and!; [done|by left|done].
Qed.

Lemma copyout_ok s pt n l va src :
  uvm s pt n l → user_below s pt n → 0 ≤ va →
  returns (copyout pt va src (Z.of_nat (length src))) s (λ r s',
    ∃ k, wrote pt n l va src k s s'
      ∧ (r = 0 ∧ k = Z.of_nat (length src)
         ∨ r = -1 ∧ 0 ≤ k < Z.of_nat (length src) ∧ uwritable s pt (va + k) = false)
      ∧ (∀ va', va ≤ va' < va + k → uwritable s pt va' = true)).
Proof. intros Hu Hb Hva. apply copyout_loop_ok; try done; try page_lia. Qed.

Lemma wrote_ubytes pt n l va src s s' :
  wrote pt n l va src (Z.of_nat (length src)) s s' → 0 ≤ va → Forall (λ b, 0 ≤ b < 256) src →
  ubytes (length src) s' pt va = Some src.
Proof.
  intros (_ & _ & _ & _ & Hg) Hva Hb.
  assert (H : ∀ k i, (i + k = length src)%nat → ubytes k s' pt (va + Z.of_nat i) = Some (drop i src)).
  { induction k as [|k IH]; intros i Hi.
    - cbn [ubytes]. by rewrite drop_ge by lia.
    - cbn [ubytes]. rewrite Hg, decide_True by lia.
      replace (va + Z.of_nat i + 1) with (va + Z.of_nat (S i)) by lia. rewrite IH by lia.
      replace (Z.to_nat (va + Z.of_nat i - va)) with i by lia.
      destruct (lookup_lt_is_Some_2 src i ltac:(lia)) as [b Eb]. rewrite Eb. simpl.
      rewrite u8_id by (exact (Forall_lookup_1 _ src i b Hb Eb)). f_equal. symmetry. by apply drop_S. }
  specialize (H (length src) 0%nat eq_refl). by rewrite Z.add_0_r in H.
Qed.

End Copies.
