(* ===== verification/VmSpec.v ===== *)
(** The contract of kernel/mm/vm.c: what each operation promises to its callers
    (proc.c, exec.c, the system calls), stated on the abstract page table
    [vpte], the ownership of physical pages [owned] and user memory [uget]. *)

From S2P Require Import Prelude Machine CString Kalloc Vm PageTable AddrSpace Uvm UvmCopy UvmFree CopyIO.

Section Contract.
Context {LK : Linker} {LKok : LinkerOk}.

(** [walk] with [alloc] finds the slot of the leaf entry of
    [va], or fails with 0 only when memory is exhausted.  Either way it keeps
    every mapping, and the pages it takes from the free list become tables. *)
Theorem walk_allocates_tables s pt l va :
  pt_ok 2 s pt l → 0 ≤ va < MAXVA →
  returns (walk pt va true) s (λ r s', ∃ l', pt_ok 2 s' pt l' ∧ grows pt l s l' s'
    ∧ (∀ va', vpte s' pt va' = vpte s pt va')
    ∧ (r = 0 ∧ l' = [] ∨ r ≠ 0 ∧ slot_of 2 (mem s') pt va = r
                         ∧ load64 (mem s') r = vpte s pt va)).
Proof.
  intros Hok Hva. eapply returns_mono; [by apply walk_alloc|].
  intros r s' (l' & Hok' & Hg & Hv & Hr). exists l'. split_and!; try done.
  destruct Hr as [Hr|[Hr Hs]]; [by left|right]. split_and!; try done.
  rewrite <- Hv, <- Hs. apply slot_vpte. by rewrite Hs.
Qed.

(** C30 [functional]. [mappages] of [n] unmapped pages maps exactly them, to
    consecutive physical pages with the permissions asked for, and returns 0;
    it returns -1 only when memory is exhausted.  No other mapping changes. *)
Theorem mappages_maps s pt l va n pa perm :
  pt_ok 2 s pt l → va mod PGSIZE = 0 → 0 ≤ va → 0 < n → va + n * PGSIZE ≤ MAXVA →
  0 ≤ pa → pa mod PGSIZE = 0 → pa + n * PGSIZE ≤ 2 ^ 56 → 0 ≤ perm < 1024 →
  (∀ va', va ≤ va' < va + n * PGSIZE → mapped s pt va' = false) →
  returns (mappages pt va (n * PGSIZE) pa perm) s (λ r s',
    ∃ l' k, pt_ok 2 s' pt l' ∧ grows pt l s l' s'
      ∧ (∀ va', 0 ≤ va' < MAXVA →
           if decide (va ≤ va' < va + k * PGSIZE) then
             mapped s' pt va' = true
             ∧ PTE2PA (vpte s' pt va') = pa + (va' - va) / PGSIZE * PGSIZE
             ∧ PTE_FLAGS (vpte s' pt va') = Z.lor perm PTE_V
           else vpte s' pt va' = vpte s pt va')
      ∧ (r = 0 ∧ k = n ∨ r = -1 ∧ l' = [] ∧ 0 ≤ k < n)).
Proof.
  intros Hok Hal Hva Hn Hmax Hpa Hpal Hpmax Hperm Hfree.
  eapply returns_mono; [by apply (mappages_ok s pt l)|].
  intros r s' (l' & k & Hok' & Hg & Hm & Hr). exists l', k. split_and!; try done.
  intros va' Hva'. specialize (Hm va' ltac:(page_lia)). destruct (decide _) as [Hin|]; [|done].
  assert (Hk : k ≤ n) by (destruct Hr as [[_ ->]|(_ & _ & ?)]; lia).
  unfold mapped. rewrite Hm, leaf_valid, leaf_flags, leaf_PTE2PA by (try done; page_lia). done.
Qed.

(** C28 [functional]. Growing an address space from [oldsz] to [newsz] bytes
    either gives it zeroed pages with the right permissions up to [newsz],
    keeping what was mapped and stored, or fails with 0 with the mappings, the
    frames and the bytes it had.  In both cases no physical page is lost or
    shared.  It fails only for want of memory, and not without trace
    ([ran_out]): the page-table pages taken on the way stay with the table, all
    other free pages are free again, and those are no more than the frames
    the growth wanted. *)
Theorem uvmalloc_grows_or_restores s pt l oldsz newsz xperm :
  uvm s pt (pages_of oldsz) l → 0 ≤ oldsz ≤ newsz → newsz ≤ TRAPFRAME → 0 ≤ xperm < 1024 →
  returns (uvmalloc pt oldsz newsz xperm) s (λ r s', ∃ l' n',
    uvm s' pt n' l' ∧ owned n' s' pt l' ≡ₚ owned (pages_of oldsz) s pt l
    ∧ (∀ va, 0 ≤ va < MAXVA → ¬ PGROUNDUP oldsz ≤ va < TRAPFRAME → vpte s' pt va = vpte s pt va)
    ∧ (∀ p b, p ∈ frames (pages_of oldsz) s pt 0 → in_page p b → mget (mem s') b = mget (mem s) b)
    ∧ (r = newsz ∧ n' = pages_of newsz
         ∧ (∀ va, PGROUNDUP oldsz ≤ va < PGROUNDUP newsz →
              fresh s' pt va (Z.lor (Z.lor PTE_R PTE_U) xperm))
       ∨ r = 0 ∧ n' = pages_of oldsz
         ∧ (∀ va, 0 ≤ va < MAXVA → mapped s' pt va = mapped s pt va)
         ∧ ran_out (pages_of newsz - pages_of oldsz) pt l s l' s')).
Proof.
  intros Hu Hsz Hmax Hx. eapply returns_mono; [by apply (uvmalloc_ok s pt l)|].
  intros r s' (l' & n' & Hu' & Hown & Ht & Hf & Hv & Hr). exists l', n'.
  rewrite Nat.sub_diag in Hf. rewrite !PGROUNDUP_pages by lia. split_and!; try done.
  - intros va Hva Hne. apply Hv; [page_lia|done].
  - intros p b Hp Hb. destruct Hu as [Hok Hsep Hrg _ _ _]. apply NoDup_app in Hsep as (_ & Hd & _).
    rewrite Forall_forall in Hrg.
    apply (mem_frame_byte (l ++ tables s pt) _ _ p); try done; [|by apply (page_ok_aligned _ _ (Hrg p Hp))|by apply Hd].
    apply Forall_app. destruct Hok as [[_ _ Hl _] _ Hrt _]. split; by eapply pages_aligned.
  - destruct Hr as [(-> & -> & _ & _ & Hnew)|(-> & -> & Hmt & Hlen)].
    2:{ right. split_and!; [done|done| |by eapply grown_failed]. intros va Hva.
        destruct (decide (Z.of_nat (pages_of oldsz) * PGSIZE ≤ va < TRAPFRAME)) as [Hin|Hout].
        - by rewrite (uvm_above _ _ _ _ Hu'), (uvm_above _ _ _ _ Hu).
        - unfold mapped. rewrite Hv; [done|page_lia|done]. }
    left. assert (Hmx : Nat.max (pages_of oldsz) (pages_of newsz) = pages_of newsz) by va_lia.
    rewrite Hmx in Hnew |- *. by split_and!.
Qed.

(** C29 [functional]. Shrinking an address space returns [newsz], unmaps exactly
    the pages above it and puts their frames back on the free list, leaving
    the mappings and the contents below untouched. *)
Theorem uvmdealloc_releases s pt l oldsz newsz :
  uvm s pt (pages_of oldsz) l → 0 ≤ newsz ≤ oldsz → oldsz ≤ TRAPFRAME →
  returns (uvmdealloc pt oldsz newsz) s (λ r s', r = newsz ∧ ∃ l',
    uvm s' pt (pages_of newsz) l'
    ∧ owned (pages_of newsz) s' pt l' ≡ₚ owned (pages_of oldsz) s pt l
    ∧ tables s' pt = tables s pt
    ∧ (∀ va, 0 ≤ va < MAXVA → ¬ PGROUNDUP newsz ≤ va < TRAPFRAME → vpte s' pt va = vpte s pt va)
    ∧ (∀ p b, p ∈ frames (pages_of newsz) s' pt 0 → in_page p b → mget (mem s') b = mget (mem s) b)).
Proof.
  intros Hu Hsz Hmax. eapply returns_mono; [by apply (uvmdealloc_ok s pt l)|].
  intros r s' (-> & l' & Hu' & Hown & Htab & Ht & Hf & Hv). split; [done|]. exists l'.
  split_and!; try done.
  - intros va Hva Hne. apply Hv; [page_lia|done].
  - set (n := pages_of oldsz) in *. set (k := pages_of newsz) in *.
    assert (Hkn : (k ≤ n)%nat) by (subst n k; va_lia).
    assert (Hkt : Z.of_nat k * PGSIZE ≤ TRAPFRAME) by apply Hu'.
    assert (Ek : frames k s' pt 0 = frames k s pt 0).
    { apply frames_ext; try va_lia. intros va Hva. apply Hv; [va_lia|].
      rewrite PGROUNDUP_pages by lia. fold k. va_lia. }
    rewrite Ek. intros p b Hp Hb. destruct Hu as [Hok Hsep Hrg _ _ _]. unfold owned in Hsep.
    replace n with (k + (n - k))%nat in Hsep, Hrg by lia. rewrite frames_app, Z.add_0_l in Hsep, Hrg.
    rewrite <- app_assoc in Hsep. apply Forall_app in Hrg as [Hr1 Hr2]. rewrite Forall_forall in Hr1.
    apply NoDup_app in Hsep as (_ & Hd & _).
    apply (mem_frame_byte _ _ _ p b Hf); [|by apply (page_ok_aligned _ _ (Hr1 p Hp))| |done].
    + apply Forall_app. split; [by eapply pages_aligned|]. destruct Hok as [_ _ Hrt _]. by eapply pages_aligned.
    + intros Hin. apply (Hd p Hp). rewrite elem_of_app in Hin. rewrite !elem_of_app. tauto.
Qed.

(** C2 [functional]. [uvmcopy] into an empty address space either gives the
    child a private copy of every page of the parent (same flags, same bytes,
    different frames) and returns 0, or returns -1 with no user page in the
    child.  The parent is untouched, and the pages the child has come from the
    free list.  It returns -1 only for want of memory ([ran_out]): the free
    pages it took for the child's page table stay there, all the others are
    free again, and those are no more than the frames the parent has. *)
Theorem uvmcopy_duplicates s old new sz l :
  uvm s old (pages_of sz) l → uvm s new 0 l → 0 ≤ sz →
  (∀ p, p ∈ frames (pages_of sz) s old 0 ++ tables s old → p ∉ l ++ tables s new) →
  returns (uvmcopy old new sz) s (λ r s', ∃ l' n',
    uvm s' old (pages_of sz) l' ∧ (∀ va, vpte s' old va = vpte s old va)
    ∧ (∀ p b, p ∈ frames (pages_of sz) s old 0 → in_page p b → mget (mem s') b = mget (mem s) b)
    ∧ uvm s' new n' l' ∧ owned n' s' new l' ≡ₚ l ++ tables s new
    ∧ (∀ va, TRAPFRAME ≤ va < MAXVA → vpte s' new va = vpte s new va)
    ∧ (r = 0 ∧ n' = pages_of sz
         ∧ (∀ va, 0 ≤ va < Z.of_nat n' * PGSIZE → copied s old s' new va)
       ∨ r = -1 ∧ n' = 0%nat
         ∧ ran_out (length (frames (pages_of sz) s old 0)) new l s l' s')).
Proof.
  intros Hold Hnew Hsz Hsep. unfold uvmcopy. change 0 with (Z.of_nat 0 * PGSIZE) at 2.
  eapply returns_mono.
  { apply (uvmcopy_loop_ok s old new (pages_of sz) l Hold Hnew Hsep _ 0 s l sz); try done; try lia.
    - by apply copy_inv_start.
    - va_lia. }
  intros r s' (l' & Hr). exists l'.
  assert (∃ n', copy_inv s old new l n' s' l' ∧ (r = 0 ∧ n' = pages_of sz ∨ r = -1 ∧ n' = 0%nat
      ∧ ran_out (length (frames (pages_of sz) s old 0)) new l s l' s'))
    as (n' & Hc & Hr') by (destruct Hr as [[-> ?]|(-> & ? & ?)]; eauto 10).
  exists n'. destruct (copy_inv_old s old new (pages_of sz) l Hold Hnew Hsep n' s' l' Hc) as (? & ? & ?).
  destruct Hc as [Hu Hown _ _ Hh Hcp _]. split_and!; try done.
  - intros va Hva. apply Hh. page_lia.
  - destruct Hr' as [[-> ->]|(-> & -> & ?)]; [left|right]; by split_and!.
Qed.

(** C13 [safety]. [uvmfree] on an address space with nothing mapped at the
    trapframe and above returns without a panic and gives every page back: the
    frames, the page-table pages and the old free pages together are the new
    free list. *)
Theorem uvmfree_returns_every_page s pt l sz :
  uvm s pt (pages_of sz) l → 0 ≤ sz ≤ TRAPFRAME →
  (∀ va, TRAPFRAME ≤ va < MAXVA → mapped s pt va = false) →
  returns (uvmfree pt sz) s (λ _ s', ∃ l', kinv s' l'
    ∧ l' ≡ₚ frames (pages_of sz) s pt 0 ++ l ++ tables s pt
    ∧ mem_frame (owned (pages_of sz) s pt l) (mem s) (mem s')).
Proof.
  intros Hu Hsz Htf. eapply returns_mono; [by apply (uvmfree_ok s pt l)|].
  intros u s' (l' & ? & ? & _ & ?). by exists l'.
Qed.

(** C26 [functional]. [copyin] reads exactly the bytes the user sees at
    [srcva], and fails with -1 exactly when one of them is not accessible to
    user code; it changes nothing. *)
Theorem copyin_reads_user_bytes s pt va len :
  0 ≤ va → 0 ≤ len →
  ∃ bs, copyin pt va len s
        = Ok (match ubytes (Z.to_nat len) s pt va with
              | Some bs' => (0, bs') | None => (-1, bs) end) s.
Proof. apply copyin_ok. Qed.

(** C27 [functional]. [copyinstr] returns the NUL-terminated string the user
    sees at [srcva], NUL included, and -1 exactly when there is none within
    [max] accessible bytes. *)
Theorem copyinstr_reads_user_string s pt va max :
  0 ≤ va → 0 ≤ max →
  ∃ bs, copyinstr pt va max s
        = Ok (match ustr (Z.to_nat max) s pt va with
              | Some bs' => (0, bs') | None => (-1, bs) end) s.
Proof. apply copyinstr_ok. Qed.

(** C14 [safety]. [copyout] writes user memory only where user code could write
    it: it stores a prefix of the bytes, all of it when it returns 0; when it
    returns -1 the first byte not stored lies on a page user code may not
    write.  Page tables, other user bytes and the rest of memory are kept. *)
Theorem copyout_respects_permissions s pt n l va src :
  uvm s pt n l → user_below s pt n → 0 ≤ va →
  returns (copyout pt va src (Z.of_nat (length src))) s (λ r s', ∃ k,
    uvm s' pt n l ∧ (∀ va, vpte s' pt va = vpte s pt va)
    ∧ mem_frame (frames n s pt 0) (mem s) (mem s')
    ∧ (∀ va', 0 ≤ va' → uget s' pt va'
         = if decide (va ≤ va' < va + k) then Some (u8 (default 0 (src !! Z.to_nat (va' - va))))
           else uget s pt va')
    ∧ (∀ va', va ≤ va' < va + k → uwritable s pt va' = true)
    ∧ (r = 0 ∧ k = Z.of_nat (length src)
       ∨ r = -1 ∧ 0 ≤ k < Z.of_nat (length src) ∧ uwritable s pt (va + k) = false)).
Proof.
  intros Hu Hb Hva. eapply returns_mono; [by apply (copyout_ok s pt n l)|].
  intros r s' (k & (? & ? & _ & ? & ?) & Hr & Hw). exists k. by split_and!.
Qed.

(** Bytes stored with a successful [copyout] are read back by
    [copyin]. *)
Theorem copyout_copyin_roundtrip s pt n l va src :
  uvm s pt n l → user_below s pt n → 0 ≤ va → Forall (λ b, 0 ≤ b < 256) src →
  (∀ va', va ≤ va' < va + Z.of_nat (length src) → uwritable s pt va' = true) →
  returns (let! r := copyout pt va src (Z.of_nat (length src)) in
           let! q := copyin pt va (Z.of_nat (length src)) in ret (r, q)) s
    (λ v _, v = (0, (0, src))).
Proof.
  intros Hu Hb Hva Hsrc Hw. eapply returns_bind; [by apply (copyout_ok s pt n l)|].
  intros r s' (k & Hwr & Hr & _).
  assert (r = 0 ∧ k = Z.of_nat (length src)) as [-> ->].
  { destruct Hr as [?|(_ & Hk & Hf)]; [done|]. rewrite Hw in Hf by lia. done. }
  destruct (copyin_ok s' pt va (Z.of_nat (length src))) as (bs & E); [done|lia|].
  rewrite Nat2Z.id, (wrote_ubytes pt n l va src s s' Hwr Hva Hsrc) in E.
  eapply returns_bind; [apply (returns_eq _ _ _ _ E)|]. intros q s'' [-> ->]. by apply returns_ret.
Qed.

End Contract.

(** ** A concrete address space

    A zeroed root table and six free pages; the second state has one page
    mapped read/write at address 0. *)

Module Space.

#[local] Existing Instance Demo.linker.
#[local] Existing Instance Demo.linker_ok.

Definition pt : Z := 0x80100000.

Definition other : Z := 0x80110000.

Definition free : list Z :=
  [0x80101000; 0x80102000; 0x80103000; 0x80104000; 0x80105000; 0x80106000].

Definition empty : kmem_state :=
  KMem (store64 (store64 (store64 (store64 (store64 ∅ 0x80101000 0x80102000) 0x80102000 0x80103000)
          0x80103000 0x80104000) 0x80104000 0x80105000) 0x80105000 0x80106000)
       0x80101000 PHYSTOP.

Lemma empty_kinv : kinv empty free.
Proof.
  split.
  - vm_compute. auto 10.
  - evaluate.
  - repeat constructor; vm_compute; done.
  - vm_compute. done.
Qed.

(** A page that is not on the free list is an empty table. *)
Lemma empty_table p :
  (∀ j, 0 ≤ j < 512 → pte_at (mem empty) p j = 0) → page_ok PHYSTOP p → p ∉ free →
  uvm empty p 0 free ∧ tables empty p = [p] ∧ ∀ va, vpte empty p va = 0.
Proof.
  intros Hz Hp Hn. destruct (zero_table 2 (mem empty) p Hz) as (Htab & Hv & Hpl).
  fold (tables empty p) in Htab.
  assert (Hnd : NoDup (free ++ tables empty p)).
  { rewrite Htab, <- Permutation_cons_append. apply NoDup_cons. split; [done|apply empty_kinv]. }
  split_and!; [|done|done]. split.
  - split; [apply empty_kinv|done| |done]. fold (tables empty p). rewrite Htab. by apply Forall_singleton.
  - unfold owned. cbn [frames]. rewrite app_nil_l. exact Hnd.
  - constructor.
  - evaluate.
  - intros va _. unfold mapped, vpte. by rewrite Hv.
  - intros va _. unfold mapped, vpte. by rewrite Hv.
Qed.

(** Entries of pages that were never written are zero. *)
Lemma zero_entries p :
  forallb (λ j, pte_at (mem empty) p j =? 0) ptes = true → ∀ j, 0 ≤ j < 512 → pte_at (mem empty) p j = 0.
Proof.
  intros H j Hj. rewrite forallb_forall in H. apply Z.eqb_eq, H.
  apply list_elem_of_In. by apply indices_elem.
Qed.

Lemma empty_uvm : uvm empty pt 0 free ∧ tables empty pt = [pt] ∧ ∀ va, vpte empty pt va = 0.
Proof.
  apply empty_table.
  - apply zero_entries. vm_compute. reflexivity.
  - repeat split; vm_compute; done.
  - evaluate.
Qed.

Lemma other_uvm : uvm empty other 0 free ∧ tables empty other = [other] ∧ ∀ va, vpte empty other va = 0.
Proof.
  apply empty_table.
  - apply zero_entries. vm_compute. reflexivity.
  - repeat split; vm_compute; done.
  - evaluate.
Qed.

(** One page mapped read/write at address 0. *)
Lemma one_page : ∃ s l, uvm s pt 1 l ∧ user_below s pt 1
  ∧ (∀ va, 0 ≤ va < PGSIZE → uwritable s pt va = true)
  ∧ (∀ va, TRAPFRAME ≤ va < MAXVA → mapped s pt va = false).
Proof.
  destruct empty_uvm as (Hu & _ & Hz).
  destruct (uvmalloc_ok empty pt free 0 4096 PTE_W) as (r & s & E & Hg); [done|done|done|done|].
  assert (Er : match uvmalloc pt 0 4096 PTE_W empty with Ok r _ => r =? 4096 | _ => false end = true)
    by (vm_compute; reflexivity).
  rewrite E in Er. apply Z.eqb_eq in Er as ->. clear E.
  destruct Hg as (l & n & Hu' & _ & Ht & _ & Hv & Hr). change (pages_of 0) with 0%nat in *.
  destruct Hr as [(_ & Hn & _ & _ & Hnew)|[? _]]; [|done].
  change (Nat.max 0 (pages_of 4096)) with 1%nat in Hn. subst n. exists s, l.
  assert (Hlow : ∀ va, 0 ≤ va < PGSIZE → uwritable s pt va = true).
  { intros va Hva. destruct (Hnew va ltac:(page_lia)) as (pa & Ev & Hpa & _).
    set (perm := Z.lor (Z.lor PTE_R PTE_U) PTE_W) in *.
    assert (EU : has (leaf pa perm) PTE_U = true) by (apply (leaf_has pa perm 4); done).
    assert (EW : has (leaf pa perm) PTE_W = true) by (apply (leaf_has pa perm 2); done).
    assert (Epa : upa s pt va = pa).
    { unfold upa. rewrite Ev, leaf_valid, EU.
      rewrite (proj2 (Z.ltb_lt va MAXVA)) by page_lia. simpl. rewrite leaf_PTE2PA; try done.
      - eapply page_ok_range; [done|]. apply (uvm_pt _ _ _ _ Hu').
      - by eapply page_ok_aligned. }
    unfold uwritable. rewrite Epa, Ev, EW.
    rewrite (proj2 (Z.eqb_neq pa 0)); [done|]. by eapply page_ok_nonzero. }
  assert (Hhigh : ∀ va, TRAPFRAME ≤ va < MAXVA → mapped s pt va = false).
  { intros va Hva. unfold mapped. rewrite Hv, Hz by va_lia. done. }
  split_and!; try done. intros va Hva Hnz. destruct (decide (va < PGSIZE)); [page_lia|]. exfalso.
  destruct (upa_mapped s pt va Hnz) as [Hm _]. pose proof (upa_lt s pt va Hnz).
  destruct (decide (va < TRAPFRAME)).
  - rewrite (uvm_above _ _ _ _ Hu') in Hm; [done|page_lia].
  - rewrite Hhigh in Hm by lia. done.
Qed.

(** The same with a second, empty table: the parent and the child of a copy. *)
Lemma two_spaces : ∃ s l, uvmalloc pt 0 4096 PTE_W empty = Ok 4096 s ∧ uvm s pt 1 l ∧ uvm s other 0 l
  ∧ mapped s pt 0 = true
  ∧ (∀ p, p ∈ frames 1 s pt 0 ++ tables s pt → p ∉ l ++ tables s other).
Proof.
  destruct empty_uvm as (Hu & Ht & _), other_uvm as (Hu2 & Ht2 & _).
  destruct (uvmalloc_ok empty pt free 0 4096 PTE_W) as (r & s & E & Hg); [exact Hu|evaluate|evaluate|evaluate|].
  assert (Er : match uvmalloc pt 0 4096 PTE_W empty with Ok r _ => r =? 4096 | _ => false end = true)
    by (vm_compute; reflexivity).
  rewrite E in Er. apply Z.eqb_eq in Er as ->.
  destruct Hg as (l & n & Hu' & Hown & Ht' & Hf & _ & Hr). change (pages_of 0) with 0%nat in *.
  destruct Hr as [(_ & Hn & _ & _ & Hnew)|[H0 _]]; [|discriminate H0].
  change (Nat.max 0 (pages_of 4096)) with 1%nat in Hn. subst n. exists s, l.
  cbn [frames Nat.sub] in Hf. unfold owned in Hown. rewrite Ht in Hf, Hown. cbn [frames app] in Hf. rewrite app_nil_l in Hown.
  assert (Hsub : ∀ q, q ∈ frames 1 s pt 0 ++ l ++ tables s pt → q ∈ free ++ [pt]) by (intros q Hq; by rewrite <- Hown).
  destruct (uvm_other (free ++ [pt]) empty s other 0 free l) as (Ho & Htab & _);
    [exact Hu2|exact Hf|exact Ht'|apply (uvm_pt _ _ _ _ Hu')| | | |].
  - repeat constructor.
  - intros q Hq. apply Hsub. rewrite !elem_of_app. auto.
  - cbn [frames app]. rewrite Ht2. intros q ->%list_elem_of_singleton. evaluate.
  - split_and!; [exact E|exact Hu'|exact Ho| |].
    + destruct (Hnew 0) as (pa & Ev & _); [page_lia|]. unfold mapped. rewrite Ev. apply leaf_valid.
    + rewrite Htab, Ht2. intros q Hq. rewrite elem_of_app, list_elem_of_singleton. intros [Hl| ->].
      * pose proof (uvm_sep _ _ _ _ Hu') as Hs. unfold owned in Hs. rewrite Permutation_app_swap_app in Hs.
        apply NoDup_app in Hs as (_ & Hd & _). by apply (Hd q).
      * assert (Hin : other ∈ free ++ [pt]) by (apply Hsub; rewrite elem_of_app in Hq; rewrite !elem_of_app; tauto).
        revert Hin. evaluate.
Qed.

End Space.

Section Witnesses.
#[local] Existing Instance Demo.linker.
#[local] Existing Instance Demo.linker_ok.

Lemma walk_allocates_tables_witness :
  returns (walk Space.pt 0x5000 true) Space.empty (λ r s', ∃ l',
    pt_ok 2 s' Space.pt l' ∧ (r = 0 ∧ l' = [] ∨ r ≠ 0 ∧ load64 (mem s') r = 0)).
Proof.
  destruct Space.empty_uvm as (Hu & _ & Hz).
  eapply returns_mono; [apply (walk_allocates_tables Space.empty Space.pt Space.free 0x5000);
    [apply Hu|evaluate]|].
  intros r s' (l' & Hok & _ & _ & Hr). exists l'. rewrite Hz in Hr. split; [exact Hok|].
  destruct Hr as [?|(? & _ & ?)]; [left; assumption|right; split; assumption].
Defined.

Lemma mappages_maps_witness :
  returns (mappages Space.pt 0x5000 0x1000 0x80107000 PTE_R) Space.empty (λ r s',
    r = 0 ∧ PTE2PA (vpte s' Space.pt 0x5004) = 0x80107000 ∨ r = -1).
Proof.
  destruct Space.empty_uvm as (Hu & _ & Hz).
  change 0x1000 with (1 * PGSIZE).
  eapply returns_mono;
    [apply (mappages_maps Space.empty Space.pt Space.free 0x5000 1 0x80107000 PTE_R);
       [apply Hu|reflexivity|lia|lia|evaluate|lia|reflexivity|evaluate|evaluate|]|].
  - intros va' _. unfold mapped. by rewrite Hz.
  - intros r s' (l' & k & _ & _ & Hm & Hr). destruct Hr as [[-> ->]|(-> & _)]; [left|by right].
    split; [done|]. specialize (Hm 0x5004 ltac:(evaluate)).
    rewrite decide_True in Hm by (unfold PGSIZE; lia). destruct Hm as (_ & Hm & _). exact Hm.
Defined.

(** Three pages with their tables fit into the six free ones; nine do not, and
    then all pages but the tables are free again. *)
Lemma uvmalloc_grows_or_restores_witness :
  returns (uvmalloc Space.pt 0 10000 PTE_W) Space.empty (λ r s', r = 10000
    ∧ fresh s' Space.pt 8192 (Z.lor (Z.lor PTE_R PTE_U) PTE_W))
  ∧ returns (uvmalloc Space.pt 0 36000 PTE_W) Space.empty (λ r s', r = 0
    ∧ ∃ l', ran_out 9 Space.pt Space.free Space.empty l' s').
Proof.
  destruct Space.empty_uvm as (Hu & Ht & _). split.
  - destruct (uvmalloc_grows_or_restores Space.empty Space.pt Space.free 0 10000 PTE_W)
      as (r & s' & E & l' & n' & _ & _ & _ & _ & Hr); [exact Hu|evaluate|evaluate|evaluate|].
    assert (Er : match uvmalloc Space.pt 0 10000 PTE_W Space.empty with Ok r _ => r =? 10000 | _ => false end = true)
      by (vm_compute; reflexivity).
    rewrite E in Er. apply Z.eqb_eq in Er as ->. exists 10000, s'. split; [exact E|]. split; [reflexivity|].
    destruct Hr as [(_ & _ & Hf)|(H0 & _)]; [|discriminate H0]. apply Hf. evaluate.
  - destruct (uvmalloc_grows_or_restores Space.empty Space.pt Space.free 0 36000 PTE_W)
      as (r & s' & E & l' & n' & _ & _ & _ & _ & Hr); [exact Hu|evaluate|evaluate|evaluate|].
    assert (Er : match uvmalloc Space.pt 0 36000 PTE_W Space.empty with Ok r _ => r =? 0 | _ => false end = true)
      by (vm_compute; reflexivity).
    rewrite E in Er. apply Z.eqb_eq in Er as ->. exists 0, s'. split; [exact E|]. split; [reflexivity|].
    destruct Hr as [(H0 & _)|(_ & _ & _ & Hf)]; [discriminate H0|]. exists l'. exact Hf.
Defined.

Lemma uvmdealloc_releases_witness :
  ∃ s, returns (uvmdealloc Space.pt 4096 0) s (λ r s', r = 0 ∧ ∃ l', uvm s' Space.pt 0 l').
Proof.
  destruct Space.one_page as (s & l & Hu & _). exists s.
  eapply returns_mono; [apply (uvmdealloc_releases s Space.pt l 4096 0); [exact Hu|lia|evaluate]|].
  intros r s' (-> & l' & Hu' & _). split; [done|]. by exists l'.
Defined.

(** The parent has one page, and the six free pages are just enough. *)
Lemma uvmcopy_duplicates_witness :
  ∃ s, mapped s Space.pt 0 = true ∧ returns (uvmcopy Space.pt Space.other 4096) s (λ r s',
    r = 0 ∧ mapped s' Space.other 0 = true
    ∧ ∀ o, 0 ≤ o < PGSIZE → mget (mem s') (PTE2PA (vpte s' Space.other 0) + o) = mget (mem s) (PTE2PA (vpte s Space.pt 0) + o)).
Proof.
  destruct Space.two_spaces as (s & l & E & Hu & Ho & Hm & Hsep). exists s. split; [exact Hm|].
  assert (Er : match uvmalloc Space.pt 0 4096 PTE_W Space.empty with
               | Ok _ s => match uvmcopy Space.pt Space.other 4096 s with Ok r _ => r =? 0 | _ => false end
               | _ => false end = true) by (vm_compute; reflexivity).
  rewrite E in Er.
  destruct (uvmcopy_duplicates s Space.pt Space.other 4096 l) as (r & s' & Ec & Hq);
    [exact Hu|exact Ho|lia|exact Hsep|].
  rewrite Ec in Er. apply Z.eqb_eq in Er as ->. exists 0, s'. split; [exact Ec|]. split; [reflexivity|].
  destruct Hq as (l' & n' & _ & _ & _ & _ & _ & _ & Hr). destruct Hr as [(_ & -> & Hc)|(H0 & _)]; [|discriminate H0].
  specialize (Hc 0 ltac:(evaluate)). unfold copied in Hc. rewrite Hm in Hc. destruct Hc as (H1 & _ & H2). auto.
Defined.

Lemma uvmfree_returns_every_page_witness :
  ∃ s l, uvm s Space.pt 1 l ∧ returns (uvmfree Space.pt 4096) s (λ _ s', ∃ l', kinv s' l'
    ∧ l' ≡ₚ frames 1 s Space.pt 0 ++ l ++ tables s Space.pt).
Proof.
  destruct Space.one_page as (s & l & Hu & _ & _ & Hhigh). exists s, l. split; [done|].
  eapply returns_mono; [apply (uvmfree_returns_every_page s Space.pt l 4096);
    [exact Hu|evaluate|exact Hhigh]|].
  intros u s' (l' & ? & ? & _). by exists l'.
Defined.

Lemma copyin_reads_user_bytes_witness :
  ∃ bs, copyin Space.pt 0x1000 8 Space.empty = Ok (-1, bs) Space.empty.
Proof.
  destruct (copyin_reads_user_bytes Space.empty Space.pt 0x1000 8) as (bs & E); [lia|lia|].
  exists bs. rewrite E. f_equal.
Defined.

Lemma copyinstr_reads_user_string_witness :
  ∃ bs, copyinstr Space.pt 0x1000 8 Space.empty = Ok (-1, bs) Space.empty.
Proof.
  destruct (copyinstr_reads_user_string Space.empty Space.pt 0x1000 8) as (bs & E); [lia|lia|].
  exists bs. rewrite E. f_equal.
Defined.

Lemma copyout_respects_permissions_witness :
  ∃ s, returns (copyout Space.pt 16 [7; 8; 9] 3) s (λ r s', r = 0 ∧ uget s' Space.pt 17 = Some 8).
Proof.
  destruct Space.one_page as (s & l & Hu & Hb & Hw & _). exists s.
  eapply returns_mono; [apply (copyout_respects_permissions s Space.pt 1 l 16 [7; 8; 9]); [exact Hu|exact Hb|lia]|].
  intros r s' (k & _ & _ & _ & Hg & _ & Hr). simpl in Hr.
  destruct Hr as [[-> ->]|(_ & Hk & Hf)].
  - split; [done|]. rewrite Hg by lia. by rewrite decide_True by lia.
  - rewrite Hw in Hf by (unfold PGSIZE; lia). done.
Defined.

Lemma copyout_copyin_roundtrip_witness :
  ∃ s, returns (let! r := copyout Space.pt 16 [7; 8; 9] 3 in
                let! q := copyin Space.pt 16 3 in ret (r, q)) s (λ v _, v = (0, (0, [7; 8; 9]))).
Proof.
  destruct Space.one_page as (s & l & Hu & Hb & Hw & _). exists s.
  apply (copyout_copyin_roundtrip s Space.pt 1 l 16 [7; 8; 9]); [exact Hu|exact Hb|lia| |].
  - repeat constructor; lia.
  - intros va' Hva'. apply Hw. simpl in Hva'. unfold PGSIZE. lia.
Defined.

End Witnesses.
