(* ===== verification/Spinlock.v ===== *)
(** kernel/sync/spinlock.c: spin locks and interrupt nesting, as the functions
    of one hart, and the lock protocol of several harts as a step relation. *)

From stdpp Require Import functions.
From S2P Require Import Prelude.

(** ** The functions, run on one hart *)

(** The part of [struct cpu] that push_off/pop_off use, with [sstatus.SIE]. *)
Record cpu := Cpu {
  noff : Z;
  intena : bool;
  intr : bool;
}.

(** [struct spinlock]; the holder is a hart id, [None] the null pointer. *)
Record spinlock := Lock {
  locked : bool;
  lcpu : option Z;
}.

Record sync := Sync {
  this : cpu;
  locks : gmap Z spinlock;   (* by address; a lock never written is zero *)
}.

Abbreviation L := (M sync).

Definition with_cpu (c : cpu) (s : sync) : sync := Sync c (locks s).

Definition get_lock (lk : Z) (s : sync) : spinlock := default (Lock false None) (locks s !! lk).

Definition set_lock (lk : Z) (v : spinlock) (s : sync) : sync := Sync (this s) (<[lk := v]> (locks s)).

Section Functions.
Context (hart : Z).   (* r_tp() *)

Definition initlock (lk : Z) : L unit := modify (set_lock lk (Lock false None)).

Definition push_off : L unit :=
  let! old := gets (λ s, intr (this s)) in
  modify (λ s, with_cpu (Cpu (noff (this s)) (intena (this s)) false) s) ;;;
  let! c := gets this in
  (if noff c =? 0 then modify (with_cpu (Cpu (noff c) old (intr c))) else ret tt) ;;;
  modify (λ s, with_cpu (Cpu (noff (this s) + 1) (intena (this s)) (intr (this s))) s).

Definition pop_off : L unit :=
  let! c := gets this in
  if intr c then panic "pop_off - interruptible"
  else if noff c <? 1 then panic "pop_off"
  else
    modify (with_cpu (Cpu (noff c - 1) (intena c) (intr c))) ;;;
    if (noff c - 1 =? 0) && intena c
    then modify (with_cpu (Cpu (noff c - 1) (intena c) true))
    else ret tt.

(** What [acquire], [release] and [holding] do to memory, access by access: the
    accesses other harts can come between.  [SwapLoop k] is the loop
    [while (__sync_lock_test_and_set(&lk->locked, 1) != 0);] with [k] after
    it; [PushOff] and [PopOff] are the calls, which touch only this hart. *)
Inductive code (A : Type) :=
| Return (a : A)
| Panics (msg : string)
| PushOff (k : code A)
| PopOff (k : code A)
| ReadLocked (k : bool → code A)
| ReadCpu (k : option Z → code A)
| SwapLoop (k : code A)
| WriteCpu (v : option Z) (k : code A)
| ClearLocked (k : code A).

#[global] Arguments Return {A} _.
#[global] Arguments Panics {A} _.
#[global] Arguments PushOff {A} _.
#[global] Arguments PopOff {A} _.
#[global] Arguments ReadLocked {A} _.
#[global] Arguments ReadCpu {A} _.
#[global] Arguments SwapLoop {A} _.
#[global] Arguments WriteCpu {A} _ _.
#[global] Arguments ClearLocked {A} _.

(** [lk->locked && lk->cpu == mycpu()]: the second load only after the first
    was not zero. *)
Definition holding_code {A} (k : bool → code A) : code A :=
  ReadLocked (λ l, if l then ReadCpu (λ c, k (bool_decide (c = Some hart))) else k false).

Definition acquire_code : code unit :=
  PushOff (holding_code (λ h,
    if h then Panics "acquire" else SwapLoop (WriteCpu (Some hart) (Return tt)))).

Definition release_code : code unit :=
  holding_code (λ h,
    if negb h then Panics "release" else WriteCpu None (ClearLocked (PopOff (Return tt)))).

(** The accesses to the fields of the lock. *)
Definition read_locked (lk : Z) : L bool := gets (λ s, locked (get_lock lk s)).

Definition read_cpu (lk : Z) : L (option Z) := gets (λ s, lcpu (get_lock lk s)).

Definition write_cpu (lk : Z) (v : option Z) : L unit :=
  modify (λ s, set_lock lk (Lock (locked (get_lock lk s)) v) s).

(** [amoswap.w.aq]: stores 1 and gives what was there. *)
Definition lock_test_and_set (lk : Z) : L bool :=
  let! old := gets (λ s, locked (get_lock lk s)) in
  modify (λ s, set_lock lk (Lock true (lcpu (get_lock lk s))) s) ;;;
  ret old.

Definition lock_release (lk : Z) : L unit :=
  modify (λ s, set_lock lk (Lock false (lcpu (get_lock lk s))) s).

(** One access, or one turn of the swap loop; what is left to do. *)
Definition next {A} (lk : Z) (c : code A) : L (code A) :=
  match c with
  | Return a => ret (Return a)
  | Panics msg => panic msg
  | PushOff k => push_off ;;; ret k
  | PopOff k => pop_off ;;; ret k
  | ReadLocked k => let! l := read_locked lk in ret (k l)
  | ReadCpu k => let! c := read_cpu lk in ret (k c)
  | SwapLoop k =>
      let! old := lock_test_and_set lk in
      ret (if old then SwapLoop k else k)
  | WriteCpu v k => write_cpu lk v ;;; ret k
  | ClearLocked k => lock_release lk ;;; ret k
  end.

(** All of it with no other hart in between; a lock that another hart holds
    would then keep this one in the swap loop for ever. *)
Fixpoint run {A} (lk : Z) (c : code A) : L A :=
  match c with
  | Return a => ret a
  | Panics msg => panic msg
  | PushOff k => push_off ;;; run lk k
  | PopOff k => pop_off ;;; run lk k
  | ReadLocked k => let! l := read_locked lk in run lk (k l)
  | ReadCpu k => let! c := read_cpu lk in run lk (k c)
  | SwapLoop k =>
      let! old := lock_test_and_set lk in
      if old then nofuel else run lk k
  | WriteCpu v k => write_cpu lk v ;;; run lk k
  | ClearLocked k => lock_release lk ;;; run lk k
  end.

Definition holding (lk : Z) : L bool := run lk (holding_code Return).

Definition acquire (lk : Z) : L unit := run lk acquire_code.

Definition release (lk : Z) : L unit := run lk release_code.

(** ** Facts *)

(** Interrupts are off inside a push_off section. *)
Definition cpu_ok (c : cpu) : Prop := 0 ≤ noff c ∧ (0 < noff c → intr c = false).

(** What the hart goes back to when the last section ends. *)
Definition resume (c : cpu) : bool := if noff c =? 0 then intr c else intena c.

Lemma push_off_eq s :
  push_off s = Ok tt (with_cpu (Cpu (noff (this s) + 1) (resume (this s)) false) s).
Proof.
  unfold push_off, bind, gets, modify, ret, resume. simpl.
  by destruct (noff (this s) =? 0).
Qed.

Lemma pop_off_eq s :
  intr (this s) = false → 1 ≤ noff (this s) →
  pop_off s = Ok tt (with_cpu (Cpu (noff (this s) - 1) (intena (this s))
                       ((noff (this s) =? 1) && intena (this s))) s).
Proof.
  intros Hi Hn. unfold pop_off, bind, gets, modify, ret. rewrite Hi.
  rewrite (proj2 (Z.ltb_ge _ _) Hn).
  replace (noff (this s) - 1 =? 0) with (noff (this s) =? 1)
    by (destruct (Z.eqb_spec (noff (this s)) 1), (Z.eqb_spec (noff (this s) - 1) 0); lia).
  by destruct ((noff (this s) =? 1) && intena (this s)).
Qed.

Lemma get_set_lock lk v s : get_lock lk (set_lock lk v s) = v.
Proof. unfold get_lock, set_lock. simpl. by rewrite lookup_insert_eq. Qed.

Lemma holding_eq lk s :
  holding lk s = Ok (locked (get_lock lk s) && bool_decide (lcpu (get_lock lk s) = Some hart)) s.
Proof.
  unfold holding, holding_code, run, read_locked, read_cpu, bind, gets, ret.
  by destruct (locked (get_lock lk s)).
Qed.

(** The whole call is its first access and then the rest, but for the spinning. *)
Lemma run_next {A} lk (c : code A) s :
  run lk c s = match c with
               | SwapLoop k => if locked (get_lock lk s) then NoFuel else (let! c' := next lk c in run lk c') s
               | _ => (let! c' := next lk c in run lk c') s
               end.
Proof.
  destruct c; try done; cbn [run next]; unfold bind.
  - by destruct (push_off s).
  - by destruct (pop_off s).
  - unfold lock_test_and_set, bind, gets, modify, ret. by destruct (locked (get_lock lk s)).
Qed.

(** What is left when [holding] is done. *)
Lemma run_holding_code {A} lk (k : bool → code A) s :
  run lk (holding_code k) s
  = run lk (k (locked (get_lock lk s) && bool_decide (lcpu (get_lock lk s) = Some hart))) s.
Proof.
  unfold holding_code. cbn [run]. unfold read_locked, bind, gets.
  destruct (locked (get_lock lk s)); [|done]. done.
Qed.

Lemma acquire_free lk s :
  locked (get_lock lk s) = false →
  acquire lk s = Ok tt (set_lock lk (Lock true (Some hart))
                   (with_cpu (Cpu (noff (this s) + 1) (resume (this s)) false) s)).
Proof.
  intros Hf. unfold acquire, acquire_code. cbn [run]. rewrite (bind_ok _ _ _ _ _ (push_off_eq s)).
  set (s1 := with_cpu _ s). assert (E : get_lock lk s1 = get_lock lk s) by done.
  rewrite run_holding_code, E, Hf. cbn [andb run]. unfold lock_test_and_set, write_cpu, bind, gets, modify, ret.
  rewrite E, Hf, get_set_lock. cbn [locked lcpu].
  unfold set_lock. cbn [this locks]. by rewrite insert_insert_eq.
Qed.

Lemma acquire_held lk s :
  locked (get_lock lk s) = true → lcpu (get_lock lk s) = Some hart → acquire lk s = Panic "acquire".
Proof.
  intros Hl Hc. unfold acquire, acquire_code. cbn [run]. rewrite (bind_ok _ _ _ _ _ (push_off_eq s)).
  set (s1 := with_cpu _ s). assert (E : get_lock lk s1 = get_lock lk s) by done.
  by rewrite run_holding_code, E, Hl, Hc, bool_decide_eq_true_2.
Qed.

Lemma release_held lk s :
  get_lock lk s = Lock true (Some hart) → intr (this s) = false → 1 ≤ noff (this s) →
  release lk s = Ok tt (set_lock lk (Lock false None)
                   (with_cpu (Cpu (noff (this s) - 1) (intena (this s))
                       ((noff (this s) =? 1) && intena (this s))) s)).
Proof.
  intros Hl Hi Hn. unfold release, release_code. rewrite run_holding_code, Hl.
  rewrite bool_decide_eq_true_2 by done. cbn [locked lcpu andb negb run].
  unfold write_cpu, lock_release, bind, modify, ret. rewrite Hl, !get_set_lock.
  cbn [locked lcpu]. rewrite pop_off_eq by done. unfold set_lock, with_cpu. cbn [this locks].
  by rewrite insert_insert_eq.
Qed.

Lemma release_not_held lk s :
  locked (get_lock lk s) = false ∨ lcpu (get_lock lk s) ≠ Some hart → release lk s = Panic "release".
Proof.
  intros H. unfold release, release_code. rewrite run_holding_code.
  destruct (locked (get_lock lk s)); [|done]. destruct H as [?|H]; [done|].
  by rewrite bool_decide_eq_false_2.
Qed.

End Functions.

(** A critical section: [acquire], a body that keeps the lock and the interrupt
    state, [release]. *)
Lemma critical_section hart lk (body : L unit) s :
  cpu_ok (this s) → get_lock lk s = Lock false None →
  (∀ s1, get_lock lk s1 = Lock true (Some hart) → intr (this s1) = false →
     returns body s1 (λ _ s2, get_lock lk s2 = Lock true (Some hart) ∧ this s2 = this s1)) →
  returns (acquire hart lk ;;; body ;;; release hart lk) s (λ _ s',
    get_lock lk s' = Lock false None ∧ noff (this s') = noff (this s) ∧ intr (this s') = intr (this s)).
Proof.
  intros [Hn Hi] Hl Hbody.
  eapply returns_bind; [apply (returns_eq _ _ _ _ (acquire_free hart lk s ltac:(by rewrite Hl)))|].
  intros u s1 [-> ->]. eapply returns_bind; [apply Hbody; [apply get_set_lock|done]|].
  intros v s2 [Hl2 Ht2]. eexists _, _. split; [apply release_held; [done|by rewrite Ht2|]|].
  - rewrite Ht2. simpl. lia.
  - rewrite get_set_lock. rewrite Ht2. simpl. split_and!; [done|lia|].
    unfold resume. destruct (Z.eqb_spec (noff (this s)) 0) as [E|E].
    + by rewrite E.
    + rewrite (proj2 (Z.eqb_neq _ _)) by lia. simpl. symmetry. apply Hi. lia.
Qed.

(** *** Nesting of push_off and pop_off *)

Inductive nest_op := Push | Pop.

Definition run_op (o : nest_op) : L unit := match o with Push => push_off | Pop => pop_off end.

(** Well-bracketed sequences. *)
Inductive bracketed : list nest_op → Prop :=
| br_nil : bracketed []
| br_cons a b : bracketed a → bracketed b → bracketed (Push :: a ++ Pop :: b).

Lemma run_app (a b : list nest_op) s :
  for_each (a ++ b) run_op s = bind (for_each a run_op) (λ _, for_each b run_op) s.
Proof.
  revert s. induction a as [|o a IH]; intros s; [done|]. cbn [app for_each].
  unfold bind at 1 3. destruct (run_op o s) eqn:E; unfold bind at 1; rewrite ?E; try done.
Qed.

Lemma bracketed_ok ops : bracketed ops → ∀ s, cpu_ok (this s) → 
  returns (for_each ops run_op) s (λ _ s', locks s' = locks s ∧ cpu_ok (this s')
    ∧ noff (this s') = noff (this s) ∧ intr (this s') = intr (this s)
    ∧ (0 < noff (this s) → intena (this s') = intena (this s))).
Proof.
  induction 1 as [|a b Ha IHa Hb IHb]; intros s Hok; [by apply returns_ret|].
  cbn [for_each]. eapply returns_bind; [apply (returns_eq _ _ _ _ (push_off_eq s))|].
  intros u s1 [-> ->]. set (s1 := with_cpu _ s).
  destruct Hok as [Hn Hi]. unfold returns. rewrite run_app.
  fold (returns (for_each a run_op ;;; for_each (Pop :: b) run_op) s1 (λ (_ : unit) s', locks s' = locks s ∧ cpu_ok (this s')
    ∧ noff (this s') = noff (this s) ∧ intr (this s') = intr (this s)
    ∧ (0 < noff (this s) → intena (this s') = intena (this s)))).
  assert (Hok1 : cpu_ok (this s1)) by (split; simpl; [lia|done]).
  eapply returns_bind; [apply (IHa s1 Hok1)|].
  intros v s2 (Hl2 & Hok2 & Hn2 & Hi2 & He2). simpl in Hn2, Hi2, He2, Hl2.
  specialize (He2 ltac:(lia)). cbn [for_each run_op].
  eapply returns_bind; [apply (returns_eq _ _ _ _ (pop_off_eq s2 Hi2 ltac:(lia)))|].
  intros w s3 [-> ->]. set (s3 := with_cpu _ s2).
  assert (E3 : intr (this s3) = intr (this s)).
  { simpl. rewrite Hn2, He2. unfold resume. destruct (Z.eqb_spec (noff (this s)) 0) as [E|E].
    - by rewrite E.
    - rewrite (proj2 (Z.eqb_neq _ _)) by lia. simpl. symmetry. apply Hi. lia. }
  assert (N3 : noff (this s3) = noff (this s)) by (simpl; lia).
  assert (Hok3 : cpu_ok (this s3)) by (split; rewrite ?N3, ?E3; [lia|done]).
  eapply returns_mono; [apply (IHb s3 Hok3)|].
  intros x s4 (Hl4 & Hok4 & Hn4 & Hi4 & He4). split_and!; [by rewrite Hl4, <- Hl2|done|by rewrite Hn4|by rewrite Hi4|].
  intros Hpos. rewrite He4 by lia. simpl. rewrite He2. unfold resume.
  by rewrite (proj2 (Z.eqb_neq _ _)) by lia.
Qed.

(** ** Several harts on one lock

    Each hart calls [acquire], works and calls [release], over and over.  A step
    is one access ([next]) of the code above by one hart, in its own [struct cpu]
    and the shared locks, so the harts come between each other's accesses in
    every way.  Memory is sequentially consistent here. *)

Module Protocol.

Inductive phase :=
| Out                        (* not in acquire or release *)
| Acquiring (c : code unit)
| Inside                     (* acquire has returned *)
| Releasing (c : code unit)
| Crashed (msg : string).

Record config := Config {
  shared : gmap Z spinlock;
  cpus : Z → cpu;
  phases : Z → phase;
}.

Section Harts.
Context (lk : Z).

(** Hart [h]'s view, and the configuration after its step. *)
Definition view (c : config) (h : Z) : sync := Sync (cpus c h) (shared c).

Definition put (c : config) (h : Z) (s : sync) (p : phase) : config :=
  Config (locks s) (<[h := this s]> (cpus c)) (<[h := p]> (phases c)).

(** Where a call goes on, or has returned, or has panicked. *)
Definition after (going : code unit → phase) (returned : phase) (c : config) (h : Z) (k : code unit)
    (c' : config) : Prop :=
  match k with
  | Return _ => c' = put c h (view c h) returned
  | _ => match next lk k (view c h) with
         | Ok k' s => c' = put c h s (going k')
         | Panic msg => c' = put c h (view c h) (Crashed msg)
         | _ => False
         end
  end.

Inductive hart_step (h : Z) (c : config) : config → Prop :=
| step_outside u :   (* anything that keeps the nesting of push_off *)
    phases c h = Out → cpu_ok u → hart_step h c (put c h (Sync u (shared c)) Out)
| step_acquire :
    phases c h = Out → hart_step h c (put c h (view c h) (Acquiring (acquire_code h)))
| step_acquiring k c' :
    phases c h = Acquiring k → after Acquiring Inside c h k c' → hart_step h c c'
| step_inside u :    (* the critical section, with what it nests *)
    phases c h = Inside → intr u = false → 1 ≤ noff u → hart_step h c (put c h (Sync u (shared c)) Inside)
| step_release :
    phases c h = Inside → hart_step h c (put c h (view c h) (Releasing (release_code h)))
| step_releasing k c' :
    phases c h = Releasing k → after Releasing Out c h k c' → hart_step h c c'.

Definition step (c c' : config) : Prop := ∃ h, hart_step h c c'.

Definition init (c : config) : Prop :=
  get_lock lk (view c 0) = Lock false None ∧ ∀ h, phases c h = Out ∧ cpu_ok (cpus c h).

(** What a hart's place in the code says about the lock: it does not have it, has
    won it but is not its recorded holder, or is. *)
Inductive grip := Loose | Won | Recorded.

Definition tight (u : cpu) : Prop := intr u = false ∧ 1 ≤ noff u.

(** The two continuations of [holding] in the source. *)
Definition acquire_rest (h : Z) (b : bool) : code unit :=
  if b then Panics "acquire" else SwapLoop (WriteCpu (Some h) (Return tt)).

Definition release_rest (b : bool) : code unit :=
  if negb b then Panics "release" else WriteCpu None (ClearLocked (PopOff (Return tt))).

Inductive place (h : Z) : phase → grip → cpu → Prop :=
| at_out u : cpu_ok u → place h Out Loose u
| at_push u : cpu_ok u → place h (Acquiring (acquire_code h)) Loose u
| at_read_locked u : tight u → place h (Acquiring (holding_code h (acquire_rest h))) Loose u
| at_read_cpu u : tight u →
    place h (Acquiring (ReadCpu (λ c, acquire_rest h (bool_decide (c = Some h))))) Loose u
| at_swap u : tight u → place h (Acquiring (acquire_rest h false)) Loose u
| at_write_cpu u : tight u → place h (Acquiring (WriteCpu (Some h) (Return tt))) Won u
| at_return u : tight u → place h (Acquiring (Return tt)) Recorded u
| at_inside u : tight u → place h Inside Recorded u
| at_check u : tight u → place h (Releasing (holding_code h release_rest)) Recorded u
| at_check_cpu u : tight u →
    place h (Releasing (ReadCpu (λ c, release_rest (bool_decide (c = Some h))))) Recorded u
| at_clear_cpu u : tight u → place h (Releasing (release_rest true)) Recorded u
| at_clear u : tight u → place h (Releasing (ClearLocked (PopOff (Return tt)))) Won u
| at_pop u : tight u → place h (Releasing (PopOff (Return tt))) Loose u
| at_done u : cpu_ok u → place h (Releasing (Return tt)) Loose u.

(** Either the lock is free and no hart has it, or exactly one has. *)
Definition lock_of (c : config) : spinlock := get_lock lk (view c 0).

Definition grips (g : Z → grip) (l : spinlock) : Prop :=
  (l = Lock false None ∧ ∀ h, g h = Loose)
  ∨ ∃ o, g o ≠ Loose ∧ (∀ h, h ≠ o → g h = Loose)
         ∧ l = Lock true (match g o with Recorded => Some o | _ => None end).

Definition inv (c : config) : Prop :=
  ∃ g, (∀ h, place h (phases c h) (g h) (cpus c h)) ∧ grips g (lock_of c).

Lemma lock_of_view c h : get_lock lk (view c h) = lock_of c.
Proof. done. Qed.

Lemma lock_of_put c h s p : lock_of (put c h s p) = get_lock lk s.
Proof. done. Qed.

(** *** One step keeps the invariant *)

Lemma tight_ok u : tight u → cpu_ok u.
Proof. intros [? ?]. split; [lia|done]. Qed.

Lemma inv_put c g h s p gh :
  (∀ h', place h' (phases c h') (g h') (cpus c h')) →
  place h p gh (this s) → grips (<[h := gh]> g) (get_lock lk s) → inv (put c h s p).
Proof.
  intros Hp Hh Hg. exists (<[h := gh]> g). split; [|by rewrite lock_of_put].
  intros h'. unfold put. cbn [phases cpus]. destruct (decide (h' = h)) as [->|Hne].
  - by rewrite !fn_lookup_insert.
  - by rewrite !fn_lookup_insert_ne.
Qed.

Lemma grips_same g h l : grips g l → grips (<[h := g h]> g) l.
Proof.
  assert (E : ∀ h', <[h := g h]> g h' = g h').
  { intros h'. destruct (decide (h' = h)) as [->|]; [by rewrite fn_lookup_insert|by rewrite fn_lookup_insert_ne]. }
  intros [[Hl Hn]|(o & Ho & Hoth & Hl)]; [left|right; exists o]; setoid_rewrite E; done.
Qed.

(** A hart that has the lock is the only one. *)
Lemma grips_owner g h l : grips g l → g h ≠ Loose →
  (∀ h', h' ≠ h → g h' = Loose) ∧ l = Lock true (match g h with Recorded => Some h | _ => None end).
Proof.
  intros [[_ Hn]|(o & _ & Hoth & Hl)] Hh; [by rewrite Hn in Hh|].
  destruct (decide (h = o)) as [->|Hne]; [done|]. by rewrite Hoth in Hh.
Qed.

Lemma grips_move g h gh :
  (∀ h', h' ≠ h → g h' = Loose) → gh ≠ Loose →
  grips (<[h := gh]> g) (Lock true (match gh with Recorded => Some h | _ => None end)).
Proof.
  intros Hoth Hgh. right. exists h. rewrite fn_lookup_insert. split_and!; [done| |done].
  intros h' Hne. rewrite fn_lookup_insert_ne by done. by apply Hoth.
Qed.

Lemma grips_free g h : (∀ h', h' ≠ h → g h' = Loose) → grips (<[h := Loose]> g) (Lock false None).
Proof.
  intros Hoth. left. split; [done|]. intros h'. destruct (decide (h' = h)) as [->|].
  - by rewrite fn_lookup_insert.
  - rewrite fn_lookup_insert_ne by done. by apply Hoth.
Qed.

(** The recorded holder is a hart whose place says so. *)
Lemma grips_cpu g h l : grips g l → g h = Loose → lcpu l ≠ Some h.
Proof.
  intros [[-> _]|(o & Ho & _ & ->)] Hh; [done|]. cbn [lcpu].
  destruct (g o) eqn:E; try done. intros [= ->]. congruence.
Qed.

Lemma push_off_tight u l : cpu_ok u → ∃ u', push_off (Sync u l) = Ok tt (Sync u' l) ∧ tight u'.
Proof.
  intros [Hn _]. rewrite push_off_eq. eexists. split; [done|]. split; [done|]. simpl. lia.
Qed.

Lemma pop_off_tight u l : tight u → ∃ u', pop_off (Sync u l) = Ok tt (Sync u' l) ∧ cpu_ok u'.
Proof.
  intros [Hi Hn]. rewrite pop_off_eq by done. eexists. split; [done|]. split; simpl; [lia|].
  destruct (Z.eqb_spec (noff u) 1) as [E|E]; [|done]. intros ?. lia.
Qed.

(** Each access of [acquire], then each of [release], leads to the next place in
    the code with the lock as that place requires. *)
Lemma acquiring_inv c g h k c' :
  (∀ h', place h' (phases c h') (g h') (cpus c h')) → grips g (lock_of c) →
  phases c h = Acquiring k → after Acquiring Inside c h k c' → inv c'.
Proof.
  intros Hp Hg Ek Ha. pose proof (Hp h) as Hh. rewrite Ek in Hh.
  assert (Hs : g h = g h → grips (<[h := g h]> g) (lock_of c)) by (intros _; by apply grips_same).
  inversion Hh as [|u Hu E Eg|u Hu E Eg|u Hu E Eg|u Hu E Eg|u Hu E Eg|u Hu E Eg| | | | | | |]; subst; cbn in Ha.
  - destruct (push_off_tight (cpus c h) (shared c) Hu) as (u' & E & Hu'). unfold bind, view in Ha.
    rewrite E in Ha. cbn in Ha. subst c'. eapply inv_put; [done|by apply at_read_locked|]. rewrite Eg. by apply Hs.
  - rewrite lock_of_view in Ha. destruct (locked (lock_of c)); subst c'.
    + eapply inv_put; [done|by apply at_read_cpu|]. rewrite Eg. by apply Hs.
    + eapply inv_put; [done|by apply at_swap|]. rewrite Eg. by apply Hs.
  - rewrite lock_of_view, bool_decide_eq_false_2 in Ha by (by eapply grips_cpu). subst c'.
    eapply inv_put; [done|by apply at_swap|]. rewrite Eg. by apply Hs.
  - unfold lock_test_and_set, bind, gets, modify, ret in Ha. rewrite lock_of_view in Ha.
    destruct Hg as [[Hl Hn]|(o & Ho & Hoth & Hl)]; rewrite Hl in Ha; cbn in Ha; subst c'.
    + eapply inv_put; [done|by apply at_write_cpu|]. rewrite get_set_lock.
      by apply (grips_move g h Won).
    + eapply inv_put; [done|by apply at_swap|]. rewrite get_set_lock, Eg, <- Hl. by apply Hs.
  - destruct (grips_owner g h _ Hg ltac:(by rewrite <- Eg)) as [Hoth Hl]. rewrite lock_of_view in Ha.
    rewrite Hl in Ha. subst c'. eapply inv_put; [done|by apply at_return|]. rewrite get_set_lock.
    by apply (grips_move g h Recorded).
  - subst c'. eapply inv_put; [done|by apply at_inside|]. rewrite Eg. by apply Hs.
Qed.

Lemma releasing_inv c g h k c' :
  (∀ h', place h' (phases c h') (g h') (cpus c h')) → grips g (lock_of c) →
  phases c h = Releasing k → after Releasing Out c h k c' → inv c'.
Proof.
  intros Hp Hg Ek Ha. pose proof (Hp h) as Hh. rewrite Ek in Hh.
  assert (Hs : grips (<[h := g h]> g) (lock_of c)) by by apply grips_same.
  inversion Hh as [| | | | | | | |u Hu E Eg|u Hu E Eg|u Hu E Eg|u Hu E Eg|u Hu E Eg|u Hu E Eg]; subst; cbn in Ha.
  1-4: destruct (grips_owner g h _ Hg ltac:(by rewrite <- Eg)) as [Hoth Hl]; rewrite <- Eg in Hl;
       rewrite ?lock_of_view, ?Hl in Ha; cbn in Ha.
  - subst c'. eapply inv_put; [done|by apply at_check_cpu|]. by rewrite Eg.
  - rewrite bool_decide_eq_true_2 in Ha by done. subst c'.
    eapply inv_put; [done|by apply at_clear_cpu|]. by rewrite Eg.
  - subst c'. eapply inv_put; [done|by apply at_clear|]. rewrite get_set_lock. by apply (grips_move g h Won).
  - subst c'. eapply inv_put; [done|by apply at_pop|]. rewrite get_set_lock. by apply grips_free.
  - destruct (pop_off_tight (cpus c h) (shared c) Hu) as (u' & E & Hu'). unfold bind, view in Ha.
    rewrite E in Ha. cbn in Ha. subst c'. eapply inv_put; [done|by apply at_done|]. by rewrite Eg.
  - subst c'. eapply inv_put; [done|by apply at_out|]. by rewrite Eg.
Qed.

Lemma step_inv c c' : step c c' → inv c → inv c'.
Proof.
  intros [h Hs] (g & Hp & Hg).
  assert (Hsame : ∀ h, grips (<[h := g h]> g) (lock_of c)) by (intros h'; by apply grips_same).
  destruct Hs as [u E Hu|E|k c' E Ha|u E Hi Hn|E|k c' E Ha].
  3: by eapply acquiring_inv. 5: by eapply releasing_inv.
  all: pose proof (Hp h) as Hh; rewrite E in Hh; inversion Hh as [u' Hu' E' Eg| | | | | | |u' Hu' E' Eg| | | | | |]; subst;
    (eapply (inv_put c g h _ _ (g h)); [done| |apply Hsame]); rewrite <- Eg.
  - by apply at_out.
  - by apply at_push.
  - by apply at_inside.
  - by apply at_check.
Qed.

Lemma reach_inv c0 c : init c0 → rtc step c0 c → inv c.
Proof.
  intros [Hl Hout] Hr.
  assert (H0 : inv c0).
  { exists (λ _, Loose). split; [|by left]. intros h. destruct (Hout h) as [-> Hu]. by apply at_out. }
  clear Hl Hout. induction Hr; eauto using step_inv.
Qed.

(** *** Progress *)

Definition grip_of (p : phase) : grip :=
  match p with
  | Acquiring (WriteCpu _ _) | Releasing (ClearLocked _) => Won
  | Acquiring (Return _) | Inside | Releasing (ReadLocked _ | ReadCpu _ | WriteCpu _ _) => Recorded
  | _ => Loose
  end.

Lemma place_grip h p g u : place h p g u → grip_of p = g.
Proof. by destruct 1. Qed.

Definition same_others (h : Z) (c c' : config) : Prop := ∀ h', h' ≠ h → phases c' h' = phases c h'.

Lemma put_phase c h s p : phases (put c h s p) h = p.
Proof. unfold put. cbn [phases]. by rewrite fn_lookup_insert. Qed.

Lemma put_others c h s p : same_others h c (put c h s p).
Proof. intros h' Hne. unfold put. cbn [phases]. by rewrite fn_lookup_insert_ne. Qed.

(** Taking one step of [h] and then going on. *)
Lemma drive_step h c s p (P : config → Prop) :
  inv c → hart_step h c (put c h s p) →
  (inv (put c h s p) →
     ∃ c', rtc (hart_step h) (put c h s p) c' ∧ P c' ∧ same_others h (put c h s p) c') →
  ∃ c', rtc (hart_step h) c c' ∧ P c' ∧ same_others h c c'.
Proof.
  intros Hi Hs Hk. destruct Hk as (c' & Hr & HP & Ho); [eapply step_inv; [by exists h|done]|].
  exists c'. split_and!; [by eapply rtc_l|done|]. intros h' Hne. rewrite Ho by done. by apply put_others.
Qed.

Tactic Notation "advance" uconstr(rule) hyp(IH) :=
  eapply drive_step; [done|apply rule; simpl; reflexivity|];
  intros ?; eapply IH; [done|apply put_phase|..].

(** With no other hart on the lock, [acquire] returns. *)
Lemma drive_acquire h k : ∀ c,
  inv c → phases c h = Acquiring k → (∀ h', h' ≠ h → grip_of (phases c h') = Loose) →
  ∃ c', rtc (hart_step h) c c' ∧ phases c' h = Inside ∧ same_others h c c'.
Proof.
  induction k as [[]| |k IH|k IH|k IH|k IH|k IH|v k IH|k IH]; intros c Hi E Hoth.
  all: pose proof Hi as (g & Hp & Hg); pose proof (Hp h) as Hh; rewrite E in Hh.
  all: try (by inversion Hh).
  - eapply drive_step; [done|apply (step_acquiring h c _ _ E); simpl; reflexivity|].
    intros _. exists (put c h (view c h) Inside). split_and!; [apply rtc_refl|apply put_phase|done].
  - assert (Hu : cpu_ok (cpus c h)) by by inversion Hh.
    destruct (push_off_tight (cpus c h) (shared c) Hu) as (u & Eu & _).
    eapply drive_step; [done|apply (step_acquiring h c _ _ E); simpl; unfold bind, view; rewrite Eu; reflexivity|].
    intros Hi'. apply IH; [done|apply put_phase|]. intros h' Hne. rewrite put_others by done. by apply Hoth.
  - advance (step_acquiring h c _ _ E) IH. intros h' Hne. rewrite put_others by done. by apply Hoth.
  - advance (step_acquiring h c _ _ E) IH. intros h' Hne. rewrite put_others by done. by apply Hoth.
  - assert (Hl : locked (lock_of c) = false).
    { destruct Hg as [[-> _]|(o & Ho & _)]; [done|]. rewrite <- (place_grip _ _ _ _ (Hp o)) in Ho.
      destruct (decide (o = h)) as [->|Hne]; [by rewrite E in Ho|]. by rewrite Hoth in Ho. }
    eapply drive_step; [done|apply (step_acquiring h c _ _ E); simpl|].
    { unfold lock_test_and_set, bind, gets, modify, ret. rewrite lock_of_view, Hl. reflexivity. }
    intros Hi'. apply IH; [done|apply put_phase|]. intros h' Hne. rewrite put_others by done. by apply Hoth.
  - advance (step_acquiring h c _ _ E) IH. intros h' Hne. rewrite put_others by done. by apply Hoth.
Qed.

(** [release] returns, whatever the others wait for. *)
Lemma drive_release h k : ∀ c,
  inv c → phases c h = Releasing k →
  ∃ c', rtc (hart_step h) c c' ∧ phases c' h = Out ∧ same_others h c c'.
Proof.
  induction k as [[]| |k IH|k IH|k IH|k IH|k IH|v k IH|k IH]; intros c Hi E.
  all: pose proof Hi as (g & Hp & Hg); pose proof (Hp h) as Hh; rewrite E in Hh.
  all: try (by inversion Hh).
  - eapply drive_step; [done|apply (step_releasing h c _ _ E); simpl; reflexivity|].
    intros _. exists (put c h (view c h) Out). split_and!; [apply rtc_refl|apply put_phase|done].
  - assert (Hu : tight (cpus c h)) by by inversion Hh.
    destruct (pop_off_tight (cpus c h) (shared c) Hu) as (u & Eu & _).
    eapply drive_step; [done|apply (step_releasing h c _ _ E); simpl; unfold bind, view; rewrite Eu; reflexivity|].
    intros Hi'. apply IH; [done|apply put_phase].
  - advance (step_releasing h c _ _ E) IH.
  - advance (step_releasing h c _ _ E) IH.
  - advance (step_releasing h c _ _ E) IH.
  - advance (step_releasing h c _ _ E) IH.
Qed.

Lemma hart_steps h c c' : rtc (hart_step h) c c' → rtc step c c'.
Proof. intros Hr. induction Hr; [done|]. eapply rtc_l; [by exists h|done]. Qed.

(** The hart that has the lock can go on to give it back. *)
Lemma drive_owner o c :
  inv c → grip_of (phases c o) ≠ Loose → (∀ h, h ≠ o → grip_of (phases c h) = Loose) →
  ∃ c', rtc (hart_step o) c c' ∧ phases c' o = Out ∧ same_others o c c'.
Proof.
  intros Hi Ho Hoth.
  assert (Hin : ∀ c1, inv c1 → phases c1 o = Inside →
            ∃ c', rtc (hart_step o) c1 c' ∧ phases c' o = Out ∧ same_others o c1 c').
  { intros c1 Hi1 E1. eapply drive_step; [done|by apply (step_release o c1)|].
    intros Hi'. by eapply drive_release; [|apply put_phase]. }
  destruct (phases c o) as [|k| |k|] eqn:E; try done; [|by apply Hin|by eapply drive_release].
  destruct (drive_acquire o k c Hi E Hoth) as (c1 & Hr1 & E1 & Ho1).
  assert (Hi1 : inv c1) by (clear -Hr1 Hi; induction Hr1; [done|]; apply IHHr1; eapply step_inv; [by exists o|done]).
  destruct (Hin c1 Hi1 E1) as (c' & Hr & E' & Ho').
  exists c'. split_and!; [by etrans|done|]. intros h Hne. rewrite Ho', Ho1; done.
Qed.

End Harts.

(** C32 [safety]. Mutual exclusion under every interleaving of the accesses of
    [acquire] and [release] ([acquire_code], [release_code]; memory is sequentially
    consistent), by any number of harts that each call them in turn:
    no hart ever panics in them, at most one hart is past [acquire] and not yet
    in [release], and that hart has its interrupts off and is the recorded
    holder.  [holding] is exact for its caller whatever the others do. *)
Theorem spinlock_mutual_exclusion lk c0 c h1 h2 :
  init lk c0 → rtc (step lk) c0 c →
  (∀ msg, phases c h1 ≠ Crashed msg)
  ∧ (phases c h1 = Inside → phases c h2 = Inside → h1 = h2)
  ∧ (phases c h1 = Inside →
       get_lock lk (view c h1) = Lock true (Some h1) ∧ intr (cpus c h1) = false
       ∧ holding h1 lk (view c h1) = Ok true (view c h1))
  ∧ (phases c h1 = Out → holding h1 lk (view c h1) = Ok false (view c h1)).
Proof.
  intros H0 Hr. destruct (reach_inv lk c0 c H0 Hr) as (g & Hp & Hg).
  assert (Hown : ∀ h, phases c h = Inside → g h = Recorded).
  { intros h E. by rewrite <- (place_grip _ _ _ _ (Hp h)), E. }
  split_and!.
  - intros msg E. pose proof (Hp h1) as Hh. rewrite E in Hh. by inversion Hh.
  - intros E1 E2. destruct (grips_owner g h1 _ Hg ltac:(by rewrite Hown)) as [Hoth _].
    destruct (decide (h2 = h1)) as [->|Hne]; [done|]. specialize (Hoth h2 Hne). by rewrite Hown in Hoth.
  - intros E1. destruct (grips_owner g h1 _ Hg ltac:(by rewrite Hown)) as [_ Hl].
    rewrite Hown in Hl by done. pose proof (Hp h1) as Hh. rewrite E1 in Hh.
    split_and!; [done|by inversion Hh as [| | | | | | |u [Hu _]| | | | | |]|].
    rewrite holding_eq, lock_of_view, Hl. cbn [locked lcpu]. by rewrite bool_decide_eq_true_2.
  - intros E1. rewrite holding_eq, lock_of_view, bool_decide_eq_false_2; [by rewrite andb_false_r|].
    apply (grips_cpu g h1 _ Hg). by rewrite <- (place_grip _ _ _ _ (Hp h1)), E1.
Qed.

(** C33 [liveness]. No deadlock: from every configuration the harts can reach, a
    hart that is anywhere in [acquire] can still be scheduled to the end of it,
    with the lock in hand; a hart in [release] gets out of it by its own steps
    alone.  (Which hart wins the swap is up to the hardware: nothing here
    promises fairness.) *)
Theorem spinlock_progress lk c0 c h k :
  init lk c0 → rtc (step lk) c0 c →
  (phases c h = Acquiring k → ∃ c', rtc (step lk) c c' ∧ phases c' h = Inside)
  ∧ (phases c h = Releasing k → ∃ c', rtc (hart_step lk h) c c' ∧ phases c' h = Out).
Proof.
  intros H0 Hr. pose proof (reach_inv lk c0 c H0 Hr) as Hi. split; intros E.
  2:{ destruct (drive_release lk h k c Hi E) as (c' & ? & ? & _). by exists c'. }
  assert (Hfree : ∀ c1, inv lk c1 → phases c1 h = Acquiring k →
            (∀ h', h' ≠ h → grip_of (phases c1 h') = Loose) → ∃ c', rtc (step lk) c1 c' ∧ phases c' h = Inside).
  { intros c1 Hi1 E1 Hoth. destruct (drive_acquire lk h k c1 Hi1 E1 Hoth) as (c' & Hr' & E' & _).
    exists c'. split; [by eapply hart_steps|done]. }
  pose proof Hi as (g & Hp & Hg).
  assert (Hgr : ∀ h', grip_of (phases c h') = g h') by (intros h'; by apply (place_grip _ _ _ _ (Hp h'))).
  destruct Hg as [[_ Hn]|(o & Ho & Hoth & _)]; [apply Hfree; [done|done|intros; by rewrite Hgr]|].
  destruct (decide (o = h)) as [->|Hne]; [apply Hfree; [done|done|intros; rewrite Hgr; by apply Hoth]|].
  destruct (drive_owner lk o c Hi) as (c1 & Hr1 & E1 & Ho1).
  { by rewrite Hgr. } { intros h' Hne'. rewrite Hgr. by apply Hoth. }
  assert (Hr1' : rtc (step lk) c0 c1) by (etrans; [done|by eapply hart_steps]).
  destruct (Hfree c1 (reach_inv lk c0 c1 H0 Hr1')) as (c' & Hr' & E').
  - by rewrite Ho1.
  - intros h' Hh'. destruct (decide (h' = o)) as [->|Hno]; [by rewrite E1|].
    rewrite Ho1 by done. rewrite Hgr. by apply Hoth.
  - exists c'. split; [etrans; [by eapply hart_steps|done]|done].
Qed.

(** Harts that have not called [acquire] yet, and hart 1 after its [acquire]. *)
Definition boot : config := Config ∅ (λ _, Cpu 0 false true) (λ _, Out).

Lemma boot_init : init 100 boot.
Proof. split; [reflexivity|]. intros h. split; [reflexivity|]. split; simpl; [lia|done]. Qed.

Lemma hart1_enters : ∃ c, rtc (step 100) boot c ∧ phases c 1 = Inside ∧ phases c 2 = Out.
Proof.
  set (c1 := put boot 1 (view boot 1) (Acquiring (acquire_code 1))).
  assert (Hs : step 100 boot c1) by (exists 1; by apply step_acquire).
  destruct (drive_acquire 100 1 (acquire_code 1) c1) as (c' & Hr & E & Ho).
  - apply (reach_inv 100 boot); [apply boot_init|by apply rtc_once].
  - apply put_phase.
  - intros h Hne. unfold c1. by rewrite put_others.
  - exists c'. split_and!; [eapply rtc_l; [done|by eapply hart_steps]|done|]. rewrite Ho; done.
Qed.

Lemma spinlock_mutual_exclusion_witness : ∃ c, rtc (step 100) boot c ∧ phases c 1 = Inside
  ∧ get_lock 100 (view c 1) = Lock true (Some 1) ∧ phases c 2 ≠ Inside.
Proof.
  destruct hart1_enters as (c & Hr & E & _). exists c.
  destruct (spinlock_mutual_exclusion 100 boot c 1 2 boot_init Hr) as (_ & Hone & Hin & _).
  split; [exact Hr|]. split; [exact E|]. split; [apply (Hin E)|]. intros E2. discriminate (Hone E E2).
Defined.

(** Hart 1 is inside, hart 2 waits: hart 2 can still get in. *)
Lemma spinlock_progress_witness : ∃ c c', phases c 1 = Inside ∧ phases c 2 = Acquiring (acquire_code 2)
  ∧ rtc (step 100) c c' ∧ phases c' 2 = Inside.
Proof.
  destruct hart1_enters as (c & Hr & E1 & E2).
  set (c2 := put c 2 (view c 2) (Acquiring (acquire_code 2))).
  assert (Hr2 : rtc (step 100) boot c2).
  { eapply rtc_r; [exact Hr|]. exists 2. by apply step_acquire. }
  assert (P2 : phases c2 2 = Acquiring (acquire_code 2)) by apply put_phase.
  assert (P1 : phases c2 1 = Inside) by (unfold c2; rewrite put_others; done).
  destruct (spinlock_progress 100 boot c2 2 (acquire_code 2) boot_init Hr2) as [H _].
  destruct (H P2) as (c' & Hr' & E'). exists c2, c'. auto.
Defined.

End Protocol.

(** C34 [invariant]. Any well-bracketed sequence of push_off and pop_off, from
    any nesting depth, runs without a panic and leaves the nesting depth and
    the interrupt-enable bit as they were. *)
Theorem push_pop_restores_interrupts ops s :
  bracketed ops → cpu_ok (this s) →
  returns (for_each ops run_op) s (λ _ s',
    locks s' = locks s ∧ noff (this s') = noff (this s) ∧ intr (this s') = intr (this s)).
Proof.
  intros Hb Hok. eapply returns_mono; [by apply bracketed_ok|].
  intros u s' (? & _ & ? & ? & _). done.
Qed.

Lemma push_pop_restores_interrupts_witness :
  returns (for_each [Push; Push; Pop; Pop] run_op) (Sync (Cpu 0 false true) ∅) (λ _ s',
    intr (this s') = true).
Proof.
  eapply returns_mono; [apply (push_pop_restores_interrupts [Push; Push; Pop; Pop] (Sync (Cpu 0 false true) ∅))|].
  - apply (br_cons [Push; Pop] []); [|constructor]. apply (br_cons [] []); constructor.
  - split; simpl; lia.
  - intros u s' (_ & _ & E). exact E.
Defined.

(** A critical section that keeps the lock and the interrupt
    state releases the lock and restores the interrupts, from any nesting
    depth; a second [acquire] by the holder and a [release] by anyone else
    panic. *)
Theorem critical_section_restores hart lk (body : L unit) s :
  cpu_ok (this s) → get_lock lk s = Lock false None →
  (∀ s1, get_lock lk s1 = Lock true (Some hart) → intr (this s1) = false →
     returns body s1 (λ _ s2, get_lock lk s2 = Lock true (Some hart) ∧ this s2 = this s1)) →
  returns (acquire hart lk ;;; body ;;; release hart lk) s (λ _ s',
    get_lock lk s' = Lock false None ∧ noff (this s') = noff (this s) ∧ intr (this s') = intr (this s))
  ∧ (acquire hart lk ;;; acquire hart lk) s = Panic "acquire"
  ∧ (∀ other, other ≠ hart → (acquire hart lk ;;; release other lk) s = Panic "release").
Proof.
  intros Hok Hl Hbody. split; [by apply critical_section|].
  assert (Ea := acquire_free hart lk s ltac:(by rewrite Hl)). split.
  - rewrite (bind_ok _ _ _ _ _ Ea). apply acquire_held; by rewrite get_set_lock.
  - intros other Hne. rewrite (bind_ok _ _ _ _ _ Ea). apply release_not_held. right.
    rewrite get_set_lock. simpl. congruence.
Qed.

Lemma critical_section_restores_witness :
  returns (acquire 0 100 ;;; ret tt ;;; release 0 100) (Sync (Cpu 0 false true) ∅)
    (λ _ s', intr (this s') = true).
Proof.
  destruct (critical_section_restores 0 100 (ret tt) (Sync (Cpu 0 false true) ∅)) as [H _].
  - split; simpl; lia.
  - reflexivity.
  - intros s1 Hl Hi. apply returns_ret. auto.
  - eapply returns_mono; [exact H|]. intros u s' (_ & _ & E). exact E.
Defined.
