(* ===== verification/Bio.v ===== *)
(** kernel/fs/bio.c and kernel/sync/sleeplock.c: the buffer cache.

    The LRU list is the doubly linked ring of the source, threaded through the
    buffers; [ring s l] says that it represents the list [l] of buffers from
    most to least recently used.  Sections under [bcache.lock] or a sleep
    lock's inner spin lock are atomic steps. *)

From S2P Require Import Prelude.

(** ** Definitions *)

Record sleeplock := SleepLock {
  slocked : bool;
  spid : Z;
}.

Record buf := Buf {
  valid : bool;
  dev : Z;
  blockno : Z;
  lock : sleeplock;
  refcnt : Z;
  prev : nat;
  next : nat;
  data : list Z;
}.

Definition NBUF : nat := 30.

(** The node [&bcache.head]; the buffers are 0 to [NBUF - 1]. *)
Definition head : nat := NBUF.

Definition buf0 : buf := Buf false 0 0 (SleepLock false 0) 0 0 0 [].

(** The disk driver: [virtio_disk_rw] on block [b] with buffer contents [data]
    returns the buffer's contents afterwards. *)
Class BlockDevice (D : Type) := {
  virtio_disk_rw : Z → list Z → bool → M D (list Z);
}.

Record bcache (D : Type) := Bcache {
  bufs : list buf;
  disk : D;
}.

Arguments Bcache {D} bufs disk.
Arguments bufs {D} b.
Arguments disk {D} b.

Section Operations.
Context {D : Type} `{BlockDevice D}.
Context (pid : Z).   (* myproc()->pid *)

Abbreviation B := (M (bcache D)).

Definition getb (s : bcache D) (i : nat) : buf := default buf0 (bufs s !! i).

Definition setb (i : nat) (f : buf → buf) (s : bcache D) : bcache D :=
  Bcache (<[i := f (getb s i)]> (bufs s)) (disk s).

Definition with_next (n : nat) (b : buf) : buf :=
  Buf (valid b) (dev b) (blockno b) (lock b) (refcnt b) (prev b) n (data b).

Definition with_prev (p : nat) (b : buf) : buf :=
  Buf (valid b) (dev b) (blockno b) (lock b) (refcnt b) p (next b) (data b).

Definition with_lock (l : sleeplock) (b : buf) : buf :=
  Buf (valid b) (dev b) (blockno b) l (refcnt b) (prev b) (next b) (data b).

Definition with_refcnt (r : Z) (b : buf) : buf :=
  Buf (valid b) (dev b) (blockno b) (lock b) r (prev b) (next b) (data b).

Definition with_valid (v : bool) (b : buf) : buf :=
  Buf v (dev b) (blockno b) (lock b) (refcnt b) (prev b) (next b) (data b).

Definition with_data (d : list Z) (b : buf) : buf :=
  Buf (valid b) (dev b) (blockno b) (lock b) (refcnt b) (prev b) (next b) d.

Definition for_block (dv bn : Z) (b : buf) : buf :=
  Buf false dv bn (lock b) 1 (prev b) (next b) (data b).

Definition nx (s : bcache D) (i : nat) : nat := next (getb s i).

Definition pv (s : bcache D) (i : nat) : nat := prev (getb s i).

(** sleeplock.c, on the lock of buffer [i] (its channel is [i]). *)
Definition initsleeplock (i : nat) : B unit := modify (setb i (with_lock (SleepLock false 0))).

Definition acquiresleep (i : nat) : B unit := λ s,
  if slocked (lock (getb s i)) then Sleeps (Z.of_nat i) s
  else Ok tt (setb i (with_lock (SleepLock true pid)) s).

Definition releasesleep (i : nat) : B unit := modify (setb i (with_lock (SleepLock false 0))).

Definition holdingsleep (i : nat) : B bool :=
  gets (λ s, slocked (lock (getb s i)) && (spid (lock (getb s i)) =? pid)).

(** The four assignments that put [b] at the front of the ring. *)
Definition push_front (b : nat) : B unit :=
  modify (λ s, setb b (with_next (nx s head)) s) ;;;
  modify (setb b (with_prev head)) ;;;
  modify (λ s, setb (nx s head) (with_prev b) s) ;;;
  modify (setb head (with_next b)).

(** The two that take [b] out. *)
Definition unlink (b : nat) : B unit :=
  modify (λ s, setb (nx s b) (with_prev (pv s b)) s) ;;;
  modify (λ s, setb (pv s b) (with_next (nx s b)) s).

Definition binit : B unit :=
  modify (setb head (with_prev head)) ;;;
  modify (setb head (with_next head)) ;;;
  for_each (seq 0 NBUF) (λ b,
    modify (λ s, setb b (with_next (nx s head)) s) ;;;
    modify (setb b (with_prev head)) ;;;
    initsleeplock b ;;;
    modify (λ s, setb (nx s head) (with_prev b) s) ;;;
    modify (setb head (with_next b))).

(** The two searches of [bget]: forwards for the block, backwards for an unused
    buffer.  [None]: the fuel ran out. *)
Fixpoint find_block (fuel : nat) (s : bcache D) (b : nat) (dv bn : Z) : option (option nat) :=
  match fuel with
  | O => None
  | S f =>
      if (b =? head)%nat then Some None
      else if (dev (getb s b) =? dv) && (blockno (getb s b) =? bn) then Some (Some b)
      else find_block f s (nx s b) dv bn
  end.

Fixpoint find_unused (fuel : nat) (s : bcache D) (b : nat) : option (option nat) :=
  match fuel with
  | O => None
  | S f =>
      if (b =? head)%nat then Some None
      else if refcnt (getb s b) =? 0 then Some (Some b)
      else find_unused f s (pv s b)
  end.

Definition bget (dv bn : Z) : B nat :=
  let! s := gets id in
  match find_block (S NBUF) s (nx s head) dv bn with
  | None => nofuel
  | Some (Some b) =>
      modify (setb b (λ x, with_refcnt (refcnt x + 1) x)) ;;;
      acquiresleep b ;;;
      ret b
  | Some None =>
      match find_unused (S NBUF) s (pv s head) with
      | None => nofuel
      | Some (Some b) =>
          modify (setb b (for_block dv bn)) ;;;
          acquiresleep b ;;;
          ret b
      | Some None => panic "bget: no buffers"
      end
  end.

(** [virtio_disk_rw(b, write)] on buffer [b]. *)
Definition disk_rw (b : nat) (write : bool) : B unit :=
  let! s := gets id in
  let! d := zoom disk (λ t s, Bcache (bufs s) t)
              (virtio_disk_rw (blockno (getb s b)) (data (getb s b)) write) in
  modify (setb b (with_data d)).

Definition bread (dv bn : Z) : B nat :=
  let! b := bget dv bn in
  let! v := gets (λ s, valid (getb s b)) in
  (if negb v then disk_rw b false ;;; modify (setb b (with_valid true)) else ret tt) ;;;
  ret b.

Definition bwrite (b : nat) : B unit :=
  let! h := holdingsleep b in
  if negb h then panic "bwrite" else disk_rw b true.

Definition brelse (b : nat) : B unit :=
  let! h := holdingsleep b in
  if negb h then panic "brelse"
  else
    releasesleep b ;;;
    modify (setb b (λ x, with_refcnt (refcnt x - 1) x)) ;;;
    let! r := gets (λ s, refcnt (getb s b)) in
    if r =? 0 then unlink b ;;; push_front b else ret tt.

Definition bpin (b : nat) : B unit := modify (setb b (λ x, with_refcnt (refcnt x + 1) x)).

Definition bunpin (b : nat) : B unit := modify (setb b (λ x, with_refcnt (refcnt x - 1) x)).

End Operations.

(** ** The ring represents a list *)

Section Ring.
Context {D : Type}.
Implicit Types s : bcache D.

(** Consecutive nodes are linked both ways. *)
Fixpoint linked s (l : list nat) : Prop :=
  match l with
  | x :: ((y :: _) as t) => nx s x = y ∧ pv s y = x ∧ linked s t
  | _ => True
  end.

Record ring s (l : list nat) : Prop := {
  ring_linked : linked s (head :: l ++ [head]);
  ring_nodup : NoDup (head :: l);
  ring_bound : Forall (λ b, (b < NBUF)%nat) l;
  ring_size : length (bufs s) = S NBUF;
}.

Lemma getb_setb s i f j :
  (i < length (bufs s))%nat → getb (setb i f s) j = if decide (j = i) then f (getb s i) else getb s j.
Proof.
  intros Hi. unfold getb at 1, setb. simpl. destruct (decide (j = i)) as [->|Hne].
  - by rewrite list_lookup_insert_eq.
  - rewrite list_lookup_insert_ne by done. done.
Qed.

Lemma setb_size s i f : length (bufs (setb i f s)) = length (bufs s).
Proof. unfold setb. simpl. by rewrite length_insert. Qed.

(** Changing pointers outside a chain leaves the chain linked. *)
Lemma linked_frame s s' x l y :
  (∀ i, i ∈ x :: l → nx s' i = nx s i) → (∀ i, i ∈ l ++ [y] → pv s' i = pv s i) →
  linked s (x :: l ++ [y]) → linked s' (x :: l ++ [y]).
Proof.
  revert x. induction l as [|z l IH]; intros x Hn Hp; simpl.
  - intros (H1 & H2 & _). rewrite (Hn x), (Hp y) by (simpl; left). done.
  - intros (H1 & H2 & H3). rewrite (Hn x), (Hp z) by (simpl; left). split_and!; [done|done|].
    apply IH; [| |done].
    + intros i Hi. apply Hn. by right.
    + intros i Hi. apply Hp. by right.
Qed.

Lemma linked_app s l1 x l2 : linked s (l1 ++ x :: l2) ↔ linked s (l1 ++ [x]) ∧ linked s (x :: l2).
Proof.
  induction l1 as [|y l1 IH]; [simpl; naive_solver|].
  destruct l1 as [|z l1]; [simpl; naive_solver|].
  change ((y :: z :: l1) ++ x :: l2) with (y :: z :: (l1 ++ x :: l2)).
  change ((y :: z :: l1) ++ [x]) with (y :: z :: (l1 ++ [x])).
  simpl in IH |- *. naive_solver.
Qed.

(** The first node of [l ++ [y]] and what follows it. *)
Definition first (l : list nat) (y : nat) : nat := match l with [] => y | x :: _ => x end.

Definition chain_state s s' : Prop :=
  length (bufs s') = length (bufs s)
  ∧ ∀ i, valid (getb s' i) = valid (getb s i) ∧ dev (getb s' i) = dev (getb s i)
         ∧ blockno (getb s' i) = blockno (getb s i) ∧ lock (getb s' i) = lock (getb s i)
         ∧ refcnt (getb s' i) = refcnt (getb s i) ∧ data (getb s' i) = data (getb s i).

Lemma chain_state_refl s : chain_state s s.
Proof. split; [done|]. intros i. by split_and!. Qed.

Lemma chain_state_trans s1 s2 s3 : chain_state s1 s2 → chain_state s2 s3 → chain_state s1 s3.
Proof.
  intros [L1 H1] [L2 H2]. split; [congruence|]. intros i.
  destruct (H1 i) as (? & ? & ? & ? & ? & ?), (H2 i) as (? & ? & ? & ? & ? & ?). split_and!; congruence.
Qed.

Lemma chain_state_next s i n : (i < length (bufs s))%nat → chain_state s (setb i (with_next n) s).
Proof.
  intros Hi. split; [apply setb_size|]. intros j. rewrite getb_setb by done.
  by destruct (decide (j = i)) as [->|].
Qed.

Lemma chain_state_prev s i n : (i < length (bufs s))%nat → chain_state s (setb i (with_prev n) s).
Proof.
  intros Hi. split; [apply setb_size|]. intros j. rewrite getb_setb by done.
  by destruct (decide (j = i)) as [->|].
Qed.

Lemma nx_set_next s i n j : (i < length (bufs s))%nat →
  nx (setb i (with_next n) s) j = if decide (j = i) then n else nx s j.
Proof. intros Hi. unfold nx. rewrite getb_setb by done. by destruct (decide (j = i)). Qed.

Lemma nx_set_prev s i n j : (i < length (bufs s))%nat → nx (setb i (with_prev n) s) j = nx s j.
Proof. intros Hi. unfold nx. rewrite getb_setb by done. by destruct (decide (j = i)) as [->|]. Qed.

Lemma pv_set_prev s i n j : (i < length (bufs s))%nat →
  pv (setb i (with_prev n) s) j = if decide (j = i) then n else pv s j.
Proof. intros Hi. unfold pv. rewrite getb_setb by done. by destruct (decide (j = i)). Qed.

Lemma pv_set_next s i n j : (i < length (bufs s))%nat → pv (setb i (with_next n) s) j = pv s j.
Proof. intros Hi. unfold pv. rewrite getb_setb by done. by destruct (decide (j = i)) as [->|]. Qed.

Lemma linked_first s x l y : linked s (x :: l ++ [y]) → nx s x = first l y ∧ pv s (first l y) = x.
Proof. destruct l as [|z l]; simpl; naive_solver. Qed.

Lemma first_elem l y : first l y ∈ l ++ [y].
Proof. destruct l; left. Qed.

(** A node with new neighbours, in terms of the old ones. *)
Lemma linked_cons s x l y : nx s x = first l y → pv s (first l y) = x → linked s (l ++ [y]) →
  linked s (x :: l ++ [y]).
Proof. destruct l; simpl; auto. Qed.

Lemma linked_tail s x l : linked s (x :: l) → linked s l.
Proof. destruct l; [done|]. by intros (_ & _ & ?). Qed.

(** [push_front] puts a node that is not in the ring at its front. *)
Lemma push_front_ok s l b :
  ring s l → (b < NBUF)%nat → b ∉ l →
  returns (push_front b) s (λ _ s', ring s' (b :: l) ∧ chain_state s s' ∧ disk s' = disk s).
Proof.
  intros [Hl Hnd Hb Hsz] Hbn Hbl. pose proof (proj1 (NoDup_cons _ _) Hnd) as [Hhl Hnd'].
  assert (Hbh : b ≠ head) by (unfold head; lia).
  destruct (linked_first s head l head Hl) as [Hf _]. set (f := first l head) in *.
  assert (Hfn : f ∈ l ++ [head]) by apply first_elem.
  assert (Hfb : f ≠ b).
  { intros E. rewrite E in Hfn. apply elem_of_app in Hfn as [?|?%list_elem_of_singleton]; done. }
  assert (Hfs : (f < S NBUF)%nat).
  { apply elem_of_app in Hfn as [Hin| ->%list_elem_of_singleton]; [|unfold head; lia].
    rewrite Forall_forall in Hb. specialize (Hb f Hin). lia. }
  unfold push_front, returns, bind, modify. eexists _, _. split; [reflexivity|]. rewrite Hf.
  set (s1 := setb b (with_next f) s). set (s2 := setb b (with_prev head) s1).
  assert (Z1 : length (bufs s1) = S NBUF) by (subst s1; by rewrite setb_size).
  assert (Z2 : length (bufs s2) = S NBUF) by (subst s2; by rewrite setb_size).
  assert (E2 : nx s2 head = f).
  { subst s2 s1. rewrite nx_set_prev, nx_set_next by (rewrite ?setb_size; lia). by rewrite decide_False. }
  rewrite E2. set (s3 := setb f (with_prev b) s2).
  assert (Z3 : length (bufs s3) = S NBUF) by (subst s3; by rewrite setb_size).
  set (s4 := setb head (with_next b) s3).
  assert (N4 : ∀ i, nx s4 i = if decide (i = head) then b else if decide (i = b) then f else nx s i).
  { intros i. subst s4 s3 s2 s1. rewrite nx_set_next, !nx_set_prev, nx_set_next; [done|..];
      rewrite ?setb_size; unfold head; lia. }
  assert (P4 : ∀ i, pv s4 i = if decide (i = f) then b else if decide (i = b) then head else pv s i).
  { intros i. subst s4 s3 s2 s1. rewrite pv_set_next, !pv_set_prev, pv_set_next; [done|..];
      rewrite ?setb_size; unfold head; lia. }
  split_and!; [|eapply chain_state_trans; [|eapply chain_state_trans; [|eapply chain_state_trans]]|done].
  - split; [| | |by subst s4; rewrite setb_size].
    + assert (Hh : linked s4 (b :: l ++ [head])).
      { apply linked_cons.
        - rewrite N4, decide_False, decide_True by done. done.
        - fold f. by rewrite P4, decide_True.
        - destruct l as [|z l]; [done|]. change f with z in P4.
          apply linked_frame with (s := s); [| |by apply linked_tail in Hl].
          + intros i Hi. rewrite N4, !decide_False; [done| |]; intros ->; set_solver.
          + intros i Hi. apply NoDup_cons in Hnd' as [Hz _]. rewrite P4, !decide_False; [done| |].
            all: intros ->; apply elem_of_app in Hi as [Hi|Hi%list_elem_of_singleton]; [set_solver|].
            all: rewrite Hi in *; set_solver. }
      change (head :: (b :: l) ++ [head]) with (head :: (b :: l ++ [head])).
      destruct (l ++ [head]) as [|z t] eqn:E; [by destruct l|]. split_and!; [| |exact Hh].
      * by rewrite N4, decide_True.
      * by rewrite P4, decide_False, decide_True.
    + apply NoDup_cons. split; [|by apply NoDup_cons]. rewrite not_elem_of_cons. split; done.
    + by constructor.
  - apply (chain_state_next s b f). lia.
  - apply (chain_state_prev s1 b head). lia.
  - apply (chain_state_prev s2 f b). lia.
  - apply (chain_state_next s3 head b). unfold head. lia.
Qed.

(** [unlink] takes a node out of the ring. *)
Lemma unlink_ok s l1 b l2 :
  ring s (l1 ++ b :: l2) →
  returns (unlink b) s (λ _ s', ring s' (l1 ++ l2) ∧ chain_state s s' ∧ disk s' = disk s).
Proof.
  intros [Hl Hnd Hb Hsz]. destruct (exists_last (l := head :: l1) ltac:(done)) as (l1' & a & Ea).
  assert (El : head :: (l1 ++ b :: l2) ++ [head] = l1' ++ a :: b :: l2 ++ [head]).
  { change (head :: (l1 ++ b :: l2) ++ [head]) with ((head :: l1 ++ b :: l2) ++ [head]).
    change (head :: l1 ++ b :: l2) with ((head :: l1) ++ b :: l2). rewrite Ea, <- !app_assoc. done. }
  rewrite El in Hl. apply linked_app in Hl as [Hl1 (Hab & Hba & Hl2)].
  destruct (linked_first s b l2 head Hl2) as [Hbc Hcb]. set (c := first l2 head) in *.
  change (head :: l1 ++ b :: l2) with ((head :: l1) ++ b :: l2) in Hnd.
  apply NoDup_app in Hnd as (Hnd1 & Hd & [Hbl2 Hnd2]%NoDup_cons).
  assert (Ha : a ∈ head :: l1) by (rewrite Ea; apply elem_of_app; right; left).
  assert (Hbm : ∀ i, i ∈ (head :: l1) ++ b :: l2 → (i < S NBUF)%nat).
  { intros i [[->|Hi]%elem_of_cons|Hi]%elem_of_app; [unfold head; lia| |].
    all: rewrite Forall_forall in Hb; specialize (Hb i); rewrite elem_of_app in Hb; specialize (Hb ltac:(auto)); lia. }
  assert (Hc : c = head ∨ c ∈ l2).
  { subst c. destruct l2; [by left|right; left]. }
  assert (Hcb' : c ≠ b). { intros ->. destruct Hc as [->|?]; [|done]. apply (Hd head); left. }
  assert (Hal : (a < S NBUF)%nat) by (apply Hbm, elem_of_app; by left).
  assert (Hcl : (c < S NBUF)%nat).
  { apply Hbm, elem_of_app. destruct Hc as [->|?]; [left; left|right; by right]. }
  unfold unlink, returns, bind, modify. eexists _, _. split; [reflexivity|]. rewrite Hbc, Hba.
  set (s1 := setb c (with_prev a) s).
  assert (E1 : pv s1 b = a) by (subst s1; rewrite pv_set_prev, decide_False by (done || lia); done).
  assert (E2 : nx s1 b = c) by (subst s1; rewrite nx_set_prev by lia; done).
  rewrite E1, E2. set (s2 := setb a (with_next c) s1).
  assert (Z1 : length (bufs s1) = S NBUF) by (subst s1; by rewrite setb_size).
  assert (N : ∀ i, nx s2 i = if decide (i = a) then c else nx s i).
  { intros i. subst s2 s1. rewrite nx_set_next, nx_set_prev; [done|lia|rewrite setb_size; lia]. }
  assert (P : ∀ i, pv s2 i = if decide (i = c) then a else pv s i).
  { intros i. subst s2 s1. rewrite pv_set_next, pv_set_prev; [done|lia|rewrite setb_size; lia]. }
  split_and!; [|eapply chain_state_trans; [apply (chain_state_prev s c a); lia|apply (chain_state_next s1 a c); lia]|done].
  split; [| | |by subst s2; rewrite setb_size].
  - assert (El' : head :: (l1 ++ l2) ++ [head] = l1' ++ a :: l2 ++ [head]).
    { change (head :: (l1 ++ l2) ++ [head]) with ((head :: l1 ++ l2) ++ [head]).
      change (head :: l1 ++ l2) with ((head :: l1) ++ l2). rewrite Ea, <- !app_assoc. done. }
    rewrite El'. apply linked_app. split.
    + destruct l1' as [|h l1'']; [done|]. injection Ea as <- Ea. apply (linked_frame s); [| |exact Hl1].
      * intros i Hi. rewrite N, decide_False; [done|]. intros ->. rewrite Ea in Hnd1.
        change (head :: l1'' ++ [a]) with ((head :: l1'') ++ [a]) in Hnd1.
        apply NoDup_app in Hnd1 as (_ & Hx & _). apply (Hx a Hi). left.
      * intros i Hi. rewrite P, decide_False; [done|]. intros ->. rewrite <- Ea in Hi.
        destruct Hc as [Hc|Hc]; [apply NoDup_cons in Hnd1 as [Hx _]; by rewrite Hc in Hi|].
        apply (Hd c); right; done.
    + apply linked_cons; [by rewrite N, decide_True|fold c; by rewrite P, decide_True|].
      destruct l2 as [|z l2]; [done|]. change c with z in P. apply linked_tail in Hl2.
      apply (linked_frame s); [| |exact Hl2].
      * intros i Hi. rewrite N, decide_False; [done|]. intros ->. apply (Hd a Ha). by right.
      * intros i Hi. rewrite P, decide_False; [done|]. intros ->.
        apply NoDup_cons in Hnd2 as [Hz _]. apply elem_of_app in Hi as [Hi|Hi%list_elem_of_singleton]; [done|].
        rewrite Hi in Hd. apply (Hd head); [left|]. right. left.
  - change (head :: l1 ++ l2) with ((head :: l1) ++ l2). apply NoDup_app. split_and!; [done| |done].
    intros x Hx Hx2. apply (Hd x Hx). by right.
  - apply Forall_app in Hb as [? [_ ?]%Forall_cons]. by apply Forall_app.
Qed.

End Ring.

(** ** The cache invariant *)

Definition ROOTDEV : Z := 1.

(** What the driver promises: reads return the block, writes replace it. *)
Class BlockDeviceOk (D : Type) `{BlockDevice D} := {
  dev_ok : D → Prop;
  block_of : D → Z → list Z;
  rw_read d b x : dev_ok d →
    returns (virtio_disk_rw b x false) d (λ y d', y = block_of d b ∧ dev_ok d' ∧ ∀ c, block_of d' c = block_of d c);
  rw_write d b x : dev_ok d →
    returns (virtio_disk_rw b x true) d (λ y d', y = x ∧ dev_ok d'
      ∧ ∀ c, block_of d' c = if decide (c = b) then x else block_of d c);
}.

Section Cache.
Context {D : Type} `{DOk : BlockDeviceOk D}.
Context (pid : Z).
Implicit Types s : bcache D.

Definition holds_block s (bn : Z) (b : nat) : bool :=
  (dev (getb s b) =? ROOTDEV) && (blockno (getb s b) =? bn).

Definition unused s (b : nat) : bool := refcnt (getb s b) =? 0.

(** The buffer [bget] settles on: the one that has the block, else the least
    recently used unused one. *)
Definition target s (l : list nat) (bn : Z) : option nat :=
  match List.find (holds_block s bn) l with
  | Some b => Some b
  | None => List.find (unused s) (reverse l)
  end.

(** The ring holds every buffer once; no block is cached twice; a valid buffer
    has the contents of its block; a locked buffer is referenced. *)
Record binv s (l : list nat) : Prop := {
  binv_ring : ring s l;
  binv_all : ∀ b, (b < NBUF)%nat → b ∈ l;
  binv_uniq : ∀ i j, i ∈ l → j ∈ l → dev (getb s i) = ROOTDEV → dev (getb s j) = ROOTDEV →
                blockno (getb s i) = blockno (getb s j) → i = j;
  binv_coh : ∀ i, i ∈ l → valid (getb s i) = true →
               data (getb s i) = block_of (disk s) (blockno (getb s i));
  binv_ref : ∀ i, i ∈ l → 0 ≤ refcnt (getb s i) ∧ (slocked (lock (getb s i)) = true → 0 < refcnt (getb s i));
  binv_disk : dev_ok (disk s);
}.

Lemma find_block_ok s dv bn fuel x l :
  linked s (x :: l ++ [head]) → head ∉ l → (length l < fuel)%nat →
  find_block fuel s (first l head) dv bn
  = Some (List.find (λ b, (dev (getb s b) =? dv) && (blockno (getb s b) =? bn)) l).
Proof.
  revert fuel x. induction l as [|y l IH]; intros [|fuel] x Hl Hh Hf; try (simpl in Hf; lia).
  - cbn [first find_block]. by rewrite Nat.eqb_refl.
  - cbn [first find_block List.find]. apply not_elem_of_cons in Hh as [Hy Hh].
    rewrite (proj2 (Nat.eqb_neq y head)) by congruence.
    destruct ((dev (getb s y) =? dv) && (blockno (getb s y) =? bn)); [done|].
    apply linked_tail in Hl. destruct (linked_first s y l head Hl) as [-> _].
    apply (IH fuel y); [done|done|]. simpl in Hf. lia.
Qed.

Lemma find_unused_ok s fuel l y :
  linked s (head :: l ++ [y]) → head ∉ l → (length l < fuel)%nat →
  find_unused fuel s (pv s y) = Some (List.find (unused s) (reverse l)).
Proof.
  revert fuel y. induction l as [|z l IH] using rev_ind; intros [|fuel] y Hl Hh Hf; try (simpl in Hf; lia).
  - destruct Hl as (_ & Hp & _). cbn [find_unused]. rewrite Hp. by rewrite Nat.eqb_refl.
  - rewrite <- app_assoc in Hl. change (head :: l ++ [z] ++ [y]) with ((head :: l) ++ z :: [y]) in Hl.
    apply linked_app in Hl as [Hl (_ & Hp & _)]. rewrite Hp.
    apply not_elem_of_app in Hh as [Hh Hz%not_elem_of_cons]. destruct Hz as [Hz _].
    cbn [find_unused]. rewrite (proj2 (Nat.eqb_neq z head)) by congruence.
    rewrite reverse_app. cbn [reverse rev_append app List.find]. unfold unused at 1.
    destruct (refcnt (getb s z) =? 0) eqn:E; [done|].
    apply (IH fuel z); [done|done|]. rewrite length_app in Hf. simpl in Hf. lia.
Qed.

Lemma ring_search s l dv bn :
  ring s l →
  find_block (S NBUF) s (nx s head) dv bn
    = Some (List.find (λ b, (dev (getb s b) =? dv) && (blockno (getb s b) =? bn)) l)
  ∧ find_unused (S NBUF) s (pv s head) = Some (List.find (unused s) (reverse l)).
Proof.
  intros [Hl Hnd Hb Hsz]. apply NoDup_cons in Hnd as [Hh Hnd].
  assert (Hlen : (length l ≤ NBUF)%nat).
  { rewrite <- (length_seq NBUF 0). apply submseteq_length, NoDup_submseteq; [done|].
    intros b Hbl. rewrite Forall_forall in Hb. specialize (Hb b Hbl). apply elem_of_seq. lia. }
  split.
  - destruct (linked_first s head l head Hl) as [-> _]. by apply (find_block_ok s dv bn _ head); [..|lia].
  - apply find_unused_ok; [done|done|lia].
Qed.

(** Updates that leave the links alone leave the ring alone. *)
Lemma ring_setb s l b f :
  ring s l → (b < S NBUF)%nat → (∀ x, next (f x) = next x ∧ prev (f x) = prev x) → ring (setb b f s) l.
Proof.
  intros [Hl Hnd Hb Hsz] Hbn Hf. split; [|done|done|by rewrite setb_size].
  apply (linked_frame s); [| |done].
  - intros i _. unfold nx. rewrite getb_setb by lia. destruct (decide (i = b)) as [->|]; [apply Hf|done].
  - intros i _. unfold pv. rewrite getb_setb by lia. destruct (decide (i = b)) as [->|]; [apply Hf|done].
Qed.

Lemma find_in (f : nat → bool) l b : List.find f l = Some b → b ∈ l ∧ f b = true.
Proof. intros E. apply find_some in E as [Hin Hf]. by rewrite list_elem_of_In. Qed.

Lemma ring_lt s l b : ring s l → b ∈ l → (b < NBUF)%nat.
Proof. intros [_ _ Hb _] Hin. rewrite Forall_forall in Hb. auto. Qed.

(** The state after [bget] chose buffer [b]. *)
Definition got s (bn : Z) (b : nat) : bcache D :=
  setb b (λ x, with_lock (SleepLock true pid)
                 (if holds_block s bn b then with_refcnt (refcnt x + 1) x else for_block ROOTDEV bn x)) s.

Lemma setb_setb s b f g : (b < length (bufs s))%nat → setb b g (setb b f s) = setb b (λ x, g (f x)) s.
Proof.
  intros Hb. unfold setb at 1. f_equal. simpl. rewrite getb_setb, decide_True by done.
  by rewrite list_insert_insert_eq.
Qed.

Lemma bget_ok s l bn b :
  binv s l → target s l bn = Some b → slocked (lock (getb s b)) = false →
  bget pid ROOTDEV bn s = Ok b (got s bn b).
Proof.
  intros Hinv Ht Hfree. pose proof (binv_ring _ _ Hinv) as Hr.
  destruct (ring_search s l ROOTDEV bn Hr) as [Eb Eu].
  fold (holds_block s bn) in Eb. unfold target in Ht. unfold bget, bind, gets, id. rewrite Eb, Eu.
  assert (Hlen : ∀ b, b ∈ l → (b < length (bufs s))%nat).
  { intros c Hc. rewrite (ring_size _ _ Hr). pose proof (ring_lt s l c Hr Hc). lia. }
  unfold got. destruct (List.find (holds_block s bn) l) as [b'|] eqn:E1.
  - injection Ht as ->. destruct (find_in _ _ _ E1) as [Hin Hh]. rewrite Hh.
    unfold modify, acquiresleep. rewrite getb_setb, decide_True by auto. simpl. rewrite Hfree.
    unfold ret. rewrite setb_setb by auto. done.
  - rewrite Ht. destruct (find_in _ _ _ Ht) as [Hin Hu]. rewrite elem_of_reverse in Hin.
    assert (Hh : holds_block s bn b = false).
    { destruct (holds_block s bn b) eqn:Hh; [|done]. apply list_elem_of_In in Hin.
      by rewrite (find_none _ _ E1 b Hin) in Hh. }
    rewrite Hh. unfold modify, acquiresleep. rewrite getb_setb, decide_True by auto. simpl. rewrite Hfree.
    unfold ret. rewrite setb_setb by auto. done.
Qed.

Lemma target_in s l bn b :
  target s l bn = Some b → b ∈ l
  ∧ (holds_block s bn b = true
     ∨ holds_block s bn b = false ∧ refcnt (getb s b) = 0 ∧ ∀ j, j ∈ l → holds_block s bn j = false).
Proof.
  unfold target. destruct (List.find (holds_block s bn) l) as [b'|] eqn:E1.
  - intros [= ->]. destruct (find_in _ _ _ E1). auto.
  - intros E2. destruct (find_in _ _ _ E2) as [Hin Hu]. rewrite elem_of_reverse in Hin.
    assert (Hno : ∀ j, j ∈ l → holds_block s bn j = false).
    { intros j Hj. apply list_elem_of_In in Hj. by apply (find_none _ _ E1). }
    split; [done|]. right. split_and!; [by apply Hno| |done]. by apply Z.eqb_eq.
Qed.

Lemma getb_got s l bn b j :
  ring s l → b ∈ l →
  getb (got s bn b) j
  = if decide (j = b) then
      with_lock (SleepLock true pid)
        (if holds_block s bn b then with_refcnt (refcnt (getb s b) + 1) (getb s b)
         else for_block ROOTDEV bn (getb s b))
    else getb s j.
Proof.
  intros Hr Hin. unfold got. rewrite getb_setb; [done|]. rewrite (ring_size _ _ Hr).
  pose proof (ring_lt s l b Hr Hin). lia.
Qed.

Lemma holds_block_iff s bn b :
  holds_block s bn b = true ↔ dev (getb s b) = ROOTDEV ∧ blockno (getb s b) = bn.
Proof. unfold holds_block. by rewrite andb_true_iff, !Z.eqb_eq. Qed.

Lemma got_binv s l bn b :
  binv s l → target s l bn = Some b → binv (got s bn b) l.
Proof.
  intros Hinv Ht. destruct (target_in s l bn b Ht) as [Hin Hb].
  pose proof Hinv as [Hr Hall Huniq Hcoh Href Hdisk]. pose proof (ring_lt s l b Hr Hin) as Hlt.
  assert (Hg := λ j, getb_got s l bn b j Hr Hin).
  assert (Hdb : dev (getb (got s bn b) b) = ROOTDEV ∧ blockno (getb (got s bn b) b) = bn).
  { rewrite Hg, decide_True by done. destruct (holds_block s bn b) eqn:E; [|done].
    by apply holds_block_iff in E. }
  assert (Hoth : ∀ j, j ∈ l → j ≠ b → dev (getb s j) = ROOTDEV → blockno (getb s j) ≠ bn).
  { intros j Hj Hne Hd Hbn. assert (Hh : holds_block s bn j = true) by (by apply holds_block_iff).
    destruct Hb as [Hb|(_ & _ & Hno)]; [|by rewrite Hno in Hh].
    apply holds_block_iff in Hb as [Hd' Hbn']. apply Hne, Huniq; congruence. }
  split; try done.
  - apply ring_setb; [done|lia|]. intros x. by destruct (holds_block s bn b).
  - intros i j Hi Hj. destruct (decide (i = b)) as [->|Hib], (decide (j = b)) as [->|Hjb]; [done| | |].
    + destruct Hdb as [-> ->]. rewrite (Hg j), decide_False by done. intros _ Hd E. by destruct (Hoth j Hj Hjb Hd).
    + destruct Hdb as [-> ->]. rewrite (Hg i), decide_False by done. intros Hd _ E. by destruct (Hoth i Hi Hib Hd).
    + rewrite (Hg i), (Hg j), !decide_False by done. by apply Huniq.
  - intros i Hi. rewrite (Hg i). destruct (decide (i = b)) as [->|Hib]; [|by apply Hcoh].
    destruct (holds_block s bn b); [|done]. by apply Hcoh.
  - intros i Hi. rewrite (Hg i). destruct (decide (i = b)) as [->|Hib]; [|by apply Href].
    destruct (Href b Hin) as [H0 _]. destruct (holds_block s bn b); simpl; lia.
Qed.

(** The locked buffer that [bread] returns. *)
Definition buffer_of s (bn : Z) (b : nat) : Prop :=
  valid (getb s b) = true ∧ dev (getb s b) = ROOTDEV ∧ blockno (getb s b) = bn
  ∧ data (getb s b) = block_of (disk s) bn ∧ lock (getb s b) = SleepLock true pid.

Lemma disk_read_ok s b :
  dev_ok (disk s) →
  returns (disk_rw b false) s (λ _ s', ∃ d',
    s' = setb b (with_data (block_of (disk s) (blockno (getb s b)))) (Bcache (bufs s) d')
    ∧ dev_ok d' ∧ ∀ c, block_of d' c = block_of (disk s) c).
Proof.
  intros Hok. destruct (rw_read (disk s) (blockno (getb s b)) (data (getb s b)) Hok)
    as (y & d' & E & -> & Hok' & Hblk).
  eexists tt, _. split; [unfold disk_rw, bind, gets, id, zoom; rewrite E; reflexivity|].
  by exists d'.
Qed.

(** Reading the block into the buffer and marking it valid. *)
Lemma fill_ok s b :
  dev_ok (disk s) → (b < length (bufs s))%nat →
  returns (disk_rw b false ;;; modify (setb b (with_valid true))) s (λ _ s', ∃ d',
    s' = setb b (λ x, with_valid true (with_data (block_of (disk s) (blockno (getb s b))) x)) (Bcache (bufs s) d')
    ∧ dev_ok d' ∧ ∀ c, block_of d' c = block_of (disk s) c).
Proof.
  intros Hok Hb. eapply returns_bind; [by apply disk_read_ok|].
  intros u s' (d' & -> & Hok' & Hblk). apply returns_modify. exists d'. by rewrite setb_setb.
Qed.

Lemma bread_ok s l bn b :
  binv s l → target s l bn = Some b → slocked (lock (getb s b)) = false →
  returns (bread pid ROOTDEV bn) s (λ r s', r = b ∧ binv s' l ∧ buffer_of s' bn b
    ∧ (∀ c, block_of (disk s') c = block_of (disk s) c)
    ∧ refcnt (getb s' b) = refcnt (getb s b) + 1
    ∧ ∀ j, j ≠ b → getb s' j = getb s j).
Proof.
  intros Hinv Ht Hfree. destruct (target_in s l bn b Ht) as [Hin Hb].
  pose proof (binv_ring _ _ Hinv) as Hr. pose proof (ring_lt s l b Hr Hin) as Hlt.
  pose proof (got_binv s l bn b Hinv Ht) as Hinv1. assert (Hg := λ j, getb_got s l bn b j Hr Hin).
  unfold bread. eapply returns_bind; [apply (returns_eq _ _ _ _ (bget_ok s l bn b Hinv Ht Hfree))|].
  intros r s1 [-> ->]. set (s1 := got s bn b) in *.
  assert (Hf1 : dev (getb s1 b) = ROOTDEV ∧ blockno (getb s1 b) = bn ∧ lock (getb s1 b) = SleepLock true pid
    ∧ refcnt (getb s1 b) = refcnt (getb s b) + 1).
  { rewrite Hg, decide_True by done. destruct (holds_block s bn b) eqn:E; simpl.
    - by apply holds_block_iff in E as [? ?].
    - destruct Hb as [?|(_ & -> & _)]; [done|]. done. }
  destruct Hf1 as (Hd1 & Hn1 & Hl1 & Hr1).
  assert (Ho1 : ∀ j, j ≠ b → getb s1 j = getb s j) by (intros j Hj; by rewrite Hg, decide_False).
  assert (Hk1 : disk s1 = disk s) by done. clearbody s1. clear Hg.
  eapply returns_bind; [apply (returns_gets _ _ (λ v s', s' = s1 ∧ v = valid (getb s1 b))); auto|].
  intros v s' [-> ->]. destruct (valid (getb s1 b)) eqn:Hv.
  { eapply returns_bind; [by apply (returns_ret tt s1 (λ _ s', s' = s1))|]. intros u s' ->. apply returns_ret.
    pose proof (binv_coh _ _ Hinv1 b Hin Hv) as Hc. rewrite Hn1, Hk1 in Hc.
    unfold buffer_of. rewrite Hk1. split_and!; done. }
  cbn [negb].
  assert (Hsz : (b < length (bufs s1))%nat) by (rewrite (ring_size _ _ (binv_ring _ _ Hinv1)); lia).
  eapply returns_bind; [apply (fill_ok s1 b); [apply Hinv1|done]|]. rewrite Hn1.
  intros u s' (d' & -> & Hok' & Hblk). apply returns_ret. set (s2 := setb b _ _).
  assert (Hg2 : ∀ j, getb s2 j = if decide (j = b)
            then with_valid true (with_data (block_of (disk s1) bn) (getb s1 b)) else getb s1 j).
  { intros j. subst s2. by rewrite getb_setb. }
  assert (Hk2 : disk s2 = d') by done.
  assert (Hrg2 : ring s2 l).
  { subst s2. apply ring_setb; [|lia|done].
    destruct (binv_ring _ _ Hinv1) as [Hlk ? ? ?]. split; [|done|done|done]. by apply (linked_frame s1). }
  clearbody s2. subst d'. pose proof Hinv1 as [_ Hall1 Huniq1 Hcoh1 Href1 Hdisk1].
  assert (Hsame : ∀ j, dev (getb s2 j) = dev (getb s1 j) ∧ blockno (getb s2 j) = blockno (getb s1 j)
    ∧ lock (getb s2 j) = lock (getb s1 j) ∧ refcnt (getb s2 j) = refcnt (getb s1 j)).
  { intros j. rewrite Hg2. by destruct (decide (j = b)) as [->|]. }
  split_and!; [done| | | | |].
  - split; try done.
    + intros i j Hi Hj. destruct (Hsame i) as (-> & -> & _), (Hsame j) as (-> & -> & _). by apply Huniq1.
    + intros i Hi. rewrite Hg2. destruct (decide (i = b)) as [->|Hib].
      * intros _. simpl. by rewrite Hblk, Hn1.
      * intros Hvi. rewrite Hblk. by apply Hcoh1.
    + intros i Hi. destruct (Hsame i) as (_ & _ & -> & ->). by apply Href1.
  - unfold buffer_of. destruct (Hsame b) as (-> & -> & -> & _). rewrite Hg2, decide_True by done. simpl.
    by rewrite Hblk.
  - intros c. by rewrite Hblk, Hk1.
  - by destruct (Hsame b) as (_ & _ & _ & ->).
  - intros j Hj. rewrite Hg2, decide_False by done. by apply Ho1.
Qed.

(** Relinking keeps the invariant. *)
Lemma binv_chain s s' l l' :
  binv s l → chain_state s s' → disk s' = disk s → ring s' l' → l' ≡ₚ l → binv s' l'.
Proof.
  intros [Hr Hall Hu Hc Href Hd] [Hlen Hcs] Ed Hr' Hp. split; try done.
  - intros b Hb. rewrite Hp. by apply Hall.
  - intros i j. rewrite Hp. destruct (Hcs i) as (_ & -> & -> & _), (Hcs j) as (_ & -> & -> & _). apply Hu.
  - intros i. rewrite Hp, Ed. destruct (Hcs i) as (-> & _ & -> & _ & _ & ->). apply Hc.
  - intros i. rewrite Hp. destruct (Hcs i) as (_ & _ & _ & -> & -> & _). apply Href.
  - by rewrite Ed.
Qed.

(** What a release changes in a buffer. *)
Definition released (x : buf) : buf := with_refcnt (refcnt x - 1) (with_lock (SleepLock false 0) x).

Lemma released_binv s l b :
  binv s l → b ∈ l → 0 < refcnt (getb s b) → binv (setb b released s) l.
Proof.
  intros [Hr Hall Hu Hc Href Hd] Hin Hpos. pose proof (ring_lt s l b Hr Hin) as Hlt.
  assert (Hsz : (b < length (bufs s))%nat) by (rewrite (ring_size _ _ Hr); lia).
  assert (Hg : ∀ j, getb (setb b released s) j = if decide (j = b) then released (getb s b) else getb s j)
    by (intros j; by apply getb_setb).
  split; try done.
  - apply ring_setb; [done|lia|done].
  - intros i j Hi Hj. rewrite !Hg.
    destruct (decide (i = b)) as [->|], (decide (j = b)) as [->|]; simpl; try done; by apply Hu.
  - intros i Hi. rewrite Hg. destruct (decide (i = b)) as [->|]; simpl; by apply Hc.
  - intros i Hi. rewrite Hg. destruct (decide (i = b)) as [->|]; simpl; [|by apply Href]. split; [lia|done].
Qed.

Lemma brelse_ok s l b :
  binv s l → b ∈ l → lock (getb s b) = SleepLock true pid →
  returns (brelse pid b) s (λ _ s', ∃ l', binv s' l' ∧ disk s' = disk s
    ∧ chain_state (setb b released s) s'
    ∧ (if refcnt (getb s b) =? 1 then ∃ l1 l2, l = l1 ++ b :: l2 ∧ l' = b :: l1 ++ l2 else l' = l)).
Proof.
  intros Hinv Hin Hl. pose proof (binv_ring _ _ Hinv) as Hr. pose proof (ring_lt s l b Hr Hin) as Hlt.
  assert (Hpos : 0 < refcnt (getb s b)).
  { destruct (binv_ref _ _ Hinv b Hin) as [_ Hp]. apply Hp. by rewrite Hl. }
  assert (Hsz : (b < length (bufs s))%nat) by (rewrite (ring_size _ _ Hr); lia).
  pose proof (released_binv s l b Hinv Hin Hpos) as Hinv1.
  assert (Eg : getb (setb b released s) b = released (getb s b)) by (rewrite getb_setb by done; by rewrite decide_True).
  unfold brelse. eapply returns_bind; [apply (returns_gets _ _ (λ h s', h = true ∧ s' = s))|].
  { rewrite Hl. simpl. by rewrite Z.eqb_refl. }
  intros h s' [-> ->]. cbn [negb].
  eapply returns_bind; [apply (returns_modify _ _ (λ _ s', s' = setb b (with_lock (SleepLock false 0)) s)); reflexivity|].
  intros u s' ->.
  eapply returns_bind; [apply (returns_modify _ _ (λ _ s', s' = setb b released s)); by rewrite setb_setb|].
  intros u' s' ->. set (s1 := setb b released s) in *.
  eapply returns_bind; [apply (returns_gets _ _ (λ r s', r = refcnt (getb s b) - 1 ∧ s' = s1)); by rewrite Eg|].
  intros r s' [-> ->].
  replace (refcnt (getb s b) - 1 =? 0) with (refcnt (getb s b) =? 1)
    by (destruct (Z.eqb_spec (refcnt (getb s b)) 1), (Z.eqb_spec (refcnt (getb s b) - 1) 0); lia).
  assert (Ed : disk s1 = disk s) by done. clearbody s1.
  destruct (refcnt (getb s b) =? 1).
  2:{ apply returns_ret. exists l. split_and!; try done. }
  apply list_elem_of_split in Hin as (l1 & l2 & ->).
  eapply returns_bind; [apply (unlink_ok s1 l1 b l2), Hinv1|].
  intros v s2 (Hr2 & Hc2 & Hd2).
  assert (Hbl : b ∉ l1 ++ l2).
  { pose proof (ring_nodup _ _ (binv_ring _ _ Hinv1)) as Hnd. apply NoDup_cons in Hnd as [_ Hnd].
    rewrite <- Permutation_middle in Hnd. by apply NoDup_cons in Hnd as [? _]. }
  eapply returns_mono; [apply (push_front_ok s2 (l1 ++ l2) b); [done|lia|done]|].
  intros w s3 (Hr3 & Hc3 & Hd3). exists (b :: l1 ++ l2).
  assert (Hcs : chain_state s1 s3) by (by eapply chain_state_trans).
  split_and!; [|congruence|done|by exists l1, l2].
  apply (binv_chain s1 s3 (l1 ++ b :: l2)); [done|done|congruence|done|]. apply Permutation_middle.
Qed.

(** All buffers idle: the state between file-system calls. *)
Definition quiet s : Prop := ∃ l, binv s l ∧ ∀ b, b ∈ l → refcnt (getb s b) = 0.

Lemma quiet_target s l bn :
  binv s l → (∀ b, b ∈ l → refcnt (getb s b) = 0) →
  ∃ b, target s l bn = Some b ∧ slocked (lock (getb s b)) = false.
Proof.
  intros Hinv Hq.
  assert (∃ b, target s l bn = Some b) as [b Hb].
  { unfold target. destruct (List.find (holds_block s bn) l) as [b|]; [by exists b|].
    pose proof (binv_all _ _ Hinv 0%nat ltac:(unfold NBUF; lia)) as H0.
    destruct (List.find (unused s) (reverse l)) as [b|] eqn:E; [by exists b|].
    assert (Hu : unused s 0 = true) by (unfold unused; by rewrite Hq).
    rewrite (find_none _ _ E 0%nat) in Hu; [done|]. apply list_elem_of_In. by rewrite elem_of_reverse. }
  exists b. split; [done|]. destruct (target_in s l bn b Hb) as [Hin _].
  destruct (binv_ref _ _ Hinv b Hin) as [_ Hl]. rewrite Hq in Hl by done.
  destruct (slocked (lock (getb s b))); [|done]. specialize (Hl eq_refl). lia.
Qed.

(** A read of a block and the release of its buffer. *)
Lemma read_release_ok s bn :
  quiet s →
  returns (bread pid ROOTDEV bn) s (λ b s1, data (getb s1 b) = block_of (disk s) bn
    ∧ returns (brelse pid b) s1 (λ _ s2, quiet s2 ∧ ∀ c, block_of (disk s2) c = block_of (disk s) c)).
Proof.
  intros (l & Hinv & Hq). destruct (quiet_target s l bn Hinv Hq) as (b & Ht & Hf).
  destruct (target_in s l bn b Ht) as [Hin _].
  eapply returns_mono; [by apply (bread_ok s l bn b)|].
  intros r s1 (-> & Hinv1 & (_ & _ & _ & Hd1 & Hl1) & Hk1 & Hr1 & Ho1). split; [by rewrite Hd1|].
  rewrite Hq in Hr1 by done.
  eapply returns_mono; [by apply (brelse_ok s1 l b)|].
  intros u s2 (l' & Hinv2 & Hd2 & [_ Hcs] & Hl'). split; [|intros c; by rewrite Hd2].
  rewrite Hr1 in Hl'. destruct Hl' as (l1 & l2 & -> & ->). exists (b :: l1 ++ l2). split; [done|].
  intros j Hj. destruct (Hcs j) as (_ & _ & _ & _ & -> & _).
  pose proof (binv_ring _ _ Hinv1) as Hrg. pose proof (ring_lt _ _ _ Hrg Hin).
  rewrite getb_setb by (rewrite (ring_size _ _ Hrg); lia).
  destruct (decide (j = b)) as [->|Hne]; [simpl; lia|]. rewrite Ho1 by done. apply Hq.
  rewrite <- Permutation_middle. done.
Qed.

(** ** Initialisation *)

(** A buffer as the zeroed kernel image has it, links aside. *)
Definition blank (x : buf) : Prop :=
  valid x = false ∧ dev x = 0 ∧ refcnt x = 0 ∧ slocked (lock x) = false.

Definition binit_body (b : nat) : M (bcache D) unit :=
  modify (λ s, setb b (with_next (nx s head)) s) ;;;
  modify (setb b (with_prev head)) ;;;
  initsleeplock b ;;;
  modify (λ s, setb (nx s head) (with_prev b) s) ;;;
  modify (setb head (with_next b)).

Lemma binit_body_push s b :
  (b < NBUF)%nat → length (bufs s) = S NBUF →
  binit_body b s = push_front b (setb b (with_lock (SleepLock false 0)) s).
Proof.
  intros Hb Hsz. unfold binit_body, push_front, initsleeplock, bind, modify.
  assert (En : nx (setb b (with_lock (SleepLock false 0)) s) head = nx s head).
  { unfold nx. rewrite getb_setb by lia. rewrite decide_False by (unfold head; lia). done. }
  rewrite En, !setb_setb by (rewrite ?setb_size; lia). done.
Qed.

Lemma binit_loop s l bs :
  ring s l → NoDup bs → (∀ b, b ∈ bs → (b < NBUF)%nat ∧ b ∉ l) → (∀ i, blank (getb s i)) →
  returns (for_each bs binit_body) s (λ _ s', ring s' (reverse bs ++ l) ∧ (∀ i, blank (getb s' i))
    ∧ disk s' = disk s).
Proof.
  revert s l. induction bs as [|b bs IH]; intros s l Hr Hnd Hbs Hbl; [by apply returns_ret|].
  cbn [for_each]. destruct (Hbs b ltac:(left)) as [Hlt Hnin]. apply NoDup_cons in Hnd as [Hb Hnd].
  pose proof (ring_size _ _ Hr) as Hsz.
  assert (Hr1 : ring (setb b (with_lock (SleepLock false 0)) s) l) by (apply ring_setb; [done|lia|done]).
  unfold returns. unfold bind at 1. rewrite binit_body_push by done.
  set (s1 := setb b _ s) in *.
  assert (Hbl1 : ∀ i, blank (getb s1 i)).
  { intros i. subst s1. rewrite getb_setb by lia. destruct (decide (i = b)) as [->|]; [|apply Hbl].
    destruct (Hbl b) as (? & ? & ? & _). by split_and!. }
  assert (Ed1 : disk s1 = disk s) by done. clearbody s1.
  destruct (push_front_ok s1 l b Hr1 Hlt Hnin) as (u & s2 & E & Hr2 & [_ Hc2] & Hd2). rewrite E.
  eapply returns_mono; [apply (IH s2 (b :: l) Hr2 Hnd)|].
  - intros c Hc. destruct (Hbs c ltac:(by right)) as [? ?]. split; [done|].
    rewrite not_elem_of_cons. split; [|done]. by intros ->.
  - intros i. destruct (Hc2 i) as (Ev & Edv & _ & El & Er & _). unfold blank. rewrite Ev, Edv, El, Er. apply Hbl1.
  - intros v s3 (Hr3 & Hb3 & Hd3). rewrite reverse_cons, <- app_assoc. split_and!; [done|done|congruence].
Qed.

Lemma binit_ok s :
  length (bufs s) = S NBUF → (∀ i, blank (getb s i)) → dev_ok (disk s) →
  returns binit s (λ _ s', quiet s' ∧ binv s' (reverse (seq 0 NBUF)) ∧ disk s' = disk s).
Proof.
  intros Hsz Hbl Hok. unfold binit.
  eapply returns_bind; [apply (returns_modify _ _ (λ _ s', s' = setb head (with_prev head) s)); reflexivity|].
  intros u s1 ->.
  eapply returns_bind; [apply (returns_modify _ _ (λ _ s', s' = setb head (with_next head) (setb head (with_prev head) s))); reflexivity|].
  intros v s2 ->. set (s2 := setb head (with_next head) _).
  assert (Hg : ∀ i, getb s2 i = if decide (i = head) then with_next head (with_prev head (getb s head)) else getb s i).
  { intros i. subst s2. rewrite setb_setb by (unfold head; lia). rewrite getb_setb by (unfold head; lia). done. }
  assert (Hr2 : ring s2 []).
  { split; [| |done|by subst s2; rewrite !setb_size].
    - simpl. unfold nx, pv. rewrite !Hg, !decide_True by done. done.
    - apply NoDup_cons. split; [apply not_elem_of_nil|constructor]. }
  assert (Hbl2 : ∀ i, blank (getb s2 i)).
  { intros i. rewrite Hg. destruct (decide (i = head)); [|apply Hbl]. apply (Hbl head). }
  assert (Ed : disk s2 = disk s) by done. clearbody s2.
  eapply returns_mono; [apply (binit_loop s2 [] (seq 0 NBUF) Hr2)|].
  - apply NoDup_seq.
  - intros b Hb%elem_of_seq. split; [lia|apply not_elem_of_nil].
  - exact Hbl2.
  - intros w s3 (Hr3 & Hb3 & Hd3). rewrite app_nil_r in Hr3.
    assert (Hinv : binv s3 (reverse (seq 0 NBUF))).
    { split; try done.
      - intros b Hb. rewrite elem_of_reverse, elem_of_seq. lia.
      - intros i j _ _ Hd. destruct (Hb3 i) as (_ & E & _). rewrite E in Hd. done.
      - intros i _ Hv. destruct (Hb3 i) as (E & _). by rewrite E in Hv.
      - intros i _. destruct (Hb3 i) as (_ & _ & -> & ->). split; [lia|done].
      - by rewrite Hd3, Ed. }
    split_and!; [|done|congruence]. exists (reverse (seq 0 NBUF)). split; [done|].
    intros b _. by destruct (Hb3 b) as (_ & _ & ? & _).
Qed.

(** C35 [functional]. [bread] on a cache state with room for the block returns a
    locked, valid buffer with the contents of the block on disk.  The buffer
    is the one that already caches the block, or else the least recently
    released unused one; no block is ever cached twice. *)
Theorem bread_returns_block s l bn b :
  binv s l → target s l bn = Some b → slocked (lock (getb s b)) = false →
  returns (bread pid ROOTDEV bn) s (λ r s', r = b ∧ binv s' l ∧ buffer_of s' bn b
    ∧ (∀ c, block_of (disk s') c = block_of (disk s) c)
    ∧ refcnt (getb s' b) = refcnt (getb s b) + 1
    ∧ ∀ j, j ≠ b → getb s' j = getb s j).
Proof. apply bread_ok. Qed.

(** C36 [invariant]. [brelse] of a held buffer drops one reference and unlocks
    it; when that was the last one the buffer moves to the front of the LRU
    list and the order of the others is kept.  The doubly linked ring stays a
    ring of all buffers.  [brelse] of a buffer the caller does not hold
    panics. *)
Theorem brelse_moves_to_front s l b :
  binv s l → b ∈ l →
  (lock (getb s b) = SleepLock true pid →
   returns (brelse pid b) s (λ _ s', ∃ l', binv s' l' ∧ disk s' = disk s
     ∧ refcnt (getb s' b) = refcnt (getb s b) - 1 ∧ slocked (lock (getb s' b)) = false
     ∧ (if refcnt (getb s b) =? 1 then ∃ l1 l2, l = l1 ++ b :: l2 ∧ l' = b :: l1 ++ l2 else l' = l)))
  ∧ (slocked (lock (getb s b)) = false → brelse pid b s = Panic "brelse").
Proof.
  intros Hinv Hin. split.
  - intros Hl. eapply returns_mono; [by apply (brelse_ok s l b)|].
    intros u s' (l' & Hinv' & Hd & [_ Hcs] & Hl'). exists l'.
    destruct (Hcs b) as (_ & _ & _ & El & Er & _). pose proof (binv_ring _ _ Hinv) as Hr.
    pose proof (ring_lt _ _ _ Hr Hin).
    rewrite El, Er, getb_setb, decide_True by (done || rewrite (ring_size _ _ Hr); lia). by split_and!.
  - intros Hl. unfold brelse, bind, holdingsleep, gets. by rewrite Hl.
Qed.

(** From the zeroed cache [binit] builds a ring of all [NBUF]
    buffers, and in a quiet cache every [bread] succeeds: it never runs out of
    buffers, never sleeps, and releasing the buffer makes the cache quiet
    again. *)
Theorem binit_quiet_reads s bn :
  length (bufs s) = S NBUF → (∀ i, blank (getb s i)) → dev_ok (disk s) →
  returns binit s (λ _ s0, binv s0 (reverse (seq 0 NBUF)) ∧
    returns (bread pid ROOTDEV bn) s0 (λ b s1, data (getb s1 b) = block_of (disk s) bn
      ∧ returns (brelse pid b) s1 (λ _ s2, quiet s2 ∧ ∀ c, block_of (disk s2) c = block_of (disk s) c))).
Proof.
  intros Hsz Hbl Hok. eapply returns_mono; [by apply (binit_ok s)|].
  intros u s0 (Hq & Hinv & Hd). split; [done|]. rewrite <- Hd. by apply read_release_ok.
Qed.

End Cache.

(** ** A concrete disk *)

Module RamDisk.

Definition contents (d : gmap Z (list Z)) (b : Z) : list Z := default [] (d !! b).

Definition device : BlockDevice (gmap Z (list Z)) := {|
  virtio_disk_rw b x write := λ d,
    if write then Ok x (<[b := x]> d) else Ok (contents d b) d
|}.

#[local] Existing Instance device.

Definition device_ok : BlockDeviceOk (gmap Z (list Z)).
Proof.
  refine {| dev_ok _ := True; block_of := contents |}.
  - intros d b x _. eexists _, _. split; [reflexivity|]. done.
  - intros d b x _. eexists _, _. split; [reflexivity|]. split_and!; [done|done|].
    intros c. unfold contents. destruct (decide (c = b)) as [->|].
    + by rewrite lookup_insert_eq.
    + by rewrite lookup_insert_ne.
Defined.

Definition boot : bcache (gmap Z (list Z)) := Bcache (replicate (S NBUF) buf0) {[ 5 := [1; 2; 3] ]}.

Lemma boot_blank i : blank (getb boot i).
Proof.
  assert (E : getb boot i = buf0); [|by rewrite E].
  unfold getb. change (bufs boot) with (replicate (S NBUF) buf0). generalize (S NBUF). intros n.
  destruct (replicate n buf0 !! i) as [x|] eqn:E; [|done]. by apply lookup_replicate_1 in E as [-> _].
Qed.

End RamDisk.

Section BioWitnesses.
#[local] Existing Instance RamDisk.device.
#[local] Existing Instance RamDisk.device_ok.

Lemma binit_quiet_reads_witness :
  returns binit RamDisk.boot (λ _ s0,
    returns (bread 1 ROOTDEV 5) s0 (λ b s1, data (getb s1 b) = [1; 2; 3])).
Proof.
  eapply returns_mono; [apply (binit_quiet_reads 1 RamDisk.boot 5);
    [reflexivity|apply RamDisk.boot_blank|exact I]|].
  intros u s0 [_ Hr]. eapply returns_mono; [exact Hr|]. intros b s1 [E _]. exact E.
Defined.

Lemma bread_returns_block_witness :
  ∃ s b, returns (bread 1 ROOTDEV 5) s (λ r s', r = b ∧ buffer_of 1 s' 5 b).
Proof.
  destruct (binit_ok RamDisk.boot) as (u & s & _ & (l & Hinv & Hq) & _);
    [reflexivity|apply RamDisk.boot_blank|exact I|].
  destruct (quiet_target s l 5 Hinv Hq) as (b & Ht & Hf). exists s, b.
  eapply returns_mono; [apply (bread_returns_block 1 s l 5 b Hinv Ht Hf)|].
  intros r s' (E & _ & Hb & _). auto.
Defined.

Lemma brelse_moves_to_front_witness :
  ∃ s b, returns (brelse 1 b) s (λ _ s', ∃ l', binv s' l' ∧ refcnt (getb s' b) = 0).
Proof.
  destruct (binit_ok RamDisk.boot) as (u & s & _ & (l & Hinv & Hq) & _);
    [reflexivity|apply RamDisk.boot_blank|exact I|].
  destruct (quiet_target s l 5 Hinv Hq) as (b & Ht & Hf).
  destruct (target_in s l 5 b Ht) as [Hin _].
  destruct (bread_ok 1 s l 5 b Hinv Ht Hf) as (r & s1 & _ & _ & Hinv1 & (_ & _ & _ & _ & Hl1) & _ & Hr1 & _).
  exists s1, b. destruct (brelse_moves_to_front 1 s1 l b Hinv1 Hin) as [H _].
  eapply returns_mono; [exact (H Hl1)|]. intros v s2 (l' & Hinv2 & _ & E & _). exists l'.
  split; [exact Hinv2|]. rewrite E, Hr1, Hq by exact Hin. reflexivity.
Defined.

End BioWitnesses.
