(* ===== verification/Fs.v ===== *)
(** kernel/fs/fs.c: the read-only file system: inodes, file contents,
    directories and path names, over the buffer cache.

    An inode pointer is an index of the inode table.  Sections under
    [itable.lock] are atomic steps. *)

From S2P Require Import Prelude Machine CString Kalloc Vm Bio.

(** ** On-disk and in-memory data *)

Definition BSIZE : Z := 1024.

Definition NDIRECT : Z := 11.

Definition NINDIRECT : Z := BSIZE / 4.

Definition NDINDIRECT : Z := NINDIRECT * NINDIRECT.

Definition FSMAGIC : Z := 0x10203040.

Definition ROOTINO : Z := 1.

Definition NINODE : nat := 50.

Definition DIRSIZ : Z := 14.

Definition T_DIR : Z := 1.

Definition T_FILE : Z := 2.

Definition T_DEVICE : Z := 3.

(** Inodes per block: [sizeof(struct dinode)] is 64. *)
Definition IPB : Z := BSIZE / 64.

(** [sizeof(struct dirent)] *)
Definition DIRENT : Z := 16.

(** Little-endian field of [n] bytes at [off] of a byte array. *)
Fixpoint le_at (n : nat) (d : list Z) (off : nat) : Z :=
  match n with
  | O => 0
  | S n' => u8 (default 0 (d !! off)) + 256 * le_at n' d (S off)
  end.

(** The [n] little-endian bytes of [z]. *)
Fixpoint le_bytes (n : nat) (z : Z) : list Z :=
  match n with
  | O => []
  | S n' => z mod 256 :: le_bytes n' (z / 256)
  end.

(** A 16-bit [short]. *)
Definition s16 (z : Z) : Z := (z + 2 ^ 15) mod 2 ^ 16 - 2 ^ 15.

(** [((uint* )d)[i]] *)
Definition word_at (d : list Z) (i : Z) : Z := le_at 4 d (Z.to_nat (4 * i)).

Record superblock := Superblock {
  magic : Z;
  fsize : Z;
  nblocks : Z;
  ninodes : Z;
  nlog : Z;
  logstart : Z;
  inodestart : Z;
  bmapstart : Z;
}.

Record inode := Inode {
  idev : Z;
  inum : Z;
  iref : Z;
  ilk : sleeplock;
  ivalid : bool;
  itype : Z;
  imajor : Z;
  iminor : Z;
  inlink : Z;
  isize : Z;
  addrs : list Z;     (* NDIRECT + 2 block addresses *)
}.

Definition inode0 : inode := Inode 0 0 0 (SleepLock false 0) false 0 0 0 0 0 [].

Record stat := Stat {
  st_dev : Z;
  st_ino : Z;
  st_type : Z;
  st_nlink : Z;
  st_size : Z;
}.

(** ** The buffer cache, as the file system sees it *)

Class BlockCache (B : Type) := {
  c_bread : Z → Z → M B nat;
  c_data : B → nat → list Z;
  c_brelse : nat → M B unit;
}.

Record fstate (B : Type) := FState {
  fkm : kmem_state;          (* memory, for copies to user space *)
  cache : B;
  itable : list inode;
  sb : superblock;
}.

Arguments FState {B} fkm cache itable sb.
Arguments fkm {B} f.
Arguments cache {B} f.
Arguments itable {B} f.
Arguments sb {B} f.

(** Where [either_copyout] stores: a user address of a page table, a physical
    address, or a kernel buffer whose bytes are returned. *)
Inductive dest :=
| UserVA (pt va : Z)
| KernPA (a : Z)
| KernBuf.

Section Operations.
Context {B : Type} `{BlockCache B}.
Context (pid : Z).          (* myproc()->pid *)

Abbreviation F := (M (fstate B)).

Definition on_cache {A} (m : M B A) : F A :=
  zoom cache (λ c s, FState (fkm s) c (itable s) (sb s)) m.

Definition on_mem {A} (m : K A) : F A :=
  zoom fkm (λ k s, FState k (cache s) (itable s) (sb s)) m.

Definition geti (s : fstate B) (i : nat) : inode := default inode0 (itable s !! i).

Definition seti (i : nat) (f : inode → inode) (s : fstate B) : fstate B :=
  FState (fkm s) (cache s) (<[i := f (geti s i)]> (itable s)) (sb s).

Definition with_iref (r : Z) (x : inode) : inode :=
  Inode (idev x) (inum x) r (ilk x) (ivalid x) (itype x) (imajor x) (iminor x) (inlink x) (isize x) (addrs x).

Definition with_ilk (l : sleeplock) (x : inode) : inode :=
  Inode (idev x) (inum x) (iref x) l (ivalid x) (itype x) (imajor x) (iminor x) (inlink x) (isize x) (addrs x).

(** [readsb] and [fsinit] *)
Definition readsb (dv : Z) : F unit :=
  let! b := on_cache (c_bread dv 1) in
  let! d := gets (λ s, c_data (cache s) b) in
  modify (λ s, FState (fkm s) (cache s) (itable s)
    (Superblock (word_at d 0) (word_at d 1) (word_at d 2) (word_at d 3)
                (word_at d 4) (word_at d 5) (word_at d 6) (word_at d 7))) ;;;
  on_cache (c_brelse b).

Definition fsinit (dv : Z) : F unit :=
  readsb dv ;;;
  let! m := gets (λ s, magic (sb s)) in
  if negb (m =? FSMAGIC) then panic "invalid file system" else ret tt.

Definition IBLOCK (i : Z) (s : superblock) : Z := u32 (i / IPB + inodestart s).

(** sleeplock.c on [ip->lock] *)
Definition iinit : F unit :=
  for_each (seq 0 NINODE) (λ i, modify (seti i (with_ilk (SleepLock false 0)))).

Definition acquiresleep_i (ip : nat) : F unit := λ s,
  if slocked (ilk (geti s ip)) then Sleeps (Z.of_nat ip) s
  else Ok tt (seti ip (with_ilk (SleepLock true pid)) s).

Definition releasesleep_i (ip : nat) : F unit := modify (seti ip (with_ilk (SleepLock false 0))).

Definition holdingsleep_i (ip : nat) : F bool :=
  gets (λ s, slocked (ilk (geti s ip)) && (spid (ilk (geti s ip)) =? pid)).

(** The scan of [iget]: the entry that has the inode, else the first empty
    one. *)
Fixpoint iget_scan (l : list inode) (ip : nat) (empty : option nat) (dv n : Z) : option nat * bool :=
  match l with
  | [] => (empty, false)
  | x :: l' =>
      if (0 <? iref x) && (idev x =? dv) && (inum x =? n) then (Some ip, true)
      else
        let empty := match empty with
                     | None => if iref x =? 0 then Some ip else None
                     | Some _ => empty
                     end in
        iget_scan l' (S ip) empty dv n
  end.

Definition iget (dv n : Z) : F nat :=
  let! tab := gets itable in
  match iget_scan tab 0 None dv n with
  | (Some ip, true) => modify (seti ip (λ x, with_iref (iref x + 1) x)) ;;; ret ip
  | (Some ip, false) =>
      modify (seti ip (λ x, Inode dv n 1 (ilk x) false (itype x) (imajor x) (iminor x) (inlink x) (isize x) (addrs x))) ;;;
      ret ip
  | (None, _) => panic "iget: no inodes"
  end.

Definition idup (ip : nat) : F nat :=
  modify (seti ip (λ x, with_iref (iref x + 1) x)) ;;; ret ip.

(** The fields that [ilock] copies from [struct dinode] number [inum % IPB] of
    the block [d]. *)
Definition load_dinode (d : list Z) (x : inode) : inode :=
  let o := Z.to_nat (64 * (inum x mod IPB)) in
  Inode (idev x) (inum x) (iref x) (ilk x) (ivalid x)
    (s16 (le_at 2 d o)) (s16 (le_at 2 d (o + 2))) (s16 (le_at 2 d (o + 4))) (s16 (le_at 2 d (o + 6)))
    (le_at 4 d (o + 8)) ((λ i, le_at 4 d (o + 12 + 4 * i)) <$> seq 0 13).

Definition set_ivalid (x : inode) : inode :=
  Inode (idev x) (inum x) (iref x) (ilk x) true (itype x) (imajor x) (iminor x) (inlink x) (isize x) (addrs x).

Definition ilock (ip : nat) : F unit :=
  let! x := gets (λ s, geti s ip) in
  if iref x <? 1 then panic "ilock"
  else
    acquiresleep_i ip ;;;
    let! v := gets (λ s, ivalid (geti s ip)) in
    if v then ret tt
    else
      let! s := gets id in
      let! b := on_cache (c_bread (idev (geti s ip)) (IBLOCK (inum (geti s ip)) (sb s))) in
      let! d := gets (λ s, c_data (cache s) b) in
      modify (seti ip (load_dinode d)) ;;;
      on_cache (c_brelse b) ;;;
      modify (seti ip set_ivalid) ;;;
      let! t := gets (λ s, itype (geti s ip)) in
      if t =? 0 then panic "ilock: no type" else ret tt.

Definition iunlock (ip : nat) : F unit :=
  let! h := holdingsleep_i ip in
  let! x := gets (λ s, geti s ip) in
  if negb h || (iref x <? 1) then panic "iunlock" else releasesleep_i ip.

Definition iput (ip : nat) : F unit := modify (seti ip (λ x, with_iref (iref x - 1) x)).

Definition iunlockput (ip : nat) : F unit := iunlock ip ;;; iput ip.

(** ** Inode content *)

(** [a[i]] of the block at [addr]. *)
Definition read_word (dv addr i : Z) : F Z :=
  let! b := on_cache (c_bread dv addr) in
  let! d := gets (λ s, c_data (cache s) b) in
  on_cache (c_brelse b) ;;;
  ret (word_at d i).

Definition bmap (x : inode) (bn : Z) : F Z :=
  if bn <? NDIRECT then ret (default 0 (addrs x !! Z.to_nat bn))
  else
    let bn := bn - NDIRECT in
    if bn <? NINDIRECT then
      let addr := default 0 (addrs x !! Z.to_nat NDIRECT) in
      if addr =? 0 then ret 0 else read_word (idev x) addr bn
    else
      let bn := bn - NINDIRECT in
      if bn <? NDINDIRECT then
        let addr := default 0 (addrs x !! Z.to_nat (NDIRECT + 1)) in
        if addr =? 0 then ret 0
        else
          let! addr := read_word (idev x) addr (bn / NINDIRECT) in
          if addr =? 0 then ret 0 else read_word (idev x) addr (bn mod NINDIRECT)
      else panic "bmap: out of range".

Definition stati (ip : nat) : F stat :=
  gets (λ s, let x := geti s ip in Stat (idev x) (inum x) (itype x) (inlink x) (isize x)).

(** [either_copyout] (proc.c) of the bytes [bs] to offset [o] of [dst]. *)
Definition either_copyout (dst : dest) (o : Z) (bs : list Z) : F (Z * list Z) :=
  match dst with
  | UserVA pt va =>
      let! r := on_mem (copyout pt (u64 (va + o)) bs (Z.of_nat (length bs))) in
      ret (r, [])
  | KernPA a =>
      modify (λ s, FState (with_mem (put_bytes (mem (fkm s)) (a + o) bs) (fkm s)) (cache s) (itable s) (sb s)) ;;;
      ret (0, [])
  | KernBuf => ret (0, bs)
  end.

(** The loop of [readi]; returns the count and the bytes stored in a kernel
    buffer. *)
Fixpoint readi_loop (fuel : nat) (x : inode) (dst : dest) (tot off n : Z) (out : list Z) : F (Z * list Z) :=
  match fuel with
  | O => nofuel
  | S f =>
      if negb (tot <? n) then ret (tot, out)
      else
        let! addr := bmap x (off / BSIZE) in
        if addr =? 0 then ret (tot, out)
        else
          let! b := on_cache (c_bread (idev x) addr) in
          let m := Z.min (n - tot) (BSIZE - off mod BSIZE) in
          let! d := gets (λ s, c_data (cache s) b) in
          let! r := either_copyout dst tot (take (Z.to_nat m) (drop (Z.to_nat (off mod BSIZE)) d)) in
          if fst r =? -1 then on_cache (c_brelse b) ;;; ret (-1, out)
          else
            on_cache (c_brelse b) ;;;
            readi_loop f x dst (tot + m) (off + m) n (out ++ snd r)
  end.

Definition readi (ip : nat) (dst : dest) (off n : Z) : F (Z * list Z) :=
  let! x := gets (λ s, geti s ip) in
  if (isize x <? off) || (u32 (off + n) <? off) then ret (0, [])
  else
    let n := if isize x <? u32 (off + n) then isize x - off else n in
    readi_loop (S (S (Z.to_nat (n / BSIZE + 1)))) x dst 0 off n [].

(** ** Directories *)

Definition namecmp (s t : list Z) : Z := strncmp s t DIRSIZ.

(** The loop of [dirlookup]; the result pairs the inode with the offset stored
    in [*poff]. *)
Fixpoint dirlookup_loop (fuel : nat) (dp : nat) (name : list Z) (off : Z) : F (option (nat * Z)) :=
  match fuel with
  | O => nofuel
  | S f =>
      let! x := gets (λ s, geti s dp) in
      if negb (off <? isize x) then ret None
      else
        let! r := readi dp KernBuf off DIRENT in
        let '(n, de) := r in
        if negb (n =? DIRENT) then panic "dirlookup read"
        else if le_at 2 de 0 =? 0 then dirlookup_loop f dp name (u32 (off + DIRENT))
        else if namecmp name (drop 2 de) =? 0 then
          let! ip := iget (idev x) (le_at 2 de 0) in
          ret (Some (ip, off))
        else dirlookup_loop f dp name (u32 (off + DIRENT))
  end.

Definition dirlookup (dp : nat) (name : list Z) : F (option (nat * Z)) :=
  let! x := gets (λ s, geti s dp) in
  if negb (itype x =? T_DIR) then panic "dirlookup not DIR"
  else dirlookup_loop (S (Z.to_nat (isize x / DIRENT + 1))) dp name 0.

(** ** Paths

    A path is the list of its characters; it ends at the first NUL or at the
    end of the list. *)

Definition SLASH : Z := 47.

Fixpoint skip_slashes (path : list Z) : list Z :=
  match path with
  | c :: p => if c =? SLASH then skip_slashes p else path
  | [] => []
  end.

(** [while ( *path != '/' && *path != 0) path++]: the element and what follows. *)
Fixpoint span_elem (path : list Z) : list Z * list Z :=
  match path with
  | c :: p =>
      if negb (c =? SLASH) && negb (c =? 0)
      then let '(e, r) := span_elem p in (c :: e, r) else ([], path)
  | [] => ([], [])
  end.

(** The rest of the path and the new contents of [name] (DIRSIZ bytes). *)
Definition skipelem (path name : list Z) : option (list Z * list Z) :=
  let path := skip_slashes path in
  if chr path 0 =? 0 then None
  else
    let '(s, path) := span_elem path in
    let len := Z.of_nat (length s) in
    let name := if DIRSIZ <=? len then take (Z.to_nat DIRSIZ) s
                else s ++ 0 :: drop (S (length s)) name in
    Some (skip_slashes path, name).

(** The loop of [namex]; each round consumes at least one character. *)
Fixpoint namex_loop (fuel : nat) (ip : nat) (path name : list Z) : F (option nat) :=
  match fuel with
  | O => nofuel
  | S f =>
      match skipelem path name with
      | None => ret (Some ip)
      | Some (path, name) =>
          ilock ip ;;;
          let! t := gets (λ s, itype (geti s ip)) in
          if negb (t =? T_DIR) then iunlockput ip ;;; ret None
          else
            let! r := dirlookup ip name in
            match r with
            | None => iunlockput ip ;;; ret None
            | Some (next, _) => iunlockput ip ;;; namex_loop f next path name
            end
      end
  end.

Definition namex (cwd : nat) (path name : list Z) : F (option nat) :=
  let! ip := (if chr path 0 =? SLASH then iget ROOTDEV ROOTINO else idup cwd) in
  namex_loop (S (length path)) ip path name.

Definition namei (cwd : nat) (path : list Z) : F (option nat) :=
  namex cwd path (replicate (Z.to_nat DIRSIZ) 0).

End Operations.
