(* ===== verification/Bytes.v ===== *)
(** Little-endian numbers in byte arrays: the lemmas behind the on-disk
    structures, the argument vectors and the structures copied to user space. *)

From S2P Require Import Prelude Machine CString Bio Fs.

Lemma length_le_bytes n z : length (le_bytes n z) = n.
Proof. revert z. induction n as [|n IH]; intros z; simpl; [done|]. by rewrite IH. Qed.

Lemma le_at_range n d o : 0 ≤ le_at n d o < 256 ^ Z.of_nat n.
Proof.
  revert o. induction n as [|n IH]; intros o; [simpl; lia|]. cbn [le_at]. specialize (IH (S o)).
  pose proof (Z.mod_pos_bound (default 0 (d !! o)) (2 ^ 8) ltac:(lia)). unfold u8.
  rewrite Nat2Z.inj_succ, Z.pow_succ_r by lia. lia.
Qed.

(** A number depends on its own bytes only. *)
Lemma le_at_ext n d d' o o' :
  (∀ i, (i < n)%nat → d !! (o + i)%nat = d' !! (o' + i)%nat) → le_at n d o = le_at n d' o'.
Proof.
  revert o o'. induction n as [|n IH]; intros o o' Heq; [done|]. cbn [le_at]. f_equal.
  - specialize (Heq 0%nat ltac:(lia)). by rewrite !Nat.add_0_r in Heq; rewrite Heq.
  - f_equal. apply IH. intros i Hi. specialize (Heq (S i) ltac:(lia)). by rewrite !Nat.add_succ_comm.
Qed.

Lemma le_at_app_r n l1 l2 k : le_at n (l1 ++ l2) (length l1 + k) = le_at n l2 k.
Proof. apply le_at_ext. intros i _. rewrite lookup_app_r by lia. f_equal. lia. Qed.

Lemma le_at_app_l n l1 l2 k : (k + n ≤ length l1)%nat → le_at n (l1 ++ l2) k = le_at n l1 k.
Proof. intros Hk. apply le_at_ext. intros i Hi. by rewrite lookup_app_l by lia. Qed.

Lemma le_at_cons n c l k : le_at n (c :: l) (S k) = le_at n l k.
Proof. apply (le_at_app_r n [c]). Qed.

(** Encoding and decoding. *)
Lemma le_at_le_bytes n z : le_at n (le_bytes n z) 0 = z mod 256 ^ Z.of_nat n.
Proof.
  revert z. induction n as [|n IH]; intros z; [by rewrite Z.mod_1_r|].
  change (u8 (z mod 256) + 256 * le_at n (z mod 256 :: le_bytes n (z / 256)) 1 = z mod 256 ^ Z.of_nat (S n)).
  rewrite le_at_cons, IH, u8_id by (apply Z.mod_pos_bound; lia).
  rewrite Nat2Z.inj_succ, Z.pow_succ_r, Z.rem_mul_r by lia. done.
Qed.

Lemma le_at_head n z l : 0 ≤ z < 256 ^ Z.of_nat n → le_at n (le_bytes n z ++ l) 0 = z.
Proof.
  intros Hz. rewrite le_at_app_l by (by rewrite length_le_bytes). by rewrite le_at_le_bytes, Z.mod_small.
Qed.

Lemma le_at_skip n m z l k : (m ≤ k)%nat → le_at n (le_bytes m z ++ l) k = le_at n l (k - m).
Proof.
  intros Hk. rewrite <- (le_at_app_r n (le_bytes m z) l (k - m)), length_le_bytes. f_equal. lia.
Qed.

(** Arrays of numbers. *)
Lemma length_le_array n (l : list Z) : length (l ≫= le_bytes n) = (n * length l)%nat.
Proof. induction l as [|z l IH]; [simpl; lia|]. rewrite bind_cons, length_app, length_le_bytes, IH. simpl. lia. Qed.

Lemma le_at_array n (l : list Z) i z :
  l !! i = Some z → 0 ≤ z < 256 ^ Z.of_nat n → le_at n (l ≫= le_bytes n) (n * i) = z.
Proof.
  revert i. induction l as [|y l IH]; intros [|i] Hi Hz; try done.
  - injection Hi as ->. rewrite Nat.mul_0_r, bind_cons. by apply le_at_head.
  - simpl in Hi. rewrite bind_cons, le_at_skip by lia. rewrite <- (IH i) by done. f_equal. lia.
Qed.

Lemma le_bytes_byte n z : Forall (λ c, 0 ≤ c < 256) (le_bytes n z).
Proof. revert z. induction n as [|n IH]; intros z; constructor; [apply Z.mod_pos_bound; lia|apply IH]. Qed.

(** Zeroed memory reads as zero. *)
Lemma le_at_zeroes n k o : le_at n (replicate k 0) o = 0.
Proof.
  revert o. induction n as [|n IH]; intros o; [done|]. cbn [le_at]. rewrite IH.
  replace (default 0 (replicate k 0 !! o)) with 0; [done|].
  destruct (replicate k 0 !! o) as [c|] eqn:E; [|done]. by apply lookup_replicate in E as [-> _].
Qed.
