(* ===== verification/Virtio.v ===== *)
(** kernel/dev/virtio_disk.c: the driver of the virtio block device.

    The queue memory shared with the device is the record [vdisk], with the
    fields of [struct disk] and of the three queue structures it points to.  The
    driver is written against [DiskHost], what it needs of the rest of the
    kernel: its lock, sleep and wakeup, page allocation and the registers of the
    device.  Reading outside an array is undefined in C and a panic here. *)

From S2P Require Import Prelude Machine Kalloc Bio.

(** ** virtio.h *)

Definition VIRTIO_MMIO_MAGIC_VALUE : Z := 0x000.
Definition VIRTIO_MMIO_VERSION : Z := 0x004.
Definition VIRTIO_MMIO_DEVICE_ID : Z := 0x008.
Definition VIRTIO_MMIO_VENDOR_ID : Z := 0x00c.
Definition VIRTIO_MMIO_DEVICE_FEATURES : Z := 0x010.
Definition VIRTIO_MMIO_DRIVER_FEATURES : Z := 0x020.
Definition VIRTIO_MMIO_QUEUE_SEL : Z := 0x030.
Definition VIRTIO_MMIO_QUEUE_NUM_MAX : Z := 0x034.
Definition VIRTIO_MMIO_QUEUE_NUM : Z := 0x038.
Definition VIRTIO_MMIO_QUEUE_READY : Z := 0x044.
Definition VIRTIO_MMIO_QUEUE_NOTIFY : Z := 0x050.
Definition VIRTIO_MMIO_INTERRUPT_STATUS : Z := 0x060.
Definition VIRTIO_MMIO_INTERRUPT_ACK : Z := 0x064.
Definition VIRTIO_MMIO_STATUS : Z := 0x070.
Definition VIRTIO_MMIO_QUEUE_DESC_LOW : Z := 0x080.
Definition VIRTIO_MMIO_QUEUE_DESC_HIGH : Z := 0x084.
Definition VIRTIO_MMIO_DRIVER_DESC_LOW : Z := 0x090.
Definition VIRTIO_MMIO_DRIVER_DESC_HIGH : Z := 0x094.
Definition VIRTIO_MMIO_DEVICE_DESC_LOW : Z := 0x0a0.
Definition VIRTIO_MMIO_DEVICE_DESC_HIGH : Z := 0x0a4.

Definition VIRTIO_CONFIG_S_ACKNOWLEDGE : Z := 1.
Definition VIRTIO_CONFIG_S_DRIVER : Z := 2.
Definition VIRTIO_CONFIG_S_DRIVER_OK : Z := 4.
Definition VIRTIO_CONFIG_S_FEATURES_OK : Z := 8.

Definition VIRTIO_BLK_F_RO : Z := 5.
Definition VIRTIO_BLK_F_SCSI : Z := 7.
Definition VIRTIO_BLK_F_CONFIG_WCE : Z := 11.
Definition VIRTIO_BLK_F_MQ : Z := 12.
Definition VIRTIO_F_ANY_LAYOUT : Z := 27.
Definition VIRTIO_RING_F_INDIRECT_DESC : Z := 28.
Definition VIRTIO_RING_F_EVENT_IDX : Z := 29.

Definition NUM : nat := 8.

Record virtq_desc := Desc {
  d_addr : Z;
  d_len : Z;
  d_flags : Z;
  d_next : Z;
}.

Definition VRING_DESC_F_NEXT : Z := 1.

Definition VRING_DESC_F_WRITE : Z := 2.

Definition VIRTIO_BLK_T_IN : Z := 0.

Definition VIRTIO_BLK_T_OUT : Z := 1.

Record virtio_blk_req := BlkReq {
  r_type : Z;
  r_reserved : Z;
  r_sector : Z;
}.

#[global] Instance eta_desc : Eta virtq_desc := λ d, Desc (d_addr d) (d_len d) (d_flags d) (d_next d).

#[global] Instance eta_req : Eta virtio_blk_req := λ r, BlkReq (r_type r) (r_reserved r) (r_sector r).

(** An entry of [disk.info]. *)
Record vinfo := VInfo {
  i_b : option nat;
  i_status : Z;
}.

#[global] Instance eta_vinfo : Eta vinfo := λ i, VInfo (i_b i) (i_status i).

Record vdisk := VDisk {
  desc_pa : Z;                (* the pages of the queue *)
  avail_pa : Z;
  used_pa : Z;
  desc : list virtq_desc;     (* disk.desc[NUM] *)
  avail_idx : Z;              (* disk.avail->idx *)
  avail_ring : list Z;
  uidx : Z;                   (* disk.used->idx *)
  uring : list Z;             (* the id of every element of disk.used->ring *)
  free : list bool;
  used_idx : Z;
  info : list vinfo;
  ops : list virtio_blk_req;
  in_disk : list bool;        (* b->disk of every buffer *)
}.

#[global] Instance eta_vdisk : Eta vdisk := λ v,
  VDisk (desc_pa v) (avail_pa v) (used_pa v) (desc v) (avail_idx v) (avail_ring v) (uidx v) (uring v)
    (free v) (used_idx v) (info v) (ops v) (in_disk v).

Definition desc0 : virtq_desc := Desc 0 0 0 0.

Definition req0 : virtio_blk_req := BlkReq 0 0 0.

Definition info0 : vinfo := VInfo None 0.

(** Addresses of the driver's objects. *)
Class DiskSymbols := {
  vdisk_lock : Z;
  free_chan : Z;               (* &disk.free[0] *)
  op_addr : nat → Z;           (* &disk.ops[i] *)
  status_addr : nat → Z;       (* &disk.info[i].status *)
  buf_addr : nat → Z;          (* a struct buf, the channel of its request *)
  data_addr : nat → Z;         (* its data *)
}.

(** The rest of the kernel, as the driver calls it. *)
Class DiskHost (S : Type) := {
  h_disk : S → vdisk;
  h_set : vdisk → S → S;
  h_initlock : Z → M S unit;
  h_acquire : Z → M S unit;
  h_release : Z → M S unit;
  h_sleep : Z → Z → M S unit;
  h_wakeup : Z → M S unit;
  h_kalloc : M S Z;
  h_read : Z → M S Z;          (* *R(r) *)
  h_write : Z → Z → M S unit;  (* *R(r) = v *)
}.

Section Driver.
Context {S : Type} {HO : DiskHost S} {SYM : DiskSymbols}.

Definition vget : M S vdisk := gets h_disk.

Definition vmod (f : vdisk → vdisk) : M S unit := modify (λ s, h_set (f (h_disk s)) s).

(** Element [i] of an array of the driver; outside it, undefined. *)
Definition at_ {A} (l : vdisk → list A) (i : nat) : M S A :=
  let! v := vget in
  match l v !! i with Some x => ret x | None => panic "undefined behaviour" end.

Definition set_desc (i : nat) (f : virtq_desc → virtq_desc) (v : vdisk) : vdisk :=
  v <| desc := <[i := f (default desc0 (desc v !! i))]> (desc v) |>.

Definition set_free (i : nat) (b : bool) (v : vdisk) : vdisk := v <| free := <[i := b]> (free v) |>.

Definition set_info (i : nat) (f : vinfo → vinfo) (v : vdisk) : vdisk :=
  v <| info := <[i := f (default info0 (info v !! i))]> (info v) |>.

Definition set_op (i : nat) (r : virtio_blk_req) (v : vdisk) : vdisk := v <| ops := <[i := r]> (ops v) |>.

Definition set_in_disk (b : nat) (x : bool) (v : vdisk) : vdisk := v <| in_disk := <[b := x]> (in_disk v) |>.

(** [features &= ~(1 << n)] *)
Definition without (n features : Z) : Z := Z.land features (Z.lnot (Z.shiftl 1 n)).

Definition negotiate (features : Z) : Z :=
  without VIRTIO_RING_F_INDIRECT_DESC (without VIRTIO_RING_F_EVENT_IDX (without VIRTIO_F_ANY_LAYOUT
    (without VIRTIO_BLK_F_MQ (without VIRTIO_BLK_F_CONFIG_WCE
      (without VIRTIO_BLK_F_SCSI (without VIRTIO_BLK_F_RO features)))))).

Definition virtio_disk_init : M S unit :=
  h_initlock vdisk_lock ;;;
  let! m := h_read VIRTIO_MMIO_MAGIC_VALUE in
  let! ver := (if negb (m =? 0x74726976) then ret 0 else h_read VIRTIO_MMIO_VERSION) in
  let! dev := (if negb (ver =? 2) then ret 0 else h_read VIRTIO_MMIO_DEVICE_ID) in
  let! ven := (if negb (dev =? 2) then ret 0 else h_read VIRTIO_MMIO_VENDOR_ID) in
  if negb (ven =? 0x554d4551) then panic "could not find virtio disk"
  else
    h_write VIRTIO_MMIO_STATUS 0 ;;;
    let status := VIRTIO_CONFIG_S_ACKNOWLEDGE in
    h_write VIRTIO_MMIO_STATUS status ;;;
    let status := Z.lor status VIRTIO_CONFIG_S_DRIVER in
    h_write VIRTIO_MMIO_STATUS status ;;;
    let! features := h_read VIRTIO_MMIO_DEVICE_FEATURES in
    h_write VIRTIO_MMIO_DRIVER_FEATURES (u32 (negotiate features)) ;;;
    let status := Z.lor status VIRTIO_CONFIG_S_FEATURES_OK in
    h_write VIRTIO_MMIO_STATUS status ;;;
    let! status := h_read VIRTIO_MMIO_STATUS in
    if Z.land status VIRTIO_CONFIG_S_FEATURES_OK =? 0 then panic "virtio disk FEATURES_OK unset"
    else
      h_write VIRTIO_MMIO_QUEUE_SEL 0 ;;;
      let! ready := h_read VIRTIO_MMIO_QUEUE_READY in
      if negb (ready =? 0) then panic "virtio disk should not be ready"
      else
        let! max := h_read VIRTIO_MMIO_QUEUE_NUM_MAX in
        if max =? 0 then panic "virtio disk has no queue 0"
        else if max <? Z.of_nat NUM then panic "virtio disk max queue too short"
        else
          let! d := h_kalloc in
          let! a := h_kalloc in
          let! u := h_kalloc in
          vmod (λ v, v <| desc_pa := d |> <| avail_pa := a |> <| used_pa := u |>) ;;;
          if (d =? 0) || (a =? 0) || (u =? 0) then panic "virtio disk kalloc"
          else
            vmod (λ v, v <| desc := replicate NUM desc0 |>) ;;;
            vmod (λ v, v <| avail_idx := 0 |> <| avail_ring := replicate NUM 0 |>) ;;;
            vmod (λ v, v <| uidx := 0 |> <| uring := replicate NUM 0 |>) ;;;
            h_write VIRTIO_MMIO_QUEUE_NUM (Z.of_nat NUM) ;;;
            h_write VIRTIO_MMIO_QUEUE_DESC_LOW (u32 d) ;;;
            h_write VIRTIO_MMIO_QUEUE_DESC_HIGH (Z.shiftr d 32) ;;;
            h_write VIRTIO_MMIO_DRIVER_DESC_LOW (u32 a) ;;;
            h_write VIRTIO_MMIO_DRIVER_DESC_HIGH (Z.shiftr a 32) ;;;
            h_write VIRTIO_MMIO_DEVICE_DESC_LOW (u32 u) ;;;
            h_write VIRTIO_MMIO_DEVICE_DESC_HIGH (Z.shiftr u 32) ;;;
            h_write VIRTIO_MMIO_QUEUE_READY 1 ;;;
            for_each (seq 0 NUM) (λ i, vmod (set_free i true)) ;;;
            h_write VIRTIO_MMIO_STATUS (Z.lor status VIRTIO_CONFIG_S_DRIVER_OK).

(** ** Descriptors *)

Fixpoint first_true (l : list bool) (i : nat) : option nat :=
  match l with
  | [] => None
  | b :: l' => if b then Some i else first_true l' (i + 1)
  end.

Definition alloc_desc : M S (option nat) :=
  let! v := vget in
  match first_true (free v) 0 with
  | Some i => vmod (set_free i false) ;;; ret (Some i)
  | None => ret None
  end.

Definition free_desc (i : nat) : M S unit :=
  if (NUM <=? i)%nat then panic "free_desc 1"
  else
    let! f := at_ free i in
    if f : bool then panic "free_desc 2"
    else
      vmod (set_desc i (λ d, d <| d_addr := 0 |>)) ;;;
      vmod (set_desc i (λ d, d <| d_len := 0 |>)) ;;;
      vmod (set_desc i (λ d, d <| d_flags := 0 |>)) ;;;
      vmod (set_desc i (λ d, d <| d_next := 0 |>)) ;;;
      vmod (set_free i true) ;;;
      h_wakeup free_chan.

(** The [while (1)] of [free_chain]: every round frees a descriptor. *)
Fixpoint free_chain_loop (fuel : nat) (i : nat) : M S unit :=
  match fuel with
  | O => nofuel
  | Datatypes.S f =>
      let! d := at_ desc i in
      free_desc i ;;;
      if negb (Z.land (d_flags d) VRING_DESC_F_NEXT =? 0) then free_chain_loop f (Z.to_nat (d_next d)) else ret tt
  end.

Definition free_chain (i : nat) : M S unit := free_chain_loop (NUM + 1) i.

(** The loop of [alloc3_desc]; [idx] holds the descriptors already taken. *)
Fixpoint alloc3_loop (n : nat) (idx : list nat) : M S (option (list nat)) :=
  match n with
  | O => ret (Some idx)
  | Datatypes.S n' =>
      let! r := alloc_desc in
      match r with
      | None => for_each idx free_desc ;;; ret None
      | Some i => alloc3_loop n' (idx ++ [i])
      end
  end.

Definition alloc3_desc : M S (option (list nat)) := alloc3_loop 3 [].

(** [while (1) { if (alloc3_desc(idx) == 0) break; sleep(...); }] *)
Fixpoint alloc3_wait (fuel : nat) : M S (list nat) :=
  match fuel with
  | O => nofuel
  | Datatypes.S f =>
      let! r := alloc3_desc in
      match r with
      | Some idx => ret idx
      | None => h_sleep free_chan vdisk_lock ;;; alloc3_wait f
      end
  end.

(** ** Requests *)

Definition blk_req (write : bool) (blockno : Z) : virtio_blk_req :=
  BlkReq (if write then VIRTIO_BLK_T_OUT else VIRTIO_BLK_T_IN) 0 (u32 (blockno * 2)).

(** [virtio_disk_rw] from the formatting of the descriptors to the notification
    of the device. *)
Definition submit (b : nat) (blockno : Z) (write : bool) (i0 i1 i2 : nat) : M S unit :=
  vmod (set_op i0 (blk_req write blockno)) ;;;
  vmod (set_desc i0 (λ d, d <| d_addr := op_addr i0 |>)) ;;;
  vmod (set_desc i0 (λ d, d <| d_len := 16 |>)) ;;;
  vmod (set_desc i0 (λ d, d <| d_flags := VRING_DESC_F_NEXT |>)) ;;;
  vmod (set_desc i0 (λ d, d <| d_next := Z.of_nat i1 |>)) ;;;
  vmod (set_desc i1 (λ d, d <| d_addr := data_addr b |>)) ;;;
  vmod (set_desc i1 (λ d, d <| d_len := 1024 |>)) ;;;
  vmod (set_desc i1 (λ d, d <| d_flags := if write then 0 else VRING_DESC_F_WRITE |>)) ;;;
  vmod (set_desc i1 (λ d, d <| d_flags := Z.lor (d_flags d) VRING_DESC_F_NEXT |>)) ;;;
  vmod (set_desc i1 (λ d, d <| d_next := Z.of_nat i2 |>)) ;;;
  vmod (set_info i0 (λ x, x <| i_status := 0xff |>)) ;;;
  vmod (set_desc i2 (λ d, d <| d_addr := status_addr i0 |>)) ;;;
  vmod (set_desc i2 (λ d, d <| d_len := 1 |>)) ;;;
  vmod (set_desc i2 (λ d, d <| d_flags := VRING_DESC_F_WRITE |>)) ;;;
  vmod (set_desc i2 (λ d, d <| d_next := 0 |>)) ;;;
  vmod (set_in_disk b true) ;;;
  vmod (set_info i0 (λ x, x <| i_b := Some b |>)) ;;;
  vmod (λ v, v <| avail_ring := <[Z.to_nat (avail_idx v mod Z.of_nat NUM) := Z.of_nat i0]> (avail_ring v) |>) ;;;
  vmod (λ v, v <| avail_idx := u16 (avail_idx v + 1) |>) ;;;
  h_write VIRTIO_MMIO_QUEUE_NOTIFY 0.

(** [while (b->disk == 1) sleep(b, &disk.vdisk_lock);] *)
Fixpoint wait_done (fuel : nat) (b : nat) : M S unit :=
  match fuel with
  | O => nofuel
  | Datatypes.S f =>
      let! x := at_ in_disk b in
      if x : bool then h_sleep (buf_addr b) vdisk_lock ;;; wait_done f b else ret tt
  end.

(** What follows the wait. *)
Definition finish (i0 : nat) : M S unit :=
  vmod (set_info i0 (λ x, x <| i_b := None |>)) ;;;
  free_chain i0.

(** [virtio_disk_rw] of buffer [b], which holds block [blockno]. *)
Definition virtio_rw (fuel : nat) (b : nat) (blockno : Z) (write : bool) : M S unit :=
  h_acquire vdisk_lock ;;;
  let! idx := alloc3_wait fuel in
  match idx with
  | [i0; i1; i2] =>
      submit b blockno write i0 i1 i2 ;;;
      wait_done fuel b ;;;
      finish i0 ;;;
      h_release vdisk_lock
  | _ => panic "undefined behaviour"
  end.

(** ** The interrupt *)

(** One round of the loop of [virtio_disk_intr]. *)
Definition complete_one : M S unit :=
  let! v := vget in
  let! id := at_ uring (Z.to_nat (used_idx v mod Z.of_nat NUM)) in
  let! x := at_ info (Z.to_nat id) in
  if negb (i_status x =? 0) then panic "virtio_disk_intr status"
  else
    match i_b x with
    | None => panic "kerneltrap"
    | Some b =>
        vmod (set_in_disk b false) ;;;
        h_wakeup (buf_addr b) ;;;
        vmod (λ v, v <| used_idx := u16 (used_idx v + 1) |>)
    end.

Fixpoint intr_loop (fuel : nat) : M S unit :=
  match fuel with
  | O => nofuel
  | Datatypes.S f =>
      let! v := vget in
      if negb (used_idx v =? uidx v) then complete_one ;;; intr_loop f else ret tt
  end.

(** The device adds at most [NUM] elements that the driver has not seen. *)
Definition virtio_disk_intr : M S unit :=
  h_acquire vdisk_lock ;;;
  let! st := h_read VIRTIO_MMIO_INTERRUPT_STATUS in
  h_write VIRTIO_MMIO_INTERRUPT_ACK (Z.land st 3) ;;;
  intr_loop (NUM + 1) ;;;
  h_release vdisk_lock.

End Driver.
