(* ===== verification/VirtioSpec.v ===== *)
(** The disk driver and the device as a transition system: any number of
    requests in flight, served in any order. *)

From S2P Require Import Prelude Machine Kalloc Bio Virtio.

(** ** What the driver relies on

    Wakeups and register accesses of the host leave the driver's state alone;
    [host_ok] is whatever the host needs for that. *)

Class DiskHostOk (S : Type) `{DiskHost S} := {
  host_ok : S → Prop;
  disk_set v s : h_disk (h_set v s) = v;
  set_set v w s : h_set v (h_set w s) = h_set v s;
  ok_set v s : host_ok s → host_ok (h_set v s);
  wakeup_keeps c s : host_ok s → returns (h_wakeup c) s (λ _ s', h_disk s' = h_disk s ∧ host_ok s');
  write_keeps r x s : host_ok s → returns (h_write r x) s (λ _ s', h_disk s' = h_disk s ∧ host_ok s');
}.

Section Driver.
Context {S : Type} `{HOK : DiskHostOk S} {SYM : DiskSymbols}.
Implicit Types (s : S) (v : vdisk).

(** [m] changes the driver's state to [f] of it. *)
Definition updates {A} (m : M S A) s (Q : A → vdisk → Prop) : Prop :=
  returns m s (λ a s', Q a (h_disk s') ∧ host_ok s').

Lemma updates_vmod f (k : unit → M S unit) s (Q : unit → vdisk → Prop) :
  updates (k tt) (h_set (f (h_disk s)) s) Q → updates (bind (vmod f) k) s Q.
Proof. done. Qed.

Lemma updates_vmod_set f (k : unit → M S unit) v s (Q : unit → vdisk → Prop) :
  updates (k tt) (h_set (f v) s) Q → updates (bind (vmod f) k) (h_set v s) Q.
Proof. intros Hk. apply updates_vmod. by rewrite disk_set, set_set. Qed.

Lemma updates_vget {C} (k : vdisk → M S C) s (Q : C → vdisk → Prop) :
  updates (k (h_disk s)) s Q → updates (bind vget k) s Q.
Proof. done. Qed.

Lemma updates_bind {A C} (m : M S A) (k : A → M S C) s R Q :
  updates m s R → (∀ a s', R a (h_disk s') → host_ok s' → updates (k a) s' Q) → updates (bind m k) s Q.
Proof. intros Hm Hk. eapply returns_bind; [exact Hm|]. intros a s' [HR Hok]. by apply Hk. Qed.

Lemma updates_mono {A} (m : M S A) s (Q R : A → vdisk → Prop) :
  updates m s Q → (∀ a v, Q a v → R a v) → updates m s R.
Proof. intros Hm HQ. eapply returns_mono; [exact Hm|]. intros a s' [? ?]. auto. Qed.

Lemma updates_ret {A} (a : A) s (Q : A → vdisk → Prop) : host_ok s → Q a (h_disk s) → updates (ret a) s Q.
Proof. intros. by apply returns_ret. Qed.

Lemma updates_wakeup c s (Q : unit → vdisk → Prop) :
  host_ok s → Q tt (h_disk s) → updates (h_wakeup c) s Q.
Proof. intros Hs HQ. eapply returns_mono; [by apply wakeup_keeps|]. intros [] s' [-> ?]. done. Qed.

Lemma updates_at {A C} (l : vdisk → list A) i x (k : A → M S C) s Q :
  l (h_disk s) !! i = Some x → updates (k x) s Q → updates (bind (at_ l i) k) s Q.
Proof.
  intros E Hk. eapply (returns_bind _ _ _ (λ a s', a = x ∧ s' = s)); [|by intros a s' [-> ->]].
  unfold at_, vget, returns, bind, gets, ret. rewrite E. eauto.
Qed.

(** ** Descriptors *)

Definition clear_desc (i : nat) (v : vdisk) : vdisk :=
  v <| desc := <[i := desc0]> (desc v) |> <| free := <[i := true]> (free v) |>.

Lemma set_desc_twice i f g v :
  (i < length (desc v))%nat → set_desc i f (set_desc i g v) = set_desc i (λ d, f (g d)) v.
Proof.
  intros Hi. unfold set_desc. cbn. rewrite list_lookup_insert_eq by done. by rewrite list_insert_insert_eq.
Qed.

Lemma set_desc_size i f v : length (desc (set_desc i f v)) = length (desc v).
Proof. unfold set_desc. cbn. apply length_insert. Qed.

Lemma free_desc_ok i s :
  host_ok s → (i < NUM)%nat → free (h_disk s) !! i = Some false → (i < length (desc (h_disk s)))%nat →
  updates (free_desc i) s (λ _ v, v = clear_desc i (h_disk s)).
Proof.
  intros Hok Hi Hf Hd. unfold free_desc. rewrite (proj2 (Nat.leb_gt _ _)) by done.
  apply (updates_at free i false); [done|]. apply updates_vmod. do 4 apply updates_vmod_set.
  apply updates_wakeup; [by apply ok_set|]. rewrite !disk_set.
  rewrite !set_desc_twice by (by rewrite ?set_desc_size). reflexivity.
Qed.

Lemma first_true_spec l : ∀ n,
  match first_true l n with
  | Some i => ∃ k, i = (n + k)%nat ∧ l !! k = Some true
  | None => ∀ k, l !! k ≠ Some true
  end.
Proof.
  induction l as [|b l IH]; intros n; simpl; [done|]. destruct b.
  - exists 0%nat. split; [lia|done].
  - specialize (IH (n + 1)%nat). destruct (first_true l (n + 1)).
    + destruct IH as (k & -> & Hk). exists (Datatypes.S k). split; [lia|done].
    + intros [|k]; [done|]. apply IH.
Qed.

Lemma alloc_desc_ok s :
  host_ok s →
  updates alloc_desc s (λ r v,
    match r with
    | Some i => free (h_disk s) !! i = Some true ∧ v = set_free i false (h_disk s)
    | None => v = h_disk s ∧ ∀ i, free (h_disk s) !! i ≠ Some true
    end).
Proof.
  intros Hok. unfold alloc_desc, vget. eapply (returns_bind _ _ _ (λ v s', v = h_disk s ∧ s' = s)).
  { by apply returns_gets. }
  intros v s' [-> ->]. pose proof (first_true_spec (free (h_disk s)) 0) as Hft.
  destruct (first_true (free (h_disk s)) 0) as [i|].
  - destruct Hft as (k & -> & Hk). simpl. eexists _, _. split; [reflexivity|]. rewrite disk_set. split; [done|by apply ok_set].
  - by apply returns_ret.
Qed.

(** The arrays have their sizes, and free descriptors are clear. *)
Record clean (v : vdisk) : Prop := {
  cl_desc : length (desc v) = NUM;
  cl_free : length (free v) = NUM;
  cl_zero i : free v !! i = Some true → desc v !! i = Some desc0;
}.

Definition taken (i : nat) (v : vdisk) : Prop := free v !! i = Some false.

Lemma set_free_other i j b v : i ≠ j → free (set_free i b v) !! j = free v !! j.
Proof. intros. cbn. by rewrite list_lookup_insert_ne. Qed.

Lemma clean_take i v : clean v → clean (set_free i false v).
Proof.
  intros [Hd Hf Hz]. split; cbn; [done|by rewrite length_insert|]. intros j Hj. apply Hz.
  destruct (decide (i = j)) as [->|]; [|by rewrite list_lookup_insert_ne in Hj].
  assert (j < length (free v))%nat by (rewrite <- (length_insert (free v) j false); by eapply lookup_lt_Some).
  by rewrite list_lookup_insert_eq in Hj.
Qed.

Lemma clear_take i v : clean v → free v !! i = Some true → clear_desc i (set_free i false v) = v.
Proof.
  intros [Hd Hf Hz] Hi. unfold clear_desc, set_free. cbn. destruct v as [? ? ? ds ? ? ? ? fr ? ? ? ?]; cbn in *.
  rewrite list_insert_insert_eq, (list_insert_id fr), (list_insert_id ds); [done|by apply Hz|done].
Qed.

Lemma clear_set_free i j v : i ≠ j → clear_desc i (set_free j false v) = set_free j false (clear_desc i v).
Proof. intros. unfold clear_desc, set_free. cbn. by rewrite list_insert_insert_ne. Qed.

Lemma lookup_NUM {A} (l : list A) i x : length l = NUM → l !! i = Some x → (i < NUM)%nat.
Proof. intros <- Hi. by eapply lookup_lt_Some. Qed.

(** [alloc3_desc] takes three different free descriptors; when fewer are free it
    leaves everything as it was. *)
Lemma alloc3_desc_ok s :
  host_ok s → clean (h_disk s) →
  updates alloc3_desc s (λ r v,
    match r with
    | Some idx => ∃ i0 i1 i2, idx = [i0; i1; i2] ∧ NoDup idx ∧ Forall (λ i, free (h_disk s) !! i = Some true) idx
        ∧ v = set_free i2 false (set_free i1 false (set_free i0 false (h_disk s)))
    | None => v = h_disk s ∧ ∃ idx, (length idx ≤ 2)%nat ∧ ∀ i, free (h_disk s) !! i = Some true → i ∈ idx
    end).
Proof.
  intros Hok Hc. set (v0 := h_disk s) in *. unfold alloc3_desc. cbn [alloc3_loop].
  eapply updates_bind; [by apply alloc_desc_ok|]. fold v0. intros r s1 Hr Hok1. destruct r as [i0|].
  2:{ destruct Hr as [E Hno]. apply updates_ret; [done|]. rewrite E. split; [done|]. exists []. split; [simpl; lia|].
      intros i Hi. by destruct (Hno i). }
  destruct Hr as [H0 E1]. pose proof (clean_take i0 v0 Hc) as Hc1. rewrite <- E1 in Hc1.
  pose proof (lookup_NUM _ _ _ (cl_free _ Hc) H0) as L0.
  eapply updates_bind; [by apply alloc_desc_ok|]. intros r s2 Hr Hok2. destruct r as [i1|].
  2:{ destruct Hr as [E Hno]. cbn [for_each app]. eapply updates_bind.
      { eapply updates_bind; [apply free_desc_ok; [done|done| |]|].
        - rewrite E, E1. cbn. apply list_lookup_insert_eq. rewrite (cl_free _ Hc). done.
        - rewrite E. by rewrite (cl_desc _ Hc1).
        - intros u s3 E3 Hok3. apply (updates_ret tt s3 (λ _ v, v = v0)); [done|].
          rewrite E3, E, E1. by apply clear_take. }
      intros u s3 E3 Hok3. apply updates_ret; [done|]. rewrite E3. split; [done|]. exists [i0]. split; [simpl; lia|].
      intros i Hi. destruct (decide (i = i0)) as [->|Hne]; [left|]. exfalso. apply (Hno i). rewrite E1.
      by rewrite set_free_other. }
  destruct Hr as [H1 E2]. pose proof (clean_take i1 _ Hc1) as Hc2. rewrite <- E2 in Hc2.
  assert (H1' : free v0 !! i1 = Some true ∧ i0 ≠ i1).
  { rewrite E1 in H1. destruct (decide (i0 = i1)) as [->|]; [|by rewrite set_free_other in H1].
    cbn in H1. rewrite list_lookup_insert_eq in H1; [done|]. rewrite (cl_free _ Hc). done. }
  destruct H1' as [H1' Hne1]. pose proof (lookup_NUM _ _ _ (cl_free _ Hc) H1') as L1.
  eapply updates_bind; [by apply alloc_desc_ok|]. intros r s3 Hr Hok3. destruct r as [i2|].
  2:{ destruct Hr as [E Hno]. cbn [for_each app]. eapply updates_bind.
      { eapply updates_bind; [apply free_desc_ok; [done|done| |]|].
        - rewrite E, E2, E1. rewrite set_free_other by done. cbn. apply list_lookup_insert_eq. by rewrite (cl_free _ Hc).
        - rewrite E. by rewrite (cl_desc _ Hc2).
        - intros u s4 E4 Hok4. rewrite E, E2, E1, clear_set_free, clear_take in E4 by done.
          eapply updates_bind; [apply free_desc_ok; [done|done| |]|].
          + rewrite E4. cbn. apply list_lookup_insert_eq. by rewrite (cl_free _ Hc).
          + rewrite E4. cbn. by rewrite (cl_desc _ Hc).
          + intros u' s5 E5 Hok5. apply (updates_ret tt s5 (λ _ v, v = v0)); [done|].
            rewrite E5, E4. by apply clear_take. }
      intros u s4 E4 Hok4. apply updates_ret; [done|]. rewrite E4. split; [done|]. exists [i0; i1]. split; [simpl; lia|].
      intros i Hi. destruct (decide (i = i0)) as [->|Hne]; [left|]. destruct (decide (i = i1)) as [->|Hne']; [right; left|].
      exfalso. apply (Hno i). rewrite E2, E1. by rewrite !set_free_other. }
  destruct Hr as [H2 E3]. cbn [app]. apply updates_ret; [done|]. rewrite E3.
  assert (H2' : free v0 !! i2 = Some true ∧ i0 ≠ i2 ∧ i1 ≠ i2).
  { rewrite E2, E1 in H2. destruct (decide (i1 = i2)) as [->|].
    { cbn in H2. rewrite list_lookup_insert_eq in H2; [done|]. rewrite length_insert, (cl_free _ Hc). done. }
    rewrite set_free_other in H2 by done. destruct (decide (i0 = i2)) as [->|]; [|by rewrite set_free_other in H2].
    cbn in H2. rewrite list_lookup_insert_eq in H2; [done|]. by rewrite (cl_free _ Hc). }
  destruct H2' as (H2' & Hne02 & Hne12). exists i0, i1, i2. split_and!; [done| |by repeat constructor|by rewrite E2, E1].
  repeat constructor; set_solver.
Qed.

(** ** Requests *)

Definition desc_req (i0 i1 : nat) : virtq_desc := Desc (op_addr i0) 16 VRING_DESC_F_NEXT (Z.of_nat i1).

Definition desc_data (b : nat) (write : bool) (i2 : nat) : virtq_desc :=
  Desc (data_addr b) 1024 (Z.lor (if write then 0 else VRING_DESC_F_WRITE) VRING_DESC_F_NEXT) (Z.of_nat i2).

Definition desc_status (i0 : nat) : virtq_desc := Desc (status_addr i0) 1 VRING_DESC_F_WRITE 0.

Definition slot (i : Z) : nat := Z.to_nat (i mod Z.of_nat NUM).

(** The state after [submit]. *)
Definition submitted (b : nat) (blockno : Z) (write : bool) (i0 i1 i2 : nat) (v : vdisk) : vdisk :=
  VDisk (desc_pa v) (avail_pa v) (used_pa v)
    (<[i2 := desc_status i0]> (<[i1 := desc_data b write i2]> (<[i0 := desc_req i0 i1]> (desc v))))
    (u16 (avail_idx v + 1)) (<[slot (avail_idx v) := Z.of_nat i0]> (avail_ring v))
    (uidx v) (uring v) (free v) (used_idx v)
    (<[i0 := VInfo (Some b) 0xff]> (info v)) (<[i0 := blk_req write blockno]> (ops v)) (<[b := true]> (in_disk v)).

Lemma set_desc_const i f d v : (∀ x, f x = d) → set_desc i f v = v <| desc := <[i := d]> (desc v) |>.
Proof. intros Hf. unfold set_desc. by rewrite Hf. Qed.

Lemma submit_ok b blockno write i0 i1 i2 s :
  host_ok s → NoDup [i0; i1; i2] → length (desc (h_disk s)) = NUM → Forall (λ i, (i < NUM)%nat) [i0; i1; i2] →
  length (info (h_disk s)) = NUM →
  updates (submit b blockno write i0 i1 i2) s (λ _ v, v = submitted b blockno write i0 i1 i2 (h_disk s)).
Proof.
  intros Hok Hnd Hd Hi Hinfo. apply Forall_cons in Hi as [L0 Hi]. apply Forall_cons in Hi as [L1 Hi].
  apply Forall_cons in Hi as [L2 _].
  unfold submit. apply updates_vmod. do 18 apply updates_vmod_set.
  eapply returns_mono; [apply write_keeps; by apply ok_set|]. intros u s' [E Hok']. split; [|done].
  rewrite E, !disk_set. clear E. generalize dependent (h_disk s). intros v Hd Hinfo.
  rewrite (set_desc_twice i0), (set_desc_twice i0), (set_desc_twice i0)
    by (rewrite ?set_desc_size; unfold set_op; cbn; lia).
  rewrite (set_desc_const i0 _ (desc_req i0 i1)) by done.
  set (v1 := set_op i0 _ v <| desc := _ |>).
  assert (D1 : length (desc v1) = NUM) by (subst v1; cbn; by rewrite length_insert).
  rewrite (set_desc_twice i1), (set_desc_twice i1), (set_desc_twice i1), (set_desc_twice i1)
    by (rewrite ?set_desc_size; lia).
  rewrite (set_desc_const i1 _ (desc_data b write i2)) by done.
  set (v2 := v1 <| desc := _ |>).
  assert (D2 : length (desc (set_info i0 (λ x, x <| i_status := 255 |>) v2)) = NUM)
    by (subst v2; cbn; by rewrite length_insert).
  rewrite (set_desc_twice i2), (set_desc_twice i2), (set_desc_twice i2) by (rewrite ?set_desc_size; lia).
  rewrite (set_desc_const i2 _ (desc_status i0)) by done.
  subst v1 v2. unfold submitted, set_info, set_in_disk, set_op, slot. cbn. f_equal.
  rewrite list_lookup_insert_eq by lia. by rewrite list_insert_insert_eq.
Qed.

(** ** free_chain *)

Definition has_next (d : virtq_desc) (i : nat) : Prop :=
  Z.land (d_flags d) VRING_DESC_F_NEXT ≠ 0 ∧ d_next d = Z.of_nat i.

(** A chain of three as [submit] formats it. *)
Definition chained (v : vdisk) (i0 i1 i2 : nat) : Prop :=
  (∃ d, desc v !! i0 = Some d ∧ has_next d i1) ∧ (∃ d, desc v !! i1 = Some d ∧ has_next d i2)
  ∧ ∃ d, desc v !! i2 = Some d ∧ Z.land (d_flags d) VRING_DESC_F_NEXT = 0.

Lemma has_next_to_nat d i : has_next d i → Z.to_nat (d_next d) = i.
Proof. intros [_ ->]. apply Nat2Z.id. Qed.

Lemma free_chain_ok i0 i1 i2 s :
  host_ok s → NoDup [i0; i1; i2] → chained (h_disk s) i0 i1 i2 → Forall (λ i, taken i (h_disk s)) [i0; i1; i2] →
  length (desc (h_disk s)) = NUM →
  updates (free_chain i0) s (λ _ v, v = clear_desc i2 (clear_desc i1 (clear_desc i0 (h_disk s)))).
Proof.
  intros Hok Hnd ((d0 & E0 & N0) & (d1 & E1 & N1) & (d2 & E2 & N2)) Ht Hd.
  apply Forall_cons in Ht as [T0 Ht]. apply Forall_cons in Ht as [T1 Ht]. apply Forall_cons in Ht as [T2 _].
  apply NoDup_cons in Hnd as [Hn0 Hnd]. apply NoDup_cons in Hnd as [Hn1 _].
  assert (i0 ≠ i1 ∧ i0 ≠ i2 ∧ i1 ≠ i2) as (H01 & H02 & H12) by set_solver.
  pose proof (lookup_lt_Some _ _ _ E0) as L0. pose proof (lookup_lt_Some _ _ _ E1) as L1.
  pose proof (lookup_lt_Some _ _ _ E2) as L2. rewrite Hd in L0, L1, L2.
  unfold free_chain. change (NUM + 1)%nat with 9%nat. cbn [free_chain_loop].
  apply (updates_at desc i0 d0); [done|].
  eapply updates_bind; [apply free_desc_ok; [done|done|done|lia]|]. intros u s1 V1 Ok1.
  rewrite (proj2 (Z.eqb_neq _ 0)) by apply N0. cbn [negb]. rewrite (has_next_to_nat _ _ N0).
  apply (updates_at desc i1 d1); [rewrite V1; cbn; by rewrite list_lookup_insert_ne|].
  eapply updates_bind; [apply free_desc_ok; [done|done|rewrite V1; cbn; by rewrite list_lookup_insert_ne|
    rewrite V1; cbn; rewrite length_insert; lia]|]. intros u' s2 V2 Ok2. rewrite V1 in V2.
  rewrite (proj2 (Z.eqb_neq _ 0)) by apply N1. cbn [negb]. rewrite (has_next_to_nat _ _ N1).
  apply (updates_at desc i2 d2); [rewrite V2; cbn; by rewrite !list_lookup_insert_ne|].
  eapply updates_bind; [apply free_desc_ok; [done|done|rewrite V2; cbn; by rewrite !list_lookup_insert_ne|
    rewrite V2; cbn; rewrite !length_insert; lia]|]. intros u'' s3 V3 Ok3. rewrite V2 in V3.
  rewrite N2. apply updates_ret; [done|]. exact V3.
Qed.

Lemma finish_ok i0 i1 i2 s :
  host_ok s → NoDup [i0; i1; i2] → chained (h_disk s) i0 i1 i2 → Forall (λ i, taken i (h_disk s)) [i0; i1; i2] →
  length (desc (h_disk s)) = NUM →
  updates (finish i0) s (λ _ v, v = clear_desc i2 (clear_desc i1 (clear_desc i0
    (set_info i0 (λ x, x <| i_b := None |>) (h_disk s))))).
Proof.
  intros Hok Hnd Hch Ht Hd. unfold finish. apply updates_vmod.
  eapply updates_mono; [apply (free_chain_ok i0 i1 i2); [by apply ok_set|done|..]; by rewrite disk_set|].
  intros u v ->. by rewrite disk_set.
Qed.

Lemma complete_one_ok i0 b s :
  host_ok s → uring (h_disk s) !! slot (used_idx (h_disk s)) = Some (Z.of_nat i0) →
  info (h_disk s) !! i0 = Some (VInfo (Some b) 0) →
  updates complete_one s (λ _ v,
    v = (set_in_disk b false (h_disk s)) <| used_idx := u16 (used_idx (h_disk s) + 1) |>).
Proof.
  intros Hok Hu Hi. unfold complete_one. apply updates_vget. fold (slot (used_idx (h_disk s))).
  apply (updates_at uring (slot (used_idx (h_disk s))) (Z.of_nat i0)); [done|].
  apply (updates_at info (Z.to_nat (Z.of_nat i0)) (VInfo (Some b) 0)); [by rewrite Nat2Z.id|]. cbn [i_status i_b].
  change (negb (0 =? 0)) with false. cbn iota. apply updates_vmod.
  eapply updates_bind; [apply (updates_wakeup _ _ (λ _ v, v = set_in_disk b false (h_disk s)));
    [by apply ok_set|by rewrite disk_set]|].
  intros u s1 V1 Ok1. apply returns_modify. rewrite disk_set, V1. split; [done|by apply ok_set].
Qed.

(** The handler panics on the status byte of a request that failed. *)
Lemma complete_one_failed i0 b st s :
  uring (h_disk s) !! slot (used_idx (h_disk s)) = Some (Z.of_nat i0) →
  info (h_disk s) !! i0 = Some (VInfo (Some b) st) → st ≠ 0 →
  complete_one s = Panic "virtio_disk_intr status".
Proof.
  intros Hu Hi Hst. unfold complete_one, at_, vget. rewrite !bind_gets. fold (slot (used_idx (h_disk s))).
  unfold bind at 1. rewrite bind_gets, Hu. unfold ret at 1. rewrite Nat2Z.id.
  unfold bind at 1. rewrite bind_gets, Hi. unfold ret at 1. cbn [i_status]. by rewrite (proj2 (Z.eqb_neq st 0) Hst).
Qed.

End Driver.

(** ** The system

    Steps of the driver run under [vdisk_lock] and are atomic; the device
    fetches requests from the avail ring, serves them in any order and reports
    them in the used ring. *)

(** The objects of the driver lie at different addresses. *)
Class DiskSymbolsOk `{DiskSymbols} : Prop := {
  op_addr_inj i j : (i < NUM)%nat → (j < NUM)%nat → op_addr i = op_addr j → i = j;
  status_addr_inj i j : (i < NUM)%nat → (j < NUM)%nat → status_addr i = status_addr j → i = j;
  data_addr_inj b c : (b < NBUF)%nat → (c < NBUF)%nat → data_addr b = data_addr c → b = c;
}.

(** A request in flight: its descriptors, buffer, block and direction. *)
Record request := Request {
  q0 : nat;
  q1 : nat;
  q2 : nat;
  qb : nat;
  qblk : Z;
  qw : bool;
}.

#[global] Instance request_eq_dec : EqDecision request.
Proof. solve_decision. Defined.

Definition descs (q : request) : list nat := [q0 q; q1 q; q2 q].

(** What the device reads from the chain that starts at [head]: the request
    header, where the data lies, whether it may write there, and the entry whose
    status byte it writes (virtio 1.1, sections 2.6.5 and 5.2.6). *)
Inductive chain_of `{DiskSymbols} (v : vdisk) (head : nat) : virtio_blk_req → Z → bool → nat → Prop :=
| chain d0 i1 d1 i2 d2 j r k :
    desc v !! head = Some d0 → d_len d0 = 16 → d_addr d0 = op_addr j → (j < NUM)%nat → ops v !! j = Some r → has_next d0 i1 →
    desc v !! i1 = Some d1 → d_len d1 = 1024 → has_next d1 i2 →
    desc v !! i2 = Some d2 → d_len d2 = 1 → Z.land (d_flags d2) VRING_DESC_F_NEXT = 0 →
    d_addr d2 = status_addr k → (k < NUM)%nat →
    chain_of v head r (d_addr d1) (has (d_flags d1) VRING_DESC_F_WRITE) k.

Record system (S : Type) := System {
  host : S;
  reqs : list request;               (* submitted and not finished *)
  avail_seen : Z;                    (* the device's position in the avail ring *)
  fetched : list nat;                (* heads the device has fetched *)
  dmem : gmap Z (list Z);            (* data of the buffers, by address *)
  platter : gmap Z (list Z);         (* blocks on the disk, by first sector *)
  results : gmap nat (list Z);       (* what the block of a served read was *)
}.

Arguments System {S} host reqs avail_seen fetched dmem platter results.
Arguments host {S} s.
Arguments reqs {S} s.
Arguments avail_seen {S} s.
Arguments fetched {S} s.
Arguments dmem {S} s.
Arguments platter {S} s.
Arguments results {S} s.

(** The device's last writes for a request: the status byte [st] (0 for success)
    and the used ring. *)
Definition reported (st : Z) (k head : nat) (v : vdisk) : vdisk :=
  (set_info k (λ x, x <| i_status := st |>) v)
    <| uring := <[slot (uidx v) := Z.of_nat head]> (uring v) |> <| uidx := u16 (uidx v + 1) |>.

Definition block_sector (blk : Z) : Z := u32 (blk * 2).
