(* ===== verification/VirtioProto.v ===== *)
(** Concurrent disk requests: the transition system of driver and device, its
    invariant, and what it guarantees. *)

From S2P Require Import Prelude Machine Kalloc Bio Virtio VirtioSpec.

(** ** Rings *)

(** The entries of [ring] from index [i] up to [j] are the heads [l]; indices
    are 16-bit counters that are never reduced modulo NUM. *)
Definition window (ring : list Z) (i : Z) (l : list nat) (j : Z) : Prop :=
  0 ≤ i < 2 ^ 16 ∧ j = u16 (i + Z.of_nat (length l))
  ∧ ∀ k h, l !! k = Some h → ring !! slot (i + Z.of_nat k) = Some (Z.of_nat h).

Lemma slot_u16 i : slot (u16 i) = slot i.
Proof.
  unfold slot, u16. f_equal. change (Z.of_nat NUM) with 8. change (2 ^ 16) with (8 * 8192).
  symmetry. rewrite Z.rem_mul_r by lia. rewrite Z.mul_comm, Z.mod_add by lia. by rewrite Z.mod_mod by lia.
Qed.

Lemma slot_u16_add i k : slot (u16 i + k) = slot (i + k).
Proof.
  rewrite <- (slot_u16 (u16 i + k)), <- (slot_u16 (i + k)). unfold u16. by rewrite Z.add_mod_idemp_l by lia.
Qed.

Lemma slot_ne i k n : 0 ≤ k < n → n < 8 → slot (i + k) ≠ slot (i + n).
Proof. intros Hk Hn. unfold slot. change (Z.of_nat NUM) with 8. dlia. Qed.

Lemma slot_lt i : (slot i < NUM)%nat.
Proof. unfold slot, NUM. change (Z.of_nat 8) with 8. dlia. Qed.

Lemma u16_bound i : 0 ≤ u16 i < 2 ^ 16.
Proof. unfold u16. dlia. Qed.

Lemma window_push ring i l j h :
  window ring i l j → length ring = NUM → (length l < 8)%nat →
  window (<[slot j := Z.of_nat h]> ring) i (l ++ [h]) (u16 (j + 1)).
Proof.
  intros (Hi & -> & Hl) Hr Hn. split; [done|split].
  - rewrite length_app. simpl. unfold u16. rewrite Z.add_mod_idemp_l by lia. f_equal. lia.
  - intros k x Hk. rewrite slot_u16. destruct (decide (k = length l)) as [->|Hne].
    + rewrite lookup_app_r, Nat.sub_diag in Hk by lia. injection Hk as ->.
      apply list_lookup_insert_eq. rewrite Hr. apply slot_lt.
    + assert (k < length l)%nat.
      { apply lookup_lt_Some in Hk. rewrite length_app in Hk. simpl in Hk. lia. }
      rewrite lookup_app_l in Hk by done. rewrite list_lookup_insert_ne; [by apply Hl|].
      intros E. symmetry in E. revert E. apply slot_ne; lia.
Qed.

Lemma window_pop ring i h l j :
  window ring i (h :: l) j → ring !! slot i = Some (Z.of_nat h) ∧ window ring (u16 (i + 1)) l j.
Proof.
  intros (Hi & -> & Hl). split.
  - rewrite <- (Hl 0%nat h eq_refl). f_equal. f_equal. lia.
  - split; [apply u16_bound|split].
    + simpl. unfold u16. rewrite Z.add_mod_idemp_l by lia. f_equal. lia.
    + intros k x Hk. rewrite slot_u16_add. rewrite <- (Hl (S k) x Hk). f_equal. f_equal. lia.
Qed.

Lemma window_nil ring i j l : window ring i l j → (length l < 8)%nat → (i = j ↔ l = []).
Proof.
  intros (Hi & -> & _) Hn. unfold u16. destruct l as [|h l]; simpl in *.
  - rewrite Z.add_0_r, Z.mod_small by lia. done.
  - split; [|done]. intros E. exfalso. dlia.
Qed.

(** ** Steps *)

Section System.
Context {S : Type} `{HOK : DiskHostOk S} {SYM : DiskSymbols} {SYMok : DiskSymbolsOk}.
Implicit Types x : system S.

Definition drv x : vdisk := h_disk (host x).

Definition with_host (s : S) x : system S :=
  System s (reqs x) (avail_seen x) (fetched x) (dmem x) (platter x) (results x).

Inductive step : system S → system S → Prop :=
| step_submit x b blk w i0 i1 i2 s1 s2 :
    (b < NBUF)%nat → b ∉ qb <$> reqs x →
    alloc3_desc (host x) = Ok (Some [i0; i1; i2]) s1 → submit b blk w i0 i1 i2 s1 = Ok tt s2 →
    step x (System s2 (reqs x ++ [Request i0 i1 i2 b blk w]) (avail_seen x) (fetched x) (dmem x) (platter x)
              (delete b (results x)))
| step_full x s1 : alloc3_desc (host x) = Ok None s1 → step x (with_host s1 x)
| step_fetch x head :
    avail_seen x ≠ avail_idx (drv x) → avail_ring (drv x) !! slot (avail_seen x) = Some (Z.of_nat head) →
    step x (System (host x) (reqs x) (u16 (avail_seen x + 1)) (fetched x ++ [head]) (dmem x) (platter x) (results x))
| step_read x q r a k d :
    q ∈ reqs x → q0 q ∈ fetched x → chain_of (drv x) (q0 q) r a true k → r_type r = VIRTIO_BLK_T_IN →
    platter x !! r_sector r = Some d →
    step x (System (h_set (reported 0 k (q0 q) (drv x)) (host x)) (reqs x) (avail_seen x) (filter (λ h, h ≠ q0 q) (fetched x))
              (<[a := d]> (dmem x)) (platter x)
              (<[qb q := default [] (platter x !! block_sector (qblk q))]> (results x)))
| step_write x q r a k :
    q ∈ reqs x → q0 q ∈ fetched x → chain_of (drv x) (q0 q) r a false k → r_type r = VIRTIO_BLK_T_OUT →
    step x (System (h_set (reported 0 k (q0 q) (drv x)) (host x)) (reqs x) (avail_seen x) (filter (λ h, h ≠ q0 q) (fetched x))
              (dmem x) (<[r_sector r := default [] (dmem x !! a)]> (platter x)) (results x))
| step_error x q r a w k st d :    (* the device gives up: any status but 0, and the data it was to write is anything *)
    q ∈ reqs x → q0 q ∈ fetched x → chain_of (drv x) (q0 q) r a w k → 0 < st < 256 →
    step x (System (h_set (reported st k (q0 q) (drv x)) (host x)) (reqs x) (avail_seen x) (filter (λ h, h ≠ q0 q) (fetched x))
              (if w then <[a := d]> (dmem x) else dmem x) (if w then platter x else <[r_sector r := d]> (platter x)) (results x))
| step_intr x s1 :
    used_idx (drv x) ≠ uidx (drv x) → complete_one (host x) = Ok tt s1 → step x (with_host s1 x)
| step_finish x q s1 :
    q ∈ reqs x → in_disk (drv x) !! qb q = Some false → finish (q0 q) (host x) = Ok tt s1 →
    step x (System s1 (filter (λ p, q0 p ≠ q0 q) (reqs x)) (avail_seen x) (fetched x) (dmem x) (platter x) (results x)).

(** ** The invariant *)

(** The chain of request [q] lies in the shared memory. *)
Record formatted (v : vdisk) (q : request) : Prop := {
  fm_buf : (qb q < NBUF)%nat;
  fm0 : desc v !! q0 q = Some (desc_req (q0 q) (q1 q));
  fm1 : desc v !! q1 q = Some (desc_data (qb q) (qw q) (q2 q));
  fm2 : desc v !! q2 q = Some (desc_status (q0 q));
  fm_op : ops v !! q0 q = Some (blk_req (qw q) (qblk q));
}.

Record sizes (v : vdisk) : Prop := {
  sz_info : length (info v) = NUM;
  sz_ops : length (ops v) = NUM;
  sz_avail : length (avail_ring v) = NUM;
  sz_used : length (uring v) = NUM;
  sz_bufs : length (in_disk v) = NBUF;
}.

(** [pend]: submitted, not fetched; [used]: reported, not seen by the driver;
    [seen]: the waiter may go on. *)
Record inv x (pend used seen : list nat) : Prop := {
  iv_ok : host_ok (host x);
  iv_clean : clean (drv x);
  iv_sizes : sizes (drv x);
  iv_nodup : NoDup (reqs x ≫= descs);
  iv_taken i : free (drv x) !! i = Some false ↔ i ∈ reqs x ≫= descs;
  iv_bufs : NoDup (qb <$> reqs x);
  iv_req q : q ∈ reqs x → formatted (drv x) q;
  iv_avail : window (avail_ring (drv x)) (avail_seen x) pend (avail_idx (drv x));
  iv_used : window (uring (drv x)) (used_idx (drv x)) used (uidx (drv x));
  iv_heads : pend ++ fetched x ++ used ++ seen ≡ₚ q0 <$> reqs x;
  iv_open q : q ∈ reqs x → q0 q ∈ pend ++ fetched x →
    info (drv x) !! q0 q = Some (VInfo (Some (qb q)) 0xff) ∧ in_disk (drv x) !! qb q = Some true;
  iv_served q : q ∈ reqs x → q0 q ∈ used ++ seen →
    ∃ st, info (drv x) !! q0 q = Some (VInfo (Some (qb q)) st) ∧ (q0 q ∈ seen → st = 0)
    ∧ in_disk (drv x) !! qb q = Some (bool_decide (q0 q ∈ used))
    ∧ (st = 0 → qw q = false → ∃ d, results x !! qb q = Some d ∧ dmem x !! data_addr (qb q) = Some d);
}.

(** ** Consequences *)

Lemma descs_owner (l : list request) q q' i :
  NoDup (l ≫= descs) → q ∈ l → q' ∈ l → i ∈ descs q → i ∈ descs q' → q = q'.
Proof.
  induction l as [|p l IH]; [intros _ Hq; by apply elem_of_nil in Hq|]. cbn [mbind list_bind].
  intros (_ & Hdis & Hnd)%NoDup_app Hq Hq' Hi Hi'. apply elem_of_cons in Hq, Hq'.
  assert (Hin : ∀ p', p' ∈ l → i ∈ descs p' → i ∈ l ≫= descs) by (intros; apply list_elem_of_bind; eauto).
  destruct Hq as [->|Hq], Hq' as [->|Hq']; [done| | |by apply IH].
  - exfalso. apply (Hdis i); [done|by apply (Hin q')].
  - exfalso. apply (Hdis i); [done|by apply (Hin q)].
Qed.

Lemma descs_nodup (l : list request) q : NoDup (l ≫= descs) → q ∈ l → NoDup (descs q).
Proof.
  induction l as [|p l IH]; [intros _ Hq; by apply elem_of_nil in Hq|]. cbn [mbind list_bind].
  intros (H1 & _ & H2)%NoDup_app [->|Hq]%elem_of_cons; auto.
Qed.

Lemma heads_nodup (l : list request) : NoDup (l ≫= descs) → NoDup (q0 <$> l).
Proof.
  induction l as [|p l IH]; [constructor|]. cbn [mbind list_bind fmap list_fmap].
  intros (_ & Hdis & Hnd)%NoDup_app. constructor; [|by apply IH].
  intros (q & E & Hq)%list_elem_of_fmap. apply (Hdis (q0 p)); [left|].
  apply list_elem_of_bind. exists q. split; [rewrite E; left|done].
Qed.

Lemma descs_length (l : list request) : length (l ≫= descs) = (3 * length l)%nat.
Proof. induction l as [|q l IH]; [done|]. cbn [length]. change ((q :: l) ≫= descs) with (descs q ++ (l ≫= descs)). rewrite length_app, IH. simpl. lia. Qed.

Lemma remove_key {A} (f : A → nat) (l : list A) a :
  NoDup (f <$> l) → a ∈ l → l ≡ₚ a :: filter (λ p, f p ≠ f a) l.
Proof.
  intros Hnd Ha. apply list_elem_of_split in Ha as (l1 & l2 & ->).
  assert (Hno : ∀ p, p ∈ l1 ++ l2 → f p ≠ f a).
  { intros p Hp E. rewrite <- Permutation_middle in Hnd. cbn [fmap list_fmap] in Hnd.
    apply NoDup_cons in Hnd as [Hh _]. apply Hh. rewrite <- E. by apply list_elem_of_fmap_2. }
  rewrite filter_app, filter_cons_False by tauto. rewrite <- Permutation_middle. f_equiv.
  rewrite <- filter_app. clear Hnd. induction (l1 ++ l2) as [|p l IH]; [done|].
  rewrite filter_cons_True by (apply Hno; left). f_equiv. apply IH. intros p' Hp'. apply Hno. by right.
Qed.

Section Invariant.
Context x pend used seen (Hinv : inv x pend used seen).

Lemma desc_lt i : i ∈ reqs x ≫= descs → (i < NUM)%nat.
Proof. intros Hi. apply (iv_taken _ _ _ _ Hinv), lookup_lt_Some in Hi. by rewrite (cl_free _ (iv_clean _ _ _ _ Hinv)) in Hi. Qed.

Lemma in_descs q i : q ∈ reqs x → i ∈ descs q → i ∈ reqs x ≫= descs.
Proof. intros. apply list_elem_of_bind. eauto. Qed.

(** At most two requests are in flight, so no ring overflows. *)
Lemma few : (length (reqs x) ≤ 2)%nat.
Proof.
  assert (Hle : (length (reqs x ≫= descs) ≤ length (seq 0 NUM))%nat).
  { apply submseteq_length, NoDup_submseteq; [apply (iv_nodup _ _ _ _ Hinv)|].
    intros i Hi. apply desc_lt in Hi. apply elem_of_seq. lia. }
  rewrite descs_length in Hle. change (length (seq 0 NUM)) with 8%nat in Hle. lia.
Qed.

Lemma few_heads : (length pend + length (fetched x) + length used + length seen ≤ 2)%nat.
Proof.
  pose proof few as Hf. pose proof (Permutation_length (iv_heads _ _ _ _ Hinv)) as Hl.
  rewrite length_fmap, !length_app in Hl. lia.
Qed.

Lemma all_heads_nodup : NoDup (pend ++ fetched x ++ used ++ seen).
Proof. rewrite (iv_heads _ _ _ _ Hinv). apply heads_nodup, (iv_nodup _ _ _ _ Hinv). Qed.

Lemma head_request h : h ∈ pend ++ fetched x ++ used ++ seen → ∃ q, q ∈ reqs x ∧ q0 q = h.
Proof. rewrite (iv_heads _ _ _ _ Hinv). intros (q & -> & Hq)%list_elem_of_fmap. eauto. Qed.

Lemma same_head q q' : q ∈ reqs x → q' ∈ reqs x → q0 q = q0 q' → q = q'.
Proof.
  intros Hq Hq' E. apply (descs_owner (reqs x) q q' (q0 q)); [apply (iv_nodup _ _ _ _ Hinv)|done|done|left|].
  rewrite E. left.
Qed.

Lemma same_buf q q' : q ∈ reqs x → q' ∈ reqs x → qb q = qb q' → q = q'.
Proof.
  pose proof (iv_bufs _ _ _ _ Hinv) as Hb. clear Hinv. induction (reqs x) as [|p l IH]; [by intros ?%elem_of_nil|].
  cbn [fmap list_fmap] in Hb. apply NoDup_cons in Hb as [Hp Hb].
  intros [->|Hq]%elem_of_cons [->|Hq']%elem_of_cons E; [done| | |by apply IH].
  - exfalso. apply Hp. rewrite E. by apply list_elem_of_fmap_2.
  - exfalso. apply Hp. rewrite <- E. by apply list_elem_of_fmap_2.
Qed.

Lemma q0_lt q : q ∈ reqs x → (q0 q < NUM)%nat.
Proof. intros Hq. apply desc_lt, (in_descs q); [done|left]. Qed.

(** The device decodes the chain of a request as that request. *)
Lemma decodes q :
  q ∈ reqs x → chain_of (drv x) (q0 q) (blk_req (qw q) (qblk q)) (data_addr (qb q)) (negb (qw q)) (q0 q).
Proof.
  intros Hq. destruct (iv_req _ _ _ _ Hinv q Hq) as [Hb H0 H1 H2 Hop]. pose proof (q0_lt q Hq) as Hlt.
  replace (negb (qw q)) with (has (d_flags (desc_data (qb q) (qw q) (q2 q))) VRING_DESC_F_WRITE)
    by (by destruct (qw q)).
  change (data_addr (qb q)) with (d_addr (desc_data (qb q) (qw q) (q2 q))).
  apply (chain _ _ (desc_req (q0 q) (q1 q)) (q1 q) _ (q2 q) (desc_status (q0 q)) (q0 q)); try done.
  split; [|done]. simpl. by destruct (qw q).
Qed.

Lemma decodes_only q r a w k :
  q ∈ reqs x → chain_of (drv x) (q0 q) r a w k →
  r = blk_req (qw q) (qblk q) ∧ a = data_addr (qb q) ∧ w = negb (qw q) ∧ k = q0 q.
Proof.
  intros Hq Hch. destruct (iv_req _ _ _ _ Hinv q Hq) as [Hb H0 H1 H2 Hop]. pose proof (q0_lt q Hq) as Hlt.
  destruct Hch as [d0 i1 d1 i2 d2 j r k E0 _ Ea Hj Er N0 E1 _ N1 E2 _ _ Es Hk].
  rewrite H0 in E0. injection E0 as <-. cbn in Ea. apply op_addr_inj in Ea as <-; [|done|done].
  rewrite Hop in Er. injection Er as <-. destruct N0 as [_ En]. cbn in En. apply Nat2Z.inj in En as <-.
  rewrite H1 in E1. injection E1 as <-. destruct N1 as [_ En]. cbn in En. apply Nat2Z.inj in En as <-.
  rewrite H2 in E2. injection E2 as <-. cbn in Es. apply status_addr_inj in Es as <-; [|done|done].
  split_and!; [done|done|by destruct (qw q)|done].
Qed.

End Invariant.

(** ** Every step preserves it *)

Lemma updates_eq {A} (m : M S A) s Q a s' :
  updates m s Q → m s = Ok a s' → Q a (h_disk s') ∧ host_ok s'.
Proof. intros (a' & s'' & E & HQ) E'. rewrite E in E'. by injection E' as -> ->. Qed.

Definition take3 (i0 i1 i2 : nat) (v : vdisk) : vdisk := set_free i2 false (set_free i1 false (set_free i0 false v)).

Lemma free_take3 i0 i1 i2 v j :
  length (free v) = NUM → Forall (λ i, (i < NUM)%nat) [i0; i1; i2] →
  free (take3 i0 i1 i2 v) !! j = if decide (j ∈ [i0; i1; i2]) then Some false else free v !! j.
Proof.
  intros Hl Hi. apply Forall_cons in Hi as [L0 Hi]. apply Forall_cons in Hi as [L1 Hi]. apply Forall_cons in Hi as [L2 _].
  unfold take3, set_free. cbn [free setter].
  assert (Hin : ∀ (l : list bool) i k, length l = NUM → (i < NUM)%nat →
    <[i := false]> l !! k = if decide (k = i) then Some false else l !! k).
  { intros l i k Hln Hlt. destruct (decide (k = i)) as [->|]; [rewrite list_lookup_insert_eq by lia; done|].
    by rewrite list_lookup_insert_ne. }
  cbn. rewrite !Hin by (rewrite ?length_insert; done).
  destruct (decide (j = i2)), (decide (j = i1)), (decide (j = i0)), (decide (j ∈ [i0; i1; i2])); subst; try done; set_solver.
Qed.

Section Steps.
Context x pend used seen (Hinv : inv x pend used seen).

Lemma inv_submit b blk w i0 i1 i2 s1 s2 :
  (b < NBUF)%nat → b ∉ qb <$> reqs x →
  alloc3_desc (host x) = Ok (Some [i0; i1; i2]) s1 → submit b blk w i0 i1 i2 s1 = Ok tt s2 →
  inv (System s2 (reqs x ++ [Request i0 i1 i2 b blk w]) (avail_seen x) (fetched x) (dmem x) (platter x)
         (delete b (results x))) (pend ++ [i0]) used seen.
Proof.
  intros Hb Hnew Ea Es. pose proof Hinv as [Hok Hcl Hsz Hnd Htk Hbf Hrq Hav Hus Hhd Hop Hsv].
  destruct (updates_eq _ _ _ _ _ (alloc3_desc_ok (host x) Hok Hcl) Ea) as [(j0 & j1 & j2 & Ej & Hnd3 & Hfree & E1) Hok1].
  injection Ej as <- <- <-. fold (drv x) in Hfree, E1. fold (take3 i0 i1 i2 (drv x)) in E1.
  assert (Hlt : Forall (λ i, (i < NUM)%nat) [i0; i1; i2]).
  { eapply Forall_impl; [exact Hfree|]. intros i Hi. by apply (lookup_NUM _ _ _ (cl_free _ Hcl)) in Hi. }
  destruct (updates_eq _ _ _ _ _ (submit_ok b blk w i0 i1 i2 s1 Hok1 Hnd3 ltac:(rewrite E1; apply Hcl) Hlt
    ltac:(rewrite E1; apply Hsz)) Es) as [E2 Hok2]. rewrite E1 in E2.
  assert (Hout : ∀ i, i ∈ [i0; i1; i2] → i ∉ reqs x ≫= descs).
  { intros i Hi Hin. apply Htk in Hin. rewrite Forall_forall in Hfree. specialize (Hfree i Hi). congruence. }
  assert (Hq : ∀ q i, q ∈ reqs x → i ∈ descs q → i ≠ i0 ∧ i ≠ i1 ∧ i ≠ i2).
  { intros q i Hq Hi. pose proof (in_descs x q i Hq Hi) as Hin.
    split_and!; intros ->; revert Hin; apply Hout; set_solver. }
  assert (Hqb : ∀ q, q ∈ reqs x → qb q ≠ b) by (intros q Hqq <-; apply Hnew; by apply list_elem_of_fmap_2).
  apply NoDup_cons in Hnd3 as [N0 Hnd3]. apply NoDup_cons in Hnd3 as [N1 _].
  assert (i0 ≠ i1 ∧ i0 ≠ i2 ∧ i1 ≠ i2) as (H01 & H02 & H12) by set_solver.
  pose proof Hlt as [L0 [L1 [L2 _]%Forall_cons]%Forall_cons]%Forall_cons.
  assert (Edesc : ∀ i, i ≠ i0 → i ≠ i1 → i ≠ i2 → desc (h_disk s2) !! i = desc (drv x) !! i).
  { intros i ? ? ?. rewrite E2. cbn. by rewrite !list_lookup_insert_ne. }
  assert (Efree : ∀ j, free (h_disk s2) !! j = if decide (j ∈ [i0; i1; i2]) then Some false else free (drv x) !! j).
  { intros j. rewrite E2. apply (free_take3 i0 i1 i2 (drv x)); [apply Hcl|done]. }
  assert (Hbind : (reqs x ++ [Request i0 i1 i2 b blk w]) ≫= descs = (reqs x ≫= descs) ++ [i0; i1; i2]).
  { rewrite bind_app. f_equal. }
  assert (Hnothead : i0 ∉ pend ++ fetched x ++ used ++ seen).
  { rewrite Hhd. intros (q & E & Hqq)%list_elem_of_fmap. destruct (Hq q (q0 q) Hqq) as [? _]; [left|done]. }
  constructor; cbn [host reqs avail_seen fetched dmem platter results]; unfold drv; cbn [host].
  - done.
  - split; [rewrite E2; cbn; rewrite !length_insert; apply Hcl|rewrite E2; cbn; rewrite !length_insert; apply Hcl|].
    intros i Hi. rewrite Efree in Hi. destruct (decide (i ∈ [i0; i1; i2])) as [|Hni]; [done|].
    rewrite Edesc by set_solver. by apply Hcl.
  - rewrite E2. split; cbn; rewrite ?length_insert; apply Hsz.
  - rewrite Hbind. apply NoDup_app. split_and!; [done| |].
    + intros i Hi Hi'. by apply (Hout i).
    + repeat constructor; set_solver.
  - intros i. rewrite Hbind, Efree, elem_of_app, <- Htk. destruct (decide (i ∈ [i0; i1; i2])); [tauto|]. set_solver.
  - rewrite fmap_app. apply NoDup_app. split_and!; [done| |repeat constructor; set_solver].
    intros c Hc Hc'. cbn in Hc'. apply list_elem_of_singleton in Hc' as ->. done.
  - intros q [Hqq|Hqq]%elem_of_app.
    + destruct (Hrq q Hqq) as [F F0 F1 F2 Fo].
      destruct (Hq q (q0 q) Hqq) as (? & ? & ?); [left|]. destruct (Hq q (q1 q) Hqq) as (? & ? & ?); [right; left|].
      destruct (Hq q (q2 q) Hqq) as (? & ? & ?); [do 2 right; left|].
      split; [done|by rewrite Edesc|by rewrite Edesc|by rewrite Edesc|].
      rewrite E2. cbn. by rewrite list_lookup_insert_ne.
    + apply list_elem_of_singleton in Hqq as ->. split; cbn [qb q0 q1 q2 qw qblk]; [done|..]; rewrite E2; cbn.
      * rewrite !list_lookup_insert_ne by done. apply list_lookup_insert_eq. by rewrite (cl_desc _ Hcl).
      * rewrite list_lookup_insert_ne by done. apply list_lookup_insert_eq. rewrite length_insert. by rewrite (cl_desc _ Hcl).
      * apply list_lookup_insert_eq. rewrite !length_insert. by rewrite (cl_desc _ Hcl).
      * apply list_lookup_insert_eq. by rewrite (sz_ops _ Hsz).
  - rewrite E2. cbn. apply window_push; [exact Hav|apply Hsz|]. pose proof (few_heads x pend used seen Hinv). lia.
  - rewrite E2. exact Hus.
  - rewrite fmap_app. cbn. rewrite <- Hhd. rewrite <- app_assoc. cbn.
    rewrite <- Permutation_middle. apply Permutation_cons_append.
  - intros q [Hqq|Hqq]%elem_of_app Hhd'.
    + destruct (Hq q (q0 q) Hqq) as (Hne & _); [left|]. destruct (Hop q Hqq) as [H1 H2]; [set_solver|].
      rewrite E2. cbn. rewrite !list_lookup_insert_ne by (try done; by apply not_eq_sym, Hqb). done.
    + apply list_elem_of_singleton in Hqq as ->. cbn [q0 qb]. rewrite E2. cbn.
      rewrite !list_lookup_insert_eq; [done|by rewrite (sz_bufs _ Hsz)|by rewrite (sz_info _ Hsz)].
  - intros q [Hqq|Hqq]%elem_of_app Hhd'.
    + destruct (Hq q (q0 q) Hqq) as (Hne & _); [left|]. destruct (Hsv q Hqq Hhd') as (st & H1 & Hst & H2 & H3).
      rewrite E2. cbn. rewrite !list_lookup_insert_ne by (try done; by apply not_eq_sym, Hqb).
      exists st. split_and!; [done|done|done|]. intros Hs Hw. destruct (H3 Hs Hw) as (d & Hd & Hm). exists d.
      rewrite lookup_delete_ne; [done|]. by apply not_eq_sym, Hqb.
    + apply list_elem_of_singleton in Hqq as ->. exfalso. apply Hnothead. cbn [q0] in Hhd'. set_solver.
Qed.

Lemma inv_host s1 : h_disk s1 = drv x → host_ok s1 → inv (with_host s1 x) pend used seen.
Proof.
  intros E Hok1. destruct Hinv as [Hok Hcl Hsz Hnd Htk Hbf Hrq Hav Hus Hhd Hop Hsv].
  constructor; unfold drv; cbn [with_host host reqs avail_seen fetched dmem platter results]; rewrite ?E; try done.
Qed.

Lemma inv_full s1 : alloc3_desc (host x) = Ok None s1 → inv (with_host s1 x) pend used seen.
Proof.
  intros Ea. destruct (updates_eq _ _ _ _ _ (alloc3_desc_ok (host x) (iv_ok _ _ _ _ Hinv) (iv_clean _ _ _ _ Hinv)) Ea)
    as [[E _] Hok1]. by apply inv_host.
Qed.

Lemma inv_fetch head :
  avail_seen x ≠ avail_idx (drv x) → avail_ring (drv x) !! slot (avail_seen x) = Some (Z.of_nat head) →
  ∃ pend', inv (System (host x) (reqs x) (u16 (avail_seen x + 1)) (fetched x ++ [head]) (dmem x) (platter x) (results x))
    pend' used seen.
Proof.
  intros Hne Hr. pose proof (few_heads x pend used seen Hinv) as Hfew.
  destruct Hinv as [Hok Hcl Hsz Hnd Htk Hbf Hrq Hav Hus Hhd Hop Hsv].
  destruct pend as [|h pend']; [exfalso; apply Hne; apply (window_nil _ _ _ _ Hav); [simpl; lia|done]|].
  destruct (window_pop _ _ _ _ _ Hav) as [Hh Hav']. rewrite Hr in Hh. injection Hh as Hh. apply Nat2Z.inj in Hh as ->.
  exists pend'. constructor; cbn [host reqs avail_seen fetched dmem platter results]; try done.
  - rewrite <- Hhd. cbn. rewrite <- app_assoc. cbn. by rewrite <- !Permutation_middle.
  - intros q Hq Hin. apply Hop; [done|]. set_solver.
Qed.

(** The device has served request [q], with status [st]. *)
Lemma inv_serve q st dm pl rs :
  q ∈ reqs x → q0 q ∈ fetched x →
  (∀ q', q' ∈ reqs x → q' ≠ q → dm !! data_addr (qb q') = dmem x !! data_addr (qb q') ∧ rs !! qb q' = results x !! qb q') →
  (st = 0 → qw q = false → ∃ d, rs !! qb q = Some d ∧ dm !! data_addr (qb q) = Some d) →
  inv (System (h_set (reported st (q0 q) (q0 q) (drv x)) (host x)) (reqs x) (avail_seen x) (filter (λ h, h ≠ q0 q) (fetched x)) dm pl rs)
    pend (used ++ [q0 q]) seen.
Proof.
  intros Hq Hin Hothers Hdata. pose proof (few_heads x pend used seen Hinv) as Hfew.
  pose proof (all_heads_nodup x pend used seen Hinv) as Hall. pose proof (q0_lt x pend used seen Hinv q Hq) as Hlt.
  assert (Hsame : ∀ q', q' ∈ reqs x → q' ≠ q → q0 q' ≠ q0 q ∧ qb q' ≠ qb q).
  { intros q' Hq' Hne. split; intros E; apply Hne; [by eapply same_head|by eapply same_buf]. }
  destruct Hinv as [Hok Hcl Hsz Hnd Htk Hbf Hrq Hav Hus Hhd Hop Hsv].
  destruct (Hop q Hq) as [Hi Hd]; [set_solver|].
  assert (Hperm : fetched x ≡ₚ q0 q :: filter (λ h, h ≠ q0 q) (fetched x)).
  { apply NoDup_app in Hall as (_ & _ & Hall). apply NoDup_app in Hall as (Hall & _ & _).
    apply (remove_key id); [by rewrite list_fmap_id|done]. }
  set (F := filter (λ h, h ≠ q0 q) (fetched x)) in *.
  assert (HF : q0 q ∉ F) by (intros [Hn _]%list_elem_of_filter; done).
  assert (HFx : ∀ h, h ∈ pend ++ F → h ∈ pend ++ fetched x).
  { intros h [Hh|Hh]%elem_of_app; apply elem_of_app; [by left|right]. by apply list_elem_of_filter in Hh as [_ ?]. }
  assert (HU : ∀ h, h ∈ (used ++ [q0 q]) ++ seen → h ≠ q0 q → h ∈ used ++ seen).
  { intros h Hh Hne. rewrite !elem_of_app, list_elem_of_singleton in Hh. rewrite elem_of_app. tauto. }
  assert (Hnot : q0 q ∉ pend ++ used ++ seen).
  { rewrite Hperm in Hall. cbn in Hall. rewrite <- Permutation_middle in Hall. apply NoDup_cons in Hall as [Hn _]. set_solver. }
  constructor; unfold drv; cbn [host reqs avail_seen fetched dmem platter results]; rewrite ?disk_set; try done.
  - by apply ok_set.
  - destruct Hcl. by split.
  - split; cbn; rewrite ?length_insert; apply Hsz.
  - intros q' Hq'. destruct (Hrq q' Hq'). by split.
  - cbn. apply window_push; [done|apply Hsz|lia].
  - rewrite <- Hhd, Hperm, <- app_assoc. cbn. by rewrite <- !Permutation_middle.
  - intros q' Hq' Hin'. assert (Hne : q' ≠ q).
    { intros ->. apply elem_of_app in Hin' as [Hin'|Hin']; [|done]. apply Hnot, elem_of_app. by left. }
    destruct (Hsame q' Hq' Hne) as [Hh Hb]. destruct (Hop q' Hq') as [H1 H2]; [by apply HFx|]. cbn. rewrite list_lookup_insert_ne by done. done.
  - intros q' Hq' Hin'. destruct (decide (q' = q)) as [->|Hne].
    + cbn. pose proof (sz_info _ Hsz) as Linfo. unfold drv in Linfo, Hi.
      rewrite list_lookup_insert_eq by lia. rewrite Hi. cbn. exists st.
      rewrite bool_decide_true by (apply elem_of_app; right; left). split_and!; [done| |done|done].
      intros Hs. exfalso. apply Hnot. rewrite !elem_of_app. tauto.
    + destruct (Hsame q' Hq' Hne) as [Hh Hb]. destruct (Hsv q' Hq') as (st' & H1 & Hst & H2 & H3); [by apply HU|].
      cbn. rewrite list_lookup_insert_ne by done. exists st'. split_and!; [done|done| |].
      * etransitivity; [exact H2|]. f_equal. apply bool_decide_ext. rewrite elem_of_app, list_elem_of_singleton. tauto.
      * intros Hs Hw. destruct (H3 Hs Hw) as (d & Hd1 & Hd2). exists d. destruct (Hothers q' Hq' Hne) as [-> ->]. done.
Qed.

Lemma inv_intr s1 :
  used_idx (drv x) ≠ uidx (drv x) →
  (∃ q st, q ∈ reqs x ∧ uring (drv x) !! slot (used_idx (drv x)) = Some (Z.of_nat (q0 q))
     ∧ info (drv x) !! q0 q = Some (VInfo (Some (qb q)) st)
     ∧ if decide (st = 0) then ∃ s', complete_one (host x) = Ok tt s'
       else complete_one (host x) = Panic "virtio_disk_intr status")
  ∧ (complete_one (host x) = Ok tt s1 → ∃ used' seen', inv (with_host s1 x) pend used' seen').
Proof.
  intros Hne. pose proof (few_heads x pend used seen Hinv) as Hfew.
  pose proof (all_heads_nodup x pend used seen Hinv) as Hall. pose proof (head_request x pend used seen Hinv) as Hreq.
  pose proof (same_buf x pend used seen Hinv) as Hsb. pose proof (same_head x pend used seen Hinv) as Hsh.
  destruct Hinv as [Hok Hcl Hsz Hnd Htk Hbf Hrq Hav Hus Hhd Hop Hsv].
  destruct used as [|h used']; [exfalso; apply Hne; apply (window_nil _ _ _ _ Hus); [simpl; lia|done]|].
  destruct (window_pop _ _ _ _ _ Hus) as [Hh Hus']. destruct (Hreq h) as (q & Hq & <-); [set_solver|].
  destruct (Hsv q Hq) as (st & Hi & Hst & Hd & Hdata); [set_solver|].
  destruct (decide (st = 0)) as [E0|E0].
  2:{ pose proof (complete_one_failed (q0 q) (qb q) st (host x) Hh Hi E0) as Ec. split; [|intros E; congruence].
      exists q, st. rewrite decide_False by done. by split_and!. }
  rewrite E0 in Hi. pose proof (complete_one_ok (q0 q) (qb q) (host x) Hok Hh Hi) as Hup. split.
  { exists q, 0. rewrite decide_True by done. split_and!; [done|done|done|]. destruct Hup as ([] & s' & E & _). by exists s'. }
  intros E. destruct (updates_eq _ _ _ _ _ Hup E) as [E1 Hok1]. fold (drv x) in E1.
  assert (Hnot : q0 q ∉ pend ++ fetched x ++ used' ++ seen).
  { rewrite app_assoc in Hall. cbn in Hall. rewrite <- Permutation_middle in Hall. apply NoDup_cons in Hall as [Hn _]. set_solver. }
  exists used', (seen ++ [q0 q]).
  constructor; unfold drv; cbn [with_host host reqs avail_seen fetched dmem platter results]; rewrite ?E1; try done.
  - destruct Hcl. by split.
  - split; cbn; rewrite ?length_insert; apply Hsz.
  - intros q' Hq'. destruct (Hrq q' Hq'). by split.
  - rewrite <- Hhd. cbn. rewrite (app_assoc used'), (Permutation_app_comm (used' ++ seen) [q0 q]). done.
  - intros q' Hq' Hin'. destruct (Hop q' Hq' Hin') as [H1 H2]. cbn. split; [done|].
    rewrite list_lookup_insert_ne; [done|]. intros E'. assert (q = q') as <- by (by apply Hsb). set_solver.
  - intros q' Hq' Hin'. destruct (Hsv q' Hq') as (st' & H1 & Hst' & H2 & H3); [set_solver|]. cbn. exists st'. split_and!; [done| | |done].
    { intros [Hs|Hs%list_elem_of_singleton]%elem_of_app; [by apply Hst'|]. assert (q' = q) as -> by (by apply Hsh). congruence. }
    destruct (decide (q' = q)) as [->|Hneq].
    + pose proof (sz_bufs _ Hsz) as Lbufs. pose proof (fm_buf _ _ (Hrq q Hq)).
      rewrite list_lookup_insert_eq by lia. f_equal.
      symmetry. apply bool_decide_false. set_solver.
    + rewrite list_lookup_insert_ne by (intros E'; apply Hneq; symmetry; by apply Hsb). rewrite H2. f_equal.
      apply bool_decide_ext. split; [|set_solver]. intros [E'|]%elem_of_cons; [|done].
      exfalso. apply Hneq. by apply Hsh.
Qed.

Lemma clear_other i j v : i ≠ j → desc (clear_desc i v) !! j = desc v !! j ∧ free (clear_desc i v) !! j = free v !! j.
Proof. intros Hne. cbn. by rewrite !list_lookup_insert_ne. Qed.

Definition clear3 (i0 i1 i2 : nat) (v : vdisk) : vdisk := clear_desc i2 (clear_desc i1 (clear_desc i0 v)).

Lemma lookup_clear3 i0 i1 i2 v j :
  length (desc v) = NUM → length (free v) = NUM → (i0 < NUM)%nat → (i1 < NUM)%nat → (i2 < NUM)%nat →
  desc (clear3 i0 i1 i2 v) !! j = (if decide (j ∈ [i0; i1; i2]) then Some desc0 else desc v !! j)
  ∧ free (clear3 i0 i1 i2 v) !! j = (if decide (j ∈ [i0; i1; i2]) then Some true else free v !! j).
Proof.
  intros Hd Hf L0 L1 L2.
  assert (Hin : ∀ {A} (l : list A) i k y, length l = NUM → (i < NUM)%nat →
    <[i := y]> l !! k = if decide (k = i) then Some y else l !! k).
  { intros A l i k y Hln Hlt. destruct (decide (k = i)) as [->|]; [rewrite list_lookup_insert_eq by lia; done|].
    by rewrite list_lookup_insert_ne. }
  unfold clear3, clear_desc. cbn. rewrite !Hin by (rewrite ?length_insert; done).
  destruct (decide (j = i2)), (decide (j = i1)), (decide (j = i0)), (decide (j ∈ [i0; i1; i2])); subst; try done; set_solver.
Qed.

Lemma inv_finish q s1 :
  q ∈ reqs x → in_disk (drv x) !! qb q = Some false →
  (∃ s', finish (q0 q) (host x) = Ok tt s') ∧ q0 q ∈ seen
  ∧ (finish (q0 q) (host x) = Ok tt s1 →
     ∃ seen', inv (System s1 (filter (λ p, q0 p ≠ q0 q) (reqs x)) (avail_seen x) (fetched x) (dmem x) (platter x) (results x))
       pend used seen').
Proof.
  intros Hq Hdisk. pose proof (all_heads_nodup x pend used seen Hinv) as Hall.
  pose proof (λ i Hi, desc_lt x pend used seen Hinv i (in_descs x q i Hq Hi)) as Hlt.
  pose proof (descs_nodup (reqs x) q (iv_nodup _ _ _ _ Hinv) Hq) as Hnd3.
  pose proof (descs_owner (reqs x)) as Hown.
  destruct Hinv as [Hok Hcl Hsz Hnd Htk Hbf Hrq Hav Hus Hhd Hop Hsv].
  assert (Hseen : q0 q ∈ seen ∧ q0 q ∉ used).
  { assert (Hin : q0 q ∈ pend ++ fetched x ++ used ++ seen) by (rewrite Hhd; by apply list_elem_of_fmap_2).
    rewrite app_assoc in Hin. apply elem_of_app in Hin as [Hin|Hin].
    - destruct (Hop q Hq Hin) as [_ H2]. congruence.
    - destruct (Hsv q Hq Hin) as (_ & _ & _ & H2 & _). rewrite Hdisk in H2. injection H2 as H2.
      symmetry in H2. apply bool_decide_eq_false in H2. set_solver. }
  destruct Hseen as [Hseen Hnu]. destruct (Hrq q Hq) as [F F0 F1 F2 Fo].
  assert (Hch : chained (drv x) (q0 q) (q1 q) (q2 q)).
  { split_and!; [exists (desc_req (q0 q) (q1 q)); split; [done|by split]| |].
    - exists (desc_data (qb q) (qw q) (q2 q)). split; [done|]. split; [|done]. simpl. by destruct (qw q).
    - by exists (desc_status (q0 q)). }
  assert (Htaken : Forall (λ i, taken i (drv x)) [q0 q; q1 q; q2 q]).
  { apply Forall_forall. intros i Hi. apply Htk, list_elem_of_bind. by exists q. }
  pose proof (finish_ok (q0 q) (q1 q) (q2 q) (host x) Hok Hnd3 Hch Htaken (cl_desc _ Hcl)) as Hup.
  split; [destruct Hup as ([] & s' & E & _); by exists s'|]. split; [done|].
  intros E. destruct (updates_eq _ _ _ _ _ Hup E) as [E1 Hok1].
  set (v1 := set_info (q0 q) (λ y, y <| i_b := None |>) (drv x)) in *.
  change (h_disk s1 = clear3 (q0 q) (q1 q) (q2 q) v1) in E1.
  pose proof (λ j, lookup_clear3 (q0 q) (q1 q) (q2 q) v1 j (cl_desc _ Hcl) (cl_free _ Hcl) (Hlt (q0 q) ltac:(left))
    (Hlt (q1 q) ltac:(right; left)) (Hlt (q2 q) ltac:(do 2 right; left))) as Hlook.
  rewrite <- E1 in Hlook. fold (descs q) in Hlook. change (desc v1) with (desc (drv x)) in Hlook.
  change (free v1) with (free (drv x)) in Hlook.
  pose proof (remove_key q0 (reqs x) q (heads_nodup _ Hnd) Hq) as Hperm. set (R := filter _ (reqs x)) in *.
  assert (HR : ∀ p, p ∈ R → p ∈ reqs x ∧ q0 p ≠ q0 q) by (intros p Hp; apply list_elem_of_filter in Hp; tauto).
  assert (Hsep : ∀ p i, p ∈ R → i ∈ descs p → i ∉ descs q).
  { intros p i Hp Hi Hi'. destruct (HR p Hp) as [Hp' Hne]. apply Hne. f_equal. by apply (Hown p q i). }
  assert (Hsp : seen ≡ₚ q0 q :: filter (λ h, h ≠ q0 q) seen).
  { rewrite app_assoc, app_assoc in Hall. apply NoDup_app in Hall as (_ & _ & Hall).
    apply (remove_key id); [by rewrite list_fmap_id|done]. }
  set (G := filter (λ h, h ≠ q0 q) seen) in *. exists G.
  rewrite Hperm in Hnd, Hbf. cbn [mbind list_bind] in Hnd. apply NoDup_app in Hnd as (_ & Hdis & Hnd').
  apply NoDup_cons in Hbf as [Hqb Hbf'].
  assert (Hbuf : ∀ p, p ∈ R → qb p ≠ qb q) by (intros p Hp E'; apply Hqb; rewrite <- E'; by apply list_elem_of_fmap_2).
  constructor; unfold drv; cbn [host reqs avail_seen fetched dmem platter results]; try done.
  - split; [rewrite E1; cbn; rewrite !length_insert; apply Hcl|rewrite E1; cbn; rewrite !length_insert; apply Hcl|].
    intros i. destruct (Hlook i) as [-> ->]. destruct (decide (i ∈ descs q)); [done|]. apply Hcl.
  - rewrite E1. split; cbn; rewrite ?length_insert; apply Hsz.
  - intros i. destruct (Hlook i) as [_ ->]. destruct (decide (i ∈ descs q)) as [Hi|Hi].
    + split; [done|]. intros Hi'. exfalso. by apply (Hdis i).
    + rewrite Htk, Hperm. cbn [mbind list_bind]. rewrite elem_of_app. tauto.
  - intros p Hp. destruct (HR p Hp) as [Hp' Hne]. destruct (Hrq p Hp') as [P P0 P1 P2 Po]. split; [done|..].
    + destruct (Hlook (q0 p)) as [-> _]. rewrite decide_False; [done|]. apply (Hsep p); [done|left].
    + destruct (Hlook (q1 p)) as [-> _]. rewrite decide_False; [done|]. apply (Hsep p); [done|right; left].
    + destruct (Hlook (q2 p)) as [-> _]. rewrite decide_False; [done|]. apply (Hsep p); [done|do 2 right; left].
    + rewrite E1. done.
  - rewrite E1. done.
  - rewrite E1. done.
  - rewrite Hperm, Hsp in Hhd. cbn [fmap list_fmap] in Hhd. rewrite !app_assoc, <- Permutation_middle, <- !app_assoc in Hhd.
    by apply Permutation_cons_inv in Hhd.
  - intros p Hp Hin. destruct (HR p Hp) as [Hp' Hne]. destruct (Hop p Hp' Hin) as [H1 H2].
    rewrite E1. cbn. rewrite list_lookup_insert_ne by done. done.
  - intros p Hp Hin. destruct (HR p Hp) as [Hp' Hne]. destruct (Hsv p Hp') as (st & H1 & Hst & H2 & H3).
    { apply elem_of_app. apply elem_of_app in Hin as [?|Hin]; [by left|right]. by apply list_elem_of_filter in Hin as [_ ?]. }
    rewrite E1. cbn. rewrite list_lookup_insert_ne by done. exists st. split_and!; [done| |done|done].
    intros Hg. apply Hst. by apply list_elem_of_filter in Hg as [_ ?].
Qed.

End Steps.

(** ** Reachable states *)

(** After [virtio_disk_init]: all descriptors free, nothing in the rings. *)
Record fresh (v : vdisk) : Prop := {
  fr_desc : desc v = replicate NUM desc0;
  fr_free : free v = replicate NUM true;
  fr_sizes : sizes v;
  fr_avail : avail_idx v = 0;
  fr_uidx : uidx v = 0;
  fr_used : used_idx v = 0;
}.

Definition initial x : Prop :=
  host_ok (host x) ∧ fresh (drv x) ∧ reqs x = [] ∧ fetched x = [] ∧ avail_seen x = 0.

Lemma lookup_all {A} (y z : A) n i : replicate n y !! i = Some z → z = y.
Proof. intros Hz. by apply lookup_replicate_1 in Hz as [-> _]. Qed.

Lemma initial_inv x : initial x → inv x [] [] [].
Proof.
  intros (Hok & [Hd Hf Hsz Ha Hu Hui] & Hr & Hft & Has).
  constructor; rewrite ?Hr, ?Hft, ?Has, ?Ha, ?Hu, ?Hui; try done.
  - split; [by rewrite Hd|by rewrite Hf|]. intros i Hi. rewrite Hf in Hi. rewrite Hd.
    apply lookup_lt_Some in Hi. rewrite length_replicate in Hi. by apply lookup_replicate_2.
  - constructor.
  - intros i. rewrite Hf. split; [|by intros Hi%elem_of_nil]. intros Hi. by apply lookup_all in Hi.
  - constructor.
  - intros q Hq. by apply elem_of_nil in Hq.
  - intros q Hq. by apply elem_of_nil in Hq.
  - intros q Hq. by apply elem_of_nil in Hq.
Qed.

Lemma inv_step x y pend used seen : inv x pend used seen → step x y → ∃ p u s, inv y p u s.
Proof.
  intros Hinv Hst. destruct Hst as [x b blk w i0 i1 i2 s1 s2 Hb Hn Ea Es|x s1 Ea|x head Hne Hr|x q r a k d Hq Hf Hch Hty Hd
    |x q r a k Hq Hf Hch Hty|x q r a w k st d Hq Hf Hch Hst|x s1 Hne Ec|x q s1 Hq Hdisk Ef].
  - eexists _, _, _. by eapply inv_submit.
  - eexists _, _, _. by eapply inv_full.
  - destruct (inv_fetch _ _ _ _ Hinv head Hne Hr) as [p Hp]. eauto.
  - destruct (decodes_only _ _ _ _ Hinv _ _ _ _ _ Hq Hch) as (-> & -> & Hw & ->).
    eexists _, _, _. eapply (inv_serve _ _ _ _ Hinv); [done|done| |].
    + intros q' Hq' Hne. pose proof (fm_buf _ _ (iv_req _ _ _ _ Hinv q Hq)). pose proof (fm_buf _ _ (iv_req _ _ _ _ Hinv q' Hq')).
      assert (Hb : qb q ≠ qb q') by (intros E; apply Hne; symmetry; by eapply same_buf).
      rewrite !lookup_insert_ne; [done|done|]. intros E. by apply data_addr_inj in E.
    + intros _ _. exists d. rewrite !lookup_insert_eq. split; [|done]. f_equal.
      change (block_sector (qblk q)) with (r_sector (blk_req (qw q) (qblk q))). by rewrite Hd.
  - destruct (decodes_only _ _ _ _ Hinv _ _ _ _ _ Hq Hch) as (-> & -> & Hw & ->).
    eexists _, _, _. eapply (inv_serve _ _ _ _ Hinv); [done|done|done|]. intros _ E. rewrite E in Hw. done.
  - destruct (decodes_only _ _ _ _ Hinv _ _ _ _ _ Hq Hch) as (-> & -> & -> & ->).
    eexists _, _, _. eapply (inv_serve _ _ _ _ Hinv); [done|done| |lia].
    intros q' Hq' Hne. split; [|done]. destruct (qw q); cbn [negb]; [done|].
    pose proof (fm_buf _ _ (iv_req _ _ _ _ Hinv q Hq)). pose proof (fm_buf _ _ (iv_req _ _ _ _ Hinv q' Hq')).
    rewrite lookup_insert_ne; [done|]. intros E. apply data_addr_inj in E; [|done|done]. apply Hne. symmetry. by eapply same_buf.
  - destruct (inv_intr _ _ _ _ Hinv s1 Hne) as [_ Hi]. destruct (Hi Ec) as (u & s & Hi'). eauto.
  - destruct (inv_finish _ _ _ _ Hinv q s1 Hq Hdisk) as (_ & _ & Hi). destruct (Hi Ef) as [s Hi']. eauto.
Qed.

Lemma inv_reach x0 x : initial x0 → rtc step x0 x → ∃ p u s, inv x p u s.
Proof.
  intros H0 Hr. assert (Hp : ∃ p u s, inv x0 p u s) by (exists [], [], []; by apply initial_inv).
  clear H0. induction Hr as [x|x y z Hst Hr IH]; [done|]. apply IH. destruct Hp as (p & u & s & Hinv). by eapply inv_step.
Qed.

(** Three descriptors are free while fewer than two requests are in flight. *)
Lemma room x pend used seen :
  inv x pend used seen → (length (reqs x) < 2)%nat → ∃ i0 i1 i2 s, alloc3_desc (host x) = Ok (Some [i0; i1; i2]) s.
Proof.
  intros Hinv Hlt. destruct (alloc3_desc_ok (host x) (iv_ok _ _ _ _ Hinv) (iv_clean _ _ _ _ Hinv)) as (r & s & E & Hr & _).
  destruct r as [idx|]; [destruct Hr as (i0 & i1 & i2 & -> & _); eauto|].
  exfalso. destruct Hr as (_ & idx & Hidx & Hall).
  assert (Hle : (length (seq 0 NUM) ≤ length ((reqs x ≫= descs) ++ idx))%nat).
  { apply submseteq_length, NoDup_submseteq; [apply NoDup_seq|]. intros i [_ Hi]%elem_of_seq. apply elem_of_app.
    destruct (lookup_lt_is_Some_2 (free (drv x)) i) as [b Hb].
    { rewrite (cl_free _ (iv_clean _ _ _ _ Hinv)). simpl in Hi. lia. }
    destruct b; [right; by apply Hall|left; by apply (iv_taken _ _ _ _ Hinv)]. }
  rewrite length_app, descs_length in Hle. change (length (seq 0 NUM)) with 8%nat in Hle. lia.
Qed.

(** C6 [safety]. Whatever the interleaving of processes that submit disk
    requests and finish them, of the device, which serves them in any order or
    gives them up with an error, and of its interrupts: the descriptors of the
    requests in flight are distinct, and no other descriptor is taken; every head
    the device fetches leads it through the descriptors to exactly the request
    that was submitted (its header, the data of its buffer, its status byte).
    The interrupt handler finds the request of each element of the used ring, and
    panics exactly when the device wrote a status other than 0 for it.  A process
    whose buffer the handler released can free its chain without panic, and after
    a read the buffer holds what the block was when the device served it.  At
    most two requests are in flight, and a further one finds its three
    descriptors when there are fewer. *)
Theorem virtio_requests_safe x0 x :
  initial x0 → rtc step x0 x →
  NoDup (reqs x ≫= descs) ∧ (∀ i, free (drv x) !! i = Some false ↔ i ∈ reqs x ≫= descs)
  ∧ (∀ h, h ∈ fetched x → ∃ q, q ∈ reqs x ∧ q0 q = h
     ∧ ∀ r a w k, chain_of (drv x) h r a w k ↔
         r = blk_req (qw q) (qblk q) ∧ a = data_addr (qb q) ∧ w = negb (qw q) ∧ k = h)
  ∧ (used_idx (drv x) ≠ uidx (drv x) →
       ∃ q st, q ∈ reqs x ∧ uring (drv x) !! slot (used_idx (drv x)) = Some (Z.of_nat (q0 q))
         ∧ info (drv x) !! q0 q = Some (VInfo (Some (qb q)) st)
         ∧ if decide (st = 0) then ∃ s, complete_one (host x) = Ok tt s
           else complete_one (host x) = Panic "virtio_disk_intr status")
  ∧ (∀ q, q ∈ reqs x → in_disk (drv x) !! qb q = Some false →
       (∃ s, finish (q0 q) (host x) = Ok tt s)
       ∧ (qw q = false → ∃ d, results x !! qb q = Some d ∧ dmem x !! data_addr (qb q) = Some d))
  ∧ (length (reqs x) ≤ 2)%nat
  ∧ ((length (reqs x) < 2)%nat → ∃ i0 i1 i2 s, alloc3_desc (host x) = Ok (Some [i0; i1; i2]) s).
Proof.
  intros H0 Hr. destruct (inv_reach x0 x H0 Hr) as (p & u & s & Hinv). split_and!.
  - apply (iv_nodup _ _ _ _ Hinv).
  - apply (iv_taken _ _ _ _ Hinv).
  - intros h Hh. destruct (head_request _ _ _ _ Hinv h) as (q & Hq & <-); [rewrite !elem_of_app; tauto|].
    exists q. split_and!; [done|done|]. intros r a w k. split; [by eapply decodes_only|].
    intros (-> & -> & -> & ->). by eapply decodes.
  - intros Hne. by apply (inv_intr _ _ _ _ Hinv (host x)).
  - intros q Hq Hd. destruct (inv_finish _ _ _ _ Hinv q (host x) Hq Hd) as (Hf & Hs & _). split; [done|].
    destruct (iv_served _ _ _ _ Hinv q Hq) as (st & _ & Hst & _ & Hdata); [apply elem_of_app; by right|]. auto.
  - by eapply few.
  - by eapply room.
Qed.

End System.

(** ** A run *)

Module Run.

Definition symbols : DiskSymbols := {|
  vdisk_lock := 1; free_chan := 2; op_addr i := 1000 + 16 * Z.of_nat i; status_addr i := 2000 + 16 * Z.of_nat i;
  buf_addr b := 10000 + 2000 * Z.of_nat b; data_addr b := 10088 + 2000 * Z.of_nat b |}.

#[local] Existing Instance symbols.

Lemma symbols_ok : DiskSymbolsOk.
Proof. split; intros i j _ _; cbn; lia. Qed.

(** A host whose whole state is the driver's. *)
Definition alone : DiskHost vdisk := {|
  h_disk v := v; h_set v _ := v; h_initlock _ := ret tt; h_acquire _ := ret tt; h_release _ := ret tt;
  h_sleep _ _ := ret tt; h_wakeup _ := ret tt; h_kalloc := ret 4096; h_read _ := ret 0; h_write _ _ := ret tt |}.

#[local] Existing Instance alone.

Definition alone_ok : DiskHostOk vdisk.
Proof.
  refine {| host_ok _ := True |}; try done.
  - intros c s _. by apply returns_ret.
  - intros r x s _. by apply returns_ret.
Defined.

Definition v0 : vdisk :=
  VDisk 4096 8192 12288 (replicate NUM desc0) 0 (replicate NUM 0) 0 (replicate NUM 0) (replicate NUM true) 0
    (replicate NUM info0) (replicate NUM req0) (replicate NBUF false).

Definition x0 : system vdisk := System v0 [] 0 [] ∅ {[14 := [7; 7]]} ∅.

(** The driver's state after an operation that returns. *)
Definition after_op {A} (m : M vdisk A) (v : vdisk) : vdisk := match m v with Ok _ v' => v' | _ => v end.

Definition q : request := Request 0 1 2 3 7 false.

(** Block 7 is read into buffer 3: submitted, fetched, served, reported. *)
Definition va : vdisk := Eval vm_compute in after_op alloc3_desc v0.

Definition v1 : vdisk := Eval vm_compute in after_op (submit 3 7 false 0 1 2) va.

Definition v2 : vdisk := Eval vm_compute in after_op complete_one (reported 0 0 0 v1).

Definition x1 : system vdisk := System v1 [q] 0 [] ∅ {[14 := [7; 7]]} (delete 3%nat ∅).

Definition x1' : system vdisk := System v1 [q] 1 [0%nat] ∅ {[14 := [7; 7]]} (delete 3%nat ∅).

Definition x1'' : system vdisk :=
  System (h_set (reported 0 0 (q0 q) (drv x1')) (host x1')) (reqs x1') (avail_seen x1')
    (filter (λ h, h ≠ q0 q) (fetched x1')) (<[16088 := [7; 7]]> (dmem x1')) (platter x1')
    (<[qb q := default [] (platter x1' !! block_sector (qblk q))]> (results x1')).

Definition x2 : system vdisk := with_host v2 x1''.

Lemma run : rtc step x0 x2.
Proof.
  apply (rtc_l _ _ x1).
  { apply (step_submit x0 3 7 false 0 1 2 va v1); [unfold NBUF; lia|apply not_elem_of_nil|vm_compute; reflexivity|vm_compute; reflexivity]. }
  apply (rtc_l _ _ x1'); [apply (step_fetch x1 0); [done|reflexivity]|].
  apply (rtc_l _ _ x1'').
  { apply (step_read x1' q (blk_req false 7) 16088 0 [7; 7]); [left|left| |reflexivity|reflexivity].
    change (chain_of v1 0 (blk_req false 7) (d_addr (desc_data 3 false 2)) (has (d_flags (desc_data 3 false 2)) VRING_DESC_F_WRITE) 0).
    apply (chain _ 0 (desc_req 0 1) 1 (desc_data 3 false 2) 2 (desc_status 0) 0 (blk_req false 7) 0);
      try reflexivity; try (split; done); unfold NUM; lia. }
  apply (rtc_l _ _ x2); [|apply rtc_refl]. apply (step_intr x1'' v2); [done|vm_compute; reflexivity].
Qed.

End Run.

(** The process can free its chain, and buffer 3 holds block 7. *)
Lemma virtio_requests_safe_witness :
  (∃ s, finish (S := vdisk) (HO := Run.alone) (SYM := Run.symbols) 0 Run.v2 = Ok tt s)
  ∧ dmem Run.x2 !! 16088 = Some [7; 7].
Proof.
  destruct (virtio_requests_safe (HOK := Run.alone_ok) (SYMok := Run.symbols_ok) Run.x0 Run.x2) as (_ & _ & _ & _ & H & _).
  - split_and!; [done| |done|done|done]. split; try reflexivity. split; reflexivity.
  - exact Run.run.
  - destruct (H Run.q) as [Hf Hd]; [left|reflexivity|]. split; [exact Hf|].
    destruct (Hd eq_refl) as (d & Hr & Hm). rewrite <- Hr in Hm. exact Hm.
Defined.
