(* ===== verification/FsRead.v ===== *)
(** Reading files: [bmap] and [readi] (fs.c) against the contents of the disk. *)

From S2P Require Import Prelude Machine CString Kalloc Vm Bio Fs.

Lemma returns_zoom {S T A} (get : S → T) (set : T → S → S) (m : M T A) s (Q : A → T → Prop) :
  returns m (get s) Q → returns (zoom get set m) s (λ a s', ∃ t, s' = set t s ∧ Q a t).
Proof.
  intros (a & t & E & HQ). exists a, (set t s). split; [by unfold zoom; rewrite E|]. by exists t.
Qed.

(** What the file system relies on: from an idle cache a block can be read, the
    buffer has its contents, and releasing it leaves the cache idle. *)
Class BlockCacheOk (B : Type) `{BlockCache B} := {
  c_quiet : B → (Z → list Z) → Prop;
  c_read c dk bn : c_quiet c dk →
    returns (c_bread ROOTDEV bn) c (λ b c1, c_data c1 b = dk bn
      ∧ returns (c_brelse b) c1 (λ _ c2, c_quiet c2 dk));
}.

(** The buffer cache of bio.c is such a cache. *)
Section BioInstance.
Context {D : Type} `{DOk : BlockDeviceOk D}.
Context (pid : Z).

#[global] Instance bio_cache : BlockCache (bcache D) := {|
  c_bread := bread pid;
  c_data s b := data (getb s b);
  c_brelse := brelse pid;
|}.

#[global] Instance bio_cache_ok : BlockCacheOk (bcache D).
Proof.
  refine {| c_quiet c dk := quiet c ∧ ∀ b, block_of (disk c) b = dk b |}.
  intros c dk bn [Hq Hdk]. eapply returns_mono; [by apply (read_release_ok pid)|].
  intros b c1 [Hd Hr]. split; [by rewrite <- Hdk|].
  eapply returns_mono; [exact Hr|]. intros u c2 [Hq2 Hk2]. split; [done|]. intros b'. by rewrite Hk2.
Defined.

End BioInstance.

Section Reading.
Context {B : Type} `{BOk : BlockCacheOk B}.
Context (dk : Z → list Z).
Implicit Types s : fstate B.

(** Only the cache may have changed, and it is idle. *)
Definition fsame s s' : Prop :=
  c_quiet (cache s') dk ∧ fkm s' = fkm s ∧ itable s' = itable s ∧ sb s' = sb s.

Lemma fsame_trans s1 s2 s3 : fsame s1 s2 → fsame s2 s3 → fsame s1 s3.
Proof. intros (? & ? & ? & ?) (? & ? & ? & ?). split_and!; congruence. Qed.

(** [bread], a use of the data that leaves the cache alone, [brelse]. *)
Lemma with_block_ok {A} s bn (use : list Z → M (fstate B) A) (Q : A → fstate B → Prop) :
  c_quiet (cache s) dk →
  (∀ s1 b, fkm s1 = fkm s → itable s1 = itable s → sb s1 = sb s →
     c_data (cache s1) b = dk bn → returns (c_brelse b) (cache s1) (λ _ c2, c_quiet c2 dk) →
     returns (use (dk bn)) s1 (λ a s2, cache s2 = cache s1 ∧
       ∀ s3, fsame s2 s3 → Q a s3)) →
  returns (let! b := on_cache (c_bread ROOTDEV bn) in
           let! d := gets (λ s, c_data (cache s) b) in
           let! a := use d in
           on_cache (c_brelse b) ;;; ret a) s Q.
Proof.
  intros Hq Huse. eapply returns_bind; [by apply returns_zoom, c_read|].
  intros b s1 (c1 & -> & Hd & Hrel). set (s1 := FState _ c1 _ _).
  eapply returns_bind; [apply (returns_gets _ _ (λ d s', d = dk bn ∧ s' = s1)); by rewrite <- Hd|].
  intros d s' [-> ->]. eapply returns_bind; [by apply (Huse s1 b)|].
  intros a s2 [Ec HQ]. eapply returns_bind; [apply returns_zoom; rewrite Ec; exact Hrel|].
  intros u s3 (c3 & -> & Hq3). apply returns_ret, HQ. by split_and!.
Qed.

Lemma read_word_ok s addr i :
  c_quiet (cache s) dk →
  returns (read_word ROOTDEV addr i) s (λ r s', r = word_at (dk addr) i ∧ fsame s s').
Proof.
  intros Hq. unfold read_word. eapply returns_bind; [by apply returns_zoom, c_read|].
  intros b s1 (c1 & -> & Hd & Hrel). set (s1 := FState _ c1 _ _).
  eapply returns_bind; [apply (returns_gets _ _ (λ d s', d = dk addr ∧ s' = s1)); by rewrite <- Hd|].
  intros d s' [-> ->]. eapply returns_bind; [apply returns_zoom; exact Hrel|].
  intros u s2 (c2 & -> & Hq2). apply returns_ret. by split_and!.
Qed.

(** ** [bmap] *)

(** The block address of block [bn] of an inode, on disk [dk]. *)
Definition block_addr (x : inode) (bn : Z) : Z :=
  if bn <? NDIRECT then default 0 (addrs x !! Z.to_nat bn)
  else if bn - NDIRECT <? NINDIRECT then
    let a := default 0 (addrs x !! 11%nat) in
    if a =? 0 then 0 else word_at (dk a) (bn - NDIRECT)
  else
    let a := default 0 (addrs x !! 12%nat) in
    if a =? 0 then 0
    else
      let a' := word_at (dk a) ((bn - NDIRECT - NINDIRECT) / NINDIRECT) in
      if a' =? 0 then 0 else word_at (dk a') ((bn - NDIRECT - NINDIRECT) mod NINDIRECT).

Definition MAXFILE : Z := NDIRECT + NINDIRECT + NDINDIRECT.

Lemma bmap_ok s x bn :
  c_quiet (cache s) dk → idev x = ROOTDEV → 0 ≤ bn < MAXFILE →
  returns (bmap x bn) s (λ r s', r = block_addr x bn ∧ fsame s s').
Proof.
  intros Hq Hd Hbn. unfold bmap, block_addr. rewrite Hd.
  assert (Hrefl : fsame s s) by (by split_and!).
  destruct (bn <? NDIRECT); [by apply returns_ret|].
  destruct (bn - NDIRECT <? NINDIRECT).
  { change (Z.to_nat NDIRECT) with 11%nat. destruct (default 0 (addrs x !! 11%nat) =? 0);
      [by apply returns_ret|]. by apply read_word_ok. }
  rewrite (proj2 (Z.ltb_lt _ _)) by (unfold MAXFILE in Hbn; lia).
  change (Z.to_nat (NDIRECT + 1)) with 12%nat.
  destruct (default 0 (addrs x !! 12%nat) =? 0); [by apply returns_ret|].
  eapply returns_bind; [by apply read_word_ok|]. intros r s1 [-> Hs1].
  destruct (word_at (dk (default 0 (addrs x !! 12%nat))) _ =? 0); [by apply returns_ret|].
  eapply returns_mono; [apply read_word_ok, Hs1|]. intros r s2 [-> Hs2].
  split; [done|]. by eapply fsame_trans.
Qed.

Lemma bmap_range s x bn :
  MAXFILE ≤ bn → bmap x bn s = Panic "bmap: out of range".
Proof.
  intros Hbn. unfold MAXFILE, NDINDIRECT, NINDIRECT, NDIRECT, BSIZE in *. change (1024 / 4) with 256 in *.
  unfold bmap. rewrite !(proj2 (Z.ltb_ge _ _)); [done|..];
    unfold NDINDIRECT, NINDIRECT, NDIRECT, BSIZE; change (1024 / 4) with 256; lia.
Qed.

(** ** [readi] *)

(** Byte [off] of the file. *)
Definition content (x : inode) (off : Z) : Z :=
  default 0 (dk (block_addr x (off / BSIZE)) !! Z.to_nat (off mod BSIZE)).

(** The [n] bytes of the file from [off]. *)
Definition contents (x : inode) (off n : Z) : list Z := content x <$> seqZ off n.

(** A file without holes whose size fits its block pointers. *)
Record file_ok (x : inode) : Prop := {
  fo_dev : idev x = ROOTDEV;
  fo_size : 0 ≤ isize x ≤ MAXFILE * BSIZE;
  fo_map : ∀ bn, 0 ≤ bn → bn * BSIZE < isize x → block_addr x bn ≠ 0;
  fo_len : ∀ bn, 0 ≤ bn → bn * BSIZE < isize x → length (dk (block_addr x bn)) = Z.to_nat BSIZE;
}.

Lemma contents_app x off m n : 0 ≤ m → 0 ≤ n → contents x off (m + n) = contents x off m ++ contents x (off + m) n.
Proof. intros Hm Hn. unfold contents. by rewrite seqZ_app, fmap_app by done. Qed.

(** A run of bytes inside one block. *)
Lemma contents_block x off m :
  0 ≤ off → 0 ≤ m → off mod BSIZE + m ≤ BSIZE →
  length (dk (block_addr x (off / BSIZE))) = Z.to_nat BSIZE →
  take (Z.to_nat m) (drop (Z.to_nat (off mod BSIZE)) (dk (block_addr x (off / BSIZE)))) = contents x off m.
Proof.
  intros Hoff Hm Hin Hlen. apply list_eq_same_length with (n := Z.to_nat m).
  - unfold contents. by rewrite length_fmap, length_seqZ.
  - rewrite length_take, length_drop, Hlen. unfold BSIZE in *. dlia.
  - intros i a b Hi Ha Hb. unfold contents in Hb. rewrite list_lookup_fmap in Hb.
    rewrite lookup_seqZ_lt in Hb by lia. simpl in Hb. injection Hb as <-.
    rewrite lookup_take_lt, lookup_drop in Ha by done. unfold content.
    replace ((off + Z.of_nat i) / BSIZE) with (off / BSIZE) by (unfold BSIZE in *; dlia).
    replace (Z.to_nat ((off + Z.of_nat i) mod BSIZE)) with (Z.to_nat (off mod BSIZE) + i)%nat
      by (unfold BSIZE in *; dlia).
    by rewrite Ha.
Qed.

(** The loop, for any destination: [P k] says the first [k] bytes are stored,
    [E] holds after a failed store. *)
Section Loop.
Context (x : inode) (dst : dest) (off0 n : Z).
Context (P : Z → kmem_state → list Z → Prop) (E : kmem_state → Prop).
Context (Hfile : file_ok x) (Hoff : 0 ≤ off0) (Hn : off0 + n ≤ isize x).
Context (Hstore : ∀ tot m s out, 0 ≤ tot → 0 < m → tot + m ≤ n → P tot (fkm s) out →
  returns (either_copyout dst tot (contents x (off0 + tot) m)) s (λ r s',
    cache s' = cache s ∧ itable s' = itable s ∧ sb s' = sb s
    ∧ (fst r = 0 ∧ P (tot + m) (fkm s') (out ++ snd r) ∨ fst r = -1 ∧ E (fkm s')))).

Lemma readi_loop_ok fuel s tot out :
  c_quiet (cache s) dk → 0 ≤ tot ≤ n → P tot (fkm s) out →
  (1 + (if decide (tot < n) then 1 + ((off0 + tot) mod BSIZE + (n - tot) - 1) / BSIZE else 0)
   ≤ Z.of_nat fuel) →
  returns (readi_loop fuel x dst tot (off0 + tot) n out) s (λ r s',
    c_quiet (cache s') dk ∧ itable s' = itable s ∧ sb s' = sb s
    ∧ (fst r = n ∧ P n (fkm s') (snd r) ∨ fst r = -1 ∧ E (fkm s'))).
Proof.
  revert s tot out. induction fuel as [|f IH]; intros s tot out Hq Htot HP Hf.
  { destruct (decide (tot < n)); [|lia]. unfold BSIZE in *. dlia. }
  cbn [readi_loop]. destruct (Z.ltb_spec tot n) as [Hlt|Hge]; cbn [negb].
  2:{ apply returns_ret. assert (tot = n) as -> by lia. split_and!; auto. }
  rewrite decide_True in Hf by done.
  assert (Hbn : 0 ≤ (off0 + tot) / BSIZE ∧ (off0 + tot) / BSIZE * BSIZE < isize x)
    by (unfold BSIZE in *; dlia).
  pose proof (fo_map x Hfile _ (proj1 Hbn) (proj2 Hbn)) as Hmap.
  pose proof (fo_len x Hfile _ (proj1 Hbn) (proj2 Hbn)) as Hlen.
  eapply returns_bind; [apply (bmap_ok s x); [done|apply Hfile|]|].
  { destruct (fo_size x Hfile). unfold BSIZE in *. dlia. }
  intros addr s1 [-> (Hq1 & Hk1 & Hi1 & Hb1)]. rewrite (proj2 (Z.eqb_neq _ _) Hmap).
  rewrite (fo_dev x Hfile). eapply returns_bind; [by apply returns_zoom, c_read|].
  intros b s2 (c2 & -> & Hd2 & Hrel2). set (s2 := FState _ c2 _ _).
  set (m := Z.min (n - tot) (BSIZE - (off0 + tot) mod BSIZE)).
  assert (Hm : 0 < m ∧ tot + m ≤ n ∧ (off0 + tot) mod BSIZE + m ≤ BSIZE) by (subst m; unfold BSIZE in *; dlia).
  eapply returns_bind; [apply (returns_gets _ _ (λ d s', d = dk (block_addr x ((off0 + tot) / BSIZE)) ∧ s' = s2)); by rewrite <- Hd2|].
  intros d s' [-> ->]. rewrite contents_block by (done || lia).
  eapply returns_bind; [apply (Hstore tot m s2 out); try lia; change (fkm s2) with (fkm s1); by rewrite Hk1|].
  intros [r bs] s3 (Hc3 & Hi3 & Hb3 & Hr). cbn [fst snd] in *.
  assert (Hrel3 : returns (c_brelse b) (cache s3) (λ _ c, c_quiet c dk)) by (by rewrite Hc3).
  destruct Hr as [[-> HP3]|[-> HE3]]; cbn [Z.eqb].
  - eapply returns_bind; [by apply returns_zoom|]. intros u s4 (c4 & -> & Hq4).
    rewrite <- Z.add_assoc.
    assert (Hmore : tot + m < n → (off0 + (tot + m)) mod BSIZE = 0) by (subst m; unfold BSIZE in *; dlia).
    eapply returns_mono; [apply (IH _ (tot + m) (out ++ bs)); [done|lia|done|]|].
    + destruct (decide (tot + m < n)) as [Hl|]; [|unfold BSIZE in *; dlia].
      rewrite Hmore by done. subst m. unfold BSIZE in *. dlia.
    + intros r s5 (? & Hi5 & Hb5 & ?). subst s2. simpl in *. split_and!; try done; congruence.
  - eapply returns_bind; [by apply returns_zoom|]. intros u s4 (c4 & -> & Hq4). apply returns_ret.
    subst s2. simpl in *. split_and!; try done; [congruence|congruence|by right].
Qed.

End Loop.

(** The number of bytes [readi] delivers. *)
Definition read_len (x : inode) (off n : Z) : Z :=
  if (isize x <? off) || (2 ^ 32 <=? off + n) then 0 else Z.min n (isize x - off).

Lemma MAXFILE_small : MAXFILE * BSIZE < 2 ^ 32.
Proof. vm_compute. done. Qed.

Lemma readi_gen s ip dst off n (P : Z → kmem_state → list Z → Prop) (E : kmem_state → Prop) :
  let x := geti s ip in
  c_quiet (cache s) dk → file_ok x → 0 ≤ off < 2 ^ 32 → 0 ≤ n < 2 ^ 32 → P 0 (fkm s) [] →
  (∀ tot m s out, 0 ≤ tot → 0 < m → tot + m ≤ read_len x off n → P tot (fkm s) out →
    returns (either_copyout dst tot (contents x (off + tot) m)) s (λ r s',
      cache s' = cache s ∧ itable s' = itable s ∧ sb s' = sb s
      ∧ (fst r = 0 ∧ P (tot + m) (fkm s') (out ++ snd r) ∨ fst r = -1 ∧ E (fkm s')))) →
  returns (readi ip dst off n) s (λ r s',
    c_quiet (cache s') dk ∧ itable s' = itable s ∧ sb s' = sb s
    ∧ (fst r = read_len x off n ∧ P (read_len x off n) (fkm s') (snd r) ∨ fst r = -1 ∧ E (fkm s'))).
Proof.
  intros x Hq Hfile Hoff Hn HP Hstore. unfold readi.
  eapply returns_bind; [apply (returns_gets _ _ (λ y s', y = x ∧ s' = s)); done|].
  intros y s' [-> ->]. destruct (fo_size x Hfile) as [Hs0 Hs1]. pose proof MAXFILE_small.
  unfold read_len in *. destruct (Z.ltb_spec (isize x) off) as [Hbig|Hle]; cbn [orb].
  { apply returns_ret. split_and!; try done. left. done. }
  destruct (Z.leb_spec (2 ^ 32) (off + n)) as [Hov|Hno]; cbn [orb].
  { assert (Ew : u32 (off + n) = off + n - 2 ^ 32).
    { unfold u32. symmetry. apply (Z.mod_unique_pos _ _ 1); lia. }
    rewrite Ew, (proj2 (Z.ltb_lt _ _)) by lia. apply returns_ret. split_and!; try done. by left. }
  rewrite u32_id by lia. rewrite (proj2 (Z.ltb_ge (off + n) off)) by lia.
  replace (if isize x <? off + n then isize x - off else n) with (Z.min n (isize x - off))
    by (destruct (Z.ltb_spec (isize x) (off + n)); lia).
  cbn [orb] in Hstore. set (n' := Z.min n (isize x - off)) in *.
  assert (Hn' : 0 ≤ n' ∧ off + n' ≤ isize x) by lia. clearbody n'.
  pose proof (readi_loop_ok x dst off n' P E Hfile ltac:(lia) ltac:(lia) Hstore
    (S (S (Z.to_nat (n' / BSIZE + 1)))) s 0 [] Hq ltac:(lia) HP) as Hl.
  rewrite Z.add_0_r in Hl. apply Hl.
  destruct (decide (0 < n')); [|lia]. unfold BSIZE. dlia.
Qed.

(** Reading into a kernel buffer. *)
Lemma readi_buf_ok s ip off n :
  let x := geti s ip in
  c_quiet (cache s) dk → file_ok x → 0 ≤ off < 2 ^ 32 → 0 ≤ n < 2 ^ 32 →
  returns (readi ip KernBuf off n) s (λ r s',
    r = (read_len x off n, contents x off (read_len x off n)) ∧ fsame s s').
Proof.
  intros x Hq Hfile Hoff Hn.
  eapply returns_mono; [apply (readi_gen s ip KernBuf off n
    (λ k km out, km = fkm s ∧ out = contents x off k) (λ _, False)); try done|].
  - intros tot m s1 out Ht Hm Hle [Hk ->]. apply returns_ret. split_and!; try done. left.
    cbn [fst snd]. split_and!; [done|done|]. by rewrite contents_app by lia.
  - intros [r bs] s' Hr. cbn [fst snd] in Hr. destruct Hr as (Hq' & Hi & Hb & [[-> [Hk ->]]|[_ []]]).
    split; [done|]. by split_and!.
Qed.

End Reading.

(** ** Reading into user memory *)

From S2P Require Import PageTable AddrSpace Uvm UvmCopy CopyIO VmSpec.

Section UserReading.
Context {B : Type} `{BOk : BlockCacheOk B}.
Context {LK : Linker} {LKok : LinkerOk}.
Context (dk : Z → list Z).

(** [wrote] depends only on the bytes it stores. *)
Lemma wrote_prefix pt n l va src src' k s s' :
  (∀ i, (i < Z.to_nat k)%nat → src !! i = src' !! i) → wrote pt n l va src k s s' → wrote pt n l va src' k s s'.
Proof.
  intros Heq (Hu & Hv & Ht & Hf & Hg). split_and!; try done. intros va' Hva'. rewrite Hg by done.
  destruct (decide _); [|done]. rewrite Heq by lia. done.
Qed.

(** C15 [functional]. [readi] to user memory on a well-formed file stores
    exactly the bytes of the file from [off], as many as were asked for and
    exist, at the user address, and returns their number; or it returns -1
    because user code may not write one of these places, having stored the bytes
    before the first such place and nothing else.  The inode table is untouched
    and the buffer cache idle again. *)
Theorem readi_delivers_file (s : fstate B) ip pt np l va off n :
  let x := geti s ip in
  c_quiet (cache s) dk → file_ok dk x → 0 ≤ off < 2 ^ 32 → 0 ≤ n < 2 ^ 32 → 0 ≤ va → va + n < 2 ^ 64 →
  uvm (fkm s) pt np l → user_below (fkm s) pt np →
  returns (readi ip (UserVA pt va) off n) s (λ r s',
    c_quiet (cache s') dk ∧ itable s' = itable s ∧ sb s' = sb s ∧ ∃ k,
      wrote pt np l va (contents dk x off (read_len x off n)) k (fkm s) (fkm s')
      ∧ (∀ va', va ≤ va' < va + k → uwritable (fkm s) pt va' = true)
      ∧ (fst r = read_len x off n ∧ k = read_len x off n
         ∨ fst r = -1 ∧ 0 ≤ k < read_len x off n ∧ uwritable (fkm s) pt (va + k) = false)).
Proof.
  intros x Hq Hfile Hoff Hn Hva Hvan Hu Hb. set (len := read_len x off n).
  assert (Hlen : len ≤ n) by (subst len; unfold read_len; destruct (_ || _); lia).
  set (writable := λ k, ∀ va', va ≤ va' < va + k → uwritable (fkm s) pt va' = true).
  eapply returns_mono; [apply (readi_gen dk s ip (UserVA pt va) off n
    (λ k km _, wrote pt np l va (contents dk x off len) k (fkm s) km ∧ writable k)
    (λ km, ∃ k, wrote pt np l va (contents dk x off len) k (fkm s) km ∧ writable k
       ∧ 0 ≤ k < len ∧ uwritable (fkm s) pt (va + k) = false)); try done|].
  - split; [by apply wrote_none|]. intros va' Hva'. lia.
  - intros tot m s1 out Ht Hm Hle [Hw Hwr]. pose proof Hw as (Hu1 & Hv1 & _). fold x in Hle. fold len in Hle.
    set (bs := contents dk x (off + tot) m).
    assert (Hbs : Z.of_nat (length bs) = m).
    { subst bs. unfold contents. rewrite length_fmap, length_seqZ. lia. }
    assert (Hdrop : ∀ i, (i < Z.to_nat m)%nat →
              bs !! i = drop (Z.to_nat tot) (contents dk x off len) !! i).
    { intros i Hi. rewrite lookup_drop. subst bs. unfold contents.
      rewrite !list_lookup_fmap, !lookup_seqZ_lt by lia. cbn [fmap option_fmap option_map].
      do 2 f_equal. lia. }
    unfold either_copyout. rewrite u64_id by lia.
    eapply returns_bind; [apply returns_zoom, (copyout_ok (fkm s1) pt np l (va + tot) bs);
      [done|by apply (user_below_ext (fkm s))|lia]|].
    intros r s2 (km2 & -> & k & Hw2 & Hr & Hwr2). apply returns_ret. cbn [fst snd cache itable sb fkm].
    assert (Hk : 0 ≤ k ≤ m) by (rewrite Hbs in Hr; lia).
    assert (Hw2' : wrote pt np l va (contents dk x off len) (tot + k) (fkm s) km2).
    { apply (wrote_trans pt np l va _ tot k (fkm s) (fkm s1)); try done; try lia.
      apply (wrote_prefix _ _ _ _ bs); [|done]. intros i Hi. apply Hdrop. lia. }
    assert (Ew : ∀ va', uwritable (fkm s1) pt va' = uwritable (fkm s) pt va').
    { intros va'. unfold uwritable, upa. by rewrite Hv1. }
    assert (Hwr' : writable (tot + k)).
    { intros va' Hva'. destruct (decide (va' < va + tot)); [apply Hwr; lia|]. rewrite <- Ew. apply Hwr2. lia. }
    split_and!; try done. destruct Hr as [[-> ->]|(-> & Hk' & Hf)]; [left|right].
    + by rewrite <- Hbs.
    + split; [done|]. exists (tot + k). split_and!; [done|done|lia|lia|]. by rewrite Z.add_assoc, <- Ew.
  - intros [r out] s' (Hq' & Hi & Hs & Hr). cbn [fst snd] in *. split_and!; try done.
    destruct Hr as [[-> [Hw Hwr]]|(-> & k & Hw & Hwr & Hk)]; [exists len|exists k]; auto 10.
Qed.

End UserReading.

(** ** A concrete disk

    Block 1 is the super block, block 2 holds the inodes, block 3 the root
    directory with the entries "." and "hi", block 4 the file "hi". *)

Module TestDisk.

Definition pad (n : nat) (l : list Z) : list Z := l ++ replicate (n - length l) 0.

Definition le (n : nat) (z : Z) : list Z := (λ i, z / 256 ^ Z.of_nat i mod 256) <$> seq 0 n.

Definition dinode (t sz addr : Z) : list Z :=
  pad 64 (le 2 t ++ le 2 0 ++ le 2 0 ++ le 2 1 ++ le 4 sz ++ le 4 addr).

Definition dirent (ino : Z) (name : list Z) : list Z := le 2 ino ++ pad 14 name.

Definition image : gmap Z (list Z) := list_to_map [
  (1, pad 1024 (le 4 FSMAGIC ++ le 4 5 ++ le 4 2 ++ le 4 16 ++ le 4 0 ++ le 4 2 ++ le 4 2 ++ le 4 3));
  (2, pad 1024 (pad 64 [] ++ dinode T_DIR 32 3 ++ dinode T_FILE 5 4));
  (3, pad 1024 (dirent 1 [46] ++ dirent 2 [104; 105]));
  (4, pad 1024 [104; 101; 108; 108; 111])].

Definition dk : Z → list Z := RamDisk.contents image.

(** Inode 2 as [ilock] loads it. *)
Definition file : inode :=
  load_dinode (dk 2) (Inode ROOTDEV 2 1 (SleepLock true 1) true 0 0 0 0 0 []).

Lemma file_is_ok : file_ok dk file.
Proof.
  assert (H0 : ∀ bn, 0 ≤ bn → bn * BSIZE < isize file → bn = 0).
  { intros bn Hbn. change (isize file) with 5. unfold BSIZE. lia. }
  split; [reflexivity|evaluate|..]; intros bn Hbn Hlt; rewrite (H0 bn Hbn Hlt); evaluate.
Qed.

#[local] Existing Instance RamDisk.device.
#[local] Existing Instance RamDisk.device_ok.

Definition boot : bcache (gmap Z (list Z)) := Bcache (replicate (S NBUF) buf0) image.

(** The cache after [binit] is idle, over this disk. *)
Lemma boot_quiet : ∃ c : bcache (gmap Z (list Z)), c_quiet (BlockCacheOk := bio_cache_ok 1) c dk.
Proof.
  destruct (binit_ok boot) as (u & c & _ & Hq & _ & Hd); [reflexivity| |exact I|].
  - apply RamDisk.boot_blank.
  - exists c. split; [exact Hq|]. intros b. by rewrite Hd.
Qed.

End TestDisk.

Section ReadWitness.
#[local] Existing Instance RamDisk.device.
#[local] Existing Instance RamDisk.device_ok.
#[local] Existing Instance Demo.linker.
#[local] Existing Instance Demo.linker_ok.

(** The four bytes after the first of the file; the page is writable. *)
Lemma readi_delivers_file_witness :
  ∃ s : fstate (bcache (gmap Z (list Z))),
  returns (readi (H := bio_cache 1) 0 (UserVA Space.pt 16) 1 100) s (λ r s', fst r = 4 ∧ ∃ np l,
    wrote Space.pt np l 16 [101; 108; 108; 111] 4 (fkm s) (fkm s')).
Proof.
  destruct TestDisk.boot_quiet as [c Hc]. destruct Space.one_page as (km & l & Hu & Hb & Hwr & _).
  exists (FState km c [TestDisk.file] (Superblock 0 0 0 0 0 0 0 0)).
  eapply returns_mono; [apply (readi_delivers_file (BOk := bio_cache_ok 1) TestDisk.dk _ 0 Space.pt 1 l 16 1 100);
    [exact Hc|exact TestDisk.file_is_ok|lia|lia|lia|lia|exact Hu|exact Hb]|].
  intros r s' (_ & _ & _ & k & Hw & _ & Hr). destruct Hr as [[E Ek]|(_ & Hk & Hf)].
  - split; [exact E|]. exists 1%nat, l. rewrite Ek in Hw. exact Hw.
  - exfalso. change (read_len _ _ _) with 4 in Hk. change (fkm (FState km _ _ _)) with km in Hf.
    rewrite Hwr in Hf by (unfold PGSIZE; lia). discriminate Hf.
Defined.

End ReadWitness.
