(* ===== verification/Mkfs.v ===== *)
(** tools/mkfs.c: the program that builds the file-system image.

    The image is a map from block numbers to blocks of 1024 bytes; a call of
    [exit(1)], [die] or a failed [assert] is a panic.  Numbers in the image are
    little-endian, which is what [xint] and [xshort] produce.  Files of the host
    are given as the pieces that [read] returns. *)

From S2P Require Import Prelude Machine CString Bio Fs FsRead.

Definition NINODES : Z := 200.

Definition FSSIZE : Z := 70000.

Definition LOGBLOCKS : Z := 30.

Definition BPB : Z := BSIZE * 8.

Definition nbitmap : Z := FSSIZE / BPB + 1.

Definition ninodeblocks : Z := NINODES / IPB + 1.

Definition nlogblocks : Z := LOGBLOCKS + 1.

Definition nmeta : Z := 2 + nlogblocks + ninodeblocks + nbitmap.

(** The super block that [main] fills in. *)
Definition mk_sb : superblock :=
  Superblock FSMAGIC FSSIZE (FSSIZE - nmeta) NINODES nlogblocks 2 (2 + nlogblocks) (2 + nlogblocks + ninodeblocks).

Definition sb_bytes (s : superblock) : list Z :=
  [magic s; fsize s; nblocks s; ninodes s; nlog s; logstart s; inodestart s; bmapstart s] ≫= le_bytes 4.

Record mkstate := MkState {
  img : gmap Z (list Z);
  freeinode : Z;
  freeblock : Z;
}.

#[global] Instance eta_mkstate : Eta mkstate := λ s, MkState (img s) (freeinode s) (freeblock s).

Abbreviation W := (M mkstate).

(** [memmove(d + off, bs, length of bs)] inside an array [d]. *)
Definition splice (d : list Z) (off : nat) (bs : list Z) : list Z :=
  take off d ++ bs ++ drop (off + length bs) d.

(** [wsect]: the file position [sec * BSIZE] is a 32-bit product. *)
Definition wsect (sec : Z) (b : list Z) : W unit :=
  modify (λ s, s <| img := <[u32 (sec * BSIZE) / BSIZE := b]> (img s) |>).

(** [rsect]: reading past the end of the image returns too few bytes. *)
Definition rsect (sec : Z) : W (list Z) :=
  let! m := gets img in
  match m !! (u32 (sec * BSIZE) / BSIZE) with
  | Some b => ret b
  | None => panic "read"
  end.

Record dinode := DInode {
  dtype : Z;
  dmajor : Z;
  dminor : Z;
  dnlink : Z;
  dsize : Z;
  daddrs : list Z;
}.

#[global] Instance eta_dinode : Eta dinode := λ d,
  DInode (dtype d) (dmajor d) (dminor d) (dnlink d) (dsize d) (daddrs d).

Definition dinode_bytes (d : dinode) : list Z :=
  le_bytes 2 (dtype d) ++ le_bytes 2 (dmajor d) ++ le_bytes 2 (dminor d) ++ le_bytes 2 (dnlink d)
  ++ le_bytes 4 (dsize d) ++ (daddrs d ≫= le_bytes 4).

(** The [struct dinode] at offset [o] of a block. *)
Definition dinode_at (b : list Z) (o : nat) : dinode :=
  DInode (le_at 2 b o) (le_at 2 b (o + 2)) (le_at 2 b (o + 4)) (le_at 2 b (o + 6)) (le_at 4 b (o + 8))
    ((λ i, le_at 4 b (o + 12 + 4 * i)) <$> seq 0 13).

Definition dinode_off (inum : Z) : nat := Z.to_nat (64 * (inum mod IPB)).

Definition winode (inum : Z) (d : dinode) : W unit :=
  let bn := IBLOCK inum mk_sb in
  let! b := rsect bn in
  wsect bn (splice b (dinode_off inum) (dinode_bytes d)).

Definition rinode (inum : Z) : W dinode :=
  let! b := rsect (IBLOCK inum mk_sb) in
  ret (dinode_at b (dinode_off inum)).

Definition ialloc (type major minor : Z) : W Z :=
  let! inum := gets freeinode in
  modify (λ s, s <| freeinode := u32 (freeinode s + 1) |>) ;;;
  winode inum (DInode type major minor 1 0 (replicate 13 0)) ;;;
  ret inum.

Definition allocblock : W Z :=
  let! b := gets freeblock in
  if FSSIZE <=? b then panic "mkfs: out of blocks"
  else modify (λ s, s <| freeblock := u32 (freeblock s + 1) |>) ;;; ret b.

(** [balloc]: one block of the bitmap. *)
Definition set_bit (b : list Z) (i : Z) : list Z :=
  let k := Z.to_nat (i / 8) in
  <[k := Z.lor (default 0 (b !! k)) (Z.shiftl 1 (i mod 8))]> b.

Definition bitmap_block (used b : Z) : list Z :=
  foldl (λ d i, if b * BPB + i <? used then set_bit d i else d) (replicate (Z.to_nat BSIZE) 0) (seqZ 0 BPB).

Definition balloc (used : Z) : W unit :=
  for_each (seqZ 0 nbitmap) (λ b, wsect (bmapstart mk_sb + b) (bitmap_block used b)).

(** [indirect[i] = xint(v)] *)
Definition set_word (b : list Z) (i v : Z) : list Z := splice b (Z.to_nat (4 * i)) (le_bytes 4 v).

(** An entry of [din.addrs], allocated when it is zero. *)
Definition direct_slot (din : dinode) (i : nat) : W (dinode * Z) :=
  let a := default 0 (daddrs din !! i) in
  if a =? 0 then
    let! x := allocblock in
    ret (din <| daddrs := <[i := x]> (daddrs din) |>, x)
  else ret (din, a).

(** Entry [i] of the indirect block at [a], allocated when it is zero. *)
Definition indirect_slot (a i : Z) : W Z :=
  let! b := rsect a in
  if word_at b i =? 0 then
    let! x := allocblock in
    wsect a (set_word b i x) ;;;
    ret x
  else ret (word_at b i).

(** The block that holds block [fbn] of the file, allocated when it is new. *)
Definition fblock (din : dinode) (fbn : Z) : W (dinode * Z) :=
  if fbn <? NDIRECT then direct_slot din (Z.to_nat fbn)
  else if fbn <? NDIRECT + NINDIRECT then
    let! r := direct_slot din 11 in
    let! x := indirect_slot (snd r) (fbn - NDIRECT) in
    ret (fst r, x)
  else
    let dbn := fbn - NDIRECT - NINDIRECT in
    let! r := direct_slot din 12 in
    let! a := indirect_slot (snd r) (dbn / NINDIRECT) in
    let! x := indirect_slot a (dbn mod NINDIRECT) in
    ret (fst r, x).

(** The [while (n > 0)] loop of [iappend]; [p] holds the [n] bytes left. *)
Fixpoint iappend_loop (fuel : nat) (din : dinode) (off : Z) (p : list Z) : W (dinode * Z) :=
  match fuel with
  | O => nofuel
  | S f =>
      if (length p =? 0)%nat then ret (din, off)
      else
        let fbn := off / BSIZE in
        if MAXFILE <=? fbn then panic "assert"
        else
          let! r := fblock din fbn in
          let '(din, x) := r in
          let n1 := Z.min (Z.of_nat (length p)) ((fbn + 1) * BSIZE - off) in
          let! b := rsect x in
          wsect x (splice b (Z.to_nat (off - fbn * BSIZE)) (take (Z.to_nat n1) p)) ;;;
          iappend_loop f din (u32 (off + n1)) (drop (Z.to_nat n1) p)
  end.

Definition iappend (inum : Z) (p : list Z) : W unit :=
  let! din := rinode inum in
  let! r := iappend_loop (S (length p)) din (dsize din) p in
  winode inum ((fst r) <| dsize := snd r |>).

(** [struct dirent] with the name copied by [strncpy] into zeroed memory. *)
Definition dirent_bytes (inum : Z) (name : list Z) : list Z :=
  le_bytes 2 inum ++ strncpy (replicate (Z.to_nat DIRSIZ) 0) name DIRSIZ.

(** [strrchr(path, '/')] and the skipped underscore. *)
Fixpoint basename (path last : list Z) : list Z :=
  match path with
  | [] => last
  | c :: p => basename p (if c =? SLASH then p else last)
  end.

Definition shortname (path : list Z) : list Z :=
  let s := basename path path in
  match s with
  | c :: s' => if c =? 95 then s' else s
  | [] => s
  end.

(** One round of the loop over the files of the command line. *)
Definition add_file (rootino : Z) (path : list Z) (pieces : list (list Z)) : W unit :=
  let name := shortname path in
  if DIRSIZ <? Z.of_nat (length name) then panic "assert"
  else
    let! inum := ialloc T_FILE 0 0 in
    iappend rootino (dirent_bytes inum name) ;;;
    for_each pieces (iappend inum).

Definition fix_root (rootino : Z) : W unit :=
  let! din := rinode rootino in
  let off := u32 ((dsize din / BSIZE + 1) * BSIZE) in
  winode rootino (din <| dsize := off |>).

Definition zeroes : list Z := replicate (Z.to_nat BSIZE) 0.

Definition mkfs (files : list (list Z * list (list Z))) : W unit :=
  modify (λ s, s <| freeblock := nmeta |>) ;;;
  for_each (seqZ 0 FSSIZE) (λ i, wsect i zeroes) ;;;
  wsect 1 (splice zeroes 0 (sb_bytes mk_sb)) ;;;
  let! rootino := ialloc T_DIR 0 0 in
  if negb (rootino =? ROOTINO) then panic "assert"
  else
    iappend rootino (dirent_bytes rootino [46]) ;;;
    let! inum := ialloc T_DEVICE 1 0 in
    iappend rootino (dirent_bytes inum (chars "console")) ;;;
    for_each files (λ f, add_file rootino (fst f) (snd f)) ;;;
    fix_root rootino ;;;
    let! used := gets freeblock in
    balloc used.

(** The image file is empty at first, and [freeinode] is 1. *)
Definition mk0 : mkstate := MkState ∅ 1 0.
