(* ===== verification/MkfsSpec.v ===== *)
(** The image that mkfs builds, as a map from inode numbers to file contents.

    [laid] says how the blocks of an image hold the files: a layout [L] gives
    every block of every file its address (0 when it is not allocated), and the
    pointers in the inodes and indirect blocks are those of the layout. *)

From S2P Require Import Prelude Machine CString Bio Fs Bytes FsRead Mkfs.

(** ** Arrays *)

Lemma splice_lookup d off bs i :
  (off + length bs ≤ length d)%nat →
  splice d off bs !! i = if decide (off ≤ i < off + length bs)%nat then bs !! (i - off)%nat else d !! i.
Proof.
  intros Hl. unfold splice. destruct (decide _) as [Hi|Hi].
  - rewrite lookup_app_r; rewrite length_take_le by lia; [|lia]. by rewrite lookup_app_l by lia.
  - destruct (decide (i < off)%nat).
    + rewrite lookup_app_l by (rewrite length_take_le; lia). by rewrite lookup_take_lt by done.
    + rewrite lookup_app_r; rewrite length_take_le by lia; [|lia].
      rewrite lookup_app_r by lia. rewrite lookup_drop. f_equal. lia.
Qed.

Lemma length_splice d off bs : (off + length bs ≤ length d)%nat → length (splice d off bs) = length d.
Proof. intros Hl. unfold splice. rewrite !length_app, length_take_le, length_drop by lia. lia. Qed.

Lemma le_at_splice n d off bs k :
  (off + length bs ≤ length d)%nat → (k + n ≤ length bs)%nat →
  le_at n (splice d off bs) (off + k) = le_at n bs k.
Proof.
  intros Hl Hk. apply le_at_ext. intros i Hi. rewrite splice_lookup by done. rewrite decide_True by lia.
  f_equal. lia.
Qed.

Lemma le_at_splice_ne n d off bs o :
  (off + length bs ≤ length d)%nat → (o + n ≤ off ∨ off + length bs ≤ o)%nat →
  le_at n (splice d off bs) o = le_at n d o.
Proof. intros Hl Ho. apply le_at_ext. intros i Hi. rewrite splice_lookup by done. by rewrite decide_False by lia. Qed.

Lemma length_zeroes : length zeroes = 1024%nat.
Proof. apply length_replicate. Qed.

Lemma word_at_zeroes i : word_at zeroes i = 0.
Proof. apply le_at_zeroes. Qed.

Lemma length_set_word b i v : length b = 1024%nat → 0 ≤ i < 256 → length (set_word b i v) = 1024%nat.
Proof. intros Hb Hi. unfold set_word. rewrite length_splice; rewrite ?length_le_bytes, ?Hb; lia. Qed.

Lemma word_at_set b i v j :
  length b = 1024%nat → 0 ≤ i < 256 → 0 ≤ j → 0 ≤ v < 2 ^ 32 →
  word_at (set_word b i v) j = if decide (j = i) then v else word_at b j.
Proof.
  intros Hb Hi Hj Hv. unfold word_at, set_word. destruct (decide (j = i)) as [->|Hne].
  - rewrite <- (Nat.add_0_r (Z.to_nat (4 * i))) at 2. rewrite le_at_splice; rewrite ?length_le_bytes, ?Hb; [|lia..].
    rewrite le_at_le_bytes. by apply Z.mod_small.
  - apply le_at_splice_ne; rewrite length_le_bytes; [rewrite Hb|]; lia.
Qed.

(** ** The inodes of a block *)

Record dinode_wf (d : dinode) : Prop := {
  wf_type : 0 ≤ dtype d < 2 ^ 16;
  wf_major : 0 ≤ dmajor d < 2 ^ 16;
  wf_minor : 0 ≤ dminor d < 2 ^ 16;
  wf_nlink : 0 ≤ dnlink d < 2 ^ 16;
  wf_size : 0 ≤ dsize d < 2 ^ 32;
  wf_len : length (daddrs d) = 13%nat;
  wf_addr i a : daddrs d !! i = Some a → 0 ≤ a < 2 ^ 32;
}.

Lemma length_dinode_bytes d : length (daddrs d) = 13%nat → length (dinode_bytes d) = 64%nat.
Proof. intros Hl. unfold dinode_bytes. rewrite !length_app, !length_le_bytes, length_le_array, Hl. done. Qed.

Lemma dinode_at_bytes d : dinode_wf d → dinode_at (dinode_bytes d) 0 = d.
Proof.
  intros [H1 H2 H3 H4 H5 Hl Ha]. unfold dinode_at, dinode_bytes. destruct d as [t ma mi nl sz ad].
  cbn [dtype dmajor dminor dnlink dsize daddrs] in *.
  f_equal; try (repeat (rewrite le_at_skip by lia); simpl Nat.sub; by apply le_at_head).
  apply list_eq_same_length with (n := 13%nat); [done|by rewrite length_fmap, length_seq|].
  intros i x y Hi Hx Hy. rewrite list_lookup_fmap, lookup_seq_lt in Hx by done. injection Hx as <-.
  repeat (rewrite le_at_skip by lia). rewrite <- (le_at_array 4 ad i y Hy) by (simpl; eauto). f_equal; lia.
Qed.

Lemma dinode_at_ext b b' o o' :
  (∀ i, (i < 64)%nat → b !! (o + i)%nat = b' !! (o' + i)%nat) → dinode_at b o = dinode_at b' o'.
Proof.
  intros Heq. unfold dinode_at. f_equal; try (apply le_at_ext; intros j Hj; rewrite <- !Nat.add_assoc; apply Heq; lia).
  - apply le_at_ext. intros j Hj. apply Heq. lia.
  - apply list_fmap_ext. intros i k Hk. apply lookup_seq in Hk as [-> Hk].
    apply le_at_ext. intros j Hj. rewrite <- !Nat.add_assoc. apply Heq. lia.
Qed.

Lemma dinode_off_range n : 0 ≤ n → (dinode_off n + 64 ≤ 1024)%nat.
Proof. intros Hn. unfold dinode_off. change IPB with 16. dlia. Qed.

Lemma dinode_splice b n d :
  length b = 1024%nat → 0 ≤ n → dinode_wf d →
  dinode_at (splice b (dinode_off n) (dinode_bytes d)) (dinode_off n) = d.
Proof.
  intros Hb Hn Hd. pose proof (dinode_off_range n Hn). pose proof (length_dinode_bytes d (wf_len d Hd)) as Hl.
  rewrite <- (dinode_at_bytes d) at 2 by done. apply dinode_at_ext. intros i Hi.
  rewrite splice_lookup by lia. rewrite decide_True by lia. f_equal. lia.
Qed.

Lemma dinode_splice_ne b n k d :
  length b = 1024%nat → 0 ≤ n → 0 ≤ k → n ≠ k → n / IPB = k / IPB → length (daddrs d) = 13%nat →
  dinode_at (splice b (dinode_off n) (dinode_bytes d)) (dinode_off k) = dinode_at b (dinode_off k).
Proof.
  intros Hb Hn Hk Hne Hblk Hd. pose proof (dinode_off_range n Hn). pose proof (length_dinode_bytes d Hd) as Hl.
  assert (dinode_off n + 64 ≤ dinode_off k ∨ dinode_off k + 64 ≤ dinode_off n)%nat
    by (unfold dinode_off in *; change IPB with 16 in *; dlia).
  apply dinode_at_ext. intros i Hi. rewrite splice_lookup by lia. by rewrite decide_False by lia.
Qed.

(** ** Sectors *)

Lemma sector_id b : 0 ≤ b < FSSIZE → u32 (b * BSIZE) / BSIZE = b.
Proof.
  intros Hb. unfold FSSIZE, BSIZE in *. rewrite u32_id by lia. by apply Z.div_mul.
Qed.

Lemma returns_rsect b d s (Q : list Z → mkstate → Prop) :
  0 ≤ b < FSSIZE → img s !! b = Some d → Q d s → returns (rsect b) s Q.
Proof.
  intros Hb Hd HQ. exists d, s. split; [|done]. unfold rsect, gets, bind. rewrite sector_id by done.
  by rewrite Hd.
Qed.

Lemma returns_wsect b d s (Q : unit → mkstate → Prop) :
  0 ≤ b < FSSIZE → Q tt (s <| img := <[b := d]> (img s) |>) → returns (wsect b d) s Q.
Proof. intros Hb HQ. apply returns_modify. by rewrite sector_id. Qed.

(** ** Files in blocks *)

(** Block [f] of a file with contents [l]: the rest of the last block is zero. *)
Definition chunk (l : list Z) (f : Z) : list Z := take 1024 (drop (Z.to_nat (f * BSIZE)) l ++ zeroes).

Lemma length_chunk l f : length (chunk l f) = 1024%nat.
Proof. unfold chunk. rewrite length_take, length_app, length_zeroes. lia. Qed.

Lemma chunk_lookup l f i :
  (i < 1024)%nat → chunk l f !! i = Some (default 0 (l !! (Z.to_nat (f * BSIZE) + i)%nat)).
Proof.
  intros Hi. unfold chunk. rewrite lookup_take_lt by done. set (o := Z.to_nat (f * BSIZE)).
  destruct (l !! (o + i)%nat) as [c|] eqn:E.
  - rewrite lookup_app_l; [by rewrite lookup_drop|]. rewrite length_drop. apply lookup_lt_Some in E. lia.
  - apply lookup_ge_None in E. rewrite lookup_app_r; rewrite length_drop; [|lia].
    unfold zeroes. apply lookup_replicate_2. change (Z.to_nat BSIZE) with 1024%nat. lia.
Qed.

Lemma chunk_eq l f d :
  length d = 1024%nat → (∀ i, (i < 1024)%nat → d !! i = Some (default 0 (l !! (Z.to_nat (f * BSIZE) + i)%nat))) →
  d = chunk l f.
Proof.
  intros Hd Heq. apply list_eq_same_length with (n := 1024%nat); [apply length_chunk|done|].
  intros i x y Hi Hx Hy. rewrite Heq in Hx by done. rewrite chunk_lookup in Hy by done. congruence.
Qed.

Lemma chunk_end l f : Z.of_nat (length l) ≤ f * BSIZE → chunk l f = zeroes.
Proof.
  intros Hl. symmetry. apply chunk_eq; [apply length_zeroes|]. intros i Hi.
  rewrite (lookup_ge_None_2 l) by lia. by apply lookup_replicate_2.
Qed.

(** Appending inside block [f] changes that block only. *)
Lemma chunk_splice l q f :
  0 ≤ f → f * BSIZE ≤ Z.of_nat (length l) → Z.of_nat (length l + length q) ≤ (f + 1) * BSIZE →
  splice (chunk l f) (Z.to_nat (Z.of_nat (length l) - f * BSIZE)) q = chunk (l ++ q) f.
Proof.
  intros Hf Hlo Hhi. unfold BSIZE in *. pose proof (length_chunk l f) as Hc.
  apply chunk_eq; [rewrite length_splice; lia|]. intros i Hi. unfold BSIZE.
  rewrite splice_lookup by lia. destruct (decide _) as [Hin|Hout].
  - rewrite lookup_app_r by lia. replace (i - _)%nat with (Z.to_nat (f * 1024) + i - length l)%nat by lia.
    destruct (q !! _) eqn:E; [done|]. apply lookup_ge_None in E. lia.
  - rewrite chunk_lookup by done. unfold BSIZE. f_equal.
    destruct (decide (Z.to_nat (f * 1024) + i < length l)%nat) as [Hl|Hl].
    + by rewrite lookup_app_l by done.
    + rewrite (lookup_ge_None_2 l) by lia. by rewrite lookup_ge_None_2 by (rewrite length_app; lia).
Qed.

Lemma chunk_app_ne l q f f' :
  0 ≤ f → 0 ≤ f' → f' ≠ f → f * BSIZE ≤ Z.of_nat (length l) → Z.of_nat (length l + length q) ≤ (f + 1) * BSIZE →
  chunk (l ++ q) f' = chunk l f'.
Proof.
  intros Hf Hf' Hne Hlo Hhi. unfold BSIZE in *. apply chunk_eq; [apply length_chunk|]. intros i Hi.
  rewrite chunk_lookup by done. unfold BSIZE. f_equal.
  destruct (decide (f' < f)); [by rewrite lookup_app_l by lia|].
  by rewrite !lookup_ge_None_2 by (rewrite ?length_app; lia).
Qed.
