(* ===== verification/MkfsImage.v ===== *)
(** How [iappend] (mkfs.c) lays the blocks of a file out in the image. *)

From stdpp Require Import functions.
From S2P Require Import Prelude Machine CString Bio Fs Bytes FsRead Mkfs MkfsSpec.

(** ** Blocks of files *)

(** What a block of the data area holds: block [f] of file [n], its singly or
    doubly indirect block, or table [i] below the latter. *)
Inductive role :=
| Data (n f : Z)
| Ind (n : Z)
| DInd (n : Z)
| DInd2 (n i : Z).

#[global] Instance role_eq_dec : EqDecision role.
Proof. solve_decision. Defined.

Definition owner (r : role) : Z :=
  match r with Data n _ | Ind n | DInd n | DInd2 n _ => n end.

Definition valid (r : role) : Prop :=
  match r with Data _ f => 0 ≤ f < MAXFILE | DInd2 _ i => 0 ≤ i < 256 | _ => True end.

Definition is_ptr (r : role) : Prop :=
  match r with Data _ _ => False | _ => True end.

(** The block that word [i] of an indirect block points to. *)
Definition child (p : role) (i : Z) : role :=
  match p with
  | Ind n => Data n (11 + i)
  | DInd n => DInd2 n i
  | DInd2 n k => Data n (267 + 256 * k + i)
  | Data n f => Data n f
  end.

(** The block that entry [i] of [addrs] points to. *)
Definition slot_role (n : Z) (i : nat) : role :=
  if (i <? 11)%nat then Data n (Z.of_nat i) else if (i =? 11)%nat then Ind n else DInd n.

Lemma child_inj p p' i i' :
  is_ptr p → is_ptr p' → valid p → valid p' → 0 ≤ i < 256 → 0 ≤ i' < 256 → child p i = child p' i' → p = p' ∧ i = i'.
Proof.
  destruct p, p'; simpl; intros Hp Hp' Hv Hv' Hi Hi' Heq; try done; injection Heq as; subst; split; f_equal; lia.
Qed.

Lemma child_not_slot p i n k : is_ptr p → valid p → 0 ≤ i → (k < 13)%nat → child p i ≠ slot_role n k.
Proof.
  intros Hp Hv Hi Hk Heq. unfold slot_role in Heq.
  destruct (Nat.ltb_spec k 11); [|destruct (Nat.eqb_spec k 11)];
    destruct p; simpl in *; try done; injection Heq as; lia.
Qed.

Lemma slot_role_inj n n' i i' :
  (i < 13)%nat → (i' < 13)%nat → slot_role n i = slot_role n' i' → n = n' ∧ i = i'.
Proof.
  unfold slot_role. intros Hi Hi'. destruct (Nat.ltb_spec i 11), (Nat.ltb_spec i' 11), (Nat.eqb_spec i 11), (Nat.eqb_spec i' 11);
    intros Heq; try discriminate; injection Heq as; subst; split; lia.
Qed.

Lemma MAXFILE_val : MAXFILE = 65803.
Proof. done. Qed.

Lemma valid_child p i : is_ptr p → valid p → 0 ≤ i < 256 → valid (child p i).
Proof. destruct p; simpl; rewrite ?MAXFILE_val; intros; try done; lia. Qed.

Lemma valid_slot n i : (i < 13)%nat → valid (slot_role n i).
Proof.
  intros Hi. unfold slot_role. destruct (Nat.ltb_spec i 11); [simpl; rewrite MAXFILE_val; lia|].
  by destruct (i =? 11)%nat.
Qed.

Lemma owner_child p i : owner (child p i) = owner p.
Proof. by destruct p. Qed.

Lemma owner_slot n i : owner (slot_role n i) = n.
Proof. unfold slot_role. by repeat case_match. Qed.

(** ** Layouts *)

(** Blocks, without the pointers: [L] gives the address of every allocated
    block, [cont] the contents of the files below inode [fi]. *)
Record core (m : gmap Z (list Z)) (fb : Z) (L : role → Z) (cont : Z → list Z) (fi : Z) : Prop := {
  co_block b : 0 ≤ b < FSSIZE → ∃ d, m !! b = Some d ∧ length d = 1024%nat;
  co_fb : nmeta ≤ fb ≤ FSSIZE;
  co_fresh b : fb ≤ b < FSSIZE → m !! b = Some zeroes;
  co_valid r : L r ≠ 0 → valid r ∧ 0 < owner r < fi ∧ nmeta ≤ L r < fb;
  co_inj r r' : L r ≠ 0 → L r = L r' → r = r';
  co_parent p i : is_ptr p → valid p → 0 ≤ i < 256 → L (child p i) ≠ 0 → L p ≠ 0;
  co_data n f : L (Data n f) ≠ 0 → m !! L (Data n f) = Some (chunk (cont n) f);
  co_cover n f : 0 ≤ f → 0 < n < fi → L (Data n f) = 0 → Z.of_nat (length (cont n)) ≤ f * BSIZE;
}.

(** The pointers, in the inodes [dins] and in the indirect blocks. *)
Record ptrs (m : gmap Z (list Z)) (L : role → Z) (dins : Z → dinode) (fi : Z) : Prop := {
  pt_len n : 0 < n < fi → length (daddrs (dins n)) = 13%nat;
  pt_direct n i : 0 < n < fi → (i < 13)%nat → daddrs (dins n) !! i = Some (L (slot_role n i));
  pt_word p i d : is_ptr p → L p ≠ 0 → 0 ≤ i < 256 → m !! L p = Some d → word_at d i = L (child p i);
}.

Lemma nmeta_val : nmeta = 55.
Proof. done. Qed.

Section Grow.
Context (m : gmap Z (list Z)) (fb : Z) (L : role → Z) (cont : Z → list Z) (fi : Z).
Context (Hco : core m fb L cont fi).

Lemma addr_block r : L r ≠ 0 → ∃ d, m !! L r = Some d ∧ length d = 1024%nat.
Proof.
  intros Hr. destruct (co_valid _ _ _ _ _ Hco r Hr) as (_ & _ & Hlo). pose proof (co_fb _ _ _ _ _ Hco).
  apply (co_block _ _ _ _ _ Hco). rewrite nmeta_val in *. lia.
Qed.

Lemma addr_range r : L r ≠ 0 → 0 ≤ L r < FSSIZE.
Proof.
  intros Hr. destruct (co_valid _ _ _ _ _ Hco r Hr) as (_ & _ & Hlo). pose proof (co_fb _ _ _ _ _ Hco).
  rewrite nmeta_val in *. lia.
Qed.

Lemma addr_u32 r : 0 ≤ L r < 2 ^ 32.
Proof.
  destruct (decide (L r = 0)) as [->|Hr]; [lia|]. pose proof (addr_range r Hr). unfold FSSIZE in *. lia.
Qed.

(** A new block for role [r]. *)
Lemma core_grow r :
  L r = 0 → valid r → 0 < owner r < fi → (∀ p i, is_ptr p → valid p → 0 ≤ i < 256 → r = child p i → L p ≠ 0) →
  fb < FSSIZE → core m (fb + 1) (<[r := fb]> L) cont fi.
Proof.
  intros H0 Hv Ho Hpar Hlt. destruct Hco as [Hb Hfb Hfr Hval Hinj Hp Hd Hc]. rewrite nmeta_val in *.
  assert (Hold : ∀ r', r' ≠ r → <[r := fb]> L r' = L r') by (intros; by rewrite fn_lookup_insert_ne).
  split; try done.
  - rewrite nmeta_val. lia.
  - intros b Hbb. apply Hfr. lia.
  - rewrite nmeta_val. intros r' Hr'. destruct (decide (r' = r)) as [->|Hne].
    + rewrite fn_lookup_insert. split_and!; try done; lia.
    + rewrite Hold in * by done. destruct (Hval r' Hr') as (? & ? & ?). split_and!; try done; lia.
  - intros r1 r2. destruct (decide (r1 = r)) as [->|H1], (decide (r2 = r)) as [->|H2];
      rewrite ?fn_lookup_insert, ?Hold by done; try done; intros Hn Heq.
    + destruct (Hval r2) as (_ & _ & ?); [lia|]. lia.
    + destruct (Hval r1) as (_ & _ & ?); [lia|]. lia.
    + by apply Hinj.
  - intros p i Hpt Hvp Hi Hch. destruct (decide (p = r)) as [->|Hne]; [rewrite fn_lookup_insert; lia|].
    rewrite Hold by done. destruct (decide (child p i = r)) as [Heq|Hne']; [by apply (Hpar p i)|].
    rewrite Hold in Hch by done. by apply (Hp p i).
  - intros n f. destruct (decide (Data n f = r)) as [<-|Hne].
    + rewrite fn_lookup_insert. intros _. rewrite Hfr by lia. f_equal. symmetry. apply chunk_end.
      apply Hc; simpl in *; try done; lia.
    + rewrite Hold by done. apply Hd.
  - intros n f Hf Hn. destruct (decide (Data n f = r)) as [<-|Hne]; [rewrite fn_lookup_insert; lia|].
    rewrite Hold by done. by apply Hc.
Qed.

(** An indirect block is rewritten. *)
Lemma core_write p d : is_ptr p → L p ≠ 0 → length d = 1024%nat → core (<[L p := d]> m) fb L cont fi.
Proof.
  intros Hp Hn Hl. destruct Hco as [Hb Hfb Hfr Hval Hinj Hpa Hd Hc]. destruct (Hval p Hn) as (_ & _ & Hr).
  split; try done.
  - intros b Hbb. destruct (decide (b = L p)) as [->|Hne].
    + exists d. by rewrite lookup_insert_eq.
    + rewrite lookup_insert_ne by congruence. by apply Hb.
  - intros b Hbb. rewrite lookup_insert_ne by lia. by apply Hfr.
  - intros n f Hnf. rewrite lookup_insert_ne; [by apply Hd|]. intros Heq. by rewrite (Hinj p (Data n f)) in Hp.
Qed.

(** Bytes are appended inside block [f] of file [n]. *)
Lemma core_append n f q :
  let l := cont n in
  0 ≤ f → L (Data n f) ≠ 0 → f * BSIZE ≤ Z.of_nat (length l) → Z.of_nat (length l + length q) ≤ (f + 1) * BSIZE →
  core (<[L (Data n f) := chunk (l ++ q) f]> m) fb L (<[n := l ++ q]> cont) fi.
Proof.
  intros l Hf Hn Hlo Hhi. destruct Hco as [Hb Hfb Hfr Hval Hinj Hpa Hd Hc]. destruct (Hval _ Hn) as (_ & _ & Hr).
  split; try done.
  - intros b Hbb. destruct (decide (b = L (Data n f))) as [->|Hne].
    + eexists. rewrite lookup_insert_eq. split; [done|apply length_chunk].
    + rewrite lookup_insert_ne by congruence. by apply Hb.
  - intros b Hbb. rewrite lookup_insert_ne by lia. by apply Hfr.
  - intros n' f' Hnf. destruct (Hval _ Hnf) as (Hv' & _ & _). simpl in Hv'.
    destruct (decide (Data n' f' = Data n f)) as [Heq|Hne].
    + injection Heq as -> ->. by rewrite lookup_insert_eq, fn_lookup_insert.
    + rewrite lookup_insert_ne by (intros Heq; by apply Hne, Hinj). rewrite Hd by done.
      destruct (decide (n' = n)) as [->|Hn']; [|by rewrite fn_lookup_insert_ne].
      rewrite fn_lookup_insert. f_equal. symmetry. apply (chunk_app_ne l q f); try done; [lia|congruence].
  - intros n' f' Hf' Hn' H0. destruct (decide (n' = n)) as [->|Hne]; [|rewrite fn_lookup_insert_ne by done; by apply Hc].
    rewrite fn_lookup_insert, length_app. specialize (Hc n f' Hf' Hn' H0). fold l in Hc.
    assert (f' ≠ f) by congruence. unfold BSIZE in *. lia.
Qed.

End Grow.

(** The words of the indirect blocks, apart from the new pointer. *)
Lemma grow_word m fb L cont fi dins r p i d :
  core m fb L cont fi → ptrs m L dins fi → L r = 0 → valid r → fb < FSSIZE →
  is_ptr p → <[r := fb]> L p ≠ 0 → 0 ≤ i < 256 → m !! (<[r := fb]> L p) = Some d → child p i ≠ r →
  word_at d i = <[r := fb]> L (child p i).
Proof.
  intros Hco Hpt H0 Hv Hlt Hp Hn Hi Hd Hne. rewrite (fn_lookup_insert_ne L r (child p i)) by done.
  destruct (decide (p = r)) as [->|Hpr].
  - rewrite fn_lookup_insert in Hd. rewrite (co_fresh _ _ _ _ _ Hco) in Hd by lia. injection Hd as <-.
    rewrite word_at_zeroes. destruct (decide (L (child r i) = 0)) as [->|Hch]; [done|].
    by destruct (co_parent _ _ _ _ _ Hco r i Hp Hv Hi Hch).
  - rewrite fn_lookup_insert_ne in Hd, Hn by done. by apply (pt_word _ _ _ _ Hpt).
Qed.

Lemma ptrs_dins m L dins dins' fi : (∀ n, dins' n = dins n) → ptrs m L dins fi → ptrs m L dins' fi.
Proof. intros Heq [Hl Hd Hw]. split; [..|done]; intros n; rewrite Heq; [apply Hl|apply Hd]. Qed.

Lemma daddrs_set d l : daddrs (d <| daddrs := l |>) = l.
Proof. done. Qed.

Lemma ptrs_direct m fb L cont fi dins n i :
  core m fb L cont fi → ptrs m L dins fi → 0 < n < fi → (i < 13)%nat → L (slot_role n i) = 0 → fb < FSSIZE →
  ptrs m (<[slot_role n i := fb]> L) (<[n := dins n <| daddrs := <[i := fb]> (daddrs (dins n)) |>]> dins) fi.
Proof.
  intros Hco Hpt Hn Hi H0 Hlt. split.
  - intros k Hk. pose proof (pt_len _ _ _ _ Hpt k Hk). destruct (decide (k = n)) as [->|Hne].
    + by rewrite fn_lookup_insert, daddrs_set, length_insert.
    + by rewrite fn_lookup_insert_ne.
  - intros n' i' Hn' Hi'. pose proof (pt_direct _ _ _ _ Hpt n' i' Hn' Hi') as Hold.
    destruct (decide (slot_role n' i' = slot_role n i)) as [Heq|Hne].
    + destruct (slot_role_inj _ _ _ _ Hi' Hi Heq) as [-> ->]. rewrite !fn_lookup_insert, daddrs_set.
      apply list_lookup_insert_eq. by apply lookup_lt_is_Some; eexists.
    + rewrite (fn_lookup_insert_ne L) by done. destruct (decide (n' = n)) as [->|Hnn].
      * rewrite fn_lookup_insert, daddrs_set, list_lookup_insert_ne; [done|congruence].
      * by rewrite fn_lookup_insert_ne.
  - intros p j d Hp Hnz Hj Hd.
    assert (Hvp : valid p).
    { destruct (decide (p = slot_role n i)) as [->|Hne]; [by apply valid_slot|].
      rewrite fn_lookup_insert_ne in Hnz by done. by apply (co_valid _ _ _ _ _ Hco) in Hnz as [? _]. }
    eapply grow_word; try done; [by apply valid_slot|]. apply child_not_slot; try done; lia.
Qed.

Lemma ptrs_indirect m fb L cont fi dins p i b :
  core m fb L cont fi → ptrs m L dins fi → is_ptr p → L p ≠ 0 → 0 ≤ i < 256 → m !! L p = Some b →
  L (child p i) = 0 → fb < FSSIZE →
  ptrs (<[L p := set_word b i fb]> m) (<[child p i := fb]> L) dins fi.
Proof.
  intros Hco Hpt Hp Hnz Hi Hb H0 Hlt. destruct (co_valid _ _ _ _ _ Hco p Hnz) as (Hv & Ho & Hr).
  pose proof (co_fb _ _ _ _ _ Hco) as Hfb.
  destruct (addr_block _ _ _ _ _ Hco p Hnz) as (b' & Hb' & Hlen). rewrite Hb in Hb'. injection Hb' as <-.
  assert (Hne : child p i ≠ p) by congruence. split; [apply (pt_len _ _ _ _ Hpt)|..].
  - intros n k Hn Hk. rewrite fn_lookup_insert_ne; [by apply (pt_direct _ _ _ _ Hpt)|].
    apply child_not_slot; try done; lia.
  - intros p' j d Hp' Hnz' Hj Hd. destruct (decide (p' = p)) as [->|Hpp].
    + rewrite (fn_lookup_insert_ne L (child p i) p), lookup_insert_eq in Hd by done. injection Hd as <-.
      rewrite word_at_set by (try done; rewrite nmeta_val in *; unfold FSSIZE in *; lia).
      destruct (decide (j = i)) as [->|Hji]; [by rewrite fn_lookup_insert|].
      rewrite (pt_word _ _ _ _ Hpt p) by done. rewrite fn_lookup_insert_ne; [done|].
      intros Heq. destruct (child_inj p p i j) as [_ ?]; try done; lia.
    + assert (Hv' : valid p').
      { destruct (decide (p' = child p i)) as [->|Hc]; [by apply valid_child|].
        rewrite fn_lookup_insert_ne in Hnz' by done. by apply (co_valid _ _ _ _ _ Hco) in Hnz' as [? _]. }
      eapply grow_word; try done; [by apply valid_child| |].
      * rewrite lookup_insert_ne in Hd; [done|]. intros Heq.
        destruct (decide (p' = child p i)) as [->|Hc].
        -- rewrite fn_lookup_insert in Heq. lia.
        -- rewrite fn_lookup_insert_ne in Heq by done. by apply Hpp; symmetry; apply (co_inj _ _ _ _ _ Hco).
      * intros Heq. by destruct (child_inj p' p j i) as [? _].
Qed.

(** ** [fblock] *)

Definition laid (s : mkstate) (L : role → Z) (dins : Z → dinode) (cont : Z → list Z) : Prop :=
  core (img s) (freeblock s) L cont (freeinode s) ∧ ptrs (img s) L dins (freeinode s).

(** How many of the blocks [rs] are not allocated yet. *)
Definition missing (L : role → Z) (rs : list role) : Z := Z.of_nat (length (filter (λ r, L r = 0) rs)).

(** The blocks [rs] have been allocated where they were missing. *)
Record grown (rs : list role) (s : mkstate) (L : role → Z) (s' : mkstate) (L' : role → Z) : Prop := {
  gr_dom r : L' r ≠ 0 ↔ L r ≠ 0 ∨ r ∈ rs;
  gr_meta b : b < nmeta → img s' !! b = img s !! b;
  gr_fi : freeinode s' = freeinode s;
  gr_fb : freeblock s' = freeblock s + missing L rs;
}.

Lemma missing_cons L r rs : missing L (r :: rs) = (if decide (L r = 0) then 1 else 0) + missing L rs.
Proof.
  unfold missing. rewrite filter_cons. destruct (decide (L r = 0)); [|lia]. simpl length. lia.
Qed.

Lemma missing_ext L L' rs : (∀ r, r ∈ rs → L r ≠ 0 ↔ L' r ≠ 0) → missing L rs = missing L' rs.
Proof.
  induction rs as [|r rs IH]; intros Heq; [done|]. rewrite !missing_cons. f_equal.
  - specialize (Heq r ltac:(left)). destruct (decide (L r = 0)), (decide (L' r = 0)); tauto.
  - apply IH. intros r' Hr'. apply Heq. by right.
Qed.

Lemma grown_trans r rs s L s1 L1 s2 L2 :
  r ∉ rs → grown [r] s L s1 L1 → grown rs s1 L1 s2 L2 → grown (r :: rs) s L s2 L2.
Proof.
  intros Hr [D1 M1 I1 F1] [D2 M2 I2 F2]. split.
  - intros r'. rewrite D2, D1, list_elem_of_singleton, elem_of_cons. tauto.
  - intros b Hb. by rewrite M2, M1.
  - congruence.
  - rewrite F2, F1, (missing_ext L1 L rs), !missing_cons; [unfold missing at 1; simpl; lia|].
    intros r' Hr'. rewrite D1, list_elem_of_singleton. split; [|by left]. intros [Hx | ->]; done.
Qed.

Lemma grown_none r s L : L r ≠ 0 → grown [r] s L s L.
Proof.
  intros Hr. split; try done.
  - intros r'. rewrite list_elem_of_singleton. split; [by left|]. intros [Hx | ->]; done.
  - rewrite missing_cons. destruct (decide (L r = 0)); [done|]. unfold missing. simpl. lia.
Qed.

Lemma grown_one r s L s' :
  L r = 0 → freeblock s ≠ 0 → freeblock s' = freeblock s + 1 → freeinode s' = freeinode s →
  (∀ b, b < nmeta → img s' !! b = img s !! b) → grown [r] s L s' (<[r := freeblock s]> L).
Proof.
  intros Hr Hnz Hfb Hfi Hm. split; try done.
  - intros r'. rewrite list_elem_of_singleton. destruct (decide (r' = r)) as [->|Hne].
    + rewrite fn_lookup_insert. tauto.
    + rewrite fn_lookup_insert_ne by done. tauto.
  - rewrite missing_cons, decide_True by done. unfold missing. simpl. lia.
Qed.

Lemma returns_allocblock s (Q : Z → mkstate → Prop) :
  nmeta ≤ freeblock s < FSSIZE → Q (freeblock s) (s <| freeblock := freeblock s + 1 |>) → returns allocblock s Q.
Proof.
  intros Hfb HQ. eexists _, _. split; [|exact HQ]. unfold allocblock, gets, bind, modify, ret.
  rewrite (proj2 (Z.leb_gt _ _)) by lia. rewrite nmeta_val in Hfb. unfold FSSIZE in Hfb.
  by rewrite u32_id by lia.
Qed.

Lemma missing_one L r : L r = 0 → missing L [r] = 1.
Proof. intros Hr. by rewrite missing_cons, decide_True. Qed.

Section Slots.
Context (s : mkstate) (L : role → Z) (dins : Z → dinode) (cont : Z → list Z).
Context (Hlaid : laid s L dins cont).

Lemma direct_slot_ok n i :
  0 < n < freeinode s → (i < 13)%nat → freeblock s + missing L [slot_role n i] ≤ FSSIZE →
  returns (direct_slot (dins n) i) s (λ p s', ∃ L', laid s' L' (<[n := fst p]> dins) cont
    ∧ grown [slot_role n i] s L s' L' ∧ snd p = L' (slot_role n i)
    ∧ fst p = dins n <| daddrs := daddrs (fst p) |>).
Proof.
  intros Hn Hi Hroom. destruct Hlaid as [Hco Hpt]. unfold direct_slot.
  rewrite (pt_direct _ _ _ _ Hpt n i Hn Hi). simpl (default _ _). destruct (Z.eqb_spec (L (slot_role n i)) 0) as [H0|H0].
  - rewrite missing_one in Hroom by done. pose proof (co_fb _ _ _ _ _ Hco) as Hfb.
    eapply returns_bind; [apply (returns_allocblock s (λ x s', x = freeblock s ∧ s' = s <| freeblock := freeblock s + 1 |>));
      [lia|done]|].
    intros x s' [-> ->]. apply returns_ret. cbn [fst snd]. exists (<[slot_role n i := freeblock s]> L). split_and!.
    + split; [|by eapply ptrs_direct; try done; lia].
      apply core_grow; try done; [by apply valid_slot|by rewrite owner_slot| |cbn; lia].
      intros p j Hp Hv Hj Heq. by destruct (child_not_slot p j n i); try done; lia.
    + apply grown_one; try done. rewrite nmeta_val in Hfb. lia.
    + by rewrite fn_lookup_insert.
    + done.
  - apply returns_ret. cbn [fst snd]. exists L. split_and!; [|by apply grown_none|done|by destruct (dins n)].
    split; [done|]. apply (ptrs_dins _ _ dins); [|done]. intros k.
    destruct (decide (k = n)) as [->|Hk]; [by rewrite fn_lookup_insert|by rewrite fn_lookup_insert_ne].
Qed.

Lemma indirect_slot_ok p i :
  is_ptr p → L p ≠ 0 → 0 ≤ i < 256 → freeblock s + missing L [child p i] ≤ FSSIZE →
  returns (indirect_slot (L p) i) s (λ x s', ∃ L', laid s' L' dins cont
    ∧ grown [child p i] s L s' L' ∧ x = L' (child p i)).
Proof.
  intros Hp Hnz Hi Hroom. destruct Hlaid as [Hco Hpt]. unfold indirect_slot.
  destruct (addr_block _ _ _ _ _ Hco p Hnz) as (b & Hb & Hlen).
  pose proof (addr_range _ _ _ _ _ Hco p Hnz) as Hr. pose proof (co_fb _ _ _ _ _ Hco) as Hfb.
  destruct (co_valid _ _ _ _ _ Hco p Hnz) as (Hv & Ho & Hlo).
  eapply returns_bind; [apply (returns_rsect (L p) b s (λ d s', d = b ∧ s' = s)); done|].
  intros d s' [-> ->]. rewrite (pt_word _ _ _ _ Hpt p i b) by done.
  destruct (Z.eqb_spec (L (child p i)) 0) as [H0|H0].
  - rewrite missing_one in Hroom by done.
    eapply returns_bind; [apply (returns_allocblock s (λ x s', x = freeblock s ∧ s' = s <| freeblock := freeblock s + 1 |>));
      [lia|done]|].
    intros x s' [-> ->].
    eapply returns_bind; [apply (returns_wsect _ _ _ (λ _ s', s' = s <| freeblock := freeblock s + 1 |>
      <| img := <[L p := set_word b i (freeblock s)]> (img s) |>)); done|].
    intros u s' ->. apply returns_ret. exists (<[child p i := freeblock s]> L). split_and!.
    + split; [|by eapply ptrs_indirect; try done; lia]. cbn.
      apply core_grow with (r := child p i); try done.
      * apply core_write; [done..|]. by apply length_set_word.
      * by apply valid_child.
      * by rewrite owner_child.
      * intros p' j Hp' Hv' Hj Heq. by destruct (child_inj p p' i j) as [-> _].
      * lia.
    + apply grown_one; try done; [rewrite nmeta_val in Hfb; lia|]. intros c Hc. cbn.
      by rewrite lookup_insert_ne by lia.
    + by rewrite fn_lookup_insert.
  - apply returns_ret. exists L. split_and!; [done|by apply grown_none|done].
Qed.

End Slots.

(** The blocks on the way to block [f] of file [n]. *)
Definition path (n f : Z) : list role :=
  if f <? 11 then [Data n f]
  else if f <? 267 then [Ind n; Data n f]
  else [DInd n; DInd2 n ((f - 267) / 256); Data n f].

Lemma grown_room r rs s L s1 L1 :
  r ∉ rs → grown [r] s L s1 L1 → freeblock s1 + missing L1 rs = freeblock s + missing L (r :: rs).
Proof.
  intros Hr [D1 _ _ F1]. rewrite F1, (missing_ext L1 L rs), !missing_cons; [unfold missing at 1; simpl; lia|].
  intros r' Hr'. rewrite D1, list_elem_of_singleton. split; [|by left]. intros [Hx | ->]; done.
Qed.

Lemma missing_nonneg L rs : 0 ≤ missing L rs.
Proof. unfold missing. lia. Qed.

(** The first block of a path. *)
Lemma direct_step_ok s L dins cont n i rs :
  laid s L dins cont → 0 < n < freeinode s → (i < 13)%nat → slot_role n i ∉ rs →
  freeblock s + missing L (slot_role n i :: rs) ≤ FSSIZE →
  returns (direct_slot (dins n) i) s (λ p s', ∃ L', laid s' L' (<[n := fst p]> dins) cont
    ∧ grown [slot_role n i] s L s' L' ∧ snd p = L' (slot_role n i) ∧ L' (slot_role n i) ≠ 0
    ∧ freeblock s' + missing L' rs ≤ FSSIZE ∧ fst p = dins n <| daddrs := daddrs (fst p) |>).
Proof.
  intros Hl Hn Hi Hni Hr. rewrite missing_cons in Hr. pose proof (missing_nonneg L rs).
  eapply returns_mono; [apply (direct_slot_ok s L dins cont Hl n i Hn Hi); rewrite missing_cons; unfold missing; simpl; lia|].
  intros p s' (L' & H1 & H2 & H3 & H4). exists L'. split_and!; try done.
  - apply (gr_dom _ _ _ _ _ H2). right. left.
  - rewrite (grown_room _ _ _ _ _ _ Hni H2), missing_cons. done.
Qed.

Lemma fblock_ok s L dins cont n f :
  laid s L dins cont → 0 < n < freeinode s → 0 ≤ f < MAXFILE → freeblock s + missing L (path n f) ≤ FSSIZE →
  returns (fblock (dins n) f) s (λ p s', ∃ L', laid s' L' (<[n := fst p]> dins) cont
    ∧ grown (path n f) s L s' L' ∧ snd p = L' (Data n f) ∧ fst p = dins n <| daddrs := daddrs (fst p) |>).
Proof.
  intros Hl Hn Hf Hroom. rewrite MAXFILE_val in Hf. unfold fblock, path in *.
  change NDIRECT with 11. change NINDIRECT with 256. change (11 + 256) with 267.
  destruct (Z.ltb_spec f 11) as [Hd|Hd].
  { assert (Er : slot_role n (Z.to_nat f) = Data n f).
    { unfold slot_role. rewrite (proj2 (Nat.ltb_lt _ _)) by lia. f_equal. lia. }
    rewrite <- Er in *. eapply direct_slot_ok; try done. lia. }
  destruct (Z.ltb_spec f 267) as [Hi|Hi].
  - eapply returns_bind; [apply (direct_step_ok s L dins cont n 11%nat [Data n f]); [done|done|lia|by intros [?|[]%elem_of_nil]%elem_of_cons|done]|].
    intros [din x] s1 (L1 & Hl1 & Hg1 & Hx & Hnz & Hr1 & Hdin). cbn [fst snd] in *. subst x. change (slot_role n 11) with (Ind n) in *.
    assert (Ec : Data n f = child (Ind n) (f - 11)) by (simpl; f_equal; lia). rewrite Ec in *.
    eapply returns_bind; [apply (indirect_slot_ok s1 L1 _ cont Hl1 (Ind n)); try done; lia|].
    intros x s2 (L2 & Hl2 & Hg2 & ->). apply returns_ret. exists L2. split_and!; try done.
    eapply grown_trans; try done. by intros [?|[]%elem_of_nil]%elem_of_cons.
  - set (k := (f - 267) / 256) in *. set (j := (f - 267) mod 256).
    assert (Hk : 0 ≤ k < 256 ∧ 0 ≤ j < 256 ∧ f = 267 + 256 * k + j) by (subst k j; dlia).
    eapply returns_bind; [apply (direct_step_ok s L dins cont n 12%nat [DInd2 n k; Data n f]);
      [done|done|lia|by intros [?|[?|[]%elem_of_nil]%elem_of_cons]%elem_of_cons|done]|].
    intros [din x] s1 (L1 & Hl1 & Hg1 & Hx & Hnz & Hr1 & Hdin). cbn [fst snd] in *. subst x. change (slot_role n 12) with (DInd n) in *.
    replace ((f - 11 - 256) / 256) with k by (subst k; f_equal; lia).
    replace ((f - 11 - 256) mod 256) with j by (subst j; f_equal; lia).
    pose proof (missing_nonneg L1 [Data n f]). rewrite missing_cons in Hr1.
    eapply returns_bind; [apply (indirect_slot_ok s1 L1 _ cont Hl1 (DInd n) k); try done; [lia|];
      simpl child; rewrite missing_cons; unfold missing at 1; simpl; lia|].
    intros x s2 (L2 & Hl2 & Hg2 & ->). simpl child in *.
    assert (Hne : DInd2 n k ∉ [Data n f]) by (by intros [?|[]%elem_of_nil]%elem_of_cons).
    assert (Ec : Data n f = child (DInd2 n k) j) by (simpl; f_equal; lia).
    eapply returns_bind; [apply (indirect_slot_ok s2 L2 _ cont Hl2 (DInd2 n k) j); try done; try lia|].
    { apply (gr_dom _ _ _ _ _ Hg2). right. left. }
    { rewrite <- Ec, (grown_room _ _ _ _ _ _ Hne Hg2), missing_cons. lia. }
    intros x s3 (L3 & Hl3 & Hg3 & ->). apply returns_ret. exists L3. rewrite <- Ec in *. split_and!; try done.
    eapply grown_trans; [|done|by eapply grown_trans].
    by intros [?|[?|[]%elem_of_nil]%elem_of_cons]%elem_of_cons.
Qed.

(** ** [iappend] *)

(** The blocks a file of [d] data blocks has. *)
Definition need (d : Z) (r : role) : Prop :=
  match r with
  | Data _ f => 0 ≤ f < d
  | Ind _ => 11 < d
  | DInd _ => 267 < d
  | DInd2 _ i => 0 ≤ i ∧ 267 + 256 * i < d
  end.

#[global] Instance need_dec d r : Decision (need d r).
Proof. destruct r; simpl; apply _. Defined.

Definition full (L : role → Z) (n d : Z) : Prop := ∀ r, owner r = n → L r ≠ 0 ↔ need d r.

Lemma elem_of_path n f r :
  r ∈ path n f ↔ r = Data n f ∨ 11 ≤ f < 267 ∧ r = Ind n ∨ 267 ≤ f ∧ (r = DInd n ∨ r = DInd2 n ((f - 267) / 256)).
Proof.
  unfold path. destruct (Z.ltb_spec f 11); [|destruct (Z.ltb_spec f 267)];
    rewrite ?elem_of_cons, ?elem_of_nil; intuition lia.
Qed.

Lemma path_owner n f r : r ∈ path n f → owner r = n.
Proof. rewrite elem_of_path. by intros [->|[[_ ->]|[_ [->| ->]]]]. Qed.

Lemma need_path n f r : 0 ≤ f → owner r = n → need (f + 1) r ↔ need f r ∨ r ∈ path n f.
Proof.
  intros Hf <-. rewrite elem_of_path. destruct r as [n g|n|n|n i]; simpl; split.
  - intros Hg. destruct (decide (g = f)) as [->|]; [by right; left|left; lia].
  - intros [Hg|[Heq|[[_ ?]|[_ [?|?]]]]]; try done; [lia|]. injection Heq as ->. lia.
  - intros Hd. destruct (decide (f = 11)); [right; right; left; split; [lia|done]|left; lia].
  - intros [Hg|[?|[[? _]|[_ [?|?]]]]]; try done; lia.
  - intros Hd. destruct (decide (f = 267)); [right; right; right; split; [lia|by left]|left; lia].
  - intros [Hg|[?|[[_ ?]|[? _]]]]; try done; lia.
  - intros [Hi Hd]. destruct (decide (f = 267 + 256 * i)) as [->|]; [right; right; right|left; lia].
    split; [lia|]. right. f_equal. replace (267 + 256 * i - 267) with (i * 256) by lia. by rewrite Z.div_mul.
  - intros [Hg|[?|[[_ ?]|[? [?|Heq]]]]]; try done; [lia|]. injection Heq as ->. dlia.
Qed.

Lemma need_mono d d' r : d ≤ d' → need d r → need d' r.
Proof. destruct r; simpl; lia. Qed.

Lemma full_grown rs s L s' L' n d d' :
  full L n d → grown rs s L s' L' → (∀ r, owner r = n → need d' r ↔ need d r ∨ r ∈ rs) → full L' n d'.
Proof. intros Hf Hg Hneed r Hr. rewrite (gr_dom _ _ _ _ _ Hg), Hneed, (Hf r Hr) by done. done. Qed.

(** The blocks that the first use of data block [f] takes. *)
Definition new_blocks (f : Z) : Z :=
  (if f =? 11 then 1 else 0) + (if f =? 267 then 1 else 0)
  + (if (267 <=? f) && ((f - 267) mod 256 =? 0) then 1 else 0) + 1.

(** The blocks that a file with [d] data blocks takes. *)
Fixpoint cost (d : nat) : Z :=
  match d with
  | O => 0
  | S f => cost f + new_blocks (Z.of_nat f)
  end.

Definition blocks (len : nat) : nat := (len + 1023) / 1024.

Lemma missing_new L n f : 0 ≤ f → full L n f → missing L (path n f) = new_blocks f.
Proof.
  intros Hf Hfull. unfold path, new_blocks.
  assert (Hdec : ∀ r, owner r = n → (if decide (L r = 0) then 1 else 0) = if decide (need f r) then 0 else 1).
  { intros r Hr. specialize (Hfull r Hr). destruct (decide (L r = 0)), (decide (need f r)); tauto. }
  destruct (Z.ltb_spec f 11); [|destruct (Z.ltb_spec f 267)]; rewrite !missing_cons, !Hdec by done;
    change (missing L []) with 0; repeat case_decide; simpl in *;
    repeat match goal with
           | |- context [?a =? ?b] => destruct (Z.eqb_spec a b)
           | |- context [?a <=? ?b] => destruct (Z.leb_spec a b)
           end; simpl; dlia.
Qed.

Lemma cost_mono d d' : (d ≤ d')%nat → cost d ≤ cost d'.
Proof.
  induction 1 as [|d' _ IH]; [lia|]. cbn [cost]. unfold new_blocks. repeat case_match; lia.
Qed.

(** The bytes [p] have been appended to file [n]; the inode of [n] is still to
    be written. *)
Record appended (n : Z) (p : list Z) s L (dins : Z → dinode) cont s' L' (dins' : Z → dinode) cont' : Prop := {
  ap_laid : laid s' L' dins' cont';
  ap_full : full L' n (Z.of_nat (blocks (length (cont' n))));
  ap_cont : cont' n = cont n ++ p;
  ap_din : dins' n = dins n <| daddrs := daddrs (dins' n) |>;
  ap_other k : k ≠ n → cont' k = cont k ∧ dins' k = dins k;
  ap_dom r : owner r ≠ n → L' r ≠ 0 ↔ L r ≠ 0;
  ap_meta b : b < nmeta → img s' !! b = img s !! b;
  ap_fi : freeinode s' = freeinode s;
  ap_fb : freeblock s' = freeblock s + cost (blocks (length (cont' n))) - cost (blocks (length (cont n)));
}.

Lemma appended_nil n s L dins cont :
  laid s L dins cont → full L n (Z.of_nat (blocks (length (cont n)))) → appended n [] s L dins cont s L dins cont.
Proof. intros Hl Hf. split; try done; [by rewrite app_nil_r|by destruct (dins n)|lia]. Qed.

Lemma appended_trans n p q s L dins cont s1 L1 dins1 cont1 s2 L2 dins2 cont2 :
  appended n p s L dins cont s1 L1 dins1 cont1 → appended n q s1 L1 dins1 cont1 s2 L2 dins2 cont2 →
  appended n (p ++ q) s L dins cont s2 L2 dins2 cont2.
Proof.
  intros [_ F1 C1 D1 O1 R1 M1 I1 B1] [H2 F2 C2 D2 O2 R2 M2 I2 B2]. split; try done.
  - by rewrite C2, C1, app_assoc.
  - rewrite D2 at 1. by rewrite D1.
  - intros k Hk. destruct (O1 k Hk) as [<- <-]. by apply O2.
  - intros r Hr. by rewrite R2, R1.
  - intros b Hb. by rewrite M2, M1.
  - congruence.
  - rewrite B2, B1. lia.
Qed.

Lemma ptrs_data m L dins fi cont fb n f d :
  core m fb L cont fi → ptrs m L dins fi → L (Data n f) ≠ 0 → ptrs (<[L (Data n f) := d]> m) L dins fi.
Proof.
  intros Hco [Hl Hd Hw] Hnz. split; [done..|]. intros p i b Hp Hn Hi Hb. apply (Hw p i b); try done.
  rewrite lookup_insert_ne in Hb; [done|]. intros Heq. apply (co_inj _ _ _ _ _ Hco) in Heq; [|done]. by subst p.
Qed.

Lemma blocks_Z len : Z.of_nat (blocks len) = (Z.of_nat len + 1023) / 1024.
Proof. unfold blocks. rewrite Nat2Z.inj_div. f_equal. lia. Qed.

(** The block that the next byte goes to, with the blocks it takes. *)
Lemma next_block L n len :
  let f := Z.of_nat len / BSIZE in
  full L n (Z.of_nat (blocks len)) →
  missing L (path n f) = cost (Z.to_nat f + 1) - cost (blocks len)
  ∧ ∀ r, owner r = n → need (f + 1) r ↔ need (Z.of_nat (blocks len)) r ∨ r ∈ path n f.
Proof.
  intros f Hfull. pose proof (blocks_Z len) as Hb. assert (Hf : 0 ≤ f) by (subst f; unfold BSIZE; dlia).
  destruct (decide (Z.of_nat (blocks len) = f)) as [Heq|Hne].
  - replace (blocks len) with (Z.to_nat f) in * by lia. rewrite Z2Nat.id in * by done.
    split; [|by intros r; apply need_path]. rewrite (missing_new _ _ _ Hf Hfull), Nat.add_1_r. cbn [cost].
    rewrite Z2Nat.id by done. lia.
  - assert (Heq : blocks len = (Z.to_nat f + 1)%nat)
      by (subst f; unfold BSIZE in *; dlia).
    rewrite Heq in *. replace (Z.of_nat (Z.to_nat f + 1)) with (f + 1) in * by lia. split.
    + assert (Hall : ∀ r, r ∈ path n f → L r ≠ 0).
      { intros r Hr. pose proof (path_owner _ _ _ Hr) as Ho. apply (Hfull r Ho), (need_path n); auto. }
      rewrite Z.sub_diag. unfold missing. destruct (filter _ _) as [|r l] eqn:E; [done|]. exfalso.
      assert (Hr : r ∈ filter (λ r, L r = 0) (path n f)) by (rewrite E; left).
      apply list_elem_of_filter in Hr as [Hr0 Hr]. by apply (Hall r).
    + intros r Hr. rewrite (need_path n f r) by done. tauto.
Qed.

(** One round of the loop of [iappend]. *)
Lemma append_step s L dins cont n q :
  let l := cont n in
  let f := Z.of_nat (length l) / BSIZE in
  laid s L dins cont → 0 < n < freeinode s → full L n (Z.of_nat (blocks (length l))) →
  (0 < length q)%nat → Z.of_nat (length l + length q) ≤ (f + 1) * BSIZE → f < MAXFILE →
  freeblock s + cost (blocks (length l + length q)) - cost (blocks (length l)) ≤ FSSIZE →
  returns (let! r := fblock (dins n) f in
           let! b := rsect (snd r) in
           wsect (snd r) (splice b (Z.to_nat (Z.of_nat (length l) - f * BSIZE)) q) ;;;
           ret (fst r)) s (λ din s', ∃ L' dins' cont', dins' n = din ∧ appended n q s L dins cont s' L' dins' cont').
Proof.
  intros l f Hl Hn Hfull Hq Hin Hmax Hroom. destruct (next_block L n (length l) Hfull) as [Hmiss Hneed]. fold f in Hmiss, Hneed.
  assert (Hf : 0 ≤ f ∧ f * BSIZE ≤ Z.of_nat (length l)) by (subst f; unfold BSIZE; dlia). destruct Hf as [Hf Hlo].
  assert (Hblk : blocks (length l + length q) = (Z.to_nat f + 1)%nat)
    by (pose proof (blocks_Z (length l + length q)); subst f; unfold BSIZE in *; dlia).
  rewrite Hblk in Hroom.
  eapply returns_bind; [apply (fblock_ok s L dins cont n f); try done; lia|].
  intros [din x] s1 (L1 & [Hco Hpt] & Hg & -> & Hdin). cbn [fst snd] in *.
  assert (Hnz : L1 (Data n f) ≠ 0) by (apply (gr_dom _ _ _ _ _ Hg); right; apply elem_of_path; by left).
  eapply returns_bind; [apply (returns_rsect _ (chunk l f) s1 (λ d s', d = chunk l f ∧ s' = s1));
    [by apply (addr_range _ _ _ _ _ Hco)|by apply (co_data _ _ _ _ _ Hco)|done]|].
  intros b s' [-> ->]. rewrite chunk_splice by done.
  eapply returns_bind; [apply (returns_wsect _ _ _ (λ _ s', s' = s1 <| img := <[L1 (Data n f) := chunk (l ++ q) f]> (img s1) |>));
    [by apply (addr_range _ _ _ _ _ Hco)|done]|].
  intros u s' ->. apply returns_ret. exists L1, (<[n := din]> dins), (<[n := l ++ q]> cont).
  split; [by rewrite fn_lookup_insert|]. split; rewrite ?fn_lookup_insert, ?length_app, ?Hblk; try done.
  - split; [by apply core_append|]. by eapply ptrs_data.
  - apply (full_grown _ _ _ _ _ _ _ _ Hfull Hg). replace (Z.of_nat (Z.to_nat f + 1)) with (f + 1) by lia. done.
  - intros k Hk. by rewrite !fn_lookup_insert_ne.
  - intros r Hr. rewrite (gr_dom _ _ _ _ _ Hg). split; [|by left]. intros [?|?%path_owner]; done.
  - intros b Hb. cbn. destruct (co_valid _ _ _ _ _ Hco _ Hnz) as (_ & _ & ?).
    rewrite lookup_insert_ne by lia. by apply (gr_meta _ _ _ _ _ Hg).
  - by apply (gr_fi _ _ _ _ _ Hg).
  - change (freeblock s1 = freeblock s + cost (Z.to_nat f + 1) - cost (blocks (length l))).
    rewrite (gr_fb _ _ _ _ _ Hg), Hmiss. lia.
Qed.

Lemma blocks_mono a b : (a ≤ b)%nat → (blocks a ≤ blocks b)%nat.
Proof. intros Hab. unfold blocks. apply Nat.Div0.div_le_mono. lia. Qed.

Lemma iappend_loop_ok fuel s L dins cont n p :
  laid s L dins cont → 0 < n < freeinode s → full L n (Z.of_nat (blocks (length (cont n)))) →
  Z.of_nat (length (cont n) + length p) ≤ MAXFILE * BSIZE →
  freeblock s + cost (blocks (length (cont n) + length p)) - cost (blocks (length (cont n))) ≤ FSSIZE →
  (length p < fuel)%nat →
  returns (iappend_loop fuel (dins n) (Z.of_nat (length (cont n))) p) s (λ r s', ∃ L' dins' cont',
    r = (dins' n, Z.of_nat (length (cont n ++ p))) ∧ appended n p s L dins cont s' L' dins' cont').
Proof.
  revert s L dins cont p. induction fuel as [|fuel IH]; intros s L dins cont p Hl Hn Hfull Hmax Hroom Hfuel; [lia|].
  cbn [iappend_loop]. destruct (Nat.eqb_spec (length p) 0) as [Hp|Hp].
  { apply length_zero_iff_nil in Hp as ->. apply returns_ret. exists L, dins, cont. rewrite app_nil_r.
    split; [done|by apply appended_nil]. }
  set (off := Z.of_nat (length (cont n))) in *. set (f := off / BSIZE).
  pose proof MAXFILE_small as Hsm. rewrite MAXFILE_val in *.
  assert (Hf : f < 65803) by (subst f off; unfold BSIZE in *; dlia). rewrite (proj2 (Z.leb_gt _ _)) by done.
  set (n1 := Z.min (Z.of_nat (length p)) ((f + 1) * BSIZE - off)). set (q := take (Z.to_nat n1) p).
  assert (Hoff : f * BSIZE ≤ off < (f + 1) * BSIZE) by (subst f; unfold BSIZE; dlia).
  assert (Hn1 : 0 < n1 ≤ Z.of_nat (length p) ∧ n1 ≤ (f + 1) * BSIZE - off) by lia.
  assert (Hq : Z.of_nat (length q) = n1) by (subst q; rewrite length_take; lia).
  assert (Hd : length (drop (Z.to_nat n1) p) = (length p - length q)%nat) by (rewrite length_drop; clearbody q; lia).
  pose proof (cost_mono _ _ (blocks_mono (length (cont n) + length q) (length (cont n) + length p) ltac:(lia))) as Hc.
  assert (Hin : Z.of_nat (length (cont n) + length q) ≤ (f + 1) * BSIZE) by lia.
  pose proof (append_step s L dins cont n q Hl Hn Hfull ltac:(lia) Hin Hf ltac:(lia)) as Hstep.
  fold off f in Hstep.
  match goal with |- returns ?body s _ => replace (returns body s) with
    (returns (let! din := (let! r := fblock (dins n) f in
                           let! b := rsect (snd r) in
                           wsect (snd r) (splice b (Z.to_nat (off - f * BSIZE)) q) ;;;
                           ret (fst r)) in
              iappend_loop fuel din (u32 (off + n1)) (drop (Z.to_nat n1) p)) s) end.
  2:{ unfold returns, bind, ret. destruct (fblock _ _ _) as [[din x] s1| | |]; try done. cbn [fst snd].
      by destruct (rsect x s1). }
  eapply returns_bind; [exact Hstep|]. intros din s1 (L1 & dins1 & cont1 & <- & Hap).
  pose proof (ap_cont _ _ _ _ _ _ _ _ _ _ Hap) as Hc1. pose proof (ap_fb _ _ _ _ _ _ _ _ _ _ Hap) as Hfb1.
  assert (Hlen1 : length (cont1 n) = (length (cont n) + length q)%nat) by (by rewrite Hc1, length_app).
  replace (u32 (off + n1)) with (Z.of_nat (length (cont1 n))) by (rewrite u32_id; lia).
  eapply returns_mono; [apply (IH s1 L1 dins1 cont1)|].
  - apply Hap.
  - by rewrite (ap_fi _ _ _ _ _ _ _ _ _ _ Hap).
  - apply Hap.
  - lia.
  - rewrite Hfb1, Hd, !Hlen1.
    replace (length (cont n) + length q + (length p - length q))%nat with (length (cont n) + length p)%nat by lia. lia.
  - lia.
  - intros r s2 (L2 & dins2 & cont2 & -> & Hap2). exists L2, dins2, cont2.
    assert (Ep : p = q ++ drop (Z.to_nat n1) p) by (symmetry; apply take_drop).
    split; [by rewrite Hc1, <- app_assoc, <- Ep|]. rewrite Ep. by eapply appended_trans.
Qed.
