(* ===== verification/MkfsBuild.v ===== *)
(** The image as a list of files: [ialloc] adds a file, [iappend] extends one,
    and the kernel reads back what was put in. *)

From stdpp Require Import functions.
From S2P Require Import Prelude Machine CString Bio Fs Bytes FsRead Mkfs MkfsSpec MkfsImage.

Record afile := AFile {
  a_type : Z;
  a_major : Z;
  a_minor : Z;
  a_data : list Z;
}.

Definition afile0 : afile := AFile 0 0 0 [].

(** Inode 1 is the first file. *)
Definition file_at (fs : list afile) (n : Z) : afile := default afile0 (fs !! Z.to_nat (n - 1)).

Definition data_at (fs : list afile) (n : Z) : list Z := a_data (file_at fs n).

Definition file_cost (a : afile) : Z := cost (blocks (length (a_data a))).

Definition total (fs : list afile) : Z := foldr (λ a t, file_cost a + t) 0 fs.

Record afile_wf (a : afile) : Prop := {
  aw_type : 0 ≤ a_type a < 2 ^ 15;
  aw_major : 0 ≤ a_major a < 2 ^ 15;
  aw_minor : 0 ≤ a_minor a < 2 ^ 15;
  aw_size : Z.of_nat (length (a_data a)) ≤ MAXFILE * BSIZE;
}.

(** The on-disk inode of [a] with the block addresses [ad]. *)
Definition dinode_of (a : afile) (ad : list Z) : dinode :=
  DInode (a_type a) (a_major a) (a_minor a) 1 (Z.of_nat (length (a_data a))) ad.

(** Inodes that the image has room for. *)
Definition INODES : Z := 208.

Record image (s : mkstate) (L : role → Z) (dins : Z → dinode) (fs : list afile) : Prop := {
  im_laid : laid s L dins (data_at fs);
  im_fi : freeinode s = 1 + Z.of_nat (length fs);
  im_room : freeinode s ≤ INODES;
  im_full n : 0 < n < freeinode s → full L n (Z.of_nat (blocks (length (data_at fs n))));
  im_disk n : 0 < n < freeinode s →
    ∃ b, img s !! IBLOCK n mk_sb = Some b ∧ dinode_at b (dinode_off n) = dins n;
  im_din n : 0 < n < freeinode s → dins n = dinode_of (file_at fs n) (daddrs (dins n));
  im_wf n : 0 < n < freeinode s → afile_wf (file_at fs n);
  im_fb : freeblock s = nmeta + total fs;
  im_sb : img s !! 1 = Some (splice zeroes 0 (sb_bytes mk_sb));
}.

Lemma IBLOCK_val n : 0 ≤ n < INODES → IBLOCK n mk_sb = n / 16 + 33 ∧ 33 ≤ n / 16 + 33 < 46.
Proof.
  intros Hn. unfold INODES in Hn. unfold IBLOCK. change (inodestart mk_sb) with 33. change IPB with 16.
  assert (0 ≤ n / 16 < 13) by dlia. rewrite u32_id by lia. lia.
Qed.

(** Blocks of the inode table are written. *)
Lemma laid_meta s L dins cont b d :
  laid s L dins cont → 0 ≤ b < nmeta → length d = 1024%nat → laid (s <| img := <[b := d]> (img s) |>) L dins cont.
Proof.
  intros [[Hb Hfb Hfr Hval Hinj Hpa Hd Hc] [Hpl Hdi Hw]] Hbm Hl.
  assert (Hne : ∀ r, L r ≠ 0 → b ≠ L r) by (intros r Hr; destruct (Hval r Hr) as (_ & _ & ?); lia).
  split; split; cbn; try done.
  - intros c Hc'. destruct (decide (c = b)) as [->|Hcb]; [exists d; by rewrite lookup_insert_eq|].
    rewrite lookup_insert_ne by congruence. by apply Hb.
  - intros c Hc'. rewrite lookup_insert_ne by lia. by apply Hfr.
  - intros n f Hnf. rewrite lookup_insert_ne by (by apply Hne). by apply Hd.
  - intros p i c Hp Hn Hi. rewrite lookup_insert_ne by (by apply Hne). by apply Hw.
Qed.

Lemma laid_ext s L dins dins' cont cont' :
  (∀ k, 0 < k → cont' k = cont k) → (∀ k, daddrs (dins' k) = daddrs (dins k)) →
  laid s L dins cont → laid s L dins' cont'.
Proof.
  intros Hc Hd [[Hb Hfb Hfr Hval Hinj Hpa Hda Hco] [Hpl Hdi Hw]]. split; split; try done.
  - intros n f Hnf. destruct (Hval _ Hnf) as (_ & Hn & _). cbn in Hn. rewrite Hc by lia. by apply Hda.
  - intros n f Hf Hn H0. rewrite Hc by lia. by apply Hco.
  - intros n Hn. rewrite Hd. by apply Hpl.
  - intros n i Hn Hi. rewrite Hd. by apply Hdi.
Qed.

Lemma winode_ok s L dins cont n d :
  laid s L dins cont → 0 < n < INODES → length (daddrs d) = 13%nat →
  returns (winode n d) s (λ _ s', ∃ b, img s !! IBLOCK n mk_sb = Some b ∧ length b = 1024%nat
    ∧ s' = s <| img := <[IBLOCK n mk_sb := splice b (dinode_off n) (dinode_bytes d)]> (img s) |>
    ∧ laid s' L dins cont).
Proof.
  intros Hl Hn Hd. destruct (IBLOCK_val n) as [Hi Hib]; [lia|]. unfold winode.
  assert (Hr : 0 ≤ IBLOCK n mk_sb < FSSIZE) by (rewrite Hi; unfold FSSIZE; lia).
  destruct (co_block _ _ _ _ _ (proj1 Hl) _ Hr) as (b & Hb & Hlen).
  eapply returns_bind; [apply (returns_rsect _ b s (λ x s', x = b ∧ s' = s)); done|].
  intros x s' [-> ->]. apply returns_wsect; [done|]. exists b. split_and!; try done.
  apply laid_meta; [done|rewrite nmeta_val; lia|]. pose proof (dinode_off_range n ltac:(lia)).
  rewrite length_splice; rewrite ?length_dinode_bytes by done; lia.
Qed.

Lemma rinode_ok s n b (Q : dinode → mkstate → Prop) :
  0 < n < INODES → img s !! IBLOCK n mk_sb = Some b → Q (dinode_at b (dinode_off n)) s → returns (rinode n) s Q.
Proof.
  intros Hn Hb HQ. destruct (IBLOCK_val n) as [Hi Hib]; [lia|].
  eapply returns_bind; [apply (returns_rsect _ b s (λ x s', x = b ∧ s' = s)); [rewrite Hi; unfold FSSIZE; lia|done|done]|].
  intros x s' [-> ->]. by apply returns_ret.
Qed.

(** Writing one inode keeps the others. *)
Lemma disk_inode s n d b dins k :
  img s !! IBLOCK n mk_sb = Some b → length b = 1024%nat → 0 < n < INODES → 0 < k < INODES → dinode_wf d →
  (k = n → dins = d) → (k ≠ n → ∃ b', img s !! IBLOCK k mk_sb = Some b' ∧ dinode_at b' (dinode_off k) = dins) →
  ∃ b', <[IBLOCK n mk_sb := splice b (dinode_off n) (dinode_bytes d)]> (img s) !! IBLOCK k mk_sb = Some b'
    ∧ dinode_at b' (dinode_off k) = dins.
Proof.
  intros Hb Hlen Hn Hk Hd Heq Hother. destruct (decide (k = n)) as [->|Hne].
  { eexists. rewrite lookup_insert_eq. split; [done|]. rewrite Heq by done. apply dinode_splice; try done; lia. }
  destruct (Hother Hne) as (b' & Hb' & Hdk). destruct (IBLOCK_val n) as [Hi _]; [lia|].
  destruct (IBLOCK_val k) as [Hik _]; [lia|].
  destruct (decide (IBLOCK k mk_sb = IBLOCK n mk_sb)) as [Hblk|Hblk].
  - rewrite Hblk, lookup_insert_eq. eexists. split; [done|]. rewrite Hblk, Hb in Hb'. injection Hb' as <-.
    rewrite <- Hdk. apply dinode_splice_ne; try done; [lia|lia|change IPB with 16; lia|apply Hd].
  - exists b'. rewrite lookup_insert_ne by congruence. done.
Qed.

Section Image.
Context (s : mkstate) (L : role → Z) (dins : Z → dinode) (fs : list afile).
Context (Him : image s L dins fs).

Lemma din_addrs n i a : 0 < n < freeinode s → daddrs (dins n) !! i = Some a → 0 ≤ a < 2 ^ 32.
Proof.
  intros Hn Ha. destruct (im_laid _ _ _ _ Him) as [Hco Hpt].
  assert (Hi : (i < 13)%nat) by (rewrite <- (pt_len _ _ _ _ Hpt n Hn); by eapply lookup_lt_Some).
  rewrite (pt_direct _ _ _ _ Hpt n i Hn Hi) in Ha. injection Ha as <-. by apply (addr_u32 _ _ _ _ _ Hco).
Qed.

End Image.

Lemma dinode_of_wf a ad :
  afile_wf a → length ad = 13%nat → (∀ i x, ad !! i = Some x → 0 ≤ x < 2 ^ 32) → dinode_wf (dinode_of a ad).
Proof.
  intros [H1 H2 H3 H4] Hl Ha. pose proof MAXFILE_small. split; cbn; try done; lia.
Qed.

Lemma file_at_app fs a n :
  0 < n ≤ Z.of_nat (length fs) → file_at (fs ++ [a]) n = file_at fs n.
Proof. intros Hn. unfold file_at. by rewrite lookup_app_l by lia. Qed.

Lemma file_at_new fs a : file_at (fs ++ [a]) (1 + Z.of_nat (length fs)) = a.
Proof.
  unfold file_at. rewrite list_lookup_middle; [done|lia].
Qed.

Lemma file_at_out fs n : 0 < n → Z.of_nat (length fs) < n → file_at fs n = afile0.
Proof. intros Hn Ho. unfold file_at. by rewrite lookup_ge_None_2 by lia. Qed.

Lemma total_app fs gs : total (fs ++ gs) = total fs + total gs.
Proof. unfold total. induction fs as [|a fs IH]; simpl; [lia|]. rewrite IH. lia. Qed.

(** A new inode joins the layout. *)
Lemma laid_new s L dins fs d a :
  laid s L dins (data_at fs) → freeinode s = 1 + Z.of_nat (length fs) → a_data a = [] →
  daddrs d = replicate 13 0 →
  laid (s <| freeinode := freeinode s + 1 |>) L (<[freeinode s := d]> dins) (data_at (fs ++ [a])).
Proof.
  intros [[Hb Hfb Hfr Hval Hinj Hpa Hd Hc] [Hpl Hdi Hw]] Hfi Ha Hda.
  assert (Hnew : ∀ r, owner r = freeinode s → L r = 0).
  { intros r Hr. destruct (decide (L r = 0)) as [|Hnz]; [done|]. destruct (Hval r Hnz) as (_ & ? & _). lia. }
  assert (Hcont : ∀ n, 0 < n → data_at (fs ++ [a]) n = data_at fs n).
  { intros n Hn. unfold data_at. destruct (decide (n ≤ Z.of_nat (length fs))); [by rewrite file_at_app by lia|].
    rewrite (file_at_out fs) by lia. destruct (decide (n = 1 + Z.of_nat (length fs))) as [->|Hne].
    - by rewrite file_at_new.
    - rewrite file_at_out by (rewrite ?length_app; simpl; lia). done. }
  split; split; cbn [img freeblock freeinode]; try done.
  - intros r Hr. destruct (Hval r Hr) as (? & ? & ?). split_and!; cbn; try done; lia.
  - intros n f Hnf. rewrite Hcont; [by apply Hd|]. destruct (Hval _ Hnf) as (_ & ? & _). simpl in *. lia.
  - intros n f Hf Hn H0. cbn in Hn. rewrite Hcont by lia. destruct (decide (n = freeinode s)) as [->|Hne].
    + unfold data_at. rewrite file_at_out by lia. simpl. unfold BSIZE. lia.
    + apply Hc; try done. lia.
  - intros n Hn. cbn in Hn. destruct (decide (n = freeinode s)) as [->|Hne].
    + by rewrite fn_lookup_insert, Hda.
    + rewrite fn_lookup_insert_ne by done. apply Hpl. lia.
  - intros n i Hn Hi. cbn in Hn. destruct (decide (n = freeinode s)) as [->|Hne].
    + rewrite fn_lookup_insert, Hda, Hnew by apply owner_slot. by apply lookup_replicate_2.
    + rewrite fn_lookup_insert_ne by done. apply Hdi; [lia|done].
Qed.

Lemma image_ialloc s L dins fs t ma mi :
  image s L dins fs → freeinode s < INODES → 0 ≤ t < 2 ^ 15 → 0 ≤ ma < 2 ^ 15 → 0 ≤ mi < 2 ^ 15 →
  returns (ialloc t ma mi) s (λ n s', n = 1 + Z.of_nat (length fs)
    ∧ ∃ dins', image s' L dins' (fs ++ [AFile t ma mi []])).
Proof.
  intros [Hl Hfi Hrm Hfull Hdisk Hdin Hwf Hfb Hsb] Hroom Ht Hma Hmi. set (a := AFile t ma mi []).
  unfold ialloc. eapply returns_bind; [apply (returns_gets _ _ (λ n s', n = freeinode s ∧ s' = s)); done|].
  intros n s' [-> ->]. apply returns_modify_bind. unfold INODES in *. rewrite u32_id by lia.
  set (s1 := s <| freeinode := freeinode s + 1 |>). set (d := DInode t ma mi 1 0 (replicate 13 0)).
  assert (Hl1 : laid s1 L (<[freeinode s := d]> dins) (data_at (fs ++ [a]))) by (by apply laid_new).
  assert (Hwd : dinode_wf d).
  { apply (dinode_of_wf a); [|done|]; [split; cbn; try done; rewrite MAXFILE_val; unfold BSIZE; lia|].
    intros i x Hx. apply lookup_replicate in Hx as [-> _]. lia. }
  eapply returns_bind; [by apply (winode_ok _ _ _ _ _ _ Hl1); unfold INODES; lia || done|].
  intros u s2 (b & Hb & Hlen & -> & Hl2). apply returns_ret. split; [done|]. exists (<[freeinode s := d]> dins).
  remember (splice b (dinode_off (freeinode s)) (dinode_bytes d)) as b2 eqn:Eb2.
  assert (Hold : ∀ n, 0 < n < freeinode s → file_at (fs ++ [a]) n = file_at fs n ∧ <[freeinode s := d]> dins n = dins n).
  { intros n Hn. rewrite file_at_app, fn_lookup_insert_ne by lia. done. }
  assert (Hcase : ∀ n, 0 < n < freeinode s + 1 → n = freeinode s ∨ 0 < n < freeinode s) by lia.
  assert (Hat : file_at (fs ++ [a]) (freeinode s) = a) by (rewrite Hfi; apply file_at_new).
  split; [done|..]; cbn.
  - rewrite length_app. cbn. lia.
  - unfold INODES. lia.
  - intros n Hn. unfold data_at. destruct (Hcase n Hn) as [->|Hn'].
    + rewrite Hat. intros r Hr. split; [|destruct r; simpl; unfold blocks; simpl; lia].
      intros Hnz. destruct (co_valid _ _ _ _ _ (proj1 Hl) r Hnz) as (_ & ? & _). lia.
    + rewrite (proj1 (Hold n Hn')). by apply Hfull.
  - intros n Hn. subst b2. apply (disk_inode s1); try done; unfold INODES; try lia.
    + intros ->. by rewrite fn_lookup_insert.
    + intros Hne. rewrite (proj2 (Hold n ltac:(lia))). apply Hdisk. lia.
  - intros n Hn. destruct (Hcase n Hn) as [->|Hn'].
    + by rewrite fn_lookup_insert, Hat.
    + destruct (Hold n Hn') as [-> ->]. by apply Hdin.
  - intros n Hn. destruct (Hcase n Hn) as [->|Hn'].
    + rewrite Hat. by split.
    + rewrite (proj1 (Hold n Hn')). by apply Hwf.
  - rewrite total_app. rewrite Hfb. change (total [a]) with 0. lia.
  - destruct (IBLOCK_val (freeinode s)) as [-> ?]; [unfold INODES; lia|]. by rewrite lookup_insert_ne by lia.
Qed.

Definition append_file (p : list Z) (a : afile) : afile :=
  AFile (a_type a) (a_major a) (a_minor a) (a_data a ++ p).

(** The files after [p] is appended to inode [n]. *)
Definition append_at (n : Z) (p : list Z) (fs : list afile) : list afile := alter (append_file p) (Z.to_nat (n - 1)) fs.

Lemma file_at_append fs n p :
  0 < n ≤ Z.of_nat (length fs) → file_at (append_at n p fs) n = append_file p (file_at fs n).
Proof.
  intros Hn. unfold file_at, append_at. rewrite list_lookup_alter_eq.
  destruct (lookup_lt_is_Some_2 fs (Z.to_nat (n - 1))) as [a ->]; [lia|]. done.
Qed.

Lemma file_at_append_ne fs n k p : 0 < n → 0 < k → k ≠ n → file_at (append_at n p fs) k = file_at fs k.
Proof. intros Hn Hk Hne. unfold file_at, append_at. by rewrite list_lookup_alter_ne by lia. Qed.

Lemma length_append_at fs n p : length (append_at n p fs) = length fs.
Proof. apply length_alter. Qed.

Lemma total_append fs n p :
  0 < n ≤ Z.of_nat (length fs) →
  total (append_at n p fs) = total fs - file_cost (file_at fs n) + file_cost (append_file p (file_at fs n)).
Proof.
  intros Hn. unfold file_at, append_at. destruct (lookup_lt_is_Some_2 fs (Z.to_nat (n - 1))) as [a Ha]; [lia|].
  rewrite Ha. simpl (default _ _). clear Hn. revert Ha. generalize (Z.to_nat (n - 1)) as i.
  induction fs as [|b fs IH]; intros [|i] Ha; try done; simpl in Ha.
  - injection Ha as ->. cbn [alter list_alter total foldr]. lia.
  - change (total (b :: alter (append_file p) i fs) = total (b :: fs) - file_cost a + file_cost (append_file p a)).
    cbn [total foldr]. specialize (IH i Ha). unfold total in IH. lia.
Qed.

Lemma append_wf fs n p k :
  0 < n ≤ Z.of_nat (length fs) → 0 < k → Z.of_nat (length (data_at fs n) + length p) ≤ MAXFILE * BSIZE →
  afile_wf (file_at fs k) → afile_wf (file_at (append_at n p fs) k).
Proof.
  intros Hn Hk Hmax Hwf. destruct (decide (k = n)) as [->|Hne]; [|by rewrite file_at_append_ne by lia].
  rewrite file_at_append by done. destruct Hwf. split; try done. cbn [append_file a_data]. by rewrite length_app.
Qed.

(** After the loop of [iappend] and the write of the inode. *)
Section Rewritten.
Context (s : mkstate) (L : role → Z) (dins : Z → dinode) (fs : list afile) (n : Z) (p : list Z).
Context (s1 : mkstate) (L1 : role → Z) (dins1 : Z → dinode) (cont1 : Z → list Z).
Context (Him : image s L dins fs) (Hn : 0 < n < freeinode s).
Context (Hmax : Z.of_nat (length (data_at fs n) + length p) ≤ MAXFILE * BSIZE).
Context (Hap : appended n p s L dins (data_at fs) s1 L1 dins1 cont1).

Let fs' : list afile := append_at n p fs.

Let d : dinode := dins1 n <| dsize := Z.of_nat (length (data_at fs n ++ p)) |>.

Lemma in_list : 0 < n ≤ Z.of_nat (length fs).
Proof. pose proof (im_fi _ _ _ _ Him). lia. Qed.

Lemma rewritten_din : d = dinode_of (file_at fs' n) (daddrs (dins1 n)).
Proof.
  unfold d, fs'. rewrite (ap_din _ _ _ _ _ _ _ _ _ _ Hap), (im_din _ _ _ _ Him n Hn), file_at_append by apply in_list.
  done.
Qed.

Lemma rewritten_cont k : 0 < k → data_at fs' k = cont1 k.
Proof.
  intros Hk. unfold data_at, fs'. destruct (decide (k = n)) as [->|Hne].
  - by rewrite file_at_append, (ap_cont _ _ _ _ _ _ _ _ _ _ Hap) by apply in_list.
  - rewrite file_at_append_ne by lia. by destruct (ap_other _ _ _ _ _ _ _ _ _ _ Hap k Hne) as [-> _].
Qed.

Lemma rewritten_laid : laid s1 L1 (<[n := d]> dins1) (data_at fs').
Proof.
  apply (laid_ext _ _ dins1 _ cont1); [apply rewritten_cont| |apply Hap]. intros k.
  destruct (decide (k = n)) as [->|Hne]; [by rewrite fn_lookup_insert|by rewrite fn_lookup_insert_ne].
Qed.

Lemma rewritten_wf : dinode_wf d.
Proof.
  destruct (ap_laid _ _ _ _ _ _ _ _ _ _ Hap) as [Hco [Hpl Hdi _]]. rewrite (ap_fi _ _ _ _ _ _ _ _ _ _ Hap) in *.
  rewrite rewritten_din. apply dinode_of_wf; [|by apply Hpl|].
  - apply append_wf; try done; [apply in_list|lia|by apply (im_wf _ _ _ _ Him)].
  - intros i x Hx. assert (Hi : (i < 13)%nat) by (rewrite <- (Hpl n Hn); by eapply lookup_lt_Some).
    rewrite Hdi in Hx by done. injection Hx as <-. by apply (addr_u32 _ _ _ _ _ Hco).
Qed.

Lemma rewritten_other k : 0 < k → k ≠ n → file_at fs' k = file_at fs k ∧ <[n := d]> dins1 k = dins k.
Proof.
  intros Hk Hne. unfold fs'. rewrite file_at_append_ne, fn_lookup_insert_ne by lia.
  by destruct (ap_other _ _ _ _ _ _ _ _ _ _ Hap k Hne).
Qed.

Lemma image_rewritten b :
  let s2 := s1 <| img := <[IBLOCK n mk_sb := splice b (dinode_off n) (dinode_bytes d)]> (img s1) |> in
  img s1 !! IBLOCK n mk_sb = Some b → length b = 1024%nat → laid s2 L1 (<[n := d]> dins1) (data_at fs') →
  image s2 L1 (<[n := d]> dins1) fs'.
Proof.
  intros s2 Hb Hlen Hl2. pose proof Him as [Hl Hfi Hrm Hfull Hdisk Hdin Hwf Hfb Hsb]. pose proof in_list as Hnf.
  destruct Hap as [_ Hf1 Hc1 _ _ Hr1 Hm1 Hi1 Hb1].
  assert (Hfi2 : freeinode s2 = freeinode s) by exact Hi1.
  split; rewrite ?Hfi2; try done.
  - unfold fs'. by rewrite length_append_at.
  - intros k Hk. rewrite rewritten_cont by lia. destruct (decide (k = n)) as [->|Hne]; [done|].
    rewrite <- rewritten_cont by lia. unfold data_at. rewrite (proj1 (rewritten_other k ltac:(lia) Hne)).
    intros r Hr. rewrite Hr1 by congruence. by apply Hfull.
  - intros k Hk. apply (disk_inode s1); try done; [lia|lia|apply rewritten_wf|intros ->; by rewrite fn_lookup_insert|].
    intros Hne. rewrite (proj2 (rewritten_other k ltac:(lia) Hne)). destruct (IBLOCK_val k) as [Hik ?]; [lia|].
    rewrite Hm1 by (rewrite nmeta_val; lia). apply Hdisk. lia.
  - intros k Hk. destruct (decide (k = n)) as [->|Hne].
    + rewrite fn_lookup_insert. exact rewritten_din.
    + destruct (rewritten_other k ltac:(lia) Hne) as [-> ->]. by apply Hdin.
  - intros k Hk. apply append_wf; try done; [lia|by apply Hwf].
  - change (freeblock s1 = nmeta + total fs'). unfold fs'. rewrite total_append, Hb1, Hc1, Hfb, length_app by done.
    unfold file_cost. cbn [append_file a_data]. rewrite length_app. unfold data_at. lia.
  - destruct (IBLOCK_val n) as [Hi ?]; [lia|]. change (img s2) with
      (<[IBLOCK n mk_sb := splice b (dinode_off n) (dinode_bytes d)]> (img s1)).
    rewrite Hi, lookup_insert_ne by lia. by rewrite Hm1 by (rewrite nmeta_val; lia).
Qed.

End Rewritten.

Lemma image_iappend s L dins fs n p :
  image s L dins fs → 0 < n < freeinode s →
  Z.of_nat (length (data_at fs n) + length p) ≤ MAXFILE * BSIZE → nmeta + total (append_at n p fs) ≤ FSSIZE →
  returns (iappend n p) s (λ _ s', ∃ L' dins', image s' L' dins' (append_at n p fs)).
Proof.
  intros Him Hn Hmax Hroom. pose proof Him as [Hl Hfi Hrm Hfull Hdisk Hdin Hwf Hfb _].
  destruct (Hdisk n Hn) as (b & Hb & Hdb). unfold iappend.
  eapply returns_bind; [apply (rinode_ok s n b (λ d s', d = dins n ∧ s' = s)); try done; lia|].
  intros d s' [-> ->].
  replace (dsize (dins n)) with (Z.of_nat (length (data_at fs n))) by (by rewrite (Hdin n Hn)).
  rewrite total_append in Hroom by lia. unfold file_cost in Hroom. cbn [append_file a_data] in Hroom.
  rewrite length_app in Hroom. fold (data_at fs n) in Hroom.
  eapply returns_bind; [apply (iappend_loop_ok _ s L dins (data_at fs) n p); try done; [by apply Hfull|lia|lia]|].
  intros r s1 (L1 & dins1 & cont1 & -> & Hap). cbn [fst snd].
  pose proof (ap_fi _ _ _ _ _ _ _ _ _ _ Hap) as Hi1. destruct (ap_laid _ _ _ _ _ _ _ _ _ _ Hap) as [_ Hpt].
  pose proof (rewritten_laid s L dins fs n p s1 L1 dins1 cont1 Him Hn Hmax Hap) as Hl1.
  eapply returns_mono; [apply (winode_ok _ _ _ _ n _ Hl1); [lia|apply (pt_len _ _ _ _ Hpt); lia]|].
  intros u s2 (b2 & Hb2 & Hlen & -> & Hl2). eexists L1, _. by eapply image_rewritten.
Qed.
