(* ===== verification/MkfsReads.v ===== *)
(** What the kernel reads from the image that mkfs builds. *)

From stdpp Require Import functions.
From S2P Require Import Prelude Machine CString Bio Fs Bytes FsRead Mkfs MkfsSpec MkfsImage MkfsBuild.

(** ** Reading a laid-out file *)

(** The disk that has the image. *)
Definition disk_of (s : mkstate) (b : Z) : list Z := default [] (img s !! b).

Section File.
Context (s : mkstate) (L : role → Z) (dins : Z → dinode) (cont : Z → list Z) (n : Z) (x : inode).
Context (Hl : laid s L dins cont) (Hn : 0 < n < freeinode s) (Hx : addrs x = daddrs (dins n)).

Let dk : Z → list Z := disk_of s.

Lemma slot_addr i : (i < 13)%nat → default 0 (addrs x !! i) = L (slot_role n i).
Proof. intros Hi. rewrite Hx, (pt_direct _ _ _ _ (proj2 Hl) n i Hn Hi). done. Qed.

Lemma ptr_word p i : is_ptr p → 0 ≤ i < 256 → L (child p i) ≠ 0 → valid p →
  L p ≠ 0 ∧ word_at (dk (L p)) i = L (child p i).
Proof.
  intros Hp Hi Hnz Hv. destruct Hl as [Hco Hpt].
  assert (Hpn : L p ≠ 0) by (by apply (co_parent _ _ _ _ _ Hco p i)). split; [done|].
  destruct (addr_block _ _ _ _ _ Hco p Hpn) as (d & Hd & _). unfold dk, disk_of. rewrite Hd.
  by apply (pt_word _ _ _ _ Hpt).
Qed.

(** [bmap] finds the block that the layout gives. *)
Lemma block_addr_laid f : L (Data n f) ≠ 0 → block_addr dk x f = L (Data n f).
Proof.
  intros Hnz. destruct (co_valid _ _ _ _ _ (proj1 Hl) _ Hnz) as (Hv & _ & _). simpl in Hv. rewrite MAXFILE_val in Hv.
  unfold block_addr. change NDIRECT with 11. change NINDIRECT with 256.
  destruct (Z.ltb_spec f 11) as [Hd|Hd].
  { rewrite slot_addr by lia. f_equal. unfold slot_role. rewrite (proj2 (Nat.ltb_lt _ _)) by lia. f_equal. lia. }
  destruct (Z.ltb_spec (f - 11) 256) as [Hi|Hi].
  { rewrite slot_addr by lia. change (slot_role n 11) with (Ind n).
    assert (Ec : Data n f = child (Ind n) (f - 11)) by (simpl; f_equal; lia). rewrite Ec in *.
    destruct (ptr_word (Ind n) (f - 11)) as [H1 H2]; try done; [lia|]. by rewrite (proj2 (Z.eqb_neq _ _)). }
  rewrite slot_addr by lia. change (slot_role n 12) with (DInd n).
  set (k := (f - 11 - 256) / 256). set (j := (f - 11 - 256) mod 256).
  assert (Hk : 0 ≤ k < 256 ∧ 0 ≤ j < 256 ∧ f = 267 + 256 * k + j) by (subst k j; dlia).
  assert (Ec : Data n f = child (child (DInd n) k) j) by (simpl; f_equal; lia). rewrite Ec in *.
  destruct (ptr_word (child (DInd n) k) j) as [H1 H2]; try done; [lia|simpl; lia|].
  destruct (ptr_word (DInd n) k) as [H3 H4]; try done; [lia|].
  rewrite (proj2 (Z.eqb_neq (L (DInd n)) 0)), H4, (proj2 (Z.eqb_neq (L (child (DInd n) k)) 0)) by done. done.
Qed.

Context (Hfull : full L n (Z.of_nat (blocks (length (cont n))))).

Lemma has_block f : 0 ≤ f → f < Z.of_nat (blocks (length (cont n))) → L (Data n f) ≠ 0.
Proof. intros H0 Hf. by apply Hfull. Qed.

Lemma content_laid off :
  0 ≤ off → off / BSIZE < Z.of_nat (blocks (length (cont n))) → content dk x off = default 0 (cont n !! Z.to_nat off).
Proof.
  intros H0 Hoff. unfold content. assert (Hf : 0 ≤ off / BSIZE) by (unfold BSIZE; dlia).
  pose proof (has_block _ Hf Hoff) as Hnz. rewrite block_addr_laid by done. unfold dk, disk_of.
  rewrite (co_data _ _ _ _ _ (proj1 Hl)) by done. simpl (default [] _). rewrite chunk_lookup by (unfold BSIZE; dlia).
  simpl. do 2 f_equal. unfold BSIZE. dlia.
Qed.

Lemma contents_laid :
  contents dk x 0 (Z.of_nat (length (cont n))) = cont n.
Proof.
  apply list_eq_same_length with (n := length (cont n)); [done|unfold contents; rewrite length_fmap, length_seqZ; lia|].
  intros i a c Hi Ha Hc. unfold contents in Ha. rewrite list_lookup_fmap, lookup_seqZ_lt in Ha by lia.
  injection Ha as <-. rewrite content_laid; [by rewrite Z.add_0_l, Nat2Z.id, Hc|lia|].
  rewrite blocks_Z. unfold BSIZE. dlia.
Qed.

Lemma file_ok_laid :
  idev x = ROOTDEV → 0 ≤ isize x ≤ Z.of_nat (blocks (length (cont n))) * BSIZE → isize x ≤ MAXFILE * BSIZE → file_ok dk x.
Proof.
  intros Hdev Hsz Hmax. split; [done|lia|..]; intros bn H0 Hbn;
    assert (Hlt : bn < Z.of_nat (blocks (length (cont n)))) by (unfold BSIZE in *; lia);
    pose proof (has_block bn H0 Hlt) as Hnz; rewrite block_addr_laid by done; [done|].
  destruct (addr_block _ _ _ _ _ (proj1 Hl) _ Hnz) as (d & Hd & Hlen). unfold dk, disk_of. by rewrite Hd.
Qed.

End File.

(** ** The bitmap *)

Lemma length_set_bit d i : length (set_bit d i) = length d.
Proof. apply length_insert. Qed.

Definition bit_of (d : list Z) (i : Z) : bool := Z.testbit (default 0 (d !! Z.to_nat (i / 8))) (i mod 8).

Lemma bit_of_set d i j :
  0 ≤ i → 0 ≤ j → i / 8 < Z.of_nat (length d) → bit_of (set_bit d i) j = (bool_decide (j = i) || bit_of d j).
Proof.
  intros Hi Hj Hlen. unfold bit_of, set_bit. destruct (decide (j / 8 = i / 8)) as [Heq|Hne].
  - rewrite Heq, list_lookup_insert_eq by (by dlia). simpl (default _ (Some _)). rewrite Z.lor_spec, orb_comm. f_equal.
    assert (Ht : 0 ≤ j mod 8 ∧ 0 ≤ i mod 8) by dlia. rewrite Z.shiftl_spec by lia.
    case_bool_decide as Hji; [subst; by rewrite Z.sub_diag|].
    destruct (decide (j mod 8 < i mod 8)); [by rewrite Z.testbit_neg_r by lia|].
    apply (Z.bits_above_log2 1); simpl; dlia.
  - rewrite list_lookup_insert_ne by dlia. rewrite bool_decide_eq_false_2 by congruence. done.
Qed.

Lemma bitmap_fold used b k d :
  length d = 1024%nat → 0 ≤ k ≤ BPB →
  let d' := foldl (λ d i, if b * BPB + i <? used then set_bit d i else d) d (seqZ 0 k) in
  length d' = 1024%nat ∧
  ∀ j, 0 ≤ j < BPB → bit_of d' j = (bool_decide (j < k) && (b * BPB + j <? used)) || bit_of d j.
Proof.
  intros Hd [Hk Hmax]. revert Hmax. pattern k. apply natlike_ind; [|clear k Hk; intros k Hk IH Hmax|done].
  { intros _. split; [done|]. intros j Hj. by rewrite bool_decide_eq_false_2 by lia. }
  destruct IH as [Hl Hbits]; [lia|]. rewrite <- Z.add_1_r, seqZ_app, foldl_app by lia. cbn [seqZ].
  set (d' := foldl _ d (seqZ 0 k)) in *. change (seqZ (0 + k) 1) with [0 + 0 + k]. cbn [foldl]. rewrite !Z.add_0_l.
  assert (Hjk : ∀ j, bool_decide (j < k + 1) = bool_decide (j = k) || bool_decide (j < k)).
  { intros j. repeat case_bool_decide; simpl; try done; lia. }
  destruct (b * BPB + k <? used) eqn:Eu.
  - rewrite length_set_bit. split; [done|]. intros j Hj. change BPB with 8192 in *.
    rewrite bit_of_set, Hbits, Hjk by (try lia; dlia). destruct (decide (j = k)) as [->|Hne].
    + by rewrite Eu, (bool_decide_eq_true_2 (k = k)).
    + by rewrite (bool_decide_eq_false_2 (j = k)).
  - split; [done|]. intros j Hj. rewrite Hbits, Hjk by done. destruct (decide (j = k)) as [->|Hne].
    + by rewrite Eu, !andb_false_r.
    + by rewrite (bool_decide_eq_false_2 (j = k)).
Qed.

Lemma bit_of_zeroes j : bit_of (replicate (Z.to_nat BSIZE) 0) j = false.
Proof.
  unfold bit_of. destruct (_ !! _) as [c|] eqn:E; simpl; [|apply Z.testbit_0_l].
  apply lookup_replicate in E as [-> _]. apply Z.testbit_0_l.
Qed.

Lemma bitmap_block_bits used b j : 0 ≤ j < BPB → bit_of (bitmap_block used b) j = (b * BPB + j <? used).
Proof.
  intros Hj. destruct (bitmap_fold used b BPB (replicate (Z.to_nat BSIZE) 0)) as [_ Hb]; [done|unfold BPB, BSIZE; lia|].
  unfold bitmap_block. rewrite Hb, bit_of_zeroes, orb_false_r by done. by rewrite bool_decide_eq_true_2 by lia.
Qed.

Lemma length_bitmap_block used b : length (bitmap_block used b) = 1024%nat.
Proof.
  destruct (bitmap_fold used b BPB (replicate (Z.to_nat BSIZE) 0)) as [Hl _]; [done|unfold BPB, BSIZE; lia|done].
Qed.
