(* ===== verification/MkfsMain.v ===== *)
(** mkfs as a whole: the image holds the files it was given, where the kernel
    looks for them. *)

From stdpp Require Import functions.
From S2P Require Import Prelude Machine CString Kalloc Vm Bio Fs Bytes FsRead Mkfs MkfsSpec MkfsImage MkfsBuild MkfsReads.

(** ** Loops *)

Lemma for_each_seqZ {S} (body : Z → M S unit) (I : Z → S → Prop) n s :
  0 ≤ n → (∀ k s, 0 ≤ k < n → I k s → returns (body k) s (λ _ s', I (k + 1) s')) →
  I 0 s → returns (for_each (seqZ 0 n) body) s (λ _ s', I n s').
Proof.
  intros Hn Hb Hs. assert (Hgen : ∀ j k s, 0 ≤ j → 0 ≤ k → k + j = n → I k s → returns (for_each (seqZ k j) body) s (λ _ s', I n s')).
  { intros j k t Hj. revert k t. pattern j. apply natlike_ind; [|clear j Hj; intros j Hj IH|done]; intros k t Hk Hkj Ht.
    - apply returns_ret. by replace n with k by lia.
    - rewrite seqZ_cons by lia. cbn [for_each]. eapply returns_bind; [apply Hb; [lia|done]|]. intros u t' Ht'.
      replace (Z.pred (Z.succ j)) with j by lia. apply IH; [lia|lia|]. by rewrite <- Z.add_1_r. }
  by apply Hgen.
Qed.

(** ** The files of the image *)

(** A file of the command line: its path and the pieces that [read] returns. *)
Definition host_file : Type := list Z * list (list Z).

Definition entry (i : nat) (f : host_file) : list Z := dirent_bytes (3 + Z.of_nat i) (shortname (fst f)).

Definition root_data (files : list host_file) : list Z :=
  dirent_bytes 1 [46] ++ dirent_bytes 2 (chars "console") ++ concat (imap entry files).

Definition tree (files : list host_file) : list afile :=
  AFile T_DIR 0 0 (root_data files) :: AFile T_DEVICE 1 0 [] :: ((λ f, AFile T_FILE 0 0 (concat (snd f))) <$> files).

Lemma dirent_bytes_eq i name :
  dirent_bytes i name = le_bytes 2 i ++ cstr 14 name ++ replicate (14 - length (cstr 14 name)) 0.
Proof.
  unfold dirent_bytes, strncpy. change (Z.to_nat DIRSIZ) with 14%nat. f_equal.
  rewrite strncpy_loop_spec by (rewrite length_replicate; lia). rewrite drop_0. by rewrite app_nil_r.
Qed.

Lemma length_dirent i name : length (dirent_bytes i name) = 16%nat.
Proof.
  rewrite dirent_bytes_eq, !length_app, length_le_bytes, length_replicate. pose proof (cstr_length 14 name). lia.
Qed.

Lemma length_concat_imap {A} (g : nat → A → list Z) k l :
  (∀ i x, length (g i x) = k) → length (concat (imap g l)) = (k * length l)%nat.
Proof.
  intros Hg. revert g Hg. induction l as [|x l IH]; intros g Hg; [simpl; lia|]. rewrite imap_cons. cbn [concat].
  rewrite length_app, Hg, IH by (intros; apply Hg). simpl. lia.
Qed.

Lemma length_root_data files : length (root_data files) = (16 * (2 + length files))%nat.
Proof.
  unfold root_data. rewrite !length_app, !length_dirent, (length_concat_imap _ 16) by (intros; apply length_dirent). lia.
Qed.

Lemma tree_snoc files f :
  append_at (3 + Z.of_nat (length files)) (concat (snd f))
    (append_at 1 (entry (length files) f) (tree files ++ [AFile T_FILE 0 0 []])) = tree (files ++ [f]).
Proof.
  unfold tree, append_at. change (Z.to_nat (1 - 1)) with 0%nat.
  replace (Z.to_nat (3 + Z.of_nat (length files) - 1)) with (2 + length files)%nat by lia.
  set (g := λ f : host_file, AFile T_FILE 0 0 (concat (snd f))).
  change (append_file (entry (length files) f) (AFile T_DIR 0 0 (root_data files)) :: AFile T_DEVICE 1 0 []
    :: alter (append_file (concat (snd f))) (length files) ((g <$> files) ++ [AFile T_FILE 0 0 []])
    = AFile T_DIR 0 0 (root_data (files ++ [f])) :: AFile T_DEVICE 1 0 [] :: (g <$> files ++ [f])).
  f_equal.
  - unfold append_file, root_data. cbn [a_data a_type a_major a_minor]. f_equal.
    rewrite imap_app, concat_app. cbn [imap concat]. by rewrite app_nil_r, !Nat.add_0_r, !app_assoc.
  - f_equal. rewrite fmap_app. replace (length files) with (length (g <$> files) + 0)%nat by (rewrite length_fmap; lia).
    by rewrite alter_app_r.
Qed.

Lemma append_at_app n p q fs : append_at n q (append_at n p fs) = append_at n (p ++ q) fs.
Proof.
  unfold append_at. rewrite list_alter_alter_eq. apply list_alter_ext; [|done].
  intros a _. unfold append_file. simpl. by rewrite app_assoc.
Qed.

Lemma append_at_nil n fs : append_at n [] fs = fs.
Proof. apply list_alter_id. intros []. unfold append_file. simpl. by rewrite app_nil_r. Qed.

Lemma file_cost_mono a p : file_cost a ≤ file_cost (append_file p a).
Proof. apply cost_mono, blocks_mono. cbn [append_file a_data]. rewrite length_app. lia. Qed.

Lemma total_mono fs n p : 0 < n ≤ Z.of_nat (length fs) → total fs ≤ total (append_at n p fs).
Proof. intros Hn. rewrite total_append by done. pose proof (file_cost_mono (file_at fs n) p). lia. Qed.

Lemma file_cost_nonneg a : 0 ≤ file_cost a.
Proof. apply (cost_mono 0). lia. Qed.

Lemma total_tree_mono files gs : total (tree files) ≤ total (tree (files ++ gs)).
Proof.
  revert files. induction gs as [|f gs IH]; intros files; [by rewrite app_nil_r|].
  replace (files ++ f :: gs) with ((files ++ [f]) ++ gs) by (by rewrite <- app_assoc).
  etransitivity; [|apply IH]. rewrite <- tree_snoc.
  assert (Hlen : length (tree files) = (2 + length files)%nat) by (simpl; by rewrite length_fmap).
  etransitivity; [|apply total_mono; rewrite length_append_at, length_app, Hlen; simpl; lia].
  etransitivity; [|apply total_mono; rewrite length_app, Hlen; simpl; lia].
  rewrite total_app. change (total [AFile T_FILE 0 0 []]) with 0. lia.
Qed.

(** The rest of a host file. *)
Lemma append_pieces ps s L dins fs n :
  image s L dins fs → 0 < n < freeinode s →
  Z.of_nat (length (data_at fs n) + length (concat ps)) ≤ MAXFILE * BSIZE →
  nmeta + total (append_at n (concat ps) fs) ≤ FSSIZE →
  returns (for_each ps (iappend n)) s (λ _ s', ∃ L' dins', image s' L' dins' (append_at n (concat ps) fs)).
Proof.
  revert s L dins fs. induction ps as [|p ps IH]; intros s L dins fs Him Hn Hmax Hroom.
  { apply returns_ret. exists L, dins. cbn [concat]. by rewrite append_at_nil. }
  cbn [for_each concat] in *. rewrite length_app in Hmax. pose proof (im_fi _ _ _ _ Him) as Hfi.
  rewrite <- append_at_app in Hroom |- *.
  eapply returns_bind; [apply (image_iappend s L dins fs n p Him Hn); [lia|]|].
  { etransitivity; [|exact Hroom]. apply Z.add_le_mono_l, total_mono. rewrite length_append_at. lia. }
  intros u s1 (L1 & dins1 & Him1). pose proof (im_fi _ _ _ _ Him1) as Hfi1. rewrite length_append_at in Hfi1.
  apply (IH s1 L1 dins1); try done; [lia|]. unfold data_at. rewrite file_at_append by lia.
  cbn [append_file a_data]. rewrite length_app. unfold data_at in Hmax. lia.
Qed.

Lemma length_tree files : length (tree files) = (2 + length files)%nat.
Proof. simpl. by rewrite length_fmap. Qed.

Lemma data_at_root files : data_at (tree files) 1 = root_data files.
Proof. done. Qed.

Definition name_ok (f : host_file) : Prop := Z.of_nat (length (shortname (fst f))) ≤ DIRSIZ.

Definition size_ok (f : host_file) : Prop := Z.of_nat (length (concat (snd f))) ≤ MAXFILE * BSIZE.

Lemma add_file_ok s L dins files f :
  image s L dins (tree files) → (length files < 205)%nat → name_ok f → size_ok f →
  nmeta + total (tree (files ++ [f])) ≤ FSSIZE →
  returns (add_file 1 (fst f) (snd f)) s (λ _ s', ∃ L' dins', image s' L' dins' (tree (files ++ [f]))).
Proof.
  intros Him Hcnt Hname Hsize Hroom. pose proof (im_fi _ _ _ _ Him) as Hfi. rewrite length_tree in Hfi.
  unfold add_file. unfold name_ok in Hname. rewrite (proj2 (Z.ltb_ge _ _)) by done.
  eapply returns_bind; [apply (image_ialloc s L dins (tree files) T_FILE 0 0); try done; unfold INODES; lia|].
  intros n s1 (-> & dins1 & Him1). rewrite length_tree.
  replace (1 + Z.of_nat (2 + length files)) with (3 + Z.of_nat (length files)) by lia.
  pose proof (im_fi _ _ _ _ Him1) as Hfi1. rewrite length_app, length_tree in Hfi1. simpl length in Hfi1.
  rewrite <- tree_snoc in Hroom.
  assert (Hl : ∀ p, length (append_at 1 p (tree files ++ [AFile T_FILE 0 0 []])) = (3 + length files)%nat).
  { intros p. rewrite length_append_at, length_app, length_tree. simpl. lia. }
  eapply returns_bind; [apply (image_iappend s1 L dins1 _ 1 (entry (length files) f) Him1); [lia|..]|].
  - change (data_at _ 1) with (root_data files). unfold entry. rewrite length_root_data, length_dirent.
    rewrite MAXFILE_val. unfold BSIZE. lia.
  - etransitivity; [|exact Hroom]. apply Z.add_le_mono_l, total_mono. rewrite Hl. lia.
  - intros u s2 (L2 & dins2 & Him2). pose proof (im_fi _ _ _ _ Him2) as Hfi2. rewrite Hl in Hfi2.
    rewrite <- tree_snoc. apply (append_pieces _ s2 L2 dins2); try done; [lia|].
    assert (Hd : data_at (append_at 1 (entry (length files) f) (tree files ++ [AFile T_FILE 0 0 []]))
                   (3 + Z.of_nat (length files)) = []).
    { unfold data_at. rewrite file_at_append_ne by lia.
      replace (3 + Z.of_nat (length files)) with (1 + Z.of_nat (length (tree files))) by (rewrite length_tree; lia).
      by rewrite file_at_new. }
    rewrite Hd. exact Hsize.
Qed.

Lemma add_files_ok rest s L dins files :
  image s L dins (tree files) → (length files + length rest ≤ 205)%nat → Forall name_ok rest → Forall size_ok rest →
  nmeta + total (tree (files ++ rest)) ≤ FSSIZE →
  returns (for_each rest (λ f, add_file 1 (fst f) (snd f))) s (λ _ s', ∃ L' dins', image s' L' dins' (tree (files ++ rest))).
Proof.
  revert s L dins files. induction rest as [|f rest IH]; intros s L dins files Him Hcnt Hname Hsize Hroom.
  { apply returns_ret. exists L, dins. by rewrite app_nil_r. }
  cbn [for_each length] in *. inversion_clear Hname. inversion_clear Hsize.
  replace (files ++ f :: rest) with ((files ++ [f]) ++ rest) in * by (by rewrite <- app_assoc).
  eapply returns_bind; [apply (add_file_ok s L dins files f Him); try done; [lia|]|].
  { pose proof (total_tree_mono (files ++ [f]) rest). lia. }
  intros u s1 (L1 & dins1 & Him1). apply (IH s1 L1 dins1); try done. rewrite length_app. simpl. lia.
Qed.

(** ** The start *)

(** The image before the first inode. *)
Lemma image_empty s :
  freeinode s = 1 → freeblock s = nmeta → (∀ b, 0 ≤ b < FSSIZE → b ≠ 1 → img s !! b = Some zeroes) →
  img s !! 1 = Some (splice zeroes 0 (sb_bytes mk_sb)) →
  image s (λ _, 0) (λ _, dinode_of afile0 []) [].
Proof.
  intros Hfi Hfb Hz Hsb. split; rewrite ?Hfi; try done; try (intros; lia).
  - split; split; rewrite ?Hfi, ?Hfb; try done; try (intros; lia).
    + intros b Hb. destruct (decide (b = 1)) as [->|Hne].
      * eexists. rewrite Hsb. split; [done|].
        rewrite length_splice; rewrite length_zeroes; [done|]. unfold sb_bytes. rewrite length_le_array. simpl. lia.
      * exists zeroes. rewrite Hz by done. split; [done|apply length_zeroes].
    + rewrite nmeta_val in *. intros b Hb. apply Hz; lia.
Qed.

(** From the empty image file to the root directory with its two first
    entries. *)
Lemma mkfs_start (k : Z → M mkstate unit) (Q : unit → mkstate → Prop) :
  nmeta + total (tree []) ≤ FSSIZE →
  (∀ s L dins, image s L dins (tree []) → returns (k 1) s Q) →
  returns (modify (λ s, s <| freeblock := nmeta |>) ;;;
    for_each (seqZ 0 FSSIZE) (λ i, wsect i zeroes) ;;;
    wsect 1 (splice zeroes 0 (sb_bytes mk_sb)) ;;;
    let! rootino := ialloc T_DIR 0 0 in
    if negb (rootino =? ROOTINO) then panic "assert"
    else
      iappend rootino (dirent_bytes rootino [46]) ;;;
      let! inum := ialloc T_DEVICE 1 0 in
      iappend rootino (dirent_bytes inum (chars "console")) ;;;
      k rootino) mk0 Q.
Proof.
  intros Hroom Hk. apply returns_modify_bind. set (s0 := mk0 <| freeblock := nmeta |>).
  set (I := λ (n : Z) (s : mkstate), freeinode s = 1 ∧ freeblock s = nmeta ∧ ∀ b, 0 ≤ b < n → img s !! b = Some zeroes).
  eapply returns_bind; [apply (for_each_seqZ _ I); [unfold FSSIZE; lia| |split_and!; try done; lia]|].
  { intros n s Hn (Hfi & Hfb & Hz). apply returns_wsect; [done|]. split_and!; try done. intros b Hb. cbn [img].
    change (<[n := zeroes]> (img s) !! b = Some zeroes).
    destruct (decide (b = n)) as [->|Hne]; [by rewrite lookup_insert_eq|]. rewrite lookup_insert_ne by done. apply Hz. lia. }
  intros u s1 (Hfi & Hfb & Hz). set (sbb := splice zeroes 0 (sb_bytes mk_sb)).
  eapply returns_bind; [apply (returns_wsect 1 sbb s1 (λ _ s', s' = s1 <| img := <[1 := sbb]> (img s1) |>));
    [unfold FSSIZE; lia|done]|].
  intros u' s2 Es2. assert (Him : image s2 (λ _, 0) (λ _, dinode_of afile0 []) []).
  { rewrite Es2. apply image_empty; try done.
    - intros b Hb Hne. change (<[1 := sbb]> (img s1) !! b = Some zeroes). rewrite lookup_insert_ne by done. by apply Hz.
    - change (<[1 := sbb]> (img s1) !! 1 = Some sbb). by rewrite lookup_insert_eq. }
  clear Es2. pose proof (im_fi _ _ _ _ Him) as Hfi2. simpl in Hfi2.
  assert (Hbig : ∀ n, (n ≤ 32)%nat → Z.of_nat n ≤ MAXFILE * BSIZE) by (rewrite MAXFILE_val; unfold BSIZE; lia).
  eapply returns_bind; [apply (image_ialloc _ _ _ _ T_DIR 0 0 Him); try done; unfold INODES; lia|].
  intros n s3 (-> & dins3 & Him3). change (1 + Z.of_nat (length (@nil afile))) with 1. simpl negb. cbv iota.
  pose proof (im_fi _ _ _ _ Him3) as Hfi3. simpl in Hfi3.
  eapply returns_bind; [apply (image_iappend _ _ _ _ 1 (dirent_bytes 1 [46]) Him3); [lia|apply Hbig, Nat.leb_le; reflexivity|]|].
  { etransitivity; [|exact Hroom]. vm_compute. discriminate. }
  intros u4 s4 (L4 & dins4 & Him4). pose proof (im_fi _ _ _ _ Him4) as Hfi4. simpl in Hfi4.
  eapply returns_bind; [apply (image_ialloc _ _ _ _ T_DEVICE 1 0 Him4); try done; unfold INODES; lia|].
  intros n s5 (-> & dins5 & Him5). rewrite length_append_at. simpl (1 + Z.of_nat _).
  pose proof (im_fi _ _ _ _ Him5) as Hfi5. simpl in Hfi5.
  eapply returns_bind; [apply (image_iappend _ _ _ _ 1 (dirent_bytes 2 (chars "console")) Him5); [lia|apply Hbig, Nat.leb_le; reflexivity|]|].
  { etransitivity; [|exact Hroom]. vm_compute. discriminate. }
  intros u6 s6 (L6 & dins6 & Him6). by apply (Hk s6 L6 dins6).
Qed.

(** ** The end *)

Lemma balloc_ok s L dins cont used :
  laid s L dins cont →
  returns (balloc used) s (λ _ s', laid s' L dins cont ∧ freeinode s' = freeinode s
    ∧ (∀ b, b < 46 → img s' !! b = img s !! b)
    ∧ ∀ k, 0 ≤ k < nbitmap → img s' !! (46 + k) = Some (bitmap_block used k)).
Proof.
  intros Hl. change nbitmap with 9. unfold balloc. change (bmapstart mk_sb) with 46. change nbitmap with 9.
  apply (for_each_seqZ _ (λ n s', laid s' L dins cont ∧ freeinode s' = freeinode s
    ∧ (∀ b, b < 46 → img s' !! b = img s !! b) ∧ ∀ k, 0 ≤ k < n → img s' !! (46 + k) = Some (bitmap_block used k)));
    [lia| |split_and!; try done; lia].
  intros n s' Hn (Hl' & Hfi & Hlow & Hdone). apply returns_wsect; [unfold FSSIZE; lia|].
  set (s2 := s' <| img := _ |>). change (img s2) with (<[46 + n := bitmap_block used n]> (img s')). split_and!.
  - apply laid_meta; [done|rewrite nmeta_val; lia|apply length_bitmap_block].
  - done.
  - intros b Hb. rewrite lookup_insert_ne by lia. by apply Hlow.
  - intros k Hk. destruct (decide (k = n)) as [->|Hne]; [by rewrite lookup_insert_eq|].
    rewrite lookup_insert_ne by lia. apply Hdone. lia.
Qed.

Definition root_size (files : list host_file) : Z := (Z.of_nat (length (root_data files)) / BSIZE + 1) * BSIZE.

(** The image that is left behind: the files are laid out as in [tree], and
    only the size of the root directory has been rounded up. *)
Record finished (s : mkstate) (files : list host_file) (L : role → Z) (dins : Z → dinode) : Prop := {
  fn_laid : laid s L dins (data_at (tree files));
  fn_fi : freeinode s = 3 + Z.of_nat (length files);
  fn_count : (length files ≤ 205)%nat;
  fn_full n : 0 < n < freeinode s → full L n (Z.of_nat (blocks (length (data_at (tree files) n))));
  fn_disk n : 0 < n < freeinode s → dinode_at (disk_of s (IBLOCK n mk_sb)) (dinode_off n) = dins n;
  fn_din n : 1 < n < freeinode s → dins n = dinode_of (file_at (tree files) n) (daddrs (dins n));
  fn_root : dins 1 = DInode T_DIR 0 0 1 (root_size files) (daddrs (dins 1));
  fn_wf n : 0 < n < freeinode s → afile_wf (file_at (tree files) n);
  fn_sb : disk_of s 1 = splice zeroes 0 (sb_bytes mk_sb);
  fn_bitmap b : 0 ≤ b < FSSIZE →
    bit_of (disk_of s (bmapstart mk_sb + b / BPB)) (b mod BPB) = (b <? nmeta + total (tree files));
}.

Lemma fix_root_ok s L dins files :
  image s L dins (tree files) →
  let d := dins 1 <| dsize := root_size files |> in
  returns (fix_root 1) s (λ _ s', laid s' L (<[1 := d]> dins) (data_at (tree files))
    ∧ freeinode s' = freeinode s ∧ freeblock s' = freeblock s ∧ img s' !! 1 = img s !! 1
    ∧ ∀ n, 0 < n < freeinode s →
        ∃ b, img s' !! IBLOCK n mk_sb = Some b ∧ dinode_at b (dinode_off n) = <[1 := d]> dins n).
Proof.
  intros Him d. pose proof Him as [Hl Hfi Hrm Hfull Hdisk Hdin Hwf Hfb Hsb]. rewrite length_tree in Hfi.
  assert (H1 : 0 < 1 < freeinode s) by lia. destruct (Hdisk 1 H1) as (b & Hb & Hdb). unfold fix_root.
  eapply returns_bind; [apply (rinode_ok s 1 b (λ x s', x = dins 1 ∧ s' = s)); try done; unfold INODES; lia|].
  intros x s' [-> ->].
  assert (Hsz : root_size files < 2 ^ 32 ∧ 0 ≤ root_size files).
  { unfold root_size. rewrite length_root_data. unfold INODES in Hrm. unfold BSIZE. dlia. }
  replace (u32 ((dsize (dins 1) / BSIZE + 1) * BSIZE)) with (root_size files).
  2:{ rewrite (Hdin 1 H1). symmetry. apply u32_id. change (0 ≤ root_size files < 2 ^ 32). lia. }
  assert (Hpl : length (daddrs d) = 13%nat) by (apply (pt_len _ _ _ _ (proj2 Hl) 1 H1)).
  assert (Hl' : laid s L (<[1 := d]> dins) (data_at (tree files))).
  { apply (laid_ext _ _ dins _ (data_at (tree files))); try done. intros k.
    destruct (decide (k = 1)) as [->|Hne]; [by rewrite fn_lookup_insert|by rewrite fn_lookup_insert_ne]. }
  eapply returns_mono; [apply (winode_ok _ _ _ _ 1 d Hl'); [unfold INODES; lia|done]|].
  intros u s2 (b2 & Hb2 & Hlen & -> & Hl2). split_and!; try done.
  { change (<[IBLOCK 1 mk_sb := splice b2 (dinode_off 1) (dinode_bytes d)]> (img s) !! 1 = img s !! 1).
    by rewrite lookup_insert_ne by (vm_compute; done). }
  intros n Hn. apply (disk_inode s 1 d b2); try done; [unfold INODES in *; lia| | |].
  - unfold d. rewrite (Hdin 1 H1). destruct (dinode_of_wf (file_at (tree files) 1) (daddrs (dins 1))) as [? ? ? ? ? ? ?];
      [by apply Hwf|done|intros i x; by apply (din_addrs s L dins (tree files))|]. split; try done.
    change (0 ≤ root_size files < 2 ^ 32). lia.
  - intros ->. by rewrite fn_lookup_insert.
  - intros Hne. rewrite fn_lookup_insert_ne by done. by apply Hdisk.
Qed.

Lemma disk_of_Some s b d : img s !! b = Some d → disk_of s b = d.
Proof. unfold disk_of. by intros ->. Qed.

Lemma mkfs_finished files :
  (length files ≤ 205)%nat → Forall name_ok files → Forall size_ok files → nmeta + total (tree files) ≤ FSSIZE →
  returns (mkfs files) mk0 (λ _ s, ∃ L dins, finished s files L dins).
Proof.
  intros Hcnt Hname Hsize Hroom.
  apply (mkfs_start (λ r, for_each files (λ f, add_file r (fst f) (snd f)) ;;; fix_root r ;;; let! used := gets freeblock in balloc used)).
  { pose proof (total_tree_mono [] files) as Hm. simpl app in Hm. lia. }
  intros s L dins Him. eapply returns_bind; [by apply (add_files_ok files s L dins [] Him)|].
  intros u s1 (L1 & dins1 & Him1). cbn [app] in Him1.
  eapply returns_bind; [by apply (fix_root_ok s1 L1 dins1)|].
  intros u' s2 (Hl2 & Hfi2 & Hfb2 & Hsb2 & Hd2). set (dins2 := <[1 := _]> dins1) in *.
  pose proof Him1 as [Hl Hfi Hrm Hfull Hdisk Hdin Hwf Hfb Hsb]. rewrite length_tree in Hfi.
  eapply returns_bind; [apply (returns_gets _ _ (λ n s', n = freeblock s2 ∧ s' = s2)); done|].
  intros n s' [-> ->]. eapply returns_mono; [by apply balloc_ok|].
  intros u3 s3 (Hl3 & Hfi3 & Hlow3 & Hbm3). exists L1, dins2. split; rewrite ?Hfi3, ?Hfi2; try done.
  - lia.
  - intros k Hk. destruct (Hd2 k Hk) as (b & Hb & Hdb). destruct (IBLOCK_val k) as [Hi ?]; [lia|].
    rewrite (disk_of_Some _ _ b); [done|]. rewrite Hlow3 by lia. done.
  - intros k Hk. unfold dins2. rewrite fn_lookup_insert_ne by lia. apply Hdin. lia.
  - unfold dins2. rewrite fn_lookup_insert, (Hdin 1 ltac:(lia)). done.
  - apply disk_of_Some. rewrite Hlow3, Hsb2 by lia. done.
  - intros b Hb. change (bmapstart mk_sb) with 46. change BPB with 8192.
    assert (Hq : 0 ≤ b / 8192 < nbitmap ∧ 0 ≤ b mod 8192 < 8192) by (unfold FSSIZE in Hb; change nbitmap with 9; dlia).
    rewrite (disk_of_Some _ _ _ (Hbm3 (b / 8192) ltac:(lia))), bitmap_block_bits by (change BPB with 8192; lia).
    change BPB with 8192. rewrite Hfb2, Hfb. f_equal. dlia.
Qed.

(** ** What the kernel finds *)

(** The inode that [ilock] makes of the table entry [x]. *)
Definition loaded (s : mkstate) (x : inode) : inode := load_dinode (disk_of s (IBLOCK (inum x) mk_sb)) x.

Lemma s16_id z : 0 ≤ z < 2 ^ 15 → s16 z = z.
Proof. intros Hz. unfold s16. rewrite Z.mod_small by lia. lia. Qed.

Section Loaded.
Context (s : mkstate) (files : list host_file) (L : role → Z) (dins : Z → dinode).
Context (Hfin : finished s files L dins).

Lemma loaded_eq x :
  0 < inum x < freeinode s →
  let d := dins (inum x) in
  loaded s x = Inode (idev x) (inum x) (iref x) (ilk x) (ivalid x) (s16 (dtype d)) (s16 (dmajor d)) (s16 (dminor d))
    (s16 (dnlink d)) (dsize d) (daddrs d).
Proof. intros Hn d. unfold d. by rewrite <- (fn_disk _ _ _ _ Hfin _ Hn). Qed.

(** A file below the root. *)
Lemma loaded_file x :
  1 < inum x < freeinode s → idev x = ROOTDEV →
  let a := file_at (tree files) (inum x) in
  let y := loaded s x in
  itype y = a_type a ∧ imajor y = a_major a ∧ isize y = Z.of_nat (length (a_data a)) ∧ file_ok (disk_of s) y
  ∧ contents (disk_of s) y 0 (isize y) = a_data a.
Proof.
  intros Hn Hdev a y. assert (Hn' : 0 < inum x < freeinode s) by lia.
  pose proof (fn_wf _ _ _ _ Hfin _ Hn') as [Ht Hma _ Hsz]. fold a in Ht, Hma, Hsz.
  pose proof (loaded_eq x Hn') as Ey. fold y in Ey. rewrite (fn_din _ _ _ _ Hfin _ Hn) in Ey. fold a in Ey.
  cbn [dinode_of dtype dmajor dminor dnlink dsize daddrs] in Ey.
  assert (Had : addrs y = daddrs (dins (inum x))) by (by rewrite Ey).
  pose proof (fn_laid _ _ _ _ Hfin) as Hl. pose proof (fn_full _ _ _ _ Hfin _ Hn') as Hf.
  assert (Hsize : isize y = Z.of_nat (length (a_data a))) by (by rewrite Ey).
  split_and!; try done.
  - rewrite Ey. by apply s16_id.
  - rewrite Ey. by apply s16_id.
  - apply (file_ok_laid _ _ _ _ _ y Hl Hn' Had Hf); [by rewrite Ey|rewrite Hsize, blocks_Z|lia].
    change (data_at (tree files) (inum x)) with (a_data a). unfold BSIZE. dlia.
  - rewrite Hsize. apply (contents_laid _ _ _ _ _ y Hl Hn' Had Hf).
Qed.

(** The root directory. *)
Lemma loaded_root x :
  inum x = 1 → idev x = ROOTDEV →
  let y := loaded s x in
  itype y = T_DIR ∧ isize y = root_size files ∧ contents (disk_of s) y 0 (Z.of_nat (length (root_data files))) = root_data files
  ∧ if decide (Z.of_nat (2 + length files) mod 64 = 0)
    then block_addr (disk_of s) y (root_size files / BSIZE - 1) = 0
    else file_ok (disk_of s) y
      ∧ ∀ off, Z.of_nat (length (root_data files)) ≤ off < root_size files → content (disk_of s) y off = 0.
Proof.
  intros E1 Hdev y. pose proof (fn_fi _ _ _ _ Hfin) as Hfi. assert (Hn : 0 < inum x < freeinode s) by lia.
  pose proof (loaded_eq x Hn) as Ey. fold y in Ey. rewrite E1, (fn_root _ _ _ _ Hfin) in Ey.
  cbn [dtype dmajor dminor dnlink dsize daddrs] in Ey. rewrite E1 in Hn.
  assert (Had : addrs y = daddrs (dins 1)) by (by rewrite Ey).
  pose proof (fn_laid _ _ _ _ Hfin) as Hl. pose proof (fn_full _ _ _ _ Hfin 1 Hn) as Hf.
  pose proof (contents_laid _ _ _ _ _ y Hl Hn Had Hf) as Hc. rewrite data_at_root in *.
  assert (Hsize : isize y = root_size files) by (by rewrite Ey).
  pose proof (blocks_Z (length (root_data files))) as Hb. pose proof (fn_count _ _ _ _ Hfin) as Hcnt.
  pose proof (length_root_data files) as Hlen. unfold root_size in *.
  split_and!; [by rewrite Ey|done|done|]. destruct (decide _) as [Hmod|Hmod].
  - set (f := (Z.of_nat (length (root_data files)) / BSIZE + 1) * BSIZE / BSIZE - 1).
    assert (Hf0 : f = Z.of_nat (blocks (length (root_data files))) ∧ 0 ≤ f < 11).
    { subst f. rewrite Hb, Z.div_mul by done. unfold BSIZE. clear -Hlen Hmod Hcnt. dlia. }
    destruct Hf0 as [Hf0 Hf1]. unfold block_addr. change NDIRECT with 11. rewrite (proj2 (Z.ltb_lt _ _)) by lia.
    rewrite (slot_addr s L dins (data_at (tree files)) 1 y Hl Hn Had) by lia. unfold slot_role.
    rewrite (proj2 (Nat.ltb_lt _ _)) by lia. rewrite Z2Nat.id by lia.
    destruct (decide (L (Data 1 f) = 0)) as [|Hnz]; [done|]. apply Hf in Hnz; [|done].
    change (0 ≤ f < Z.of_nat (blocks (length (root_data files)))) in Hnz. lia.
  - assert (Hblk : Z.of_nat (blocks (length (root_data files))) = Z.of_nat (length (root_data files)) / BSIZE + 1)
      by (rewrite Hb; unfold BSIZE; clear -Hlen Hmod; dlia). split.
    + apply (file_ok_laid _ _ _ _ _ y Hl Hn Had Hf); [by rewrite Ey|..]; rewrite Hsize, ?data_at_root, ?Hblk, ?MAXFILE_val;
        unfold BSIZE; dlia.
    + intros off Hoff. rewrite (content_laid _ _ _ _ _ y Hl Hn Had Hf); rewrite ?data_at_root, ?Hblk;
        [by rewrite lookup_ge_None_2 by lia|lia|unfold BSIZE in *; dlia].
Qed.

End Loaded.

Section Kernel.
Context {B : Type} `{BOk : BlockCacheOk B}.

(** [fsinit] accepts the image and reads the super block that mkfs wrote. *)
Lemma fsinit_ok (dk : Z → list Z) (st : fstate B) :
  dk 1 = splice zeroes 0 (sb_bytes mk_sb) → c_quiet (cache st) dk →
  returns (fsinit ROOTDEV) st (λ _ st', c_quiet (cache st') dk ∧ sb st' = mk_sb ∧ itable st' = itable st).
Proof.
  intros Hd Hq. unfold fsinit, readsb. apply returns_assoc. eapply returns_bind; [by apply returns_zoom, c_read|].
  intros b s1 (c1 & -> & Hb & Hrel). apply returns_assoc.
  eapply returns_bind; [apply (returns_gets _ _ (λ d s', d = dk 1 ∧ s' = FState (fkm st) c1 (itable st) (sb st))); done|].
  intros d s' [-> ->]. rewrite Hd. apply returns_assoc, returns_modify_bind.
  eapply returns_bind; [apply returns_zoom; exact Hrel|]. intros u s3 (c3 & -> & Hq3).
  exists tt. eexists. split; [vm_compute; reflexivity|]. by split_and!.
Qed.

(** C3 [roundtrip]. The kernel reads back what mkfs was given.  For at most
    205 files whose names fit a directory entry and whose blocks fit the disk,
    mkfs succeeds, and on its image: [fsinit] finds the super block; inode
    [3 + i], as [ilock] loads it, is a regular file without holes whose contents,
    as [readi] delivers them, are those of the i-th file; the root directory
    lists ".", "console" and the files in order, and its rounded size is backed
    by zeroed entries unless the entries fill their last block exactly, when it
    ends in a hole; the bitmap marks exactly the blocks in use. *)
Theorem mkfs_kernel_reads_back (files : list host_file) :
  (length files ≤ 205)%nat → Forall name_ok files → Forall size_ok files → nmeta + total (tree files) ≤ FSSIZE →
  returns (mkfs files) mk0 (λ _ s, let dk := disk_of s in
    (∀ st : fstate B, c_quiet (cache st) dk →
       returns (fsinit ROOTDEV) st (λ _ st', c_quiet (cache st') dk ∧ sb st' = mk_sb ∧ itable st' = itable st))
    ∧ (∀ i f x, files !! i = Some f → inum x = 3 + Z.of_nat i → idev x = ROOTDEV →
         let y := loaded s x in
         itype y = T_FILE ∧ file_ok dk y ∧ contents dk y 0 (isize y) = concat (snd f))
    ∧ (∀ x, inum x = 1 → idev x = ROOTDEV →
         let y := loaded s x in
         itype y = T_DIR ∧ isize y = root_size files
         ∧ contents dk y 0 (Z.of_nat (length (root_data files))) = root_data files
         ∧ if decide (Z.of_nat (2 + length files) mod 64 = 0)
           then block_addr dk y (root_size files / BSIZE - 1) = 0
           else file_ok dk y
             ∧ ∀ off, Z.of_nat (length (root_data files)) ≤ off < root_size files → content dk y off = 0)
    ∧ (∀ b, 0 ≤ b < FSSIZE → bit_of (dk (bmapstart mk_sb + b / BPB)) (b mod BPB) = (b <? nmeta + total (tree files)))).
Proof.
  intros Hcnt Hname Hsize Hroom. eapply returns_mono; [by apply mkfs_finished|].
  intros u s (L & dins & Hfin) dk. split_and!.
  - intros st. apply fsinit_ok. by eapply fn_sb.
  - intros i f x Hi Hx Hdev. pose proof (fn_fi _ _ _ _ Hfin) as Hfi. assert (Hlt : (i < length files)%nat) by (by eapply lookup_lt_Some).
    destruct (loaded_file s files L dins Hfin x ltac:(lia) Hdev) as (Ht & _ & _ & Hok & Hc).
    assert (Hat : file_at (tree files) (inum x) = AFile T_FILE 0 0 (concat (snd f))).
    { unfold file_at. replace (Z.to_nat (inum x - 1)) with (2 + i)%nat by lia.
      change (default afile0 (((λ f : host_file, AFile T_FILE 0 0 (concat (snd f))) <$> files) !! i)
        = AFile T_FILE 0 0 (concat (snd f))).
      rewrite list_lookup_fmap. unfold host_file in *. by rewrite Hi. }
    rewrite Hat in Ht, Hc. by split_and!.
  - intros x Hx Hdev. by apply (loaded_root s files L dins Hfin x).
  - by eapply fn_bitmap.
Qed.

End Kernel.

(** Two files: "a" with three bytes and "_b" with a full block and one byte
    more, on a RAM disk behind the buffer cache. *)
Module Sample.

Definition files : list host_file := [([97], [[1; 2; 3]]); ([95; 98], [replicate 1024 7; [8]])].

End Sample.

Lemma mkfs_kernel_reads_back_witness :
  returns (mkfs Sample.files) mk0 (λ _ s,
    ∀ x, inum x = 4 → idev x = ROOTDEV →
      let y := loaded s x in file_ok (disk_of s) y ∧ contents (disk_of s) y 0 (isize y) = replicate 1024 7 ++ [8]).
Proof.
  eapply returns_mono; [apply (mkfs_kernel_reads_back (BOk := bio_cache_ok (DOk := RamDisk.device_ok) 1) Sample.files)|].
  - cbn. lia.
  - repeat constructor; vm_compute; discriminate.
  - repeat constructor; vm_compute; discriminate.
  - vm_compute. discriminate.
  - intros u s (_ & Hf & _) x Hx Hdev. destruct (Hf 1%nat _ x eq_refl Hx Hdev) as (_ & Hok & Hc). by split.
Defined.
