(* ===== verification/File.v ===== *)
(** kernel/fs/file.c: the table of open files.

    A file pointer is an index of [ftable]; sections under [ftable.lock] are
    atomic steps.  The device switch, filled in by the drivers, and the bytes of
    the caller's stack are parameters. *)

From S2P Require Import Prelude Machine CString Kalloc Vm Bio Fs.

Definition NFILE : nat := 100.

Definition NDEV : Z := 10.

Inductive fdtype := FD_NONE | FD_INODE | FD_DEVICE.

#[global] Instance fdtype_eq_dec : EqDecision fdtype.
Proof. solve_decision. Defined.

Record file := File {
  ftype : fdtype;
  fref : Z;
  readable : bool;
  writable : bool;
  fip : nat;           (* FD_INODE and FD_DEVICE *)
  foff : Z;            (* FD_INODE *)
  fmajor : Z;          (* FD_DEVICE *)
}.

#[global] Instance eta_file : Eta file := λ f,
  File (ftype f) (fref f) (readable f) (writable f) (fip f) (foff f) (fmajor f).

Definition file0 : file := File FD_NONE 0 false false 0 0 0.

Record filesys (B : Type) := FileSys {
  fs : fstate B;
  ftable : list file;
}.

Arguments FileSys {B} fs ftable.
Arguments fs {B} f.
Arguments ftable {B} f.

#[global] Instance eta_filesys {B} : Eta (filesys B) := λ s, FileSys (fs s) (ftable s).

(** [devsw[major]], the functions for [user_dst == 1]: user address and count. *)
Record devsw_entry (S : Type) := DevSw {
  dev_read : option (Z → Z → M S Z);
  dev_write : option (Z → Z → M S Z);
}.

Arguments DevSw {S} dev_read dev_write.
Arguments dev_read {S} d.
Arguments dev_write {S} d.

Section Operations.
Context {B : Type} `{BlockCache B} `{Linker}.
Abbreviation FT := (M (filesys B)).

Definition on_fs {A} (m : M (fstate B) A) : FT A := zoom fs (λ t s, s <| fs := t |>) m.

Definition getf (s : filesys B) (f : nat) : file := default file0 (ftable s !! f).

Definition setf (f : nat) (g : file → file) (s : filesys B) : filesys B :=
  s <| ftable := <[f := g (getf s f)]> (ftable s) |>.

(** The first entry without references. *)
Fixpoint first_free (l : list file) (i : nat) : option nat :=
  match l with
  | [] => None
  | x :: l' => if fref x =? 0 then Some i else first_free l' (S i)
  end.

Definition filealloc : FT (option nat) :=
  let! tab := gets ftable in
  match first_free tab 0 with
  | Some f => modify (setf f (λ x, x <| fref := 1 |>)) ;;; ret (Some f)
  | None => ret None
  end.

Definition filedup (f : nat) : FT nat :=
  let! x := gets (λ s, getf s f) in
  if fref x <? 1 then panic "filedup"
  else modify (setf f (λ x, x <| fref := fref x + 1 |>)) ;;; ret f.

Definition fileclose (f : nat) : FT unit :=
  let! x := gets (λ s, getf s f) in
  if fref x <? 1 then panic "fileclose"
  else
    modify (setf f (λ x, x <| fref := fref x - 1 |>)) ;;;
    let! ff := gets (λ s, getf s f) in
    if 0 <? fref ff then ret tt
    else
      modify (setf f (λ x, x <| fref := 0 |>)) ;;;
      modify (setf f (λ x, x <| ftype := FD_NONE |>)) ;;;
      if bool_decide (ftype ff = FD_INODE) || bool_decide (ftype ff = FD_DEVICE)
      then on_fs (iput (fip ff)) else ret tt.

(** ** Transfers

    Devices work on the state [S] of the whole kernel, of which the file system
    is the part that [lift] reaches. *)

Context {S : Type} (lift : ∀ A, FT A → M S A).
Context (pid pagetable : Z).                 (* of myproc() *)
Context (devsw : Z → devsw_entry S).
Context (pad : list Z).                      (* the four padding bytes of [struct stat] *)
Arguments lift {A}.

(** [struct stat] as it lies in memory: four bytes of padding before [size]. *)
Definition stat_bytes (st : stat) : list Z :=
  le_bytes 4 (st_dev st) ++ le_bytes 4 (st_ino st) ++ le_bytes 2 (st_type st)
  ++ le_bytes 2 (st_nlink st) ++ pad ++ le_bytes 8 (st_size st).

Definition filestat (f : nat) (addr : Z) : M S Z :=
  let! x := lift (gets (λ s, getf s f)) in
  if bool_decide (ftype x = FD_INODE) || bool_decide (ftype x = FD_DEVICE) then
    lift (on_fs (ilock pid (fip x))) ;;;
    let! st := lift (on_fs (stati (fip x))) in
    lift (on_fs (iunlock pid (fip x))) ;;;
    let! r := lift (on_fs (on_mem (copyout pagetable addr (stat_bytes st) 24))) in
    if r <? 0 then ret (-1) else ret 0
  else ret (-1).

Definition fileread (f : nat) (addr n : Z) : M S Z :=
  let! x := lift (gets (λ s, getf s f)) in
  if negb (readable x) then ret (-1)
  else
    match ftype x with
    | FD_DEVICE =>
        if (fmajor x <? 0) || (NDEV <=? fmajor x) then ret (-1)
        else
          match dev_read (devsw (fmajor x)) with
          | None => ret (-1)
          | Some rd => rd addr n
          end
    | FD_INODE =>
        lift (on_fs (ilock pid (fip x))) ;;;
        let! q := lift (on_fs (readi (fip x) (UserVA pagetable addr) (foff x) (u32 n))) in
        let r := s32 (fst q) in
        (if 0 <? r then lift (modify (setf f (λ x, x <| foff := u32 (foff x + r) |>))) else ret tt) ;;;
        lift (on_fs (iunlock pid (fip x))) ;;;
        ret r
    | FD_NONE => panic "fileread"
    end.

Definition filewrite (f : nat) (addr n : Z) : M S Z :=
  let! x := lift (gets (λ s, getf s f)) in
  if negb (writable x) then ret (-1)
  else
    match ftype x with
    | FD_DEVICE =>
        if (fmajor x <? 0) || (NDEV <=? fmajor x) then ret (-1)
        else
          match dev_write (devsw (fmajor x)) with
          | None => ret (-1)
          | Some wr => wr addr n
          end
    | _ => ret (-1)
    end.

End Operations.
