(* ===== verification/Proc.v ===== *)
(** kernel/proc/proc.c and kernel/proc/fpu.c: the process table, creation and
    exit of processes, sleep and wakeup, and the lazily switched floating-point
    unit, as the functions of one hart.

    A [struct proc *] is an index of [procs].  Locks are taken and released with
    the functions of spinlock.c; reading through a null process pointer faults
    in the kernel, which panics ("kerneltrap"). *)

From S2P Require Import Prelude Machine CString Kalloc Vm Spinlock Bio Fs File.

Definition NOFILE : nat := 16.

Inductive procstate := UNUSED | USED | SLEEPING | RUNNABLE | RUNNING | ZOMBIE.

#[global] Instance procstate_eq_dec : EqDecision procstate.
Proof. solve_decision. Defined.

(** [struct context]: [ra], [sp] and [s0]..[s11]. *)
Record context := Context_ {
  ctx_ra : Z;
  ctx_sp : Z;
  ctx_s : list Z;
}.

Record fpu_state := Fpu {
  fpu_f : list Z;
  fpu_fcsr : Z;
}.

Definition fpu0 : fpu_state := Fpu (replicate 32 0) 0.

Record proc := Proc {
  pstate : procstate;
  pchan : Z;
  pkilled : bool;
  pxstate : Z;
  ppid : Z;
  pparent : option nat;
  pkstack : Z;
  psz : Z;
  ppagetable : Z;
  ptrapframe : Z;
  pcontext : context;
  pfpu : fpu_state;
  pfpu_used : bool;
  pfpu_active : bool;
  pofile : list (option nat);
  pcwd : option nat;
  pname : list Z;
}.

#[global] Instance eta_proc : Eta proc := λ p,
  Proc (pstate p) (pchan p) (pkilled p) (pxstate p) (ppid p) (pparent p) (pkstack p) (psz p)
    (ppagetable p) (ptrapframe p) (pcontext p) (pfpu p) (pfpu_used p) (pfpu_active p)
    (pofile p) (pcwd p) (pname p).

Definition proc0 : proc :=
  Proc UNUSED 0 false 0 0 None 0 0 0 0 (Context_ 0 0 (replicate 12 0)) fpu0 false false
    (replicate NOFILE None) None (replicate 16 0).

(** The floating-point unit of the hart: [sstatus.FS] on or off, f0..f31, fcsr. *)
Record fpu_hw := FpuHw {
  fs_on : bool;
  hw_f : list Z;
  hw_fcsr : Z;
}.

(** The kernel state one hart works on: files and memory, processes, locks, the
    process it runs, its floating-point unit, and the state [X] of the devices. *)
Record kstate (B X : Type) := KState {
  fsys : filesys B;
  procs : list proc;
  initproc : option nat;
  nextpid : Z;
  sy : sync;               (* this hart's interrupt state and all locks *)
  curproc : option nat;    (* mycpu()->proc *)
  fpuhw : fpu_hw;
  ext : X;
}.

Arguments KState {B X} fsys procs initproc nextpid sy curproc fpuhw ext.
Arguments fsys {B X} k.
Arguments procs {B X} k.
Arguments initproc {B X} k.
Arguments nextpid {B X} k.
Arguments sy {B X} k.
Arguments curproc {B X} k.
Arguments fpuhw {B X} k.
Arguments ext {B X} k.

#[global] Instance eta_kstate {B X} : Eta (kstate B X) := λ s,
  KState (fsys s) (procs s) (initproc s) (nextpid s) (sy s) (curproc s) (fpuhw s) (ext s).

(** Addresses of kernel symbols. *)
Class Symbols := {
  proc_base : Z;       (* proc[0] *)
  pid_lock : Z;
  wait_lock : Z;
  forkret_addr : Z;
}.

(** [&proc[i]], which is also the address of its lock, the first field;
    [sizeof(struct proc)] is 632. *)
Definition proc_addr `{Symbols} (i : nat) : Z := proc_base + 632 * Z.of_nat i.

Section Operations.
Context {B X : Type} `{BlockCache B} `{Linker} `{Symbols}.
Context (hart : Z).

Abbreviation P := (M (kstate B X)).

(** [swtch] into the scheduler: everything that happens until this kernel
    thread is switched to again. *)
Context (swtch : P unit).

Definition on_sync {A} (m : M sync A) : P A := zoom sy (λ t s, s <| sy := t |>) m.

Definition on_files {A} (m : M (filesys B) A) : P A := zoom fsys (λ t s, s <| fsys := t |>) m.

Definition on_kmem {A} (m : K A) : P A := on_files (on_fs (on_mem m)).

Definition kmem (s : kstate B X) : kmem_state := fkm (fs (fsys s)).

Definition getp (s : kstate B X) (i : nat) : proc := default proc0 (procs s !! i).

Definition setp (i : nat) (f : proc → proc) (s : kstate B X) : kstate B X :=
  s <| procs := <[i := f (getp s i)]> (procs s) |>.

Definition acq (lk : Z) : P unit := on_sync (acquire hart lk).

Definition rel (lk : Z) : P unit := on_sync (release hart lk).

Definition NPROCS : list nat := seq 0 (Z.to_nat NPROC).

Definition procinit : P unit :=
  on_sync (initlock pid_lock) ;;;
  on_sync (initlock wait_lock) ;;;
  for_each NPROCS (λ i,
    on_sync (initlock (proc_addr i)) ;;;
    modify (setp i (λ p, p <| pstate := UNUSED |>)) ;;;
    modify (setp i (λ p, p <| pkstack := KSTACK (Z.of_nat i) |>))).

Definition myproc : P (option nat) :=
  on_sync push_off ;;;
  let! p := gets curproc in
  on_sync pop_off ;;;
  ret p.

(** [myproc()] whose result is dereferenced. *)
Definition cur : P nat :=
  let! p := myproc in
  match p with Some i => ret i | None => panic "kerneltrap" end.

Definition allocpid : P Z :=
  acq pid_lock ;;;
  let! pid := gets nextpid in
  modify (λ s, s <| nextpid := s32 (nextpid s + 1) |>) ;;;
  rel pid_lock ;;;
  ret pid.

(** [proc_pagetable]; only [p->trapframe] is used. *)
Definition proc_pagetable (trapframe : Z) : K Z :=
  let! pagetable := uvmcreate in
  if pagetable =? 0 then ret 0
  else
    let! r := mappages pagetable TRAMPOLINE PGSIZE trampoline (Z.lor PTE_R PTE_X) in
    if r <? 0 then uvmfree pagetable 0 ;;; ret 0
    else
      let! r := mappages pagetable TRAPFRAME PGSIZE trapframe (Z.lor PTE_R PTE_W) in
      if r <? 0 then
        uvmunmap pagetable TRAMPOLINE 1 false ;;;
        uvmfree pagetable 0 ;;;
        ret 0
      else ret pagetable.

Definition proc_freepagetable (pagetable sz : Z) : K unit :=
  uvmunmap pagetable TRAMPOLINE 1 false ;;;
  uvmunmap pagetable TRAPFRAME 1 false ;;;
  uvmfree pagetable sz.

(** The floating-point part of [freeproc]. *)
Definition free_fpu (i : nat) : P unit :=
  modify (setp i (λ p, p <| pfpu := fpu0 |> <| pfpu_used := false |> <| pfpu_active := false |>)).

Definition freeproc (i : nat) : P unit :=
  let! p := gets (λ s, getp s i) in
  (if negb (ptrapframe p =? 0) then on_kmem (kfree (ptrapframe p)) else ret tt) ;;;
  modify (setp i (λ p, p <| ptrapframe := 0 |>)) ;;;
  (if negb (ppagetable p =? 0) then on_kmem (proc_freepagetable (ppagetable p) (psz p)) else ret tt) ;;;
  modify (setp i (λ p, p <| ppagetable := 0 |> <| psz := 0 |> <| ppid := 0 |>)) ;;;
  free_fpu i ;;;
  modify (setp i (λ p, p <| pparent := None |> <| pname := <[0%nat := 0]> (pname p) |>)) ;;;
  modify (setp i (λ p, p <| pchan := 0 |> <| pkilled := false |> <| pxstate := 0 |>)) ;;;
  modify (setp i (λ p, p <| pstate := UNUSED |>)).

(** The scan of [allocproc]: the first UNUSED entry, its lock held. *)
Fixpoint find_unused_proc (l : list nat) : P (option nat) :=
  match l with
  | [] => ret None
  | i :: l' =>
      acq (proc_addr i) ;;;
      let! p := gets (λ s, getp s i) in
      if bool_decide (pstate p = UNUSED) then ret (Some i)
      else rel (proc_addr i) ;;; find_unused_proc l'
  end.

Definition allocproc : P (option nat) :=
  let! r := find_unused_proc NPROCS in
  match r with
  | None => ret None
  | Some i =>
      let! pid := allocpid in
      modify (setp i (λ p, p <| ppid := pid |>)) ;;;
      modify (setp i (λ p, p <| pstate := USED |>)) ;;;
      let! tf := on_kmem kalloc in
      modify (setp i (λ p, p <| ptrapframe := tf |>)) ;;;
      if tf =? 0 then freeproc i ;;; rel (proc_addr i) ;;; ret None
      else
        let! pt := on_kmem (proc_pagetable tf) in
        modify (setp i (λ p, p <| ppagetable := pt |>)) ;;;
        if pt =? 0 then freeproc i ;;; rel (proc_addr i) ;;; ret None
        else
          modify (setp i (λ p, p <| pcontext := Context_ forkret_addr (u64 (pkstack p + PGSIZE)) (replicate 12 0) |>)) ;;;
          ret (Some i)
  end.

(** [namei("/")] takes no lock and uses no working directory, so the pid and the
    directory it would read from [myproc()] are irrelevant. *)
Definition userinit : P unit :=
  let! r := allocproc in
  modify (λ s, s <| initproc := r |>) ;;;
  match r with
  | None => panic "kerneltrap"
  | Some i =>
      let! d := on_files (on_fs (namei 0 0 [SLASH])) in
      modify (setp i (λ p, p <| pcwd := d |>)) ;;;
      modify (setp i (λ p, p <| pstate := RUNNABLE |>)) ;;;
      rel (proc_addr i)
  end.

Definition growproc (n : Z) : P Z :=
  let! i := cur in
  let! p := gets (λ s, getp s i) in
  let sz := psz p in
  if 0 <? n then
    if TRAPFRAME <? u64 (sz + n) then ret (-1)
    else
      let! sz' := on_kmem (uvmalloc (ppagetable p) sz (u64 (sz + n)) PTE_W) in
      if sz' =? 0 then ret (-1)
      else modify (setp i (λ p, p <| psz := sz' |>)) ;;; ret 0
  else if n <? 0 then
    let! sz' := on_kmem (uvmdealloc (ppagetable p) sz (u64 (sz + n))) in
    modify (setp i (λ p, p <| psz := sz' |>)) ;;; ret 0
  else modify (setp i (λ p, p <| psz := sz |>)) ;;; ret 0.

(** ** fpu.c *)

Definition fpu_on : P unit := modify (λ s, s <| fpuhw := FpuHw true (hw_f (fpuhw s)) (hw_fcsr (fpuhw s)) |>).

Definition fpu_off : P unit := modify (λ s, s <| fpuhw := FpuHw false (hw_f (fpuhw s)) (hw_fcsr (fpuhw s)) |>).

(** Access to the registers: with the unit off the instruction is illegal, and
    the kernel panics in [kerneltrap]. *)
Definition fpu_unit : P fpu_hw :=
  let! h := gets fpuhw in
  if fs_on h then ret h else panic "kerneltrap".

Definition fpu_save_proc (i : nat) : P unit :=
  let! p := gets (λ s, getp s i) in
  (if pfpu_active p then
     fpu_on ;;;
     let! h := fpu_unit in
     modify (setp i (λ p, p <| pfpu := Fpu (hw_f h) (fpu_fcsr (pfpu p)) |>)) ;;;
     modify (setp i (λ p, p <| pfpu := Fpu (fpu_f (pfpu p)) (hw_fcsr h) |>)) ;;;
     modify (setp i (λ p, p <| pfpu_active := false |>))
   else ret tt) ;;;
  fpu_off.

Definition fpu_handle_trap (i : nat) : P unit :=
  fpu_on ;;;
  let! p := gets (λ s, getp s i) in
  (if negb (pfpu_used p) then
     modify (setp i (λ p, p <| pfpu := fpu0 |>)) ;;;
     modify (setp i (λ p, p <| pfpu_used := true |>))
   else ret tt) ;;;
  let! p := gets (λ s, getp s i) in
  fpu_unit ;;;
  modify (λ s, s <| fpuhw := FpuHw (fs_on (fpuhw s)) (fpu_f (pfpu p)) (hw_fcsr (fpuhw s)) |>) ;;;
  modify (λ s, s <| fpuhw := FpuHw (fs_on (fpuhw s)) (hw_f (fpuhw s)) (fpu_fcsr (pfpu p)) |>) ;;;
  modify (setp i (λ p, p <| pfpu_active := true |>)).

(** ** fork *)

(** [*(np->trapframe) = *(p->trapframe)]: 288 bytes. *)
Definition copy_trapframe (dst src : Z) : K unit :=
  modify (λ s, with_mem (put_bytes (mem s) dst (load_bytes (mem s) src 288)) s).

(** [p->trapframe->a0], and the others by their offsets in [struct trapframe]. *)
Definition TF_kernel_satp : Z := 0.
Definition TF_kernel_sp : Z := 8.
Definition TF_kernel_trap : Z := 16.
Definition TF_epc : Z := 24.
Definition TF_kernel_hartid : Z := 32.
Definition TF_sp : Z := 48.
Definition TF_a0 : Z := 112.
Definition TF_a1 : Z := 120.
Definition TF_a7 : Z := 168.

Definition dup_file (p np fd : nat) : P unit :=
  let! f := gets (λ s, default None (pofile (getp s p) !! fd)) in
  match f with
  | None => ret tt
  | Some f =>
      let! f' := on_files (filedup f) in
      modify (setp np (λ x, x <| pofile := <[fd := Some f']> (pofile x) |>))
  end.

(** The floating-point part of [kfork]. *)
Definition fork_fpu (p np : nat) : P unit :=
  fpu_save_proc p ;;;
  modify (λ s, setp np (λ x, x <| pfpu := pfpu (getp s p) |>) s) ;;;
  modify (λ s, setp np (λ x, x <| pfpu_used := pfpu_used (getp s p) |>) s) ;;;
  modify (setp np (λ x, x <| pfpu_active := false |>)).

Definition kfork : P Z :=
  let! p := cur in
  let! r := allocproc in
  match r with
  | None => ret (-1)
  | Some np =>
      let! s := gets id in
      let! c := on_kmem (uvmcopy (ppagetable (getp s p)) (ppagetable (getp s np)) (psz (getp s p))) in
      if c <? 0 then freeproc np ;;; rel (proc_addr np) ;;; ret (-1)
      else
        modify (λ s, setp np (λ x, x <| psz := psz (getp s p) |>) s) ;;;
        on_kmem (copy_trapframe (ptrapframe (getp s np)) (ptrapframe (getp s p))) ;;;
        fork_fpu p np ;;;
        on_kmem (wr64 (ptrapframe (getp s np) + TF_a0) 0) ;;;
        for_each (seq 0 NOFILE) (dup_file p np) ;;;
        (match pcwd (getp s p) with
         | None => panic "kerneltrap"
         | Some d => let! d' := on_files (on_fs (idup d)) in modify (setp np (λ x, x <| pcwd := Some d' |>))
         end) ;;;
        modify (λ s, setp np (λ x, x <| pname := safestrcpy (pname x) (pname (getp s p)) 16 |>) s) ;;;
        let! pid := gets (λ s, ppid (getp s np)) in
        rel (proc_addr np) ;;;
        acq wait_lock ;;;
        modify (setp np (λ x, x <| pparent := Some p |>)) ;;;
        rel wait_lock ;;;
        acq (proc_addr np) ;;;
        modify (setp np (λ x, x <| pstate := RUNNABLE |>)) ;;;
        rel (proc_addr np) ;;;
        ret pid
  end.

(** ** Scheduling *)

Definition sched : P unit :=
  let! i := cur in
  let! h := on_sync (holding hart (proc_addr i)) in
  if negb h then panic "sched p->lock"
  else
    let! c := gets (λ s, this (sy s)) in
    if negb (noff c =? 1) then panic "sched locks"
    else
      let! p := gets (λ s, getp s i) in
      if bool_decide (pstate p = RUNNING) then panic "sched RUNNING"
      else if intr c then panic "sched interruptible"
      else
        fpu_save_proc i ;;;
        let! intena := gets (λ s, intena (this (sy s))) in
        swtch ;;;
        modify (λ s, s <| sy := with_cpu (Cpu (noff (this (sy s))) intena (intr (this (sy s)))) (sy s) |>).

Definition yield : P unit :=
  let! i := cur in
  acq (proc_addr i) ;;;
  modify (setp i (λ p, p <| pstate := RUNNABLE |>)) ;;;
  sched ;;;
  rel (proc_addr i).

Definition sleep (chan lk : Z) : P unit :=
  let! i := cur in
  acq (proc_addr i) ;;;
  rel lk ;;;
  modify (setp i (λ p, p <| pchan := chan |>)) ;;;
  modify (setp i (λ p, p <| pstate := SLEEPING |>)) ;;;
  sched ;;;
  modify (setp i (λ p, p <| pchan := 0 |>)) ;;;
  rel (proc_addr i) ;;;
  acq lk.

Definition wakeup (chan : Z) : P unit :=
  for_each NPROCS (λ i,
    let! me := myproc in
    if bool_decide (me = Some i) then ret tt
    else
      acq (proc_addr i) ;;;
      let! p := gets (λ s, getp s i) in
      (if bool_decide (pstate p = SLEEPING) && (pchan p =? chan)
       then modify (setp i (λ p, p <| pstate := RUNNABLE |>)) else ret tt) ;;;
      rel (proc_addr i)).

(** The scan of [kkill]. *)
Fixpoint kkill_scan (l : list nat) (pid : Z) : P Z :=
  match l with
  | [] => ret (-1)
  | i :: l' =>
      acq (proc_addr i) ;;;
      let! p := gets (λ s, getp s i) in
      if ppid p =? pid then
        modify (setp i (λ p, p <| pkilled := true |>)) ;;;
        (if bool_decide (pstate p = SLEEPING)
         then modify (setp i (λ p, p <| pstate := RUNNABLE |>)) else ret tt) ;;;
        rel (proc_addr i) ;;;
        ret 0
      else rel (proc_addr i) ;;; kkill_scan l' pid
  end.

Definition kkill (pid : Z) : P Z := kkill_scan NPROCS pid.

Definition setkilled (i : nat) : P unit :=
  acq (proc_addr i) ;;;
  modify (setp i (λ p, p <| pkilled := true |>)) ;;;
  rel (proc_addr i).

Definition killed (i : nat) : P bool :=
  acq (proc_addr i) ;;;
  let! k := gets (λ s, pkilled (getp s i)) in
  rel (proc_addr i) ;;;
  ret k.

(** ** exit and wait *)

(** The address of a process as a channel; 0 for none. *)
Definition paddr (p : option nat) : Z := match p with Some i => proc_addr i | None => 0 end.

Definition reparent (p : nat) : P unit :=
  for_each NPROCS (λ pp,
    let! x := gets (λ s, getp s pp) in
    if bool_decide (pparent x = Some p) then
      modify (λ s, setp pp (λ x, x <| pparent := initproc s |>) s) ;;;
      let! ini := gets initproc in
      wakeup (paddr ini)
    else ret tt).

Definition close_file (p fd : nat) : P unit :=
  let! f := gets (λ s, default None (pofile (getp s p) !! fd)) in
  match f with
  | None => ret tt
  | Some f =>
      on_files (fileclose f) ;;;
      modify (setp p (λ x, x <| pofile := <[fd := None]> (pofile x) |>))
  end.

(** [kexit] up to its call of [sched]. *)
Definition kexit_prepare (status : Z) : P unit :=
  let! me := myproc in
  let! ini := gets initproc in
  if bool_decide (me = ini) then panic "init exiting"
  else
    match me with
    | None => panic "kerneltrap"
    | Some p =>
        for_each (seq 0 NOFILE) (close_file p) ;;;
        let! d := gets (λ s, pcwd (getp s p)) in
        (match d with
         | None => panic "kerneltrap"
         | Some d => on_files (on_fs (iput d))
         end) ;;;
        modify (setp p (λ x, x <| pcwd := None |>)) ;;;
        acq wait_lock ;;;
        reparent p ;;;
        let! par := gets (λ s, pparent (getp s p)) in
        wakeup (paddr par) ;;;
        acq (proc_addr p) ;;;
        modify (setp p (λ x, x <| pxstate := status |>)) ;;;
        modify (setp p (λ x, x <| pstate := ZOMBIE |>)) ;;;
        rel wait_lock
    end.

(** [kexit] never returns: the last [panic] is behind the switch. *)
Definition kexit (status : Z) : P unit :=
  kexit_prepare status ;;;
  sched ;;;
  panic "zombie exit".

(** The scan of [kwait] over the table: [inl r] when it returns [r], [inr
    havekids] at the end of the table. *)
Fixpoint kwait_scan (l : list nat) (p : nat) (addr : Z) (havekids : bool) : P (Z + bool) :=
  match l with
  | [] => ret (inr havekids)
  | pp :: l' =>
      let! x := gets (λ s, getp s pp) in
      if negb (bool_decide (pparent x = Some p)) then kwait_scan l' p addr havekids
      else
        acq (proc_addr pp) ;;;
        let! x := gets (λ s, getp s pp) in
        if bool_decide (pstate x = ZOMBIE) then
          let pid := ppid x in
          let! pt := gets (λ s, ppagetable (getp s p)) in
          let! c := (if negb (addr =? 0) then on_kmem (copyout pt addr (le_bytes 4 (pxstate x)) 4) else ret 0) in
          if c <? 0 then rel (proc_addr pp) ;;; rel wait_lock ;;; ret (inl (-1))
          else freeproc pp ;;; rel (proc_addr pp) ;;; rel wait_lock ;;; ret (inl pid)
        else rel (proc_addr pp) ;;; kwait_scan l' p addr true
  end.

(** The [for (;;)] of [kwait]: one more round after each wakeup. *)
Fixpoint kwait_loop (fuel : nat) (p : nat) (addr : Z) : P Z :=
  match fuel with
  | O => nofuel
  | S f =>
      let! r := kwait_scan NPROCS p addr false in
      match r with
      | inl r => ret r
      | inr havekids =>
          let! stop := (if negb havekids then ret true else killed p) in
          if stop : bool then rel wait_lock ;;; ret (-1)
          else sleep (proc_addr p) wait_lock ;;; kwait_loop f p addr
      end
  end.

Definition kwait (fuel : nat) (addr : Z) : P Z :=
  let! p := cur in
  acq wait_lock ;;;
  kwait_loop fuel p addr.

(** ** The scheduler of a hart

    [run i] is what process [i] does from the switch into it until it switches
    back. *)
Context (run : nat → P unit).

Definition sched_slot (i : nat) : P bool :=
  acq (proc_addr i) ;;;
  let! p := gets (λ s, getp s i) in
  if bool_decide (pstate p = RUNNABLE) then
    modify (setp i (λ p, p <| pstate := RUNNING |>)) ;;;
    modify (λ s, s <| curproc := Some i |>) ;;;
    run i ;;;
    modify (λ s, s <| curproc := None |>) ;;;
    rel (proc_addr i) ;;;
    ret true
  else rel (proc_addr i) ;;; ret false.

Fixpoint sched_pass (l : list nat) (found : bool) : P bool :=
  match l with
  | [] => ret found
  | i :: l' => let! r := sched_slot i in sched_pass l' (found || r)
  end.

(** One round of the endless loop of [scheduler]; it waits for an interrupt
    when nothing was found. *)
Definition scheduler_round : P bool :=
  modify (λ s, s <| sy := with_cpu (Cpu (noff (this (sy s))) (intena (this (sy s))) true) (sy s) |>) ;;;
  modify (λ s, s <| sy := with_cpu (Cpu (noff (this (sy s))) (intena (this (sy s))) false) (sy s) |>) ;;;
  sched_pass NPROCS false.

Fixpoint scheduler_loop (rounds : nat) : P unit :=
  match rounds with
  | O => nofuel
  | S n => scheduler_round ;;; scheduler_loop n
  end.

Definition scheduler (rounds : nat) : P unit :=
  modify (λ s, s <| curproc := None |>) ;;;
  scheduler_loop rounds.

(** ** Copies to and from user or kernel addresses *)

(** [either_copyin]: the result and the bytes stored at [dst]. *)
Definition either_copyin (user_src : bool) (src len : Z) : P (Z * list Z) :=
  let! me := myproc in
  if user_src then
    match me with
    | None => panic "kerneltrap"
    | Some i =>
        let! p := gets (λ s, getp s i) in
        on_kmem (copyin (ppagetable p) src len)
    end
  else
    let! bs := on_kmem (gets (λ k, load_bytes (mem k) src (Z.to_nat len))) in
    ret (0, bs).

End Operations.
