(* ===== verification/ProcBase.v ===== *)
(** Rules for the functions of proc.c: locks held by this hart, the current
    process, and updates of the process table. *)

From S2P Require Import Prelude Machine CString Kalloc Vm Spinlock Bio Fs File Proc.

(** ** Sequencing without intermediate assertions *)

Lemma returns_assoc_bind {S A C D} (m : M S A) (k : A → M S C) (h : C → M S D) s Q :
  returns (bind m (λ a, bind (k a) h)) s Q → returns (bind (bind m k) h) s Q.
Proof. apply returns_assoc. Qed.

Lemma returns_zoom_bind {S T A C} (get : S → T) (set : T → S → S) (m : M T A) (k : A → M S C) s R Q :
  returns m (get s) R → (∀ a t, R a t → returns (k a) (set t s) Q) → returns (bind (zoom get set m) k) s Q.
Proof.
  intros (a & t & E & HR) Hk. destruct (Hk a t HR) as (c & s' & Ek & HQ).
  exists c, s'. unfold bind, zoom. by rewrite E.
Qed.

(** ** Locks held by this hart

    [held H n res t]: this hart holds exactly the locks [H] and no other hart
    holds any, with [n] more levels of push_off around them; [res] is the
    interrupt state to go back to. *)

Record held (hart : Z) (H : gset Z) (n : Z) (res : bool) (t : sync) : Prop := {
  held_ok : cpu_ok (this t);
  held_n : 0 ≤ n;
  held_noff : noff (this t) = n + Z.of_nat (size H);
  held_res : resume (this t) = res;
  held_lock lk : get_lock lk t = if decide (lk ∈ H) then Lock true (Some hart) else Lock false None;
}.

Lemma get_set_lock_ne lk lk' v s : lk' ≠ lk → get_lock lk' (set_lock lk v s) = get_lock lk' s.
Proof. intros Hne. unfold get_lock, set_lock. simpl. by rewrite lookup_insert_ne. Qed.

Section Held.
Context (hart : Z).

Lemma push_pop_held H n res t :
  held hart H n res t →
  returns (push_off ;;; pop_off) t (λ _ t', held hart H n res t').
Proof.
  intros [[Hok Hi] Hn Hnoff Hres Hl].
  eapply returns_bind; [apply (returns_eq _ _ _ _ (push_off_eq t))|]. intros u t1 [_ ->].
  eexists _, _. split; [apply pop_off_eq; simpl; [done|lia]|]. simpl.
  set (c := Cpu _ _ _). assert (E : noff c = noff (this t)) by (subst c; simpl; lia).
  assert (Hr : resume c = res).
  { unfold resume at 1. rewrite E. subst c. simpl. unfold resume in *.
    destruct (Z.eqb_spec (noff (this t)) 0) as [E0|]; [|done]. rewrite E0. simpl. done. }
  split; simpl; try done; [|lia].
  split; [rewrite E; lia|]. rewrite E. intros Hpos. subst c. simpl.
  rewrite (proj2 (Z.eqb_neq _ _)) by lia. done.
Qed.

Lemma acquire_held_rule H n res t lk :
  held hart H n res t → lk ∉ H →
  returns (acquire hart lk) t (λ _ t', held hart ({[lk]} ∪ H) n res t').
Proof.
  intros [[Hok Hi] Hn Hnoff Hres Hl] Hlk. eexists _, _.
  split; [apply acquire_free; by rewrite Hl, decide_False|].
  assert (Hpos : 0 < noff (this t) + 1) by lia. split; simpl; try done.
  - split; simpl; [lia|done].
  - rewrite size_union by set_solver. rewrite size_singleton. lia.
  - unfold resume at 1. simpl. by rewrite (proj2 (Z.eqb_neq _ _)) by lia.
  - intros lk'. destruct (decide (lk' = lk)) as [->|Hne].
    + rewrite get_set_lock, decide_True by set_solver. done.
    + rewrite get_set_lock_ne by done. change (get_lock lk' (with_cpu _ t)) with (get_lock lk' t).
      rewrite Hl. destruct (decide (lk' ∈ H)); [rewrite decide_True by set_solver|rewrite decide_False by set_solver]; done.
Qed.

Lemma release_held_rule H n res t lk :
  held hart H n res t → lk ∈ H →
  returns (release hart lk) t (λ _ t', held hart (H ∖ {[lk]}) n res t').
Proof.
  intros [[Hok Hi] Hn Hnoff Hres Hl] Hlk.
  assert (Hsz : Z.of_nat (size H) = 1 + Z.of_nat (size (H ∖ {[lk]}))).
  { rewrite size_difference by set_solver. rewrite size_singleton.
    assert (size H ≠ 0)%nat by (intros E%size_empty_inv; set_solver). lia. }
  eexists _, _. split; [apply release_held; [by rewrite Hl, decide_True|apply Hi; lia|lia]|].
  unfold resume in Hres. rewrite (proj2 (Z.eqb_neq (noff (this t)) 0)) in Hres by lia.
  split; simpl; try done.
  - split; simpl; [lia|]. intros Hp. rewrite (proj2 (Z.eqb_neq _ _)) by lia. done.
  - lia.
  - unfold resume. simpl. destruct (Z.eqb_spec (noff (this t) - 1) 0) as [E|E]; [|done].
    rewrite (proj2 (Z.eqb_eq _ _)) by lia. done.
  - intros lk'. destruct (decide (lk' = lk)) as [->|Hne].
    + rewrite get_set_lock, decide_False by set_solver. done.
    + rewrite get_set_lock_ne by done. change (get_lock lk' (with_cpu _ t)) with (get_lock lk' t).
      rewrite Hl. destruct (decide (lk' ∈ H)); [rewrite decide_True by set_solver|rewrite decide_False by set_solver]; done.
Qed.

End Held.

(** The kernel's locks have different addresses, none of them null. *)
Class SymbolsOk `{Symbols} : Prop := {
  base_pos : 0 < proc_base;
  pid_lock_ne : ∀ i, (i < 64)%nat → pid_lock ≠ proc_addr i;
  wait_lock_ne : ∀ i, (i < 64)%nat → wait_lock ≠ proc_addr i;
  pid_wait_ne : pid_lock ≠ wait_lock;
}.

Section Rules.
Context {B X : Type} `{BlockCache B} {LK : Linker} {SY : Symbols}.
Context (hart : Z).
Implicit Types s : kstate B X.

Lemma proc_addr_inj i j : proc_addr i = proc_addr j → i = j.
Proof. unfold proc_addr. lia. Qed.

Lemma returns_acq {A} Hs n res lk (k : unit → M (kstate B X) A) s Q :
  held hart Hs n res (sy s) → lk ∉ Hs →
  (∀ t, held hart ({[lk]} ∪ Hs) n res t → returns (k tt) (s <| sy := t |>) Q) →
  returns (bind (acq hart lk) k) s Q.
Proof.
  intros Hh Hlk Hk. eapply returns_zoom_bind; [by apply acquire_held_rule|]. intros [] t Ht. by apply Hk.
Qed.

Lemma returns_rel {A} Hs n res lk (k : unit → M (kstate B X) A) s Q :
  held hart Hs n res (sy s) → lk ∈ Hs →
  (∀ t, held hart (Hs ∖ {[lk]}) n res t → returns (k tt) (s <| sy := t |>) Q) →
  returns (bind (rel hart lk) k) s Q.
Proof.
  intros Hh Hlk Hk. eapply returns_zoom_bind; [by apply release_held_rule|]. intros [] t Ht. by apply Hk.
Qed.

Lemma returns_rel_last Hs n res lk s (Q : unit → kstate B X → Prop) :
  held hart Hs n res (sy s) → lk ∈ Hs →
  (∀ t, held hart (Hs ∖ {[lk]}) n res t → Q tt (s <| sy := t |>)) →
  returns (rel hart lk) s Q.
Proof.
  intros Hh Hlk Hk. destruct (release_held_rule hart Hs n res (sy s) lk Hh Hlk) as ([] & t & E & Ht).
  eexists _, _. split; [unfold rel, on_sync, zoom; by rewrite E|]. by apply Hk.
Qed.

(** A critical section whose body keeps the set of locks. *)
Lemma returns_section {A} Hs n res lk (body : M (kstate B X) A) s (Q : A → kstate B X → Prop) :
  held hart Hs n res (sy s) → lk ∉ Hs →
  (∀ t, held hart ({[lk]} ∪ Hs) n res t →
     returns body (s <| sy := t |>) (λ a s', held hart ({[lk]} ∪ Hs) n res (sy s')
       ∧ ∀ t', held hart Hs n res t' → Q a (s' <| sy := t' |>))) →
  returns (acq hart lk ;;; let! a := body in rel hart lk ;;; ret a) s Q.
Proof.
  intros Hh Hlk Hb. eapply returns_acq; [done|done|]. intros t Ht.
  eapply returns_bind; [by apply Hb|]. intros a s' [Hh' HQ].
  eapply returns_rel; [done|set_solver|]. intros t' Ht'. apply returns_ret, HQ.
  replace (({[lk]} ∪ Hs) ∖ {[lk]}) with Hs in Ht' by set_solver. done.
Qed.

Lemma returns_myproc {A} Hs n res (k : option nat → M (kstate B X) A) s Q :
  held hart Hs n res (sy s) →
  (∀ t, held hart Hs n res t → returns (k (curproc s)) (s <| sy := t |>) Q) →
  returns (bind myproc k) s Q.
Proof.
  intros Hh Hk. destruct (push_pop_held hart Hs n res (sy s) Hh) as ([] & t & E & Ht).
  unfold bind in E. destruct (push_off (sy s)) as [u t1| | |] eqn:E1; try done.
  destruct (Hk t Ht) as (a & s' & Ek & HQ). exists a, s'. split; [|done].
  unfold myproc, on_sync, bind, zoom, gets, ret. rewrite E1. cbv beta iota.
  change (sy (setter sy (λ _, t1) s)) with t1. by rewrite E.
Qed.

Lemma returns_cur {A} Hs n res i (k : nat → M (kstate B X) A) s Q :
  held hart Hs n res (sy s) → curproc s = Some i →
  (∀ t, held hart Hs n res t → returns (k i) (s <| sy := t |>) Q) →
  returns (bind cur k) s Q.
Proof.
  intros Hh Hc Hk. unfold cur. apply returns_assoc_bind. eapply returns_myproc; [done|].
  intros t Ht. rewrite Hc. apply returns_ret_bind. by apply Hk.
Qed.

(** *** The process table *)

Definition NP : nat := Z.to_nat NPROC.

Lemma getp_setp i j f s :
  (i < length (procs s))%nat → getp (setp i f s) j = if decide (j = i) then f (getp s i) else getp s j.
Proof.
  intros Hi. unfold getp at 1, setp. cbn [procs setter]. destruct (decide (j = i)) as [->|Hne].
  - by rewrite list_lookup_insert_eq.
  - by rewrite list_lookup_insert_ne.
Qed.

Lemma setp_length i f s : length (procs (setp i f s)) = length (procs s).
Proof. unfold setp. simpl. by rewrite length_insert. Qed.

Lemma setp_setp i f g s : setp i g (setp i f s) = setp i (λ p, g (f p)) s.
Proof.
  destruct (decide (i < length (procs s))%nat) as [Hi|Hi].
  - unfold setp at 1. rewrite getp_setp by done. rewrite decide_True by done.
    unfold setp. cbn [procs setter fsys initproc nextpid sy curproc fpuhw ext]. by rewrite list_insert_insert_eq.
  - unfold setp. cbn [procs setter]. rewrite !(list_insert_ge _ i) by (rewrite ?list_insert_ge; lia).
    by destruct s.
Qed.

Lemma NPROCS_elem i : i ∈ NPROCS ↔ (i < NP)%nat.
Proof. unfold NPROCS, NP. rewrite elem_of_seq. lia. Qed.

End Rules.

(** Executes the pure prefix of a program. *)
Ltac pstep :=
  lazymatch goal with
  | |- returns (bind (bind _ _) _) _ _ => apply returns_assoc_bind
  | |- returns (bind (modify _) _) _ _ => apply returns_modify_bind
  | |- returns (bind (gets _) _) _ _ => apply returns_gets_bind
  | |- returns (bind (ret _) _) _ _ => apply returns_ret_bind
  end; cbv beta.

Ltac psteps := repeat pstep.

(** A C [for] loop over consecutive indices, with an invariant per index. *)
Lemma for_each_seq {S} (body : nat → M S unit) (I : nat → S → Prop) a n s :
  I a s → (∀ i s, (a ≤ i < a + n)%nat → I i s → returns (body i) s (λ _ s', I (1 + i)%nat s')) →
  returns (for_each (seq a n) body) s (λ _ s', I (a + n)%nat s').
Proof.
  revert a s. induction n as [|n IH]; intros a s Ha Hb; cbn [seq for_each].
  - apply returns_ret. by rewrite Nat.add_0_r.
  - eapply returns_bind; [apply Hb; [lia|done]|]. intros u s' Hs'.
    replace (a + Datatypes.S n)%nat with (Datatypes.S a + n)%nat by lia. apply IH; [done|].
    intros i s2 Hi. apply Hb. lia.
Qed.
