(* ===== verification/ProcFiles.v ===== *)
(** References to open files and inodes: every reference count of file.c and
    fs.c is the number of pointers to the entry, kept so by [filedup],
    [fileclose], [idup], [iput] and the functions of proc.c that use them. *)

From S2P Require Import Prelude Machine CString Kalloc Vm Spinlock Bio Fs File Proc ProcBase.

(** ** Counting references *)

Definition occ (H : list nat) (i : nat) : Z := Z.of_nat (count_occ Nat.eq_dec H i).

(** [r] counts, for each of [n] entries, the pointers [H] to it. *)
Record counted (n : nat) (r : list Z) (H : list nat) : Prop := {
  cnt_refs : r = occ H <$> seq 0 n;
  cnt_range : Forall (λ i, (i < n)%nat) H;
}.

Lemma counted_perm n r H H' : H ≡ₚ H' → counted n r H → counted n r H'.
Proof.
  intros Hp [-> Hr]. split; [|by rewrite <- Hp].
  apply list_fmap_ext. intros i x _. unfold occ. f_equal. by apply Permutation_count_occ.
Qed.

Lemma counted_lookup n r H i : counted n r H → (i < n)%nat → r !! i = Some (occ H i).
Proof. intros [-> _] Hi. by rewrite list_lookup_fmap, lookup_seq_lt. Qed.

Lemma occ_cons H i j : occ (i :: H) j = occ H j + (if decide (j = i) then 1 else 0).
Proof.
  unfold occ. destruct (decide (j = i)) as [->|Hne].
  - rewrite count_occ_cons_eq by done. lia.
  - rewrite count_occ_cons_neq by congruence. lia.
Qed.

Lemma occ_pos H i : i ∈ H → 1 ≤ occ H i.
Proof. intros Hi%list_elem_of_In. apply (count_occ_In Nat.eq_dec) in Hi. unfold occ. lia. Qed.

Lemma occ_nonneg H i : 0 ≤ occ H i.
Proof. unfold occ. lia. Qed.

Lemma counted_add n r H i :
  counted n r H → (i < n)%nat → counted n (<[i := occ H i + 1]> r) (i :: H).
Proof.
  intros [-> Hr] Hi. split; [|by constructor]. apply list_eq. intros j.
  destruct (decide (j = i)) as [->|Hne].
  - rewrite list_lookup_insert_eq by (rewrite length_fmap, length_seq; done).
    rewrite list_lookup_fmap, lookup_seq_lt by done. cbn. by rewrite occ_cons, decide_True.
  - rewrite list_lookup_insert_ne by done. rewrite !list_lookup_fmap.
    destruct (seq 0 n !! j) as [k|] eqn:E; [|done]. apply lookup_seq in E as [-> _]. cbn.
    rewrite occ_cons, decide_False by done. f_equal. lia.
Qed.

Lemma counted_remove n r H i :
  counted n r (i :: H) → counted n (<[i := occ H i]> r) H.
Proof.
  intros [-> Hr]. apply Forall_cons in Hr as [Hi Hr]. split; [|done]. apply list_eq. intros j.
  destruct (decide (j = i)) as [->|Hne].
  - rewrite list_lookup_insert_eq by (rewrite length_fmap, length_seq; done).
    by rewrite list_lookup_fmap, lookup_seq_lt by done.
  - rewrite list_lookup_insert_ne by done. rewrite !list_lookup_fmap.
    destruct (seq 0 n !! j) as [k|] eqn:E; [|done]. apply lookup_seq in E as [-> _]. cbn.
    rewrite occ_cons, decide_False by done. f_equal. lia.
Qed.

(** ** The pointers to files and inodes *)

(** File pointers of the processes. *)
Definition file_ptrs (ps : list proc) : list nat := omap id (ps ≫= pofile).

(** The inode an open file refers to. *)
Definition file_inode (x : file) : option nat :=
  if (fref x =? 0) || bool_decide (ftype x = FD_NONE) then None else Some (fip x).

(** Inode pointers: working directories and open files. *)
Definition inode_ptrs (ps : list proc) (ft : list file) : list nat := omap pcwd ps ++ omap file_inode ft.

Section Refs.
Context {B : Type} `{BlockCache B}.
Implicit Types fy : filesys B.

(** All counts are exact, where [F] and [I] are the file and inode pointers
    held in local variables. *)
Record refs_ok fy (ps : list proc) (F I : list nat) : Prop := {
  ro_files : counted NFILE (fref <$> ftable fy) (F ++ file_ptrs ps);
  ro_inodes : counted NINODE (iref <$> itable (fs fy)) (I ++ inode_ptrs ps (ftable fy));
}.

Lemma ro_lookup fy ps F I f :
  refs_ok fy ps F I → f ∈ F ++ file_ptrs ps → (f < NFILE)%nat ∧ ∃ x, ftable fy !! f = Some x
    ∧ getf fy f = x ∧ fref x = occ (F ++ file_ptrs ps) f ∧ 1 ≤ fref x.
Proof.
  intros [Hf _] Hin. assert (Hlt : (f < NFILE)%nat).
  { pose proof (cnt_range _ _ _ Hf) as Hr. rewrite Forall_forall in Hr. by apply Hr. }
  split; [done|]. pose proof (counted_lookup _ _ _ f Hf Hlt) as E. rewrite list_lookup_fmap in E.
  destruct (ftable fy !! f) as [x|] eqn:Ex; [|done]. exists x. injection E as E. split_and!; try done.
  - unfold getf. by rewrite Ex.
  - rewrite E. by apply occ_pos.
Qed.

(** A field of an entry changes from [x] to [y]. *)
Lemma omap_insert {A C} (g : A → option C) (l : list A) i x y :
  l !! i = Some x → option_list (g x) ++ omap g (<[i := y]> l) ≡ₚ option_list (g y) ++ omap g l.
Proof.
  intros Hi. rewrite (insert_take_drop l i y) by (by eapply lookup_lt_Some).
  rewrite <- (take_drop_middle l i x Hi) at 3. rewrite !omap_app. cbn [omap].
  assert (E : ∀ z, omap g (z :: drop (S i) l) = option_list (g z) ++ omap g (drop (S i) l)).
  { intros z. cbn. by destruct (g z). }
  rewrite !E. generalize (option_list (g x)) (option_list (g y)) (omap g (take i l)) (omap g (drop (S i) l)).
  intros X Y P D. rewrite !app_assoc. f_equiv. rewrite (Permutation_app_comm X P), (Permutation_app_comm Y P).
  rewrite <- !app_assoc. f_equiv. apply Permutation_app_comm.
Qed.

Lemma bind_insert {A C} (g : A → list C) (l : list A) i x y :
  l !! i = Some x → g x ++ (<[i := y]> l ≫= g) ≡ₚ g y ++ (l ≫= g).
Proof.
  intros Hi. rewrite (insert_take_drop l i y) by (by eapply lookup_lt_Some).
  rewrite <- (take_drop_middle l i x Hi) at 3. rewrite !bind_app, !bind_cons.
  generalize (g x) (g y) (take i l ≫= g) (drop (S i) l ≫= g).
  intros X Y P D. rewrite !app_assoc. f_equiv. rewrite (Permutation_app_comm X P), (Permutation_app_comm Y P).
  rewrite <- !app_assoc. f_equiv. apply Permutation_app_comm.
Qed.

(** An entry of a process's file table changes from [o] to [o']. *)
Lemma file_ptrs_set ps i p fd o o' :
  ps !! i = Some p → pofile p !! fd = Some o →
  option_list o ++ file_ptrs (<[i := p <| pofile := <[fd := o']> (pofile p) |>]> ps)
  ≡ₚ option_list o' ++ file_ptrs ps.
Proof.
  intros Hi Hfd. unfold file_ptrs. set (p' := p <| pofile := _ |>).
  pose proof (bind_insert pofile ps i p p' Hi) as Hb. apply (omap_Permutation id) in Hb.
  rewrite !omap_app in Hb. pose proof (omap_insert id (pofile p) fd o o' Hfd) as Ho. cbn [id] in Ho.
  change (pofile p') with (<[fd := o']> (pofile p)) in Hb.
  apply (Permutation_app_inv_l (omap id (pofile p))).
  rewrite (app_assoc _ (option_list o)), (Permutation_app_comm _ (option_list o)), <- app_assoc, Hb.
  rewrite !app_assoc. f_equiv. rewrite Ho. apply Permutation_app_comm.
Qed.

(** Only the parts of the processes that hold pointers matter. *)
Lemma file_ptrs_same ps i p p' :
  ps !! i = Some p → pofile p' = pofile p → file_ptrs (<[i := p']> ps) ≡ₚ file_ptrs ps.
Proof.
  intros Hi E. pose proof (bind_insert pofile ps i p p' Hi) as Hb. rewrite E in Hb.
  apply Permutation_app_inv_l in Hb. unfold file_ptrs. by rewrite Hb.
Qed.

Lemma inode_ptrs_cwd ps ft i p p' :
  ps !! i = Some p →
  option_list (pcwd p) ++ inode_ptrs (<[i := p']> ps) ft ≡ₚ option_list (pcwd p') ++ inode_ptrs ps ft.
Proof.
  intros Hi. unfold inode_ptrs. rewrite !app_assoc. f_equiv. by apply omap_insert.
Qed.

Lemma inode_ptrs_same ps ft i p p' :
  ps !! i = Some p → pcwd p' = pcwd p → inode_ptrs (<[i := p']> ps) ft ≡ₚ inode_ptrs ps ft.
Proof.
  intros Hi E. pose proof (inode_ptrs_cwd ps ft i p p' Hi) as Hq. rewrite E in Hq.
  by apply Permutation_app_inv_l in Hq.
Qed.

Lemma inode_ptrs_file ps ft f x x' :
  ft !! f = Some x →
  option_list (file_inode x) ++ inode_ptrs ps (<[f := x']> ft) ≡ₚ option_list (file_inode x') ++ inode_ptrs ps ft.
Proof.
  intros Hf. unfold inode_ptrs. pose proof (omap_insert file_inode ft f x x' Hf) as Ho.
  rewrite (app_assoc (option_list (file_inode x))), (Permutation_app_comm _ (omap pcwd ps)), <- app_assoc, Ho.
  rewrite !app_assoc. f_equiv. apply Permutation_app_comm.
Qed.

(** Changing one file: its pointers go from [f :: F] or [F] to the others, the
    inode it refers to from the table to [I] or back. *)
Lemma refs_setf fy ps F F' I I' f x x' :
  refs_ok fy ps F I → ftable fy !! f = Some x →
  counted NFILE (<[f := fref x']> (fref <$> ftable fy)) (F' ++ file_ptrs ps) →
  option_list (file_inode x) ++ I ≡ₚ option_list (file_inode x') ++ I' →
  refs_ok (setf f (λ _, x') fy) ps F' I'.
Proof.
  intros [_ Hi] Hx Hc Hp. split.
  - unfold setf. cbn [ftable setter fs]. by rewrite list_fmap_insert.
  - unfold setf. cbn [ftable setter fs]. eapply counted_perm; [|exact Hi].
    pose proof (inode_ptrs_file ps (ftable fy) f x x' Hx) as Hq.
    apply (Permutation_app_inv_l (option_list (file_inode x))).
    rewrite (app_assoc _ I'), (Permutation_app_comm _ I'), <- app_assoc, Hq.
    rewrite !app_assoc. f_equiv. rewrite Hp. apply Permutation_app_comm.
Qed.

Lemma setf_const f g fy : setf f (λ _, g (getf fy f)) fy = setf f g fy.
Proof. done. Qed.

Lemma file_inode_ref x r : 1 ≤ fref x → 1 ≤ r → file_inode (x <| fref := r |>) = file_inode x.
Proof.
  intros H1 H2. unfold file_inode. cbn [fref ftype fip setter].
  by rewrite (proj2 (Z.eqb_neq (fref x) 0)), (proj2 (Z.eqb_neq r 0)) by lia.
Qed.

Lemma filedup_ok fy ps F I f :
  refs_ok fy ps F I → f ∈ F ++ file_ptrs ps →
  returns (filedup f) fy (λ r fy', r = f ∧ fy' = setf f (λ x, x <| fref := fref x + 1 |>) fy
    ∧ refs_ok fy' ps (f :: F) I).
Proof.
  intros Hr Hin. destruct (ro_lookup fy ps F I f Hr Hin) as (Hlt & x & Hx & Eg & Eo & H1).
  unfold filedup. psteps. rewrite Eg, (proj2 (Z.ltb_ge (fref x) 1)) by done. psteps. apply returns_ret.
  split_and!; [done|done|]. rewrite <- setf_const, Eg.
  apply (refs_setf fy ps F (f :: F) I I f x); [done|done| |].
  - cbn [fref setter]. rewrite Eo. by apply counted_add; [apply Hr|].
  - by rewrite file_inode_ref by lia.
Qed.

Lemma refs_fs fy ps F I s' : refs_ok fy ps F I → itable s' = itable (fs fy) → refs_ok (fy <| fs := s' |>) ps F I.
Proof. intros [Hf Hi] E. split; [done|]. cbn [fs ftable setter]. by rewrite E. Qed.

Lemma iput_ok fy ps F I i :
  refs_ok fy ps F (i :: I) →
  returns (on_fs (iput i)) fy (λ _ fy', refs_ok fy' ps F I
    ∧ fy' = fy <| fs := seti i (λ x, with_iref (iref x - 1) x) (fs fy) |>).
Proof.
  intros [Hf Hi]. eexists tt, _. split; [done|]. split; [|done]. split; [exact Hf|].
  cbn [fs ftable setter]. unfold seti. cbn [itable]. rewrite list_fmap_insert.
  assert (Hlt : (i < NINODE)%nat) by (apply (cnt_range _ _ _) in Hi; by apply Forall_cons in Hi as [? _]).
  pose proof (counted_lookup _ _ _ i Hi Hlt) as E. rewrite list_lookup_fmap in E. unfold geti.
  destruct (itable (fs fy) !! i) as [x|]; [|done]. injection E as E. cbn [default iref with_iref].
  change ((i :: I) ++ inode_ptrs ps (ftable fy)) with (i :: (I ++ inode_ptrs ps (ftable fy))) in E, Hi.
  rewrite occ_cons, decide_True in E by done. cbn [iref with_iref]. simpl. rewrite E, Z.add_simpl_r. by apply counted_remove.
Qed.

Lemma idup_ok fy ps F I i :
  refs_ok fy ps F I → i ∈ I ++ inode_ptrs ps (ftable fy) →
  returns (on_fs (idup i)) fy (λ r fy', r = i ∧ refs_ok fy' ps F (i :: I)
    ∧ fy' = fy <| fs := seti i (λ x, with_iref (iref x + 1) x) (fs fy) |>).
Proof.
  intros [Hf Hi] Hin. eexists i, _. split; [done|]. split; [done|]. split; [|done]. split; [exact Hf|].
  cbn [fs ftable setter]. unfold seti. cbn [itable]. rewrite list_fmap_insert.
  assert (Hlt : (i < NINODE)%nat) by (apply (cnt_range _ _ _) in Hi; rewrite Forall_forall in Hi; by apply Hi).
  pose proof (counted_lookup _ _ _ i Hi Hlt) as E. rewrite list_lookup_fmap in E. unfold geti.
  destruct (itable (fs fy) !! i) as [x|]; [|done]. injection E as E. simpl. rewrite E. by apply counted_add.
Qed.

(** The parts of the file system that counting does not touch. *)
Definition same_fs fy fy' : Prop :=
  fkm (fs fy') = fkm (fs fy) ∧ cache (fs fy') = cache (fs fy) ∧ sb (fs fy') = sb (fs fy).

Lemma getf_setf f h fy : (f < length (ftable fy))%nat → getf (setf f h fy) f = h (getf fy f).
Proof. intros Hl. unfold getf at 1, setf. cbn [ftable setter]. by rewrite list_lookup_insert_eq. Qed.

Lemma setf_setf f h h' fy : (f < length (ftable fy))%nat → setf f h' (setf f h fy) = setf f (λ x, h' (h x)) fy.
Proof.
  intros Hl. unfold setf at 1. rewrite getf_setf by done. unfold setf. cbn [ftable setter fs].
  by rewrite list_insert_insert_eq.
Qed.

Lemma fileclose_ok fy ps F I f :
  refs_ok fy ps (f :: F) I →
  returns (fileclose f) fy (λ _ fy', refs_ok fy' ps F I ∧ same_fs fy fy'
    ∧ ∀ g, g ≠ f → getf fy' g = getf fy g).
Proof.
  intros Hr. destruct (ro_lookup fy ps (f :: F) I f Hr ltac:(left)) as (Hlt & x & Hx & Eg & Eo & H1).
  change ((f :: F) ++ file_ptrs ps) with (f :: (F ++ file_ptrs ps)) in Eo. rewrite occ_cons, decide_True in Eo by done.
  assert (Hfl : (f < length (ftable fy))%nat) by (by eapply lookup_lt_Some).
  assert (Hne : ∀ h g, g ≠ f → getf (setf f h fy) g = getf fy g).
  { intros h g Hg. unfold getf at 1, setf. cbn [ftable setter]. by rewrite list_lookup_insert_ne. }
  assert (Hcnt : counted NFILE (<[f := occ (F ++ file_ptrs ps) f]> (fref <$> ftable fy)) (F ++ file_ptrs ps)).
  { apply counted_remove, Hr. }
  unfold fileclose. psteps. rewrite Eg, (proj2 (Z.ltb_ge (fref x) 1)) by done. psteps.
  rewrite getf_setf, Eg by done. cbn [fref setter].
  destruct (Z.ltb_spec 0 (fref x - 1)) as [Hpos|Hz].
  - apply returns_ret. split_and!; [|done|by apply Hne]. rewrite <- setf_const, Eg.
    cbv beta. apply (refs_setf fy ps (f :: F) F I I f x); [done|done| |change (File _ _ _ _ _ _ _) with (x <| fref := fref x - 1 |>); by rewrite file_inode_ref by lia].
    cbn [fref setter]. by rewrite Eo, Z.add_simpl_r.
  - assert (E1 : fref x = 1) by lia. psteps. rewrite !setf_setf by (done || (unfold setf; cbn [ftable setter]; by rewrite length_insert)).
    set (x' := x <| fref := fref x - 1 |> <| fref := 0 |> <| ftype := FD_NONE |>).
    match goal with |- returns _ ?st _ => replace st with (setf f (λ _, x') fy)
      by (unfold setf; by rewrite Eg) end.
    assert (Hr' : refs_ok (setf f (λ _, x') fy) ps F (option_list (file_inode x) ++ I)).
    { apply (refs_setf fy ps (f :: F) F I _ f x); [done|done| |done]. cbn [fref setter x'].
      replace 0 with (occ (F ++ file_ptrs ps) f) by lia. exact Hcnt. }
    assert (Hg : ∀ g, g ≠ f → getf (setf f (λ _, x') fy) g = getf fy g) by (by apply Hne).
    cbn [ftype fip setter]. unfold file_inode in Hr'. rewrite E1 in Hr'. cbn [Z.eqb orb] in Hr'.
    destruct (ftype x); repeat (rewrite bool_decide_false in Hr' by done); repeat (rewrite bool_decide_false by done);
      rewrite ?bool_decide_true in Hr' by done; rewrite ?bool_decide_true by done; cbn [orb option_list app] in Hr' |- *.
    + by apply returns_ret.
    + eapply returns_mono; [apply (iput_ok _ ps F I); exact Hr'|]. intros [] fy' [Hr2 ->]. by split_and!.
    + eapply returns_mono; [apply (iput_ok _ ps F I); exact Hr'|]. intros [] fy' [Hr2 ->]. by split_and!.
Qed.

(** A file pointer moves from a local variable into a free slot of a process's
    table, or out of the table. *)
Lemma refs_store fy ps F I i p fd f :
  refs_ok fy ps (f :: F) I → ps !! i = Some p → pofile p !! fd = Some None →
  refs_ok fy (<[i := p <| pofile := <[fd := Some f]> (pofile p) |>]> ps) F I.
Proof.
  intros [Hf Hi] Hp Hfd. split.
  - eapply counted_perm; [|exact Hf]. pose proof (file_ptrs_set ps i p fd None (Some f) Hp Hfd) as Hs.
    cbn [option_list app] in Hs. rewrite Hs. apply Permutation_middle.
  - eapply counted_perm; [|exact Hi]. f_equiv. symmetry. by eapply inode_ptrs_same.
Qed.

Lemma refs_take fy ps F I i p fd f :
  refs_ok fy ps F I → ps !! i = Some p → pofile p !! fd = Some (Some f) →
  refs_ok fy (<[i := p <| pofile := <[fd := None]> (pofile p) |>]> ps) (f :: F) I.
Proof.
  intros [Hf Hi] Hp Hfd. split.
  - eapply counted_perm; [|exact Hf]. pose proof (file_ptrs_set ps i p fd (Some f) None Hp Hfd) as Hs.
    cbn [option_list app] in Hs. rewrite <- Hs. symmetry. apply Permutation_middle.
  - eapply counted_perm; [|exact Hi]. f_equiv. symmetry. by eapply inode_ptrs_same.
Qed.

(** The same for the working directory. *)
Lemma refs_set_cwd fy ps F I I' i p o :
  refs_ok fy ps F I → ps !! i = Some p → option_list o ++ I' ≡ₚ option_list (pcwd p) ++ I →
  refs_ok fy (<[i := p <| pcwd := o |>]> ps) F I'.
Proof.
  intros [Hf Hi] Hp Hperm. split.
  - eapply counted_perm; [|exact Hf]. f_equiv. symmetry. by eapply file_ptrs_same.
  - eapply counted_perm; [|exact Hi].
    pose proof (inode_ptrs_cwd ps (ftable fy) i p (p <| pcwd := o |>) Hp) as Hq.
    change (pcwd (p <| pcwd := o |>)) with o in Hq.
    apply (Permutation_app_inv_l (option_list (pcwd p))).
    rewrite (app_assoc _ I'), (Permutation_app_comm _ I'), <- app_assoc, Hq, !app_assoc. f_equiv.
    rewrite (Permutation_app_comm I'), Hperm. done.
Qed.

(** Other fields do not matter. *)
Lemma refs_same fy ps F I i p p' :
  refs_ok fy ps F I → ps !! i = Some p → pofile p' = pofile p → pcwd p' = pcwd p →
  refs_ok fy (<[i := p']> ps) F I.
Proof.
  intros [Hf Hi] Hp E1 E2. split.
  - eapply counted_perm; [|exact Hf]. f_equiv. symmetry. by eapply file_ptrs_same.
  - eapply counted_perm; [|exact Hi]. f_equiv. symmetry. by eapply inode_ptrs_same.
Qed.

Lemma refs_file_in ps i p fd f F :
  ps !! i = Some p → pofile p !! fd = Some (Some f) → f ∈ F ++ file_ptrs ps.
Proof.
  intros Hp Hfd. apply elem_of_app. right. unfold file_ptrs. apply list_elem_of_omap. exists (Some f).
  split; [|done]. apply list_elem_of_bind. exists p. split; by eapply list_elem_of_lookup_2.
Qed.

Lemma refs_cwd_in ps ft i p d I : ps !! i = Some p → pcwd p = Some d → d ∈ I ++ inode_ptrs ps ft.
Proof.
  intros Hp Hd. apply elem_of_app. right. apply elem_of_app. left. apply list_elem_of_omap. exists p.
  split; [by eapply list_elem_of_lookup_2|done].
Qed.

End Refs.
