(* ===== verification/FsName.v ===== *)
(** Path names: [namei] (fs.c) against the directory tree on the disk.

    [resolve] walks the elements of a path through the directories as they lie
    on the disk.  The theorem at the end says that [namei] returns an inode with
    the number [resolve] finds, that it takes exactly one reference to it, and
    that on every other branch all the references taken on the way are given
    back. *)

From S2P Require Import Prelude Machine CString Kalloc Vm Spinlock Bio Fs FsRead File Proc ProcBase ProcFiles.

(** ** Elements of a path *)

Definition flush (cur : list Z) : list (list Z) := match cur with [] => [] | _ => [cur] end.

(** The maximal runs of characters between slashes, up to the NUL. *)
Fixpoint elems_from (cur path : list Z) : list (list Z) :=
  match path with
  | [] => flush cur
  | c :: p =>
      if c =? 0 then flush cur
      else if c =? SLASH then flush cur ++ elems_from [] p
      else elems_from (cur ++ [c]) p
  end.

Definition elems (path : list Z) : list (list Z) := elems_from [] path.

Lemma elems_skip path : elems (skip_slashes path) = elems path.
Proof.
  unfold elems. induction path as [|c p IH]; [done|]. cbn [skip_slashes].
  destruct (Z.eqb_spec c SLASH) as [->|Hc]; [|done]. rewrite IH. done.
Qed.

Lemma skip_slashes_length path : (length (skip_slashes path) ≤ length path)%nat.
Proof. induction path as [|c p IH]; [done|]. simpl. destruct (c =? SLASH); simpl; lia. Qed.

Lemma skip_slashes_head path : chr (skip_slashes path) 0 ≠ SLASH.
Proof. induction path as [|c p IH]; [done|]. simpl. destruct (Z.eqb_spec c SLASH); [done|]. done. Qed.

Definition plain (s : list Z) : Prop := Forall (λ c, c ≠ 0 ∧ c ≠ SLASH) s.

Lemma span_elem_spec path s rest :
  span_elem path = (s, rest) → plain s ∧ path = s ++ rest ∧ (∀ cur, elems_from cur path = flush (cur ++ s) ++ elems rest).
Proof.
  revert s rest. induction path as [|c p IH]; intros s rest E; cbn [span_elem] in E.
  { injection E as <- <-. split_and!; [constructor|done|]. intros cur. by rewrite !app_nil_r. }
  destruct (Z.eqb_spec c SLASH) as [->|Hs]; [|destruct (Z.eqb_spec c 0) as [->|H0]]; cbn [negb andb] in E.
  - injection E as <- <-. split_and!; [constructor|done|]. intros cur. by rewrite app_nil_r.
  - injection E as <- <-. split_and!; [constructor|done|]. intros cur. cbn. by rewrite !app_nil_r.
  - destruct (span_elem p) as [e r] eqn:Ep. injection E as <- <-. destruct (IH e r eq_refl) as (Hp & -> & He).
    split_and!; [by constructor|done|]. intros cur. cbn [elems_from app].
    rewrite (proj2 (Z.eqb_neq _ _)), (proj2 (Z.eqb_neq _ _)) by done. by rewrite He, <- app_assoc.
Qed.

Lemma cstr_plain n s l : plain s → (length s < n)%nat → cstr n (s ++ 0 :: l) = s.
Proof.
  revert n. induction s as [|c s IH]; intros [|n] Hp Hn; simpl in *; try lia; [done|].
  apply Forall_cons in Hp as [[H0 _] Hp]. rewrite (proj2 (Z.eqb_neq _ _)) by done. f_equal. apply IH; [done|lia].
Qed.

Lemma cstr_take n s : plain s → cstr n (take n s) = take n s.
Proof.
  revert n. induction s as [|c s IH]; intros [|n] Hp; simpl; try done.
  apply Forall_cons in Hp as [[H0 _] Hp]. rewrite (proj2 (Z.eqb_neq _ _)) by done. f_equal. by apply IH.
Qed.

Lemma take_plain n s : plain s → plain (take n s).
Proof. apply Forall_take. Qed.

(** [skipelem] cuts the first element off. *)
Lemma skipelem_ok path name :
  match skipelem path name with
  | None => elems path = []
  | Some (path', name') => ∃ e, elems path = e :: elems path' ∧ cstr 14 name' = take 14 e ∧ (length path' < length path)%nat
  end.
Proof.
  unfold skipelem. pose proof (skip_slashes_length path) as Hlen. pose proof (skip_slashes_head path) as Hh.
  rewrite <- (elems_skip path). set (p := skip_slashes path) in *. clearbody p.
  destruct p as [|c p]; [done|]. change (chr (c :: p) 0) with c in *. unfold elems at 1.
  destruct (Z.eqb_spec c 0) as [->|H0]; [done|].
  destruct (span_elem (c :: p)) as [s rest] eqn:Es. destruct (span_elem_spec _ _ _ Es) as (Hp & Ep & He).
  assert (Hs : s ≠ []).
  { intros ->. cbn [span_elem] in Es. rewrite (proj2 (Z.eqb_neq _ _)), (proj2 (Z.eqb_neq _ _)) in Es by done.
    cbn in Es. by destruct (span_elem p). }
  exists s. split_and!.
  - rewrite elems_skip. rewrite (He []). destruct s; [done|]. done.
  - change DIRSIZ with 14. change (Z.to_nat 14) with 14%nat. destruct (Z.leb_spec 14 (Z.of_nat (length s))) as [Hl|Hl].
    + by apply cstr_take.
    + rewrite cstr_plain by (done || lia). by rewrite take_ge by lia.
  - pose proof (skip_slashes_length rest). apply (f_equal length) in Ep. rewrite length_app in Ep. destruct s; [done|].
    simpl in *. lia.
Qed.

(** ** Directories on the disk *)

Section Names.
Context {B : Type} {BC : BlockCache B} {BOk : BlockCacheOk B}.
Context (dk : Z → list Z) (sbk : superblock).
Implicit Types s : fstate B.

(** Inode [n] as it lies on the disk. *)
Definition disk_inode (n : Z) : inode :=
  load_dinode (dk (IBLOCK n sbk)) (Inode ROOTDEV n 1 (SleepLock false 0) true 0 0 0 0 0 []).

(** The bytes of entry [k] of a directory. *)
Definition dirent_at (x : inode) (k : Z) : list Z := contents dk x (16 * k) 16.

Definition entry_matches (name : list Z) (x : inode) (k : Z) : bool :=
  negb (le_at 2 (dirent_at x k) 0 =? 0) && bool_decide (cstr 14 name = cstr 14 (drop 2 (dirent_at x k))).

(** The first entry with the name, among [m] entries from entry [k]. *)
Fixpoint dir_scan (m : nat) (x : inode) (name : list Z) (k : Z) : option Z :=
  match m with
  | O => None
  | S m' => if entry_matches name x k then Some k else dir_scan m' x name (k + 1)
  end.

Definition dir_find (x : inode) (name : list Z) : option Z := dir_scan (Z.to_nat (isize x / 16)) x name 0.

(** The inode number that an entry holds. *)
Definition entry_inum (x : inode) (k : Z) : Z := le_at 2 (dirent_at x k) 0.

Lemma dir_scan_ext m x name name' k : cstr 14 name = cstr 14 name' → dir_scan m x name k = dir_scan m x name' k.
Proof.
  intros Hn. revert k. induction m as [|m IH]; intros k; [done|]. cbn [dir_scan]. unfold entry_matches.
  by rewrite Hn, IH.
Qed.

(** Directories: whole entries, no holes. *)
Record dir_ok (x : inode) : Prop := {
  di_file : file_ok dk x;
  di_size : isize x mod 16 = 0;
}.

Lemma dir_scan_some m x name k j :
  dir_scan m x name k = Some j → k ≤ j < k + Z.of_nat m ∧ entry_matches name x j = true.
Proof.
  revert k. induction m as [|m IH]; intros k Hj; [done|]. cbn [dir_scan] in Hj.
  destruct (entry_matches name x k) eqn:E; [injection Hj as <-; split; [lia|done]|].
  destruct (IH _ Hj). split; [lia|done].
Qed.

(** How [dirlookup] ends: with no entry, or with [iget] of the first one that
    has the name. *)
Definition looked_up s x (found : option Z) (Q : option (nat * Z) → fstate B → Prop) : Prop :=
  match found with
  | None => Q None s
  | Some j => returns (let! ip := iget (idev x) (entry_inum x j) in ret (Some (ip, 16 * j))) s Q
  end.

Lemma read_dirent s dp k :
  let x := geti s dp in
  c_quiet (cache s) dk → dir_ok x → 0 ≤ k < isize x / 16 →
  returns (readi dp KernBuf (16 * k) DIRENT) s (λ r s', r = (16, dirent_at x k) ∧ fsame dk s s').
Proof.
  intros x Hq [Hfile Hmod] Hk. destruct (fo_size _ _ Hfile) as [Hs0 Hs1]. pose proof MAXFILE_small.
  assert (Hlt : 16 * k + 16 ≤ isize x) by dlia.
  eapply returns_mono; [apply (readi_buf_ok dk s dp (16 * k) 16); [done|done|lia|lia]|].
  intros r s' [-> Hs']. split; [|done]. fold x. unfold read_len, dirent_at.
  rewrite (proj2 (Z.ltb_ge _ _)), (proj2 (Z.leb_gt _ _)) by lia. cbn [orb]. by rewrite Z.min_l by lia.
Qed.

Lemma dirlookup_loop_ok fuel s dp name k Q :
  let x := geti s dp in
  c_quiet (cache s) dk → dir_ok x → 0 ≤ k ≤ isize x / 16 → isize x / 16 - k < Z.of_nat fuel →
  (∀ s', fsame dk s s' → looked_up s' x (dir_scan (Z.to_nat (isize x / 16 - k)) x name k) Q) →
  returns (dirlookup_loop fuel dp name (16 * k)) s Q.
Proof.
  revert s k. induction fuel as [|fuel IH]; intros s k x Hq Hd Hk Hf HQ; [lia|].
  pose proof Hd as [Hfile Hmod]. destruct (fo_size _ _ Hfile) as [Hs0 Hs1]. pose proof MAXFILE_small.
  assert (Hx : 16 * (isize x / 16) = isize x) by (clear -Hmod; dlia).
  cbn [dirlookup_loop]. eapply returns_bind; [by apply (returns_gets _ _ (λ y s', y = x ∧ s' = s))|].
  intros y s' [-> ->]. destruct (decide (k = isize x / 16)) as [->|Hne].
  { rewrite Z.sub_diag in HQ. rewrite (proj2 (Z.ltb_ge _ _)) by lia. apply returns_ret, HQ. by split_and!. }
  replace (Z.to_nat (isize x / 16 - k)) with (S (Z.to_nat (isize x / 16 - (k + 1)))) in HQ by lia. cbn [dir_scan] in HQ.
  rewrite (proj2 (Z.ltb_lt (16 * k) _)) by lia. cbn [negb].
  eapply returns_bind; [apply read_dirent; [done|done|fold x; lia]|]. intros r s1 [-> Hs1']. fold x. cbn [Z.eqb negb].
  change (negb (16 =? DIRENT)) with false. cbv iota.
  assert (Hnext : (∀ s', fsame dk s s' → looked_up s' x (dir_scan (Z.to_nat (isize x / 16 - (k + 1))) x name (k + 1)) Q) →
    returns (dirlookup_loop fuel dp name (u32 (16 * k + DIRENT))) s1 Q).
  { intros HQ'. change DIRENT with 16. rewrite u32_id by lia. replace (16 * k + 16) with (16 * (k + 1)) by lia.
    pose proof Hs1' as (Hq1 & _ & Ht1 & _). assert (Ex : geti s1 dp = x) by (unfold x, geti; by rewrite Ht1).
    apply IH; rewrite ?Ex; try done; [lia|lia|]. intros s2 Hs2. apply HQ'. by eapply fsame_trans. }
  fold (entry_inum x k). unfold entry_matches in HQ. fold (entry_inum x k) in HQ.
  destruct (Z.eqb_spec (entry_inum x k) 0) as [E0|E0]; cbn [negb andb] in HQ; [by apply Hnext|].
  assert (Hcmp : namecmp name (drop 2 (dirent_at x k)) = 0 ↔ cstr 14 name = cstr 14 (drop 2 (dirent_at x k)))
    by apply strncmp_zero.
  destruct (Z.eqb_spec (namecmp name (drop 2 (dirent_at x k))) 0) as [En|En].
  - rewrite bool_decide_eq_true_2 in HQ by (by apply Hcmp). by apply (HQ s1).
  - rewrite bool_decide_eq_false_2 in HQ by (by rewrite <- Hcmp). by apply Hnext.
Qed.

Lemma dirlookup_ok s dp name Q :
  let x := geti s dp in
  c_quiet (cache s) dk → itype x = T_DIR → dir_ok x →
  (∀ s', fsame dk s s' → looked_up s' x (dir_find x name) Q) →
  returns (dirlookup dp name) s Q.
Proof.
  intros x Hq Ht Hd HQ. unfold dirlookup. eapply returns_bind; [by apply (returns_gets _ _ (λ y s', y = x ∧ s' = s))|].
  intros y s' [-> ->]. rewrite Ht. cbn [negb]. change (negb (T_DIR =? T_DIR)) with false. cbv iota.
  destruct (fo_size _ _ (di_file _ Hd)) as [Hs0 _]. assert (0 ≤ isize x / 16) by dlia.
  apply (dirlookup_loop_ok _ s dp name 0); fold x; try done; [|by rewrite Z.sub_0_r].
  change DIRENT with 16. lia.
Qed.

(** ** The inode table *)

Context (pid : Z).

(** A set of inodes on the disk, closed under lookup, each with a type and its
    directories well formed. *)
Context (live : Z → Prop).
Context (live_type : ∀ n, live n → itype (disk_inode n) ≠ 0).
Context (live_dir : ∀ n, live n → itype (disk_inode n) = T_DIR → dir_ok (disk_inode n)).
Context (live_find : ∀ n name k, live n → dir_find (disk_inode n) name = Some k → live (entry_inum (disk_inode n) k)).

(** What the file system looks at, of an inode. *)
Definition same_file (x y : inode) : Prop :=
  idev x = idev y ∧ itype x = itype y ∧ isize x = isize y ∧ addrs x = addrs y ∧ imajor x = imajor y.

Definition unlocked (x : inode) : Prop := slocked (ilk x) = false.

Definition locked_by_me (x : inode) : Prop := slocked (ilk x) = true ∧ spid (ilk x) = pid ∧ ivalid x = true.

(** The table, with the pointers [H] into it and the entry [lk] that is locked:
    counts are exact, no inode is cached twice, and valid entries agree with the
    disk. *)
Record tab s (H : list nat) (lk : option nat) : Prop := {
  tb_cnt : counted NINODE (iref <$> itable s) H;
  tb_lock i x : itable s !! i = Some x → if decide (lk = Some i) then locked_by_me x else unlocked x;
  tb_ref i : i ∈ H → idev (geti s i) = ROOTDEV ∧ live (inum (geti s i))
    ∧ (ivalid (geti s i) = true → same_file (geti s i) (disk_inode (inum (geti s i))));
  tb_inj i j : i ∈ H → j ∈ H → inum (geti s i) = inum (geti s j) → i = j;
}.

(** The state between the steps of [namex]. *)
Record ready s (H : list nat) (lk : option nat) : Prop := {
  rd_tab : tab s H lk;
  rd_quiet : c_quiet (cache s) dk;
  rd_sb : sb s = sbk;
}.

(** The pointers [H] still stand for the same inodes; memory is unchanged. *)
Definition keeps (H : list nat) s s' : Prop :=
  fkm s' = fkm s ∧ ∀ i, i ∈ H → inum (geti s' i) = inum (geti s i).

Lemma keeps_trans H s1 s2 s3 : keeps H s1 s2 → keeps H s2 s3 → keeps H s1 s3.
Proof. intros [E1 K1] [E2 K2]. split; [congruence|]. intros i Hi. by rewrite K2, K1. Qed.

Lemma keeps_sub H H' s s' : (∀ i, i ∈ H → i ∈ H') → keeps H' s s' → keeps H s s'.
Proof. intros Hs [E K]. split; [done|]. intros i Hi. by apply K, Hs. Qed.

Lemma tab_lookup s H lk i : tab s H lk → (i < NINODE)%nat → itable s !! i = Some (geti s i) ∧ iref (geti s i) = occ H i.
Proof.
  intros Ht Hi. pose proof (counted_lookup _ _ _ i (tb_cnt _ _ _ Ht) Hi) as E. rewrite list_lookup_fmap in E.
  unfold geti. destruct (itable s !! i) as [x|]; [|done]. injection E as E. done.
Qed.

Lemma tab_lt s H lk i : tab s H lk → i ∈ H → (i < NINODE)%nat.
Proof. intros Ht Hi. pose proof (cnt_range _ _ _ (tb_cnt _ _ _ Ht)) as Hr. rewrite Forall_forall in Hr. by apply Hr. Qed.

Lemma geti_seti s i f : (i < length (itable s))%nat → geti (seti i f s) i = f (geti s i).
Proof. intros Hi. unfold geti, seti. cbn [itable]. by rewrite list_lookup_insert_eq. Qed.

Lemma geti_seti_ne s i j f : i ≠ j → geti (seti i f s) j = geti s j.
Proof. intros Hne. unfold geti, seti. cbn [itable]. by rewrite list_lookup_insert_ne. Qed.

Lemma tab_length s H lk : tab s H lk → length (itable s) = NINODE.
Proof.
  intros Ht. pose proof (cnt_refs _ _ _ (tb_cnt _ _ _ Ht)) as E. apply (f_equal length) in E.
  by rewrite !length_fmap, length_seq in E.
Qed.

(** One entry changes. *)
Lemma tab_update s H lk i f H' lk' :
  tab s H lk → (i < NINODE)%nat →
  counted NINODE (<[i := iref (f (geti s i))]> (iref <$> itable s)) H' →
  (∀ j, j ≠ i → j ∈ H' → j ∈ H) →
  (∀ j, j ≠ i → lk' = Some j ↔ lk = Some j) →
  (if decide (lk' = Some i) then locked_by_me (f (geti s i)) else unlocked (f (geti s i))) →
  (i ∈ H' → idev (f (geti s i)) = ROOTDEV ∧ live (inum (f (geti s i)))
     ∧ (ivalid (f (geti s i)) = true → same_file (f (geti s i)) (disk_inode (inum (f (geti s i)))))
     ∧ ∀ j, j ∈ H' → j ≠ i → inum (geti s j) ≠ inum (f (geti s i))) →
  tab (seti i f s) H' lk'.
Proof.
  intros Ht Hi Hcnt Hsub Hlk Hl Hnew. pose proof (tab_length _ _ _ Ht) as Hlen.
  assert (Hlt : (i < length (itable s))%nat) by lia. split.
  - unfold seti. cbn [itable]. by rewrite list_fmap_insert.
  - intros j x Hx. unfold seti in Hx. cbn [itable] in Hx. destruct (decide (j = i)) as [->|Hne].
    + rewrite list_lookup_insert_eq in Hx by done. injection Hx as <-. done.
    + rewrite list_lookup_insert_ne in Hx by done. pose proof (tb_lock _ _ _ Ht j x Hx) as Hj.
      rewrite (decide_ext _ (lk = Some j)) by (by apply Hlk). done.
  - intros j Hj. destruct (decide (j = i)) as [->|Hne].
    + rewrite geti_seti by done. destruct (Hnew Hj) as (? & ? & ? & _). done.
    + rewrite geti_seti_ne by done. apply (tb_ref _ _ _ Ht). auto.
  - intros j k Hj Hk. destruct (decide (j = i)) as [->|Hj'], (decide (k = i)) as [->|Hk']; try done;
      rewrite ?geti_seti, ?geti_seti_ne by done; intros E.
    + destruct (Hnew Hj) as (_ & _ & _ & Hd). by destruct (Hd k Hk Hk').
    + destruct (Hnew Hk) as (_ & _ & _ & Hd). by destruct (Hd j Hj Hj').
    + apply (tb_inj _ _ _ Ht); auto.
Qed.

Lemma occ_in L i : 0 < occ L i → i ∈ L.
Proof. intros Ho. apply list_elem_of_In, (count_occ_In Nat.eq_dec). unfold occ in Ho. lia. Qed.

Lemma tab_perm s H H' lk : H ≡ₚ H' → tab s H lk → tab s H' lk.
Proof.
  intros Hp [Hc Hl Hr Hi]. split; [by apply (counted_perm _ _ H)|done|..].
  - intros i. rewrite <- Hp. apply Hr.
  - intros i j. rewrite <- !Hp. apply Hi.
Qed.

(** The scan of [iget]. *)
Lemma iget_scan_spec l k e dv n :
  match iget_scan l k e dv n with
  | (Some i, true) => ∃ j x, i = (k + j)%nat ∧ l !! j = Some x ∧ 0 < iref x ∧ inum x = n
  | (None, true) => False
  | (r, false) => (∀ j x, l !! j = Some x → 0 < iref x → idev x = dv → inum x ≠ n)
      ∧ match e, r with
        | Some _, _ => r = e
        | None, Some i => ∃ j x, i = (k + j)%nat ∧ l !! j = Some x ∧ iref x = 0
        | None, None => ∀ j x, l !! j = Some x → iref x ≠ 0
        end
  end.
Proof.
  revert k e. induction l as [|x l IH]; intros k e; [destruct e; by split|]. cbn [iget_scan].
  destruct (decide (0 < iref x ∧ idev x = dv ∧ inum x = n)) as [(Hr & <- & <-)|Hno].
  { rewrite (proj2 (Z.ltb_lt _ _)), !Z.eqb_refl by done. exists 0%nat, x. split_and!; [lia|done..]. }
  assert (Eb : (0 <? iref x) && (idev x =? dv) && (inum x =? n) = false).
  { destruct (Z.ltb_spec 0 (iref x)), (Z.eqb_spec (idev x) dv), (Z.eqb_spec (inum x) n); try done. tauto. }
  rewrite Eb. set (e' := match e with None => _ | Some _ => _ end). specialize (IH (S k) e').
  assert (Hhd : ∀ P : nat → inode → Prop, P 0%nat x → (∀ j y, l !! j = Some y → P (S j) y) → ∀ j y, (x :: l) !! j = Some y → P j y).
  { intros P H0 HS [|j] y Hy; [by injection Hy as <-|by apply HS]. }
  destruct (iget_scan l (S k) e' dv n) as [[i|] []]; [|destruct IH as [Hall He]|done|destruct IH as [Hall He]].
  - destruct IH as (j & y & -> & Hy & ? & ?). exists (S j), y. split_and!; [lia|done..].
  - split; [apply (Hhd (λ _ y, 0 < iref y → idev y = dv → inum y ≠ n)); [tauto|done]|].
    destruct e as [e0|]; [by injection He as ->|]. subst e'. destruct (Z.eqb_spec (iref x) 0) as [E0|E0].
    + injection He as ->. exists 0%nat, x. split_and!; [lia|done..].
    + destruct He as (j & y & -> & Hy & ?). exists (S j), y. split_and!; [lia|done..].
  - split; [apply (Hhd (λ _ y, 0 < iref y → idev y = dv → inum y ≠ n)); [tauto|done]|].
    destruct e as [e0|]; [done|]. subst e'. destruct (Z.eqb_spec (iref x) 0) as [E0|E0]; [done|].
    apply (Hhd (λ _ y, iref y ≠ 0)); done.
Qed.

Definition room (H : list nat) (k : nat) : Prop := (size (list_to_set H : gset nat) + k ≤ NINODE)%nat.

Lemma room_free H : room H 1 → ∃ i, (i < NINODE)%nat ∧ i ∉ H.
Proof.
  intros Hr. destruct (decide (Exists (λ i, i ∉ H) (seq 0 NINODE))) as [Hex|Hno].
  - apply Exists_exists in Hex as (i & Hi & Hn). exists i. split; [apply elem_of_seq in Hi; lia|done].
  - exfalso. apply not_Exists_Forall in Hno; [|intros i; apply _]. rewrite Forall_forall in Hno.
    assert (Hsub : (list_to_set (seq 0 NINODE) : gset nat) ⊆ list_to_set H).
    { intros i. rewrite !elem_of_list_to_set. intros Hi. destruct (decide (i ∈ H)) as [?|Hn]; [done|]. by destruct (Hno i Hi). }
    apply subseteq_size in Hsub. rewrite size_list_to_set, length_seq in Hsub by apply NoDup_seq. unfold room in Hr. lia.
Qed.

Lemma room_cons i H k : room H (S k) → room (i :: H) k.
Proof.
  unfold room. intros Hr. cbn [list_to_set]. rewrite size_union_alt, size_singleton.
  assert (Hs : (size (list_to_set H ∖ {[i]} : gset nat) ≤ size (list_to_set H : gset nat))%nat)
    by (apply subseteq_size, subseteq_difference_l; done).
  lia.
Qed.

(** ** The operations on the table *)

Lemma ready_update s H lk i f H' lk' :
  ready s H lk → tab (seti i f s) H' lk' → ready (seti i f s) H' lk'.
Proof. intros [_ Hq Hs] Ht. by split. Qed.

Lemma keeps_update s H i f :
  (i ∉ H ∨ inum (f (geti s i)) = inum (geti s i)) → (i < length (itable s))%nat → keeps H s (seti i f s).
Proof.
  intros Hi Hlt. split; [done|]. intros j Hj. destruct (decide (j = i)) as [->|Hne].
  - rewrite geti_seti by done. by destruct Hi.
  - by rewrite geti_seti_ne.
Qed.

(** One more reference to an entry. *)
Lemma add_ref s H lk i :
  ready s H lk → i ∈ H → let s' := seti i (λ x, with_iref (iref x + 1) x) s in
  ready s' (i :: H) lk ∧ keeps H s s' ∧ inum (geti s' i) = inum (geti s i).
Proof.
  intros Hrd Hi s'. pose proof (rd_tab _ _ _ Hrd) as Ht. pose proof (tab_lt _ _ _ _ Ht Hi) as Hlt.
  pose proof (tab_length _ _ _ Ht) as Hlen. destruct (tab_lookup _ _ _ i Ht Hlt) as [Hx Ho]. split_and!.
  - apply (ready_update s H lk); [done|]. apply (tab_update s H lk); try done.
    + cbn [iref with_iref]. rewrite Ho. apply counted_add; [apply Ht|done].
    + intros j Hne. rewrite elem_of_cons. by intros [?|?].
    + exact (tb_lock _ _ _ Ht i _ Hx).
    + intros _. destruct (tb_ref _ _ _ Ht i Hi) as (? & ? & ?). split_and!; try done.
      intros j Hj Hne E. apply elem_of_cons in Hj as [?|Hj]; [done|]. by apply Hne, (tb_inj _ _ _ Ht).
  - apply keeps_update; [by right|lia].
  - unfold s'. rewrite geti_seti by lia. done.
Qed.

Lemma iget_ok s H lk n :
  ready s H lk → live n → room H 1 → (∀ j, lk = Some j → j ∈ H) →
  returns (iget ROOTDEV n) s (λ ip s', ready s' (ip :: H) lk ∧ keeps H s s' ∧ inum (geti s' ip) = n).
Proof.
  intros Hrd Hn Hroom Hlk. pose proof (rd_tab _ _ _ Hrd) as Ht. pose proof (tab_length _ _ _ Ht) as Hlen.
  unfold iget. eapply returns_bind; [by apply (returns_gets _ _ (λ l s', l = itable s ∧ s' = s))|].
  intros l s' [-> ->]. pose proof (iget_scan_spec (itable s) 0 None ROOTDEV n) as Hsc.
  destruct (iget_scan (itable s) 0 None ROOTDEV n) as [[i|] []]; [| |done|].
  - destruct Hsc as (j & x & -> & Hx & Hr & <-). cbn [Nat.add].
    assert (Hj : (j < NINODE)%nat) by (rewrite <- Hlen; by eapply lookup_lt_Some).
    destruct (tab_lookup _ _ _ j Ht Hj) as [Hx' Ho]. rewrite Hx in Hx'. injection Hx' as Ex.
    assert (Hin : j ∈ H) by (apply occ_in; by rewrite <- Ho, <- Ex).
    apply returns_modify_bind, returns_ret. destruct (add_ref s H lk j Hrd Hin) as (H1 & H2 & H3).
    rewrite Ex. by split_and!.
  - destruct Hsc as (Hall & j & x & -> & Hx & Hr). cbn [Nat.add].
    assert (Hj : (j < NINODE)%nat) by (rewrite <- Hlen; by eapply lookup_lt_Some).
    destruct (tab_lookup _ _ _ j Ht Hj) as [Hx' Ho]. rewrite Hx in Hx'. injection Hx' as Ex. rewrite <- Ex, Hr in Ho.
    assert (Hnin : j ∉ H) by (intros Hin; apply occ_pos in Hin; lia).
    apply returns_modify_bind, returns_ret. split_and!.
    + apply (ready_update s H lk); [done|]. apply (tab_update s H lk); try done.
      * cbn [iref]. replace 1 with (occ H j + 1) by lia. by apply counted_add; [apply Ht|].
      * intros k Hne. rewrite elem_of_cons. by intros [?|?].
      * pose proof (tb_lock _ _ _ Ht j x Hx) as Hl. rewrite <- Ex. rewrite decide_False in Hl |- *; [done|auto..].
      * intros _. cbn [idev inum ivalid]. split_and!; try done. intros k Hk Hne E.
        apply elem_of_cons in Hk as [?|Hk]; [done|]. pose proof (tab_lt _ _ _ _ Ht Hk) as Hklt.
        destruct (tab_lookup _ _ _ k Ht Hklt) as [Hxk Hok]. destruct (tb_ref _ _ _ Ht k Hk) as (Hdk & _).
        by apply (Hall k _ Hxk); [rewrite Hok; pose proof (occ_pos _ _ Hk); lia| |].
    + apply keeps_update; [by left|lia].
    + rewrite geti_seti by lia. done.
  - destruct Hsc as [_ Hfull]. exfalso. destruct (room_free H Hroom) as (i & Hi & Hn').
    destruct (tab_lookup _ _ _ i Ht Hi) as [Hx Ho]. apply (Hfull i _ Hx). rewrite Ho.
    pose proof (occ_nonneg H i). destruct (decide (0 < occ H i)) as [?%occ_in|]; [done|lia].
Qed.

Lemma seti_seti s i f g : (i < length (itable s))%nat → seti i g (seti i f s) = seti i (λ x, g (f x)) s.
Proof.
  intros Hi. unfold seti at 1. rewrite geti_seti by done. unfold seti. cbn [fkm cache itable sb].
  by rewrite list_insert_insert_eq.
Qed.

Definition with_cache (c : B) s : fstate B := FState (fkm s) c (itable s) (sb s).

(** An entry becomes locked and valid; the cache has moved on. *)
Lemma lock_entry s H ip f c :
  let x := geti s ip in
  let s' := seti ip f (with_cache c s) in
  ready s H None → ip ∈ H → iref (f x) = iref x → inum (f x) = inum x → ilk (f x) = SleepLock true pid →
  ivalid (f x) = true → same_file (f x) (disk_inode (inum x)) → c_quiet c dk →
  ready s' H (Some ip) ∧ keeps H s s' ∧ same_file (geti s' ip) (disk_inode (inum x)).
Proof.
  intros x s' Hrd Hi Er En El Ev Hsame Hc. pose proof (rd_tab _ _ _ Hrd) as Ht.
  pose proof (tab_lt _ _ _ _ Ht Hi) as Hlt. pose proof (tab_length _ _ _ Ht) as Hlen.
  destruct (tab_lookup _ _ _ ip Ht Hlt) as [Hx Ho]. destruct (tb_ref _ _ _ Ht ip Hi) as (Hdev & Hlive & Hval).
  set (s1 := with_cache c s) in *. assert (Ht1 : tab s1 H None) by (by destruct Ht; split).
  assert (Eg : geti s1 ip = x) by done. assert (Hl1 : (ip < length (itable s1))%nat) by (cbn; lia). split_and!.
  - split; [|done|apply (rd_sb _ _ _ Hrd)]. apply (tab_update s1 H None); rewrite ?Eg; try done.
    + rewrite Er, list_insert_id; [apply Ht|]. cbn. by rewrite list_lookup_fmap, Hx.
    + intros j Hne. split; [intros [=]; congruence|done].
    + rewrite decide_True by done. split_and!; by rewrite ?El.
    + intros _. rewrite En. split_and!; try done; [by destruct Hsame as (-> & _)|]. intros j Hj Hne E.
      by apply Hne, (tb_inj _ _ _ Ht).
  - split; [done|]. intros j Hj. unfold s'. destruct (decide (j = ip)) as [->|Hne].
    + by rewrite geti_seti, Eg.
    + by rewrite geti_seti_ne.
  - unfold s'. by rewrite geti_seti, Eg.
Qed.

(** The entry is locked and holds what is on the disk. *)
Lemma ilock_ok s H ip :
  ready s H None → ip ∈ H →
  returns (ilock pid ip) s (λ _ s', ready s' H (Some ip) ∧ keeps H s s'
    ∧ same_file (geti s' ip) (disk_inode (inum (geti s ip)))).
Proof.
  intros Hrd Hi. pose proof (rd_tab _ _ _ Hrd) as Ht. pose proof (tab_lt _ _ _ _ Ht Hi) as Hlt.
  pose proof (tab_length _ _ _ Ht) as Hlen. destruct (tab_lookup _ _ _ ip Ht Hlt) as [Hx Ho].
  pose proof (occ_pos _ _ Hi) as Hpos. destruct (tb_ref _ _ _ Ht ip Hi) as (Hdev & Hlive & Hval).
  pose proof (tb_lock _ _ _ Ht ip _ Hx) as Hun. rewrite decide_False in Hun by done. unfold unlocked in Hun.
  assert (Hl : (ip < length (itable s))%nat) by lia.
  unfold ilock. eapply returns_bind; [by apply (returns_gets _ _ (λ y s', y = geti s ip ∧ s' = s))|].
  intros y s' [-> ->]. rewrite (proj2 (Z.ltb_ge _ _)) by lia.
  set (s1 := seti ip (with_ilk (SleepLock true pid)) s).
  eapply returns_bind; [apply (returns_eq _ _ tt s1); unfold acquiresleep_i; by rewrite Hun|]. intros u s' [_ ->].
  assert (E1 : geti s1 ip = with_ilk (SleepLock true pid) (geti s ip)) by (by apply geti_seti).
  eapply returns_bind; [by apply (returns_gets _ _ (λ v s', v = ivalid (geti s1 ip) ∧ s' = s1))|]. intros v s' [-> ->].
  rewrite E1. cbn [ivalid with_ilk]. destruct (ivalid (geti s ip)) eqn:Ev.
  { apply returns_ret. replace s1 with (seti ip (with_ilk (SleepLock true pid)) (with_cache (cache s) s)) by (by destruct s).
    apply lock_entry; try done; [by apply Hval|apply Hrd]. }
  eapply returns_bind; [by apply (returns_gets _ _ (λ t s', t = s1 ∧ s' = s1))|]. intros t s' [-> ->].
  rewrite E1. cbn [idev inum with_ilk]. change (sb s1) with (sb s). rewrite Hdev, (rd_sb _ _ _ Hrd).
  set (n := inum (geti s ip)) in *.
  eapply returns_bind; [apply returns_zoom, (c_read (cache s1) dk); apply Hrd|]. intros b s2 (c2 & -> & Hd & Hrel).
  eapply returns_bind; [apply (returns_gets _ _ (λ d s', d = dk (IBLOCK n sbk) ∧ s' = with_cache c2 s1)); by split|].
  intros d s' [-> ->]. apply returns_modify_bind.
  eapply returns_bind; [apply returns_zoom; exact Hrel|]. intros u2 s4 (c4 & -> & Hq4). apply returns_modify_bind.
  set (d := dk (IBLOCK n sbk)). set (f := λ x, set_ivalid (load_dinode d (with_ilk (SleepLock true pid) x))).
  match goal with |- returns _ ?st _ => replace st with (seti ip f (with_cache c4 s)) end.
  2:{ change (seti ip f (with_cache c4 s) = seti ip set_ivalid (seti ip (load_dinode d) (seti ip (with_ilk (SleepLock true pid)) (with_cache c4 s)))).
      by rewrite !seti_seti by (cbn; rewrite ?length_insert; lia). }
  assert (Hsame : same_file (f (geti s ip)) (disk_inode n)) by (by split_and!).
  destruct (lock_entry s H ip f c4 Hrd Hi) as (H1 & H2 & H3); try done.
  eapply returns_bind; [by apply (returns_gets _ _ (λ t s', t = itype (geti (seti ip f (with_cache c4 s)) ip)
    ∧ s' = seti ip f (with_cache c4 s)))|].
  intros t s' [-> ->]. destruct H3 as (? & Ety & ?). rewrite Ety. fold n.
  rewrite (proj2 (Z.eqb_neq _ _)) by (by apply live_type). by apply returns_ret.
Qed.

Lemma tab_locked s H ip : tab s H (Some ip) → ip ∈ H →
  (ip < NINODE)%nat ∧ itable s !! ip = Some (geti s ip) ∧ iref (geti s ip) = occ H ip ∧ locked_by_me (geti s ip).
Proof.
  intros Ht Hi. pose proof (tab_lt _ _ _ _ Ht Hi) as Hlt. destruct (tab_lookup _ _ _ ip Ht Hlt) as [Hx Ho].
  pose proof (tb_lock _ _ _ Ht ip _ Hx) as Hl. by rewrite decide_True in Hl.
Qed.

(** The lock is given back, the reference kept. *)
Lemma iunlock_ok s H ip :
  ready s H (Some ip) → ip ∈ H →
  returns (iunlock pid ip) s (λ _ s', ready s' H None ∧ keeps H s s'
    ∧ s' = seti ip (with_ilk (SleepLock false 0)) s).
Proof.
  intros Hrd Hi. pose proof (rd_tab _ _ _ Hrd) as Ht. pose proof (tab_length _ _ _ Ht) as Hlen.
  destruct (tab_locked _ _ _ Ht Hi) as (Hlt & Hx & Ho & Hl1 & Hl2 & Hv). pose proof (occ_pos _ _ Hi) as Hpos.
  unfold iunlock, holdingsleep_i.
  eapply returns_bind; [by apply (returns_gets _ _ (λ h s', h = true ∧ s' = s)); rewrite Hl1, Hl2, Z.eqb_refl|].
  intros h s' [-> ->].
  eapply returns_bind; [by apply (returns_gets _ _ (λ y s', y = geti s ip ∧ s' = s))|]. intros y s' [-> ->].
  rewrite (proj2 (Z.ltb_ge _ _)) by lia. cbn [negb orb]. apply returns_modify. split_and!; [|apply keeps_update; [by right|lia]|done].
  apply (ready_update s H (Some ip)); [done|]. apply (tab_update s H (Some ip)); try done.
  - cbn [iref with_ilk]. rewrite list_insert_id; [apply Ht|]. by rewrite list_lookup_fmap, Hx.
  - intros j Hne. split; [done|]. intros [=]. congruence.
  - intros _. destruct (tb_ref _ _ _ Ht ip Hi) as (? & ? & ?). split_and!; try done. intros j Hj Hne E.
    by apply Hne, (tb_inj _ _ _ Ht).
Qed.

(** A reference to a locked entry is given back. *)
Lemma iunlockput_ok s H ip :
  ready s (ip :: H) (Some ip) →
  returns (iunlockput pid ip) s (λ _ s', ready s' H None ∧ keeps H s s').
Proof.
  intros Hrd. assert (Hi : ip ∈ ip :: H) by left. unfold iunlockput.
  eapply returns_bind; [by apply (iunlock_ok s (ip :: H))|]. intros u s1 (Hrd1 & Hk1 & _).
  pose proof (rd_tab _ _ _ Hrd1) as Ht. pose proof (tab_lt _ _ _ _ Ht Hi) as Hlt. pose proof (tab_length _ _ _ Ht) as Hlen.
  destruct (tab_lookup _ _ _ ip Ht Hlt) as [Hx Ho]. rewrite occ_cons, decide_True in Ho by done.
  pose proof (tb_lock _ _ _ Ht ip _ Hx) as Hl. apply returns_modify. split.
  - apply (ready_update s1 (ip :: H) None); [done|]. apply (tab_update s1 (ip :: H) None); try done.
    + cbn [iref with_iref]. rewrite Ho, Z.add_simpl_r. by apply counted_remove, Ht.
    + intros j _ Hj. by right.
    + intros Hin. destruct (tb_ref _ _ _ Ht ip Hi) as (? & ? & ?). split_and!; try done. intros j Hj Hne E.
      apply Hne, (tb_inj _ _ _ Ht); [by right|done|done].
  - eapply keeps_trans; [eapply keeps_sub; [|exact Hk1]; intros i Hi'; by right|]. apply keeps_update; [by right|lia].
Qed.

(** ** Resolving a path *)

(** The inode that the elements [es] lead to from inode [n]. *)
Fixpoint resolve (n : Z) (es : list (list Z)) : option Z :=
  match es with
  | [] => Some n
  | e :: es' =>
      let x := disk_inode n in
      if itype x =? T_DIR then
        match dir_find x (take 14 e) with
        | Some k => resolve (entry_inum x k) es'
        | None => None
        end
      else None
  end.

Lemma same_content x y off : same_file x y → content dk x off = content dk y off.
Proof. intros (_ & _ & _ & Ha & _). unfold content, block_addr. by rewrite Ha. Qed.

Lemma same_dirent x y k : same_file x y → dirent_at x k = dirent_at y k.
Proof. intros Hs. apply list_fmap_ext. intros i off _. by apply same_content. Qed.

Lemma same_find x y name name' :
  same_file x y → cstr 14 name = cstr 14 name' → dir_find x name = dir_find y name'.
Proof.
  intros Hs Hn. unfold dir_find. rewrite (dir_scan_ext _ _ _ _ _ Hn). pose proof Hs as (_ & _ & Hsz & _).
  rewrite Hsz. generalize (Z.to_nat (isize y / 16)) 0. intros m. induction m as [|m IH]; intros k; [done|]. cbn [dir_scan].
  unfold entry_matches. rewrite (same_dirent x y) by done. by rewrite IH.
Qed.

Lemma same_dir x y : same_file x y → dir_ok y → dir_ok x.
Proof.
  intros Hs [[Hdev Hsz Hmap Hlen] Hmod]. destruct Hs as (Hd & Ht & Es & Ha & _).
  assert (Eb : ∀ bn, block_addr dk x bn = block_addr dk y bn) by (intros bn; unfold block_addr; by rewrite Ha).
  split; [split|by rewrite Es]; rewrite ?Es; try done; [congruence|..]; intros bn; rewrite Eb; auto.
Qed.

Lemma cstr_idem n l : cstr n (cstr n l) = cstr n l.
Proof.
  revert l. induction n as [|n IH]; intros [|c l]; try done. simpl. destruct (c =? 0) eqn:E; [done|]. simpl. by rewrite E, IH.
Qed.

(** The result of a walk from inode [n]: one more reference, or none. *)
Definition walked s H (found : option Z) (r : option nat) s' : Prop :=
  keeps H s s' ∧
  match found with
  | Some m => ∃ ip, r = Some ip ∧ ready s' (ip :: H) None ∧ inum (geti s' ip) = m
  | None => r = None ∧ ready s' H None
  end.

Lemma walked_keeps s s1 H found r s' : keeps H s s1 → walked s1 H found r s' → walked s H found r s'.
Proof. intros Hk [Hk' Hw]. split; [by eapply keeps_trans|done]. Qed.

(** The locked directory [ip] is released and the walk ends. *)
Lemma release_ends s H ip :
  ready s (ip :: H) (Some ip) →
  returns (iunlockput pid ip ;;; ret None) s (λ r s', walked s H None r s').
Proof.
  intros Hrd. eapply returns_bind; [by apply iunlockput_ok|]. intros u s' [Hr Hk]. apply returns_ret. by split_and!.
Qed.

(** The locked directory [ip], inode [n], is searched for element [e]. *)
Lemma lookup_step s H ip n e name :
  ready s (ip :: H) (Some ip) → room H 2 → live n → same_file (geti s ip) (disk_inode n) →
  itype (disk_inode n) = T_DIR → cstr 14 name = take 14 e →
  returns (dirlookup ip name) s (λ r s2, keeps (ip :: H) s s2 ∧
    match dir_find (disk_inode n) (take 14 e) with
    | None => r = None ∧ ready s2 (ip :: H) (Some ip)
    | Some k => ∃ nx off, r = Some (nx, off) ∧ ready s2 (nx :: ip :: H) (Some ip)
        ∧ inum (geti s2 nx) = entry_inum (disk_inode n) k
    end).
Proof.
  intros Hrd Hroom Hlive Hsame Hdir Hname.
  assert (Hfind : dir_find (geti s ip) name = dir_find (disk_inode n) (take 14 e)).
  { apply same_find; [done|]. by rewrite <- Hname, cstr_idem. }
  assert (Hd1 : idev (geti s ip) = ROOTDEV) by (by destruct (tb_ref _ _ _ (rd_tab _ _ _ Hrd) ip ltac:(left))).
  apply dirlookup_ok; [apply Hrd|by destruct Hsame as (_ & -> & _)|by apply (same_dir _ (disk_inode n)), live_dir|].
  intros s' (Hq' & Hm' & Hi' & Hs'). rewrite Hfind.
  assert (Hrd' : ready s' (ip :: H) (Some ip)).
  { destruct Hrd as [Ht _ Hsb]. split; [|done|congruence]. destruct Ht as [? ? Hr Hj].
    split; unfold geti; rewrite Hi'; done. }
  assert (Hk' : keeps (ip :: H) s s') by (split; [done|]; intros i _; unfold geti; by rewrite Hi').
  destruct (dir_find (disk_inode n) (take 14 e)) as [k|] eqn:Ek; cbn [looked_up]; [|by split_and!].
  unfold entry_inum at 1. rewrite (same_dirent _ _ k Hsame), Hd1. fold (entry_inum (disk_inode n) k).
  eapply returns_bind; [apply (iget_ok s' (ip :: H) (Some ip)); [done|by eapply live_find|by apply room_cons|]|].
  { intros j [=<-]. left. }
  intros nx s2 (Hrd2 & Hk2 & Hn2). apply returns_ret. split; [by eapply keeps_trans|]. by exists nx, (16 * k).
Qed.

Lemma namex_loop_ok fuel s H ip path name :
  ready s (ip :: H) None → room H 2 → (length path < fuel)%nat →
  returns (namex_loop pid fuel ip path name) s (walked s H (resolve (inum (geti s ip)) (elems path))).
Proof.
  revert s ip path name. induction fuel as [|fuel IH]; intros s ip path name Hrd Hroom Hf; [lia|].
  cbn [namex_loop]. pose proof (skipelem_ok path name) as Hsk. set (n := inum (geti s ip)).
  assert (Hlive : live n) by (apply (tb_ref _ _ _ (rd_tab _ _ _ Hrd)); left).
  assert (Hsub : ∀ i, i ∈ H → i ∈ ip :: H) by (intros i Hi; by right).
  destruct (skipelem path name) as [[path' name']|]; [destruct Hsk as (e & -> & Hname & Hlen)|rewrite Hsk].
  2:{ apply returns_ret. split; [by split|]. by exists ip. }
  cbn [resolve]. eapply returns_bind; [apply (ilock_ok s (ip :: H) ip Hrd); left|].
  intros u s1 (Hrd1 & Hk1 & Hsame). fold n in Hsame. pose proof (keeps_sub _ _ _ _ Hsub Hk1) as Hk1'.
  eapply returns_bind; [by apply (returns_gets _ _ (λ t s', t = itype (geti s1 ip) ∧ s' = s1))|]. intros t s' [-> ->].
  assert (Et : itype (geti s1 ip) = itype (disk_inode n)) by (by destruct Hsame as (_ & -> & _)).
  rewrite Et. destruct (Z.eqb_spec (itype (disk_inode n)) T_DIR) as [Hdir|Hdir]; cbn [negb].
  2:{ eapply returns_mono; [by apply release_ends|]. intros r s' Hw. by eapply walked_keeps. }
  eapply returns_bind; [by apply (lookup_step s1 H ip n e)|].
  intros r s2 [Hk2 Hr]. pose proof (keeps_trans _ _ _ _ Hk1' (keeps_sub _ _ _ _ Hsub Hk2)) as Hk12.
  destruct (dir_find (disk_inode n) (take 14 e)) as [k|].
  + destruct Hr as (nx & off & -> & Hrd2 & Hn2).
    assert (Hrd2' : ready s2 (ip :: nx :: H) (Some ip)).
    { destruct Hrd2. split; try done. eapply tab_perm; [|done]. apply Permutation_swap. }
    eapply returns_bind; [by apply iunlockput_ok|]. intros u3 s3 [Hrd3 Hk3].
    assert (E3 : inum (geti s3 nx) = entry_inum (disk_inode n) k) by (rewrite (proj2 Hk3 nx) by left; done).
    rewrite <- E3. eapply returns_mono; [apply (IH s3 nx path' name'); [done|done|lia]|].
    intros r s4 Hw. eapply walked_keeps; [|exact Hw]. eapply keeps_trans; [done|].
    eapply keeps_sub; [|exact Hk3]. intros i Hi. by right.
  + destruct Hr as [-> Hrd2]. eapply returns_mono; [by apply release_ends|]. intros r s' Hw. by eapply walked_keeps.
Qed.

Lemma namei_ok s H cwd path :
  ready s H None → cwd ∈ H → room H 2 → live ROOTINO →
  returns (namei pid cwd path) s
    (walked s H (resolve (if chr path 0 =? SLASH then ROOTINO else inum (geti s cwd)) (elems path))).
Proof.
  intros Hrd Hcwd Hroom Hlive. unfold namei, namex. destruct (chr path 0 =? SLASH).
  - eapply returns_bind; [apply (iget_ok s H None ROOTINO Hrd Hlive); [unfold room in *; lia|done]|].
    intros ip s1 (Hrd1 & Hk1 & Hn1). rewrite <- Hn1. eapply returns_mono; [by apply (namex_loop_ok _ s1 H ip); [| |lia]|].
    intros r s' Hw. by eapply walked_keeps.
  - destruct (add_ref s H None cwd Hrd Hcwd) as (Hrd1 & Hk1 & Hn1). unfold idup. apply returns_assoc, returns_modify_bind.
    eapply returns_bind; [by apply (returns_ret _ _ (λ ip s', ip = cwd ∧ s' = seti cwd (λ x, with_iref (iref x + 1) x) s))|].
    intros ip s' [-> ->]. rewrite <- Hn1. eapply returns_mono; [by apply (namex_loop_ok _ _ H cwd); [| |lia]|].
    intros r s' Hw. by eapply walked_keeps.
Qed.

(** C9 [functional]. [namei] resolves a path as the directory tree on the
    disk says: an absolute path from the root, a relative one from the working
    directory, element by element, each cut to 14 characters.  When the path
    leads to inode [n], the result is a table entry for [n] with exactly one new
    reference; when an element is missing or not a directory, the result is null
    and every reference taken on the way has been returned.  It never sleeps or
    panics, provided two table entries are free. *)
Theorem namei_resolves s H cwd path :
  ready s H None → cwd ∈ H → room H 2 → live ROOTINO →
  returns (namei pid cwd path) s
    (walked s H (resolve (if chr path 0 =? SLASH then ROOTINO else inum (geti s cwd)) (elems path))).
Proof. apply namei_ok. Qed.

End Names.

(** ** The path "/hi" on the disk of [TestDisk] *)

Module NameTest.

Definition sbk : superblock := Superblock FSMAGIC 5 2 16 0 2 2 3.

Definition live (n : Z) : Prop := n = 1 ∨ n = 2.

Abbreviation dk := TestDisk.dk.

Lemma root_file : file_ok dk (disk_inode dk sbk 1).
Proof.
  assert (H0 : ∀ bn, 0 ≤ bn → bn * BSIZE < isize (disk_inode dk sbk 1) → bn = 0).
  { intros bn Hbn. change (isize (disk_inode dk sbk 1)) with 32. unfold BSIZE. lia. }
  split; [reflexivity|evaluate|..]; intros bn Hbn Hlt; rewrite (H0 bn Hbn Hlt); evaluate.
Qed.

Lemma live_names n name k :
  live n → dir_find dk (disk_inode dk sbk n) name = Some k → live (entry_inum dk (disk_inode dk sbk n) k).
Proof.
  intros Hn Hk. unfold dir_find in Hk. apply dir_scan_some in Hk as [Hk _]. destruct Hn as [-> | ->].
  - change (Z.of_nat (Z.to_nat (isize (disk_inode dk sbk 1) / 16))) with 2 in Hk.
    assert (k = 0 ∨ k = 1) as [-> | ->] by lia; [left|right]; reflexivity.
  - change (Z.of_nat (Z.to_nat (isize (disk_inode dk sbk 2) / 16))) with 0 in Hk. lia.
Qed.

(** The working directory, the root, is entry 0 of the inode table. *)
Definition table : list inode :=
  Inode ROOTDEV 1 1 (SleepLock false 0) false 0 0 0 0 0 [] :: replicate 49 inode0.

#[local] Existing Instance RamDisk.device.
#[local] Existing Instance RamDisk.device_ok.

Lemma start (km : kmem_state) : ∃ c : bcache (gmap Z (list Z)),
  ready (BOk := bio_cache_ok 1) dk sbk 1 live (FState km c table sbk) [0%nat] None.
Proof.
  destruct TestDisk.boot_quiet as [c Hc]. exists c. split; [|exact Hc|done]. split.
  - split; [reflexivity|]. constructor; [unfold NINODE; lia|constructor].
  - intros i x Hx. rewrite decide_False by done. destruct i as [|i]; [by injection Hx as <-|].
    change (replicate 49 inode0 !! i = Some x) in Hx. by apply lookup_replicate in Hx as [-> _].
  - intros i Hi. apply list_elem_of_singleton in Hi as ->. split_and!; [done|by left|done].
  - intros i j Hi Hj _. apply list_elem_of_singleton in Hi as ->. by apply list_elem_of_singleton in Hj as ->.
Qed.

End NameTest.

Section NameWitness.
#[local] Existing Instance RamDisk.device.
#[local] Existing Instance RamDisk.device_ok.

Lemma namei_resolves_witness :
  ∃ s : fstate (bcache (gmap Z (list Z))),
  returns (namei (H := bio_cache 1) 1 0 [47; 104; 105; 0]) s (λ r s', ∃ ip, r = Some ip ∧ inum (geti s' ip) = 2).
Proof.
  destruct (NameTest.start (KMem ∅ 0 0)) as (c & Hrd). exists (FState (KMem ∅ 0 0) c NameTest.table NameTest.sbk).
  eapply returns_mono; [apply (namei_resolves (BOk := bio_cache_ok 1) TestDisk.dk NameTest.sbk 1 NameTest.live) with (H := [0%nat])|].
  - intros n [-> | ->]; discriminate.
  - intros n [-> | ->] Ht; [|discriminate Ht]. split; [exact NameTest.root_file|reflexivity].
  - exact NameTest.live_names.
  - exact Hrd.
  - left.
  - unfold room. vm_compute. lia.
  - by left.
  - intros r s' [_ Hw]. change (chr [47; 104; 105; 0] 0 =? SLASH) with true in Hw. cbv iota in Hw.
    assert (E : resolve TestDisk.dk NameTest.sbk ROOTINO (elems [47; 104; 105; 0]) = Some 2) by (vm_compute; reflexivity).
    rewrite E in Hw.
    destruct Hw as (ip & -> & _ & Hn). exists ip. split; [reflexivity|exact Hn].
Defined.

End NameWitness.
