(* ===== verification/ProcTable.v ===== *)
(** The process table: wakeup, kill, reparenting (proc.c) as updates of the
    table, and what the scheduler's pass does. *)

From S2P Require Import Prelude Machine CString Kalloc Vm Spinlock Bio Fs File Proc ProcBase.

Section Table.
Context {B X : Type} `{BlockCache B} {LK : Linker} {SY : Symbols} {SYok : SymbolsOk}.
Context (hart : Z).
Implicit Types s : kstate B X.

(** What [wakeup(chan)] by process [me] does to entry [i]. *)
Definition woken (chan : Z) (me : option nat) (i : nat) (p : proc) : proc :=
  if negb (bool_decide (me = Some i)) && (bool_decide (pstate p = SLEEPING) && (pchan p =? chan))
  then p <| pstate := RUNNABLE |> else p.

(** Only the lock state and the process table differ. *)
Definition moved s (t : sync) (ps : list proc) : kstate B X := s <| sy := t |> <| procs := ps |>.

Lemma getp_moved s t ps i : getp (moved s t ps) i = default proc0 (ps !! i).
Proof. done. Qed.

Lemma moved_id s : moved s (sy s) (procs s) = s.
Proof. by destruct s. Qed.

Lemma moved_sy s t ps t' : (moved s t ps) <| sy := t' |> = moved s t' ps.
Proof. done. Qed.

Lemma moved_setp s t ps i f : setp i f (moved s t ps) = moved s t (<[i := f (default proc0 (ps !! i))]> ps).
Proof. done. Qed.

(** A loop over the table whose body updates the entry it is at. *)
Lemma table_loop Hs n res (g : nat → proc → proc) (body : nat → M (kstate B X) unit) s :
  held hart Hs n res (sy s) → length (procs s) = NP →
  (∀ i t ps, (i < NP)%nat → held hart Hs n res t → length ps = NP → ps !! i = procs s !! i →
     returns (body i) (moved s t ps) (λ _ s', ∃ t', held hart Hs n res t'
       ∧ s' = moved s t' (<[i := g i (getp s i)]> ps))) →
  returns (for_each NPROCS body) s (λ _ s', ∃ t,
    held hart Hs n res t ∧ s' = moved s t (imap g (procs s))).
Proof.
  intros Hh Hlen Hbody. unfold NPROCS. fold NP. set (w := imap g (procs s)).
  assert (Hw : length w = NP) by (subst w; by rewrite length_imap).
  eapply returns_mono; [apply (for_each_seq _ (λ k s', ∃ t, held hart Hs n res t
     ∧ s' = moved s t (take k w ++ drop k (procs s)))) |].
  - exists (sy s). split; [done|]. symmetry. apply moved_id.
  - intros i s' Hi (t & Ht & ->). simpl in Hi. change (1 + i)%nat with (S i).
    destruct (lookup_lt_is_Some_2 (procs s) i) as [p Hp]; [lia|].
    assert (Hwi : w !! i = Some (g i p)) by (subst w; by rewrite list_lookup_imap, Hp).
    eapply returns_mono; [apply Hbody; [lia|done| |]|].
    + rewrite length_app, length_take, length_drop. lia.
    + rewrite lookup_app_r by (rewrite length_take; lia). rewrite length_take, lookup_drop. f_equal. lia.
    + intros u s' (t' & Ht' & ->). exists t'. split; [done|]. f_equal. unfold getp. rewrite Hp.
      rewrite insert_app_r_alt by (rewrite length_take; lia). rewrite length_take, Hw.
      replace (i - i `min` NP)%nat with 0%nat by lia. rewrite (drop_S _ p) by done. simpl.
      by rewrite (take_S_r w i _ Hwi), <- app_assoc.
  - intros u s' (t & Ht & ->). exists t. split; [done|]. rewrite Nat.add_0_l, take_ge, drop_ge by lia.
    by rewrite app_nil_r.
Qed.

Lemma union_minus (lk : Z) (Hs : gset Z) : lk ∉ Hs → ({[lk]} ∪ Hs) ∖ {[lk]} = Hs.
Proof. set_solver. Qed.

Lemma wakeup_ok Hs n res chan s :
  held hart Hs n res (sy s) → length (procs s) = NP →
  (∀ i, (i < NP)%nat → proc_addr i ∈ Hs → curproc s = Some i) →
  returns (wakeup hart chan) s (λ _ s', ∃ t,
    held hart Hs n res t ∧ s' = moved s t (imap (woken chan (curproc s)) (procs s))).
Proof.
  intros Hh Hlen Hfree. apply table_loop; [done|done|]. intros i t ps Hi Ht Hps Epi.
  eapply returns_myproc; [done|]. intros t1 Ht1. change (curproc (moved s t ps)) with (curproc s).
  assert (Eg : ∀ t, getp (moved s t ps) i = getp s i) by (intros t'; unfold getp; simpl; by rewrite Epi).
  unfold woken. destruct (bool_decide (curproc s = Some i)) eqn:Eme; cbn [negb andb].
  - apply returns_ret. exists t1. split; [done|]. rewrite list_insert_id; [done|].
    rewrite Epi. unfold getp. destruct (lookup_lt_is_Some_2 (procs s) i) as [p ->]; [lia|done].
  - apply bool_decide_eq_false in Eme.
    assert (Hlk : proc_addr i ∉ Hs) by (intros Hin; apply Eme, Hfree; [lia|done]).
    eapply returns_acq; [done|done|]. intros t2 Ht2. rewrite !moved_sy. psteps. rewrite Eg.
    destruct (bool_decide (pstate (getp s i) = SLEEPING) && (pchan (getp s i) =? chan)); psteps.
    + eapply returns_rel_last; [exact Ht2|set_solver|]. rewrite union_minus by done. intros t3 Ht3.
      exists t3. split; [done|]. rewrite moved_setp, moved_sy, Epi. done.
    + eapply returns_rel_last; [exact Ht2|set_solver|]. rewrite union_minus by done. intros t3 Ht3.
      exists t3. split; [done|]. rewrite list_insert_id; [done|].
      rewrite Epi. unfold getp. destruct (lookup_lt_is_Some_2 (procs s) i) as [p ->]; [lia|done].
Qed.

(** What [kkill] does to the process it finds. *)
Definition marked (p : proc) : proc :=
  let p' := p <| pkilled := true |> in
  if bool_decide (pstate p = SLEEPING) then p' <| pstate := RUNNABLE |> else p'.

Definition has_pid (pid : Z) (p : proc) : bool := ppid p =? pid.

Lemma kkill_scan_ok n res pid m : ∀ a s,
  (a + m = NP)%nat → held hart ∅ n res (sy s) → length (procs s) = NP →
  returns (kkill_scan hart (seq a m) pid) s (λ r s', ∃ t, held hart ∅ n res t
    ∧ ((∃ i, (a ≤ i < NP)%nat ∧ has_pid pid (getp s i) = true
          ∧ (∀ j, (a ≤ j < i)%nat → has_pid pid (getp s j) = false)
          ∧ r = 0 ∧ s' = setp i marked (s <| sy := t |>))
       ∨ r = -1 ∧ (∀ j, (a ≤ j < NP)%nat → has_pid pid (getp s j) = false) ∧ s' = s <| sy := t |>)).
Proof.
  induction m as [|m IH]; intros a s Ham Hh Hlen; cbn [seq kkill_scan].
  { apply returns_ret. exists (sy s). split; [done|]. right. split_and!; [done|lia|by destruct s]. }
  eapply returns_acq; [done|apply not_elem_of_empty|]. rewrite union_empty_r_L. intros t Ht.
  set (s1 := s <| sy := t |>). psteps. fold (has_pid pid (getp s1 a)). destruct (has_pid pid (getp s1 a)) eqn:E.
  - psteps. assert (Hset : (if bool_decide (pstate (getp s1 a) = SLEEPING)
        then modify (setp a (λ p, p <| pstate := RUNNABLE |>)) else ret tt) (setp a (λ p, p <| pkilled := true |>) s1)
        = Ok tt (setp a marked s1)).
    { unfold marked. destruct (bool_decide (pstate (getp s1 a) = SLEEPING)) eqn:Es.
      - unfold modify. rewrite setp_setp. unfold setp. by rewrite Es.
      - unfold ret, setp. by rewrite Es. }
    eapply returns_bind; [apply (returns_eq _ _ _ _ Hset)|]. intros u s2 [_ ->].
    eapply returns_rel; [exact Ht|by apply elem_of_singleton|]. rewrite difference_diag_L. intros t2 Ht2.
    apply returns_ret. exists t2. split; [done|]. left. exists a. split_and!; [lia|lia|done|lia|done|done].
  - eapply returns_rel; [exact Ht|by apply elem_of_singleton|]. rewrite difference_diag_L. intros t2 Ht2.
    eapply returns_mono; [apply (IH (S a) (s1 <| sy := t2 |>)); [lia|exact Ht2|exact Hlen]|].
    intros r s' (t3 & Ht3 & Hcase). exists t3. split; [done|].
    assert (Ha : ∀ j, j = a → has_pid pid (getp s j) = false) by (intros j ->; exact E).
    destruct Hcase as [(i & Hi & Hpi & Hbef & -> & ->)|(-> & Hno & ->)].
    + left. exists i. split_and!; [lia|lia|exact Hpi| |done|done].
      intros j Hj. destruct (decide (j = a)); [by apply Ha|]. apply Hbef. lia.
    + right. split_and!; [done| |done]. intros j Hj. destruct (decide (j = a)); [by apply Ha|]. apply Hno. lia.
Qed.

End Table.
