(* ===== verification/ProcMem.v ===== *)
(** The memory of processes: [proc_pagetable] and [proc_freepagetable] (proc.c),
    and the partition of physical memory among all processes. *)

From S2P Require Import Prelude Machine CString Kalloc Vm PageTable AddrSpace Uvm UvmCopy UvmFree.
From S2P Require Import Spinlock Bio Fs File Proc.

Ltac top_lia := change TRAMPOLINE with 274877902848 in *; va_lia.

Section Images.
Context {LK : Linker} {LKok : LinkerOk}.

Definition RX : Z := Z.lor PTE_R PTE_X.

Definition RW : Z := Z.lor PTE_R PTE_W.

(** The user image of a process: [sz] bytes of memory from address 0, the
    trapframe page and the trampoline at the top, neither accessible to user
    code. *)
Record image (k : kmem_state) (l : list Z) (pt tf sz : Z) : Prop := {
  im_uvm : uvm k pt (pages_of sz) l;
  im_sz : 0 ≤ sz ≤ TRAPFRAME;
  im_high : ∀ va, TRAPFRAME ≤ va < MAXVA →
    vpte k pt va = if decide (va < TRAMPOLINE) then leaf tf RW else leaf trampoline RX;
}.

(** A change of the entries at the top only. *)
Lemma uvm_low s s' pt n l l' :
  uvm s pt n l → pt_ok 2 s' pt l' → phys_top s' = phys_top s →
  l' ++ tables s' pt ≡ₚ l ++ tables s pt →
  (∀ va, 0 ≤ va < VATOP → ¬ TRAPFRAME ≤ va < MAXVA → vpte s' pt va = vpte s pt va) →
  uvm s' pt n l' ∧ owned n s' pt l' ≡ₚ owned n s pt l.
Proof.
  intros [Hok Hsep Hr Htop Habove Hhigh] Hok' Ht Hp Hv.
  assert (En : frames n s' pt 0 = frames n s pt 0).
  { apply frames_ext; try va_lia. intros va' Hva'. apply Hv; va_lia. }
  assert (Hown : owned n s' pt l' ≡ₚ owned n s pt l) by (unfold owned; by rewrite En, Hp).
  split; [|done]. split; try done.
  - by rewrite Hown.
  - by rewrite En, Ht.
  - intros va Hva. unfold mapped. rewrite Hv by va_lia. by apply Habove.
  - intros va Hva. unfold mapped. rewrite Hv by va_lia. by apply Hhigh.
Qed.

Lemma uvmcreate_ok k l :
  kinv k l →
  returns uvmcreate k (λ r k',
    r = 0 ∧ l = [] ∧ k' = k
    ∨ ∃ l', l = r :: l' ∧ r ≠ 0 ∧ uvm k' r 0 l' ∧ tables k' r = [r] ∧ (∀ va, vpte k' r va = 0)
        ∧ mem_frame [r] (mem k) (mem k') ∧ phys_top k' = phys_top k).
Proof.
  intros Hk. unfold uvmcreate. destruct l as [|p l].
  { eapply returns_bind; [apply (returns_eq _ _ _ _ (kalloc_none k Hk))|]. intros r k' [-> ->].
    apply returns_ret. by left. }
  pose proof (kinv_pages _ _ Hk) as Hpg. apply Forall_cons in Hpg as [Hp _].
  pose proof (kinv_nodup _ _ Hk) as Hnd. apply NoDup_cons in Hnd as [Hpl _].
  pose proof (page_ok_nonzero _ _ Hp) as Hp0.
  eapply returns_bind; [by apply (kalloc_some k p l)|]. intros r k1 (-> & Hk1 & Hf1 & Ht1 & _).
  rewrite (proj2 (Z.eqb_neq p 0)) by done.
  eapply returns_bind; [apply (returns_modify _ _ (λ _ k2, k2 = with_mem (memset (mem k1) p 0 PGSIZE) k1)); done|].
  intros u k2 ->. apply returns_ret. right. exists l. set (k2 := with_mem _ k1).
  destruct (zero_table 2 (mem k2) p) as (Htab & Hv & Hpl2).
  { intros j Hj. by apply memset_zero_table. }
  assert (Hf2 : mem_frame [p] (mem k1) (mem k2)) by apply mem_frame_memset.
  assert (Hal : Forall (λ p, p mod PGSIZE = 0) [p]) by (apply Forall_singleton, (page_ok_aligned _ _ Hp)).
  assert (Hk2 : kinv k2 l).
  { apply (kinv_frame [p] k1 k2 l Hk1 Hf2); [reflexivity|reflexivity|exact Hal|].
    intros q Hq ->%list_elem_of_singleton. contradiction. }
  assert (Ht2 : phys_top k2 = phys_top k1) by reflexivity. clearbody k2.
  fold (tables k2 p) in Htab. split_and!; try done; try congruence.
  - split; try done.
    + split; try done; fold (tables k2 p); rewrite Htab.
      * rewrite <- Permutation_cons_append. apply NoDup_cons. split; [done|apply Hk2].
      * apply Forall_singleton. by rewrite Ht2, Ht1.
    + unfold owned. cbn [frames]. rewrite app_nil_l, Htab, <- Permutation_cons_append.
      apply NoDup_cons. split; [done|apply Hk2].
    + intros va Hva. unfold mapped, vpte. by rewrite Hv.
    + intros va Hva. unfold mapped, vpte. by rewrite Hv.
  - by apply (mem_frame_trans _ _ (mem k1)).
Qed.

(** Mapping one page at the top. *)
Lemma map_top k pt l va pa perm :
  uvm k pt 0 l → va = TRAPFRAME ∨ va = TRAMPOLINE → 0 ≤ pa → pa mod PGSIZE = 0 → pa + PGSIZE ≤ 2 ^ 56 →
  0 ≤ perm < 1024 → (∀ va', va ≤ va' < va + PGSIZE → mapped k pt va' = false) →
  returns (mappages pt va PGSIZE pa perm) k (λ r k', ∃ l', uvm k' pt 0 l'
    ∧ l' ++ tables k' pt ≡ₚ l ++ tables k pt ∧ phys_top k' = phys_top k
    ∧ mem_frame (l ++ tables k pt) (mem k) (mem k')
    ∧ (r = 0 ∨ r = -1)
    ∧ ∀ va', 0 ≤ va' < VATOP → vpte k' pt va'
        = if decide (r = 0 ∧ va ≤ va' < va + PGSIZE) then leaf pa perm else vpte k pt va').
Proof.
  intros Hu Hva Hpa Hal Hmax Hperm Hfree. pose proof (uvm_pt _ _ _ _ Hu) as Hok.
  replace PGSIZE with (1 * PGSIZE) at 2 by lia.
  eapply returns_mono; [apply (mappages_ok k pt l va 1 pa perm); try done; try (destruct Hva as [-> | ->]; top_lia); try lia|].
  intros r k' (l' & n & Hok' & (new & El & Ht & Htab & Hf) & Hm & Hr). exists l'.
  assert (Hp : l' ++ tables k' pt ≡ₚ l ++ tables k pt) by (rewrite Htab, El, app_assoc; f_equiv; apply Permutation_app_comm).
  assert (Hv : ∀ va', 0 ≤ va' < VATOP → vpte k' pt va'
        = if decide (r = 0 ∧ va ≤ va' < va + PGSIZE) then leaf pa perm else vpte k pt va').
  { intros va' Hva'. rewrite Hm by done. destruct Hr as [[-> ->]|(-> & _ & Hn)].
    - destruct (decide (va ≤ va' < va + 1 * PGSIZE)) as [Hin|Hout];
        [rewrite decide_True by lia|rewrite decide_False by lia; done].
      f_equal. destruct Hva as [-> | ->]; top_lia.
    - rewrite decide_False by top_lia. by rewrite decide_False by lia. }
  destruct (uvm_low k k' pt 0 l l') as [Hu' _]; try done.
  { intros va' Hva' Hne. rewrite Hv by done. rewrite decide_False; [done|]. destruct Hva as [-> | ->]; top_lia. }
  split_and!; try done.
  - eapply mem_frame_mono; [|exact Hf]. intros p. rewrite El, !elem_of_app. tauto.
  - destruct Hr as [[-> _]|(-> & _)]; auto.
Qed.

Lemma trampoline_page : 0 ≤ trampoline ∧ trampoline mod PGSIZE = 0 ∧ trampoline + PGSIZE ≤ 2 ^ 56.
Proof.
  pose proof trampoline_low. pose proof trampoline_text. pose proof etext_aligned. pose proof etext_kend.
  pose proof kend_small. change KERNBASE with 2147483648 in *. page_lia.
Qed.

(** Unmapping a page at the top, keeping what it maps to. *)
Lemma unmap_top k pt n l va :
  uvm k pt n l → va = TRAPFRAME ∨ va = TRAMPOLINE →
  returns (uvmunmap pt va 1 false) k (λ _ k', uvm k' pt n l ∧ tables k' pt = tables k pt
    ∧ owned n k' pt l ≡ₚ owned n k pt l
    ∧ phys_top k' = phys_top k ∧ mem_frame (tables k pt) (mem k) (mem k')
    ∧ ∀ va', 0 ≤ va' < VATOP → vpte k' pt va'
        = if decide (va ≤ va' < va + PGSIZE) then (if mapped k pt va' then 0 else vpte k pt va') else vpte k pt va').
Proof.
  intros Hu Hva. eapply returns_mono; [apply (uvmunmap_ok 1 k pt l va false); try done|].
  - apply (uvm_pt _ _ _ _ Hu).
  - by destruct Hva as [-> | ->].
  - destruct Hva as [-> | ->]; top_lia.
  - destruct Hva as [-> | ->]; top_lia.
  - intros u k' (Hok & Htab & Ht & Hf & Hv).
    assert (Hv' : ∀ va', 0 ≤ va' < VATOP → vpte k' pt va'
        = if decide (va ≤ va' < va + PGSIZE) then (if mapped k pt va' then 0 else vpte k pt va') else vpte k pt va').
    { intros va' Hva'. rewrite Hv by done. by replace (Z.of_nat 1 * PGSIZE) with PGSIZE by lia. }
    destruct (uvm_low k k' pt n l l) as [Hu' Hown]; try done.
    + by rewrite Htab.
    + intros va' Hva' Hne. rewrite Hv' by done. rewrite decide_False; [done|]. destruct Hva as [-> | ->]; top_lia.
Qed.

Lemma proc_freepagetable_ok k l pt tf sz :
  image k l pt tf sz →
  returns (proc_freepagetable pt sz) k (λ _ k', ∃ l', kinv k' l' ∧ l' ≡ₚ owned (pages_of sz) k pt l
    ∧ phys_top k' = phys_top k ∧ mem_frame (owned (pages_of sz) k pt l) (mem k) (mem k')).
Proof.
  intros [Hu Hsz Hh]. set (n := pages_of sz) in *. unfold proc_freepagetable.
  eapply returns_bind; [by apply (unmap_top k pt n l TRAMPOLINE); [|right]|].
  intros _ k1 (Hu1 & Htab1 & Hown1 & Ht1 & Hf1 & Hv1).
  eapply returns_bind; [by apply (unmap_top k1 pt n l TRAPFRAME); [|left]|].
  intros _ k2 (Hu2 & Htab2 & Hown2 & Ht2 & Hf2 & Hv2).
  eapply returns_mono; [apply (uvmfree_ok k2 pt l sz); try done|].
  - intros va Hva. unfold mapped. rewrite Hv2 by top_lia. destruct (decide (va < TRAMPOLINE)) as [Hlo|Hhi].
    + rewrite decide_True by top_lia. destruct (mapped k1 pt va) eqn:E; [done|exact E].
    + rewrite decide_False by top_lia. rewrite Hv1, decide_True by top_lia.
      destruct (mapped k pt va) eqn:E; [done|exact E].
  - intros _ k3 (l' & Hk3 & Hl' & Ht3 & Hf3). exists l'. fold n in Hl', Hf3.
    assert (Eown : owned n k2 pt l ≡ₚ owned n k pt l) by (by rewrite Hown2).
    split_and!; [done|by rewrite Hl'|congruence|].
    assert (Hsub : tables k pt ⊆ owned n k pt l) by (intros p; unfold owned; rewrite !elem_of_app; tauto).
    apply (mem_frame_trans _ _ (mem k1)); [by eapply mem_frame_mono|].
    apply (mem_frame_trans _ _ (mem k2)); [eapply mem_frame_mono; [|exact Hf2]; by rewrite Htab1|].
    by rewrite <- Eown.
Qed.

Lemma proc_pagetable_ok k l tf :
  kinv k l → page_ok (phys_top k) tf →
  returns (proc_pagetable tf) k (λ r k', ∃ l', phys_top k' = phys_top k ∧ mem_frame l (mem k) (mem k')
    ∧ (r = 0 ∧ kinv k' l' ∧ l' ≡ₚ l
       ∨ r ≠ 0 ∧ image k' l' r tf 0 ∧ l' ++ tables k' r ≡ₚ l)).
Proof.
  intros Hk Htf. pose proof (kinv_top _ _ Hk) as Htop. pose proof trampoline_page as (Hta & Htb & Htc).
  unfold proc_pagetable. eapply returns_bind; [by apply uvmcreate_ok|].
  intros pt k1 [(-> & -> & ->)|(l1 & -> & Hpt & Hu1 & Htab1 & Hv1 & Hf1 & Ht1)].
  { apply returns_ret. exists []. split_and!; auto with frame. }
  rewrite (proj2 (Z.eqb_neq pt 0)) by done.
  assert (Hm1 : ∀ va, mapped k1 pt va = false) by (intros va; unfold mapped; by rewrite Hv1).
  assert (Hp1 : l1 ++ tables k1 pt ≡ₚ pt :: l1) by (rewrite Htab1; symmetry; apply Permutation_cons_append).
  assert (Hfr1 : mem_frame (pt :: l1) (mem k) (mem k1)) by (eapply mem_frame_mono; [|exact Hf1]; set_solver).
  (* what giving everything back leads to *)
  assert (Hgive : ∀ k2 l2, uvm k2 pt 0 l2 → l2 ++ tables k2 pt ≡ₚ pt :: l1 → phys_top k2 = phys_top k →
    mem_frame (pt :: l1) (mem k) (mem k2) → (∀ va, TRAPFRAME ≤ va < MAXVA → mapped k2 pt va = false) →
    returns (uvmfree pt 0 ;;; ret 0) k2 (λ r k', ∃ l', phys_top k' = phys_top k
      ∧ mem_frame (pt :: l1) (mem k) (mem k') ∧ (r = 0 ∧ kinv k' l' ∧ l' ≡ₚ pt :: l1
         ∨ r ≠ 0 ∧ image k' l' r tf 0 ∧ l' ++ tables k' r ≡ₚ pt :: l1))).
  { intros k2 l2 Hu2 Hp2 Ht2 Hf2 Hm2. eapply returns_bind; [by apply (uvmfree_ok k2 pt l2 0)|].
    intros _ k3 (l3 & Hk3 & Hl3 & Ht3 & Hf3). apply returns_ret. exists l3.
    change (pages_of 0) with 0%nat in *. unfold owned in *. cbn [frames] in *. rewrite app_nil_l in *.
    split_and!; [congruence| |left; split_and!; [done|done|by rewrite Hl3]].
    apply (mem_frame_trans _ _ (mem k2)); [done|]. by rewrite <- Hp2. }
  eapply returns_bind; [apply (map_top k1 pt l1 TRAMPOLINE trampoline RX Hu1); [by right|done..]|].
  intros r k2 (l2 & Hu2 & Hp2 & Ht2 & Hf2 & Hr2 & Hv2).
  assert (Hfr2 : mem_frame (pt :: l1) (mem k) (mem k2)) by (apply (mem_frame_trans _ _ (mem k1)); [done|by rewrite <- Hp1]).
  destruct Hr2 as [-> | ->]; cbn [Z.ltb Z.compare].
  2:{ apply (Hgive k2 l2); [done|by rewrite Hp2|congruence|done|].
      intros va Hva. unfold mapped. rewrite Hv2, decide_False, Hv1 by top_lia. done. }
  pose proof (page_ok_range _ _ Htf Htop) as Htr.
  assert (Htr' : tf + PGSIZE ≤ 2 ^ 56) by (pose proof Htf as (_ & _ & ?); page_lia).
  eapply returns_bind; [apply (map_top k2 pt l2 TRAPFRAME tf RW Hu2); try done; [by left|lia|by eapply page_ok_aligned|]|].
  { intros va Hva. unfold mapped. rewrite Hv2, decide_False, Hv1 by top_lia. done. }
  intros r k3 (l3 & Hu3 & Hp3 & Ht3 & Hf3 & Hr3 & Hv3).
  assert (Hfr3 : mem_frame (pt :: l1) (mem k) (mem k3)).
  { apply (mem_frame_trans _ _ (mem k2)); [done|]. by rewrite <- Hp1, <- Hp2. }
  destruct Hr3 as [-> | ->]; cbn [Z.ltb Z.compare].
  - apply returns_ret. exists l3. split_and!; [congruence|done|right]. split_and!; [done| |by rewrite Hp3, Hp2].
    split; [done|done|]. intros va Hva. rewrite Hv3 by top_lia.
    destruct (decide (va < TRAMPOLINE)); [rewrite decide_True by top_lia; done|].
    rewrite decide_False by top_lia. rewrite Hv2, decide_True by top_lia. done.
  - eapply returns_bind; [apply (unmap_top k3 pt 0 l3 TRAMPOLINE Hu3); by right|].
    intros _ k4 (Hu4 & Htab4 & Hown4 & Ht4 & Hf4 & Hv4). apply (Hgive k4 l3); [done| |congruence| |].
    + by rewrite Htab4, Hp3, Hp2.
    + apply (mem_frame_trans _ _ (mem k3)); [done|]. eapply mem_frame_mono; [|exact Hf4].
      intros p Hp. rewrite <- Hp1, <- Hp2, <- Hp3. apply elem_of_app. by right.
    + intros va Hva. unfold mapped. rewrite Hv4 by top_lia. destruct (decide (TRAMPOLINE ≤ va < _)).
      * destruct (mapped k3 pt va) eqn:E; [done|exact E].
      * rewrite Hv3, decide_False by top_lia. rewrite Hv2, decide_False, Hv1 by top_lia. done.
Qed.

End Images.

(** ** Physical memory, divided among the free list and the processes *)

Section System.
Context {LK : Linker} {LKok : LinkerOk}.

(** The pages of one process: its trapframe, its frames and its page tables. *)
Definition pmem (k : kmem_state) (p : proc) : list Z :=
  (if ptrapframe p =? 0 then [] else [ptrapframe p])
  ++ (if ppagetable p =? 0 then []
      else frames (pages_of (psz p)) k (ppagetable p) 0 ++ tables k (ppagetable p)).

(** The part of a process that says which memory it has. *)
Record pimage (k : kmem_state) (l : list Z) (p : proc) : Prop := {
  pi_tf : ptrapframe p ≠ 0 → page_ok (phys_top k) (ptrapframe p);
  pi_image : ppagetable p ≠ 0 →
    ptrapframe p ≠ 0 ∧ image k l (ppagetable p) (ptrapframe p) (psz p);
}.

Record msys (k : kmem_state) (l : list Z) (ps : list proc) : Prop := {
  ms_kinv : kinv k l;
  ms_sep : NoDup (l ++ (ps ≫= pmem k));
  ms_proc : ∀ i p, ps !! i = Some p → pimage k l p;
}.

Lemma insert_delete_perm {A} (l : list A) i x y :
  l !! i = Some x → <[i := y]> l ≡ₚ y :: delete i l.
Proof.
  intros Hi. pose proof (lookup_lt_Some _ _ _ Hi). rewrite (delete_Permutation (<[i := y]> l) i y).
  - rewrite !delete_take_drop, take_insert_ge, drop_insert_lt by lia. done.
  - by rewrite list_lookup_insert_eq.
Qed.

Lemma bind_ext_list {A C} (f g : A → list C) (l : list A) :
  (∀ x, x ∈ l → f x = g x) → (l ≫= f) = (l ≫= g).
Proof.
  induction l as [|x l IH]; intros Hfg; [done|]. rewrite !bind_cons, (Hfg x) by left.
  f_equal. apply IH. intros y Hy. apply Hfg. by right.
Qed.

Lemma delete_elem {A} (l : list A) i x : x ∈ delete i l → ∃ j, j ≠ i ∧ l !! j = Some x.
Proof.
  intros Hx. apply list_elem_of_lookup in Hx as [j Hj]. destruct (decide (j < i)%nat).
  - exists j. rewrite list_lookup_delete_lt in Hj by done. split; [lia|done].
  - exists (S j). rewrite list_lookup_delete_ge in Hj by lia. split; [lia|done].
Qed.

Lemma pmem_aligned k l p : pimage k l p → Forall (λ q, q mod PGSIZE = 0) (pmem k p).
Proof.
  intros [Htf Him]. unfold pmem. apply Forall_app. split.
  - destruct (Z.eqb_spec (ptrapframe p) 0); [constructor|]. apply Forall_singleton.
    by eapply page_ok_aligned, Htf.
  - destruct (Z.eqb_spec (ppagetable p) 0); [constructor|]. destruct (Him ltac:(done)) as [_ [Hu _ _]].
    destruct Hu as [[_ _ Hr _] _ Hf _ _ _]. apply Forall_app. split; by eapply pages_aligned.
Qed.

(** The memory of a process is as before: the same pages with the same bytes,
    mapped the same way. *)
Record kept (k k' : kmem_state) (p : proc) : Prop := {
  kp_pages : pmem k' p = pmem k p;
  kp_bytes q b : q ∈ pmem k p → in_page q b → mget (mem k') b = mget (mem k) b;
  kp_map va : ppagetable p ≠ 0 → vpte k' (ppagetable p) va = vpte k (ppagetable p) va;
}.

Lemma kept_refl k p : kept k k p.
Proof. by split. Qed.

Lemma kept_trans k1 k2 k3 p : kept k1 k2 p → kept k2 k3 p → kept k1 k3 p.
Proof.
  intros [P1 B1 V1] [P2 B2 V2]. split; [congruence| |].
  - intros q b Hq Hb. rewrite (B2 q) by (rewrite ?P1; done). by apply (B1 q).
  - intros va Hp. rewrite V2, V1 by done. done.
Qed.

(** A process that owns none of the pages [Q] is not affected by changes to
    them. *)
Lemma pimage_frame Q k k' l l' p :
  pimage k l p → kinv k' l' → phys_top k' = phys_top k → mem_frame Q (mem k) (mem k') →
  Forall (λ q, q mod PGSIZE = 0) Q → l' ⊆ Q → (∀ q, q ∈ pmem k p → q ∉ Q) →
  pimage k' l' p ∧ kept k k' p.
Proof.
  intros Hp Hk' Ht Hf Hal Hl Hd. pose proof (pmem_aligned k l p Hp) as Hpal.
  assert (Hbytes : ∀ q b, q ∈ pmem k p → in_page q b → mget (mem k') b = mget (mem k) b).
  { intros q b Hq Hb. apply (mem_frame_byte Q _ _ q); try done; [|by apply Hd].
    rewrite Forall_forall in Hpal. by apply Hpal. }
  destruct Hp as [Htf Him]. destruct (decide (ppagetable p = 0)) as [E|Hpt].
  { assert (Epm : pmem k' p = pmem k p) by (unfold pmem; by rewrite E).
    split; [|by split]. split; [by rewrite Ht|done]. }
  destruct (Him Hpt) as [Htf0 [Hu Hsz Hh]].
  assert (Hsub : ∀ q, q ∈ frames (pages_of (psz p)) k (ppagetable p) 0 ++ tables k (ppagetable p) → q ∉ Q).
  { intros q Hq. apply Hd. unfold pmem. rewrite (proj2 (Z.eqb_neq _ _) Hpt). apply elem_of_app. by right. }
  destruct (uvm_other Q k k' (ppagetable p) (pages_of (psz p)) l l') as (Hu' & Htab & Hv & _); try done.
  assert (Efr : frames (pages_of (psz p)) k' (ppagetable p) 0 = frames (pages_of (psz p)) k (ppagetable p) 0).
  { pose proof (uvm_top _ _ _ _ Hu). apply frames_ext; try va_lia. intros va _. apply Hv. }
  split; [|split; [unfold pmem; by rewrite Efr, Htab|done|done]].
  split; [by rewrite Ht|]. intros _. split; [done|]. split; [done|done|]. intros va Hva. rewrite Hv. by apply Hh.
Qed.

(** One process changes, using its own pages and free ones. *)
Lemma msys_step k k' l l' ps i p p' :
  msys k l ps → ps !! i = Some p → kinv k' l' → phys_top k' = phys_top k →
  mem_frame (l ++ pmem k p) (mem k) (mem k') → l' ++ pmem k' p' ≡ₚ l ++ pmem k p → pimage k' l' p' →
  msys k' l' (<[i := p']> ps)
  ∧ ∀ j q, j ≠ i → ps !! j = Some q → kept k k' q.
Proof.
  intros [Hk Hsep Hps] Hi Hk' Ht Hf Hperm Hp'.
  assert (Eps : ps ≡ₚ p :: delete i ps) by (by apply delete_Permutation).
  assert (Hsep2 : NoDup ((l ++ pmem k p) ++ (delete i ps ≫= pmem k))).
  { revert Hsep. rewrite Eps at 1. by rewrite bind_cons, app_assoc. }
  assert (Hal : Forall (λ q, q mod PGSIZE = 0) (l ++ pmem k p)).
  { apply Forall_app. split; [eapply pages_aligned, kinv_pages; exact Hk|]. eapply pmem_aligned, Hps, Hi. }
  assert (Hother : ∀ j q, j ≠ i → ps !! j = Some q → pimage k' l' q ∧ kept k k' q).
  { intros j q Hne Hj. apply (pimage_frame (l ++ pmem k p) k k' l l' q); try done; [by eapply Hps| |].
    - intros a Ha. rewrite <- Hperm. apply elem_of_app. by left.
    - intros a Ha Hin. apply NoDup_app in Hsep2 as (_ & Hd & _). apply (Hd a Hin).
      apply list_elem_of_bind. exists q. split; [done|].
      apply list_elem_of_lookup. destruct (decide (j < i)%nat).
      + exists j. by rewrite list_lookup_delete_lt.
      + exists (j - 1)%nat. rewrite list_lookup_delete_ge by lia. by replace (S (j - 1)) with j by lia. }
  split; [|intros j q Hne Hj; by destruct (Hother j q Hne Hj)]. split; [done| |].
  - rewrite (insert_delete_perm ps i p p' Hi), bind_cons, app_assoc.
    rewrite (bind_ext_list (pmem k') (pmem k)).
    + by rewrite Hperm.
    + intros q Hq. apply delete_elem in Hq as (j & Hne & Hj). by destruct (Hother j q Hne Hj) as (_ & [? _ _]).
  - intros j q. destruct (decide (j = i)) as [->|Hne].
    + rewrite list_lookup_insert_eq by (by eapply lookup_lt_Some). by intros [= <-].
    + rewrite list_lookup_insert_ne by done. intros Hj. by destruct (Hother j q Hne Hj).
Qed.

(** Giving the trapframe and the address space of a process back. *)
Lemma release_image k l p :
  kinv k l → pimage k l p → NoDup (l ++ pmem k p) →
  returns (if negb (ptrapframe p =? 0) then kfree (ptrapframe p) else ret tt) k (λ _ k1,
    returns (if negb (ppagetable p =? 0) then proc_freepagetable (ppagetable p) (psz p) else ret tt) k1 (λ _ k2,
      ∃ l', kinv k2 l' ∧ l' ≡ₚ l ++ pmem k p ∧ phys_top k2 = phys_top k
        ∧ mem_frame (l ++ pmem k p) (mem k) (mem k2))).
Proof.
  intros Hk [Htf Him] Hnd. unfold pmem in *.
  destruct (Z.eqb_spec (ptrapframe p) 0) as [E0|Htf0]; cbn [negb].
  { assert (Ept : ppagetable p = 0) by (destruct (decide (ppagetable p = 0)); [done|by destruct (Him ltac:(done))]).
    apply returns_ret. rewrite Ept. simpl. apply returns_ret. exists l. rewrite app_nil_r. split_and!; auto with frame. }
  set (tf := ptrapframe p) in *. set (pt := ppagetable p) in *. set (n := pages_of (psz p)) in *.
  set (rest := if pt =? 0 then [] else frames n k pt 0 ++ tables k pt) in *.
  change ([tf] ++ rest) with (tf :: rest) in *.
  assert (Hperm : l ++ tf :: rest ≡ₚ (tf :: l) ++ rest) by (by rewrite <- Permutation_middle).
  rewrite Hperm in Hnd. apply NoDup_cons in Hnd as [Htfn Hnd].
  eapply returns_mono; [apply (kfree_ok k tf l Hk); [by apply Htf|]|].
  { intros Hin. apply Htfn, elem_of_app. by left. }
  intros _ k1 (Hk1 & Hf1 & Ht1).
  assert (Hf1' : mem_frame (tf :: l) (mem k) (mem k1)) by (eapply mem_frame_mono; [|exact Hf1]; set_solver).
  subst rest. destruct (Z.eqb_spec pt 0) as [E|Hpt]; cbn [negb].
  { apply returns_ret. exists (tf :: l). rewrite Hperm, app_nil_r. split_and!; try done. }
  destruct (Him Hpt) as [_ [Hu Hsz Hh]]. fold pt n in Hu.
  assert (Hal : Forall (λ p, p mod PGSIZE = 0) (tf :: l)) by (eapply pages_aligned, kinv_pages; exact Hk1).
  apply NoDup_app in Hnd as (Hndl & Hd & Hnd).
  destruct (uvm_other (tf :: l) k k1 pt n l (tf :: l)) as (Hu1 & Htab1 & Hv1 & _); try done.
  { intros q Hq. rewrite not_elem_of_cons. split.
    - intros ->. apply Htfn, elem_of_app. by right.
    - intros Hq'. by apply (Hd q). }
  assert (Efr : frames n k1 pt 0 = frames n k pt 0).
  { pose proof (uvm_top _ _ _ _ Hu). apply frames_ext; try va_lia. intros va _. apply Hv1. }
  eapply returns_mono; [apply (proc_freepagetable_ok k1 (tf :: l) pt tf (psz p))|].
  { split; [done|done|]. intros va Hva. rewrite Hv1. by apply Hh. }
  fold n. unfold owned. rewrite Efr, Htab1.
  assert (Hperm2 : frames n k pt 0 ++ (tf :: l) ++ tables k pt ≡ₚ l ++ tf :: frames n k pt 0 ++ tables k pt).
  { rewrite Hperm, (app_assoc (frames n k pt 0)), (Permutation_app_comm (frames n k pt 0)).
    by rewrite <- app_assoc. }
  intros _ k2 (l' & Hk2 & Hl' & Ht2 & Hf2). exists l'. rewrite Hperm2 in Hl', Hf2. split_and!; [done|done|congruence|].
  apply (mem_frame_trans _ _ (mem k1)); [|done]. eapply mem_frame_mono; [|exact Hf1'].
  intros q. rewrite elem_of_cons, elem_of_app, elem_of_cons. tauto.
Qed.

End System.
