(* ===== verification/ProcLife.v ===== *)
(** Creating and destroying processes: [freeproc], [allocproc], [growproc],
    [kfork], [kwait] (proc.c) on the process table and on physical memory. *)

From S2P Require Import Prelude Machine CString Kalloc Vm PageTable AddrSpace Uvm UvmCopy UvmFree CopyIO.
From S2P Require Import Spinlock Bio Fs File Proc ProcBase ProcTable ProcMem.

Section Life.
Context {B X : Type} `{BlockCache B} {LK : Linker} {LKok : LinkerOk} {SY : Symbols} {SYok : SymbolsOk}.
Context (hart : Z).
Implicit Types s : kstate B X.

(** The state with its memory replaced. *)
Definition with_kmem (k : kmem_state) s : kstate B X :=
  s <| fsys := (fsys s) <| fs := FState k (cache (fs (fsys s))) (itable (fs (fsys s))) (sb (fs (fsys s))) |> |>.

Lemma kmem_with k s : kmem (with_kmem k s) = k.
Proof. done. Qed.

Lemma with_kmem_id s : with_kmem (kmem s) s = s.
Proof. by destruct s as [[[]] ? ? ? ? ? ? ?]. Qed.

Lemma returns_kmem {A C} (m : K A) (c : A → M (kstate B X) C) s R Q :
  returns m (kmem s) R → (∀ a k, R a k → returns (c a) (with_kmem k s) Q) →
  returns (bind (on_kmem m) c) s Q.
Proof.
  intros (a & k & E & HR) Hc. destruct (Hc a k HR) as (b & s' & Ec & HQ). exists b, s'. split; [|done].
  unfold bind, on_kmem, on_files, on_fs, on_mem, zoom. unfold kmem in E. by rewrite E.
Qed.

Lemma returns_kmem_modify {C} f (c : unit → M (kstate B X) C) s Q :
  returns (c tt) (with_kmem (f (kmem s)) s) Q → returns (bind (on_kmem (modify f)) c) s Q.
Proof. done. Qed.

(** [if b then on_kmem m else ret a] *)
Lemma on_kmem_if {A} (b : bool) (m : K A) (a : A) s :
  (if b then on_kmem m else ret a) s = on_kmem (if b then m else ret a) s.
Proof. destruct b; [done|]. unfold on_kmem, on_files, on_fs, on_mem, zoom, ret. by destruct s as [[[]] ? ? ? ? ? ? ?]. Qed.

Lemma returns_kmem_if {A C} (b : bool) (m : K A) a (c : A → M (kstate B X) C) s R Q :
  returns (if b then m else ret a) (kmem s) R → (∀ a k, R a k → returns (c a) (with_kmem k s) Q) →
  returns (bind (if b then on_kmem m else ret a) c) s Q.
Proof.
  intros Hm Hc. destruct (returns_kmem (if b then m else ret a) c s R Q Hm Hc) as (v & s' & E & HQ).
  exists v, s'. split; [|done]. revert E. unfold bind. by rewrite on_kmem_if.
Qed.

Lemma setp_kmem k i f s : with_kmem k (setp i f s) = setp i f (with_kmem k s).
Proof. done. Qed.

Lemma kmem_kmem k k' s : with_kmem k (with_kmem k' s) = with_kmem k s.
Proof. done. Qed.

(** ** [freeproc] *)

Definition freed (p : proc) : proc :=
  p <| ptrapframe := 0 |> <| ppagetable := 0 |> <| psz := 0 |> <| ppid := 0 |>
    <| pfpu := fpu0 |> <| pfpu_used := false |> <| pfpu_active := false |>
    <| pparent := None |> <| pname := <[0%nat := 0]> (pname p) |>
    <| pchan := 0 |> <| pkilled := false |> <| pxstate := 0 |> <| pstate := UNUSED |>.

Lemma getp_lookup s i p : procs s !! i = Some p → getp s i = p.
Proof. intros E. unfold getp. by rewrite E. Qed.

Lemma lookup_getp s i : (i < length (procs s))%nat → procs s !! i = Some (getp s i).
Proof. intros Hi. unfold getp. by destruct (lookup_lt_is_Some_2 (procs s) i Hi) as [p ->]. Qed.

(** The memory of all processes but [i] is as before. *)
Definition others_kept (k k' : kmem_state) (ps : list proc) (i : nat) : Prop :=
  ∀ j q, j ≠ i → ps !! j = Some q → kept k k' q.

Lemma msys_nodup k l ps i p : msys k l ps → ps !! i = Some p → NoDup (l ++ pmem k p).
Proof.
  intros [_ Hsep _] Hi. rewrite (delete_Permutation ps i p Hi), bind_cons, app_assoc in Hsep.
  by apply NoDup_app in Hsep as [? _].
Qed.

Lemma freed_pmem k p : pmem k (freed p) = [].
Proof. done. Qed.

Lemma freed_pimage k l p : pimage k l (freed p).
Proof. by split. Qed.

Lemma freeproc_ok s l i :
  msys (kmem s) l (procs s) → (i < length (procs s))%nat →
  returns (freeproc i) s (λ _ s', ∃ k' l', s' = setp i freed (with_kmem k' s)
    ∧ msys k' l' (<[i := freed (getp s i)]> (procs s)) ∧ l' ≡ₚ l ++ pmem (kmem s) (getp s i)
    ∧ others_kept (kmem s) k' (procs s) i).
Proof.
  intros Hm Hi. set (p := getp s i). pose proof (lookup_getp s i Hi) as Hp. fold p in Hp.
  unfold freeproc, free_fpu. psteps. fold p.
  eapply returns_kmem_if.
  { apply (release_image (kmem s) l p); [apply Hm|by eapply ms_proc|by eapply msys_nodup]. }
  intros [] k1 Hr. psteps. eapply returns_kmem_if; [exact Hr|].
  intros [] k2 (l' & Hk2 & Hl' & Ht2 & Hf2). psteps. rewrite !setp_setp.
  destruct (msys_step (kmem s) k2 l l' (procs s) i p (freed p) Hm Hp) as [Hm' Ho]; try done.
  { by rewrite freed_pmem, app_nil_r. }
  apply returns_modify. exists k2, l'. split_and!; [|done..].
  rewrite !setp_kmem, !kmem_kmem, !setp_setp. reflexivity.
Qed.

(** ** [allocproc] *)

Lemma find_unused_proc_ok n res s :
  held hart ∅ n res (sy s) →
  returns (find_unused_proc hart NPROCS) s (λ r s', ∃ t, s' = s <| sy := t |>
    ∧ match r with
      | None => held hart ∅ n res t ∧ ∀ i, (i < NP)%nat → pstate (getp s i) ≠ UNUSED
      | Some i => held hart {[proc_addr i]} n res t ∧ (i < NP)%nat ∧ pstate (getp s i) = UNUSED
          ∧ ∀ j, (j < i)%nat → pstate (getp s j) ≠ UNUSED
      end).
Proof.
  intros Hh. unfold NPROCS. fold NP.
  assert (Hgen : ∀ a m s, (a + m = NP)%nat → held hart ∅ n res (sy s) →
    (∀ j, (j < a)%nat → pstate (getp s j) ≠ UNUSED) →
    returns (find_unused_proc hart (seq a m)) s (λ r s', ∃ t, s' = s <| sy := t |>
    ∧ match r with
      | None => held hart ∅ n res t ∧ ∀ i, (i < NP)%nat → pstate (getp s i) ≠ UNUSED
      | Some i => held hart {[proc_addr i]} n res t ∧ (i < NP)%nat ∧ pstate (getp s i) = UNUSED
          ∧ ∀ j, (j < i)%nat → pstate (getp s j) ≠ UNUSED
      end)).
  { clear s Hh. intros a m. revert a. induction m as [|m IH]; intros a s Ham Hh Hlt; cbn [seq find_unused_proc].
    - apply returns_ret. exists (sy s). split; [by destruct s|]. split; [done|]. intros i Hi. apply Hlt. lia.
    - eapply returns_acq; [done|set_solver|]. intros t Ht. rewrite union_empty_r_L in Ht. psteps.
      change (getp (s <| sy := t |>) a) with (getp s a). case_bool_decide as E.
      + apply returns_ret. exists t. split_and!; auto; lia.
      + eapply returns_rel; [exact Ht|set_solver|]. intros t2 Ht2. rewrite difference_diag_L in Ht2.
        eapply returns_mono; [apply (IH (S a) (s <| sy := t |> <| sy := t2 |>))|].
        * lia.
        * done.
        * intros j Hj. destruct (decide (j = a)) as [->|]; [done|]. apply Hlt. lia.
        * intros r s' (t3 & -> & H3). exists t3. done. }
  apply (Hgen 0%nat); [lia|done|]. intros j Hj. lia.
Qed.

(** An unused entry has no memory. *)
Definition idle (p : proc) : Prop :=
  pstate p = UNUSED → ptrapframe p = 0 ∧ ppagetable p = 0 ∧ psz p = 0.

(** The entry [allocproc] hands out. *)
Definition newborn (pid tf pt : Z) (p : proc) : proc :=
  p <| ppid := pid |> <| pstate := USED |> <| ptrapframe := tf |> <| ppagetable := pt |>
    <| pcontext := Context_ forkret_addr (u64 (pkstack p + PGSIZE)) (replicate 12 0) |>.

(** A pid has been taken. *)
Definition took_pid s : kstate B X := s <| nextpid := s32 (nextpid s + 1) |>.

Lemma allocpid_ok {A} Hs n res (c : Z → M (kstate B X) A) s Q :
  held hart Hs n res (sy s) → pid_lock ∉ Hs →
  (∀ t, held hart Hs n res t → returns (c (nextpid s)) (took_pid (s <| sy := t |>)) Q) →
  returns (bind (allocpid hart) c) s Q.
Proof.
  intros Hh Hp Hc. unfold allocpid. psteps. eapply returns_acq; [done|done|]. intros t Ht. psteps.
  eapply returns_rel; [exact Ht|set_solver|]. intros t2 Ht2. rewrite union_minus in Ht2 by done. psteps.
  exact (Hc t2 Ht2).
Qed.

Lemma pmem_ext k p p' :
  ptrapframe p' = ptrapframe p → ppagetable p' = ppagetable p → psz p' = psz p → pmem k p' = pmem k p.
Proof. intros E1 E2 E3. unfold pmem. by rewrite E1, E2, E3. Qed.

(** Replacing an entry by one with the same memory. *)
Lemma msys_same k l ps i p p' :
  msys k l ps → ps !! i = Some p →
  ptrapframe p' = ptrapframe p → ppagetable p' = ppagetable p → psz p' = psz p →
  msys k l (<[i := p']> ps).
Proof.
  intros Hm Hi E1 E2 E3. assert (Ep : pmem k p' = pmem k p) by (by apply pmem_ext).
  destruct (ms_proc _ _ _ Hm i p Hi) as [Ht Him].
  apply (msys_step k k l l ps i p p'); try done; [apply Hm|by rewrite Ep|].
  split; by rewrite ?E1, ?E2, ?E3.
Qed.

Lemma others_kept_trans k k1 k2 ps ps' i :
  others_kept k k1 ps i → others_kept k1 k2 ps' i → (∀ j, j ≠ i → ps' !! j = ps !! j) → others_kept k k2 ps i.
Proof.
  intros H1 H2 He j q Hne Hj. eapply kept_trans; [by apply (H1 j)|]. apply (H2 j); [done|by rewrite He].
Qed.

(** Giving up a process that was being set up. *)
Lemma undo_alloc {A} (a : A) n res s i f l :
  held hart {[proc_addr i]} n res (sy s) → (i < length (procs s))%nat →
  msys (kmem s) l (procs (setp i f s)) →
  returns (freeproc i ;;; rel hart (proc_addr i) ;;; ret a) (setp i f s) (λ r s', r = a ∧ ∃ t k' l',
    held hart ∅ n res t ∧ s' = setp i (λ p, freed (f p)) (with_kmem k' (s <| sy := t |>)) ∧ msys k' l' (procs s')
    ∧ l' ≡ₚ l ++ pmem (kmem s) (f (getp s i)) ∧ others_kept (kmem s) k' (procs s) i).
Proof.
  intros Hh Hi Hm. assert (Hi2 : (i < length (procs (setp i f s)))%nat) by (by rewrite setp_length).
  eapply returns_bind; [apply (freeproc_ok (setp i f s) l i Hm Hi2)|].
  rewrite getp_setp, decide_True by done. change (kmem (setp i f s)) with (kmem s).
  intros [] s1 (k' & l' & -> & Hm' & Hl' & Ho). rewrite setp_kmem, setp_setp.
  eapply returns_rel; [exact Hh|set_solver|]. rewrite difference_diag_L. intros t Ht.
  apply returns_ret. split; [done|]. exists t, k', l'. split_and!; try done.
  - revert Hm'. unfold setp. cbn. by rewrite list_insert_insert_eq.
  - intros j q Hne Hj. apply (Ho j q Hne). unfold setp. cbn. by rewrite list_lookup_insert_ne.
Qed.

Lemma kalloc_cases k l :
  kinv k l → returns kalloc k (λ r k', r = 0 ∧ l = [] ∧ k' = k
    ∨ ∃ l', l = r :: l' ∧ r ≠ 0 ∧ page_ok (phys_top k) r ∧ kinv k' l' ∧ mem_frame [r] (mem k) (mem k')
      ∧ phys_top k' = phys_top k).
Proof.
  intros Hk. destruct l as [|p l].
  { exists 0, k. split; [by apply kalloc_none|by left]. }
  pose proof (kinv_pages _ _ Hk) as Hpg. apply Forall_cons in Hpg as [Hp _].
  eapply returns_mono; [by apply (kalloc_some k p l)|]. intros r k1 (-> & Hk1 & Hf1 & Ht1 & _).
  right. exists l. split_and!; auto. by eapply page_ok_nonzero.
Qed.

Lemma pmem_bare k p :
  ppagetable p = 0 → pmem k p = if ptrapframe p =? 0 then [] else [ptrapframe p].
Proof. intros E. unfold pmem. by rewrite E, app_nil_r. Qed.

Lemma pmem_newborn k pid tf pt p :
  psz p = 0 → tf ≠ 0 → pt ≠ 0 → pmem k (newborn pid tf pt p) = tf :: tables k pt.
Proof.
  intros Es Ht Hp. unfold pmem, newborn. cbn [ptrapframe ppagetable psz setter].
  rewrite (proj2 (Z.eqb_neq tf 0)), (proj2 (Z.eqb_neq pt 0)), Es by done. done.
Qed.

(** Memory of the processes in use is not touched. *)
Definition used_kept (k k' : kmem_state) (ps : list proc) : Prop :=
  ∀ i q, ps !! i = Some q → pstate q ≠ UNUSED → kept k k' q.

Lemma others_used k k' ps i p :
  others_kept k k' ps i → ps !! i = Some p → pstate p = UNUSED → used_kept k k' ps.
Proof. intros Ho Hi Hu j q Hj Hq. apply (Ho j q); [|done]. intros ->. congruence. Qed.

Lemma allocproc_ok n res s l :
  held hart ∅ n res (sy s) → length (procs s) = NP → msys (kmem s) l (procs s) → Forall idle (procs s) →
  returns (allocproc hart) s (λ r s', ∃ t k' l',
    match r with
    | None => held hart ∅ n res t ∧ l' ≡ₚ l
        ∧ (s' = s <| sy := t |> ∧ k' = kmem s ∧ (∀ i, (i < NP)%nat → pstate (getp s i) ≠ UNUSED)
           ∨ ∃ i, (i < NP)%nat ∧ pstate (getp s i) = UNUSED
               ∧ s' = setp i freed (with_kmem k' (took_pid (s <| sy := t |>))))
    | Some i => held hart {[proc_addr i]} n res t ∧ (i < NP)%nat ∧ pstate (getp s i) = UNUSED
        ∧ ∃ tf pt, tf ≠ 0 ∧ pt ≠ 0 ∧ tf :: l' ++ tables k' pt ≡ₚ l
        ∧ s' = setp i (newborn (nextpid s) tf pt) (with_kmem k' (took_pid (s <| sy := t |>)))
    end
    ∧ msys k' l' (procs s') ∧ used_kept (kmem s) k' (procs s)).
Proof.
  intros Hh Hlen Hm Hidle. unfold allocproc. eapply returns_bind; [by apply find_unused_proc_ok|].
  intros [i|] s1 (t & -> & Ht).
  2:{ destruct Ht as [Ht Hno]. apply returns_ret. exists t, (kmem s), l. split_and!; auto. done. }
  destruct Ht as (Ht & Hi & Hu & _).
  assert (Hpi : procs s !! i = Some (getp s i)) by (apply lookup_getp; lia).
  assert (Hid : idle (getp s i)) by (rewrite Forall_forall in Hidle; by eapply Hidle, list_elem_of_lookup_2).
  destruct (Hid Hu) as (Etf & Ept & Esz).
  eapply allocpid_ok; [exact Ht|pose proof (pid_lock_ne i Hi); set_solver|]. clear Ht. intros t2 Ht.
  change (took_pid (s <| sy := t |> <| sy := t2 |>)) with (took_pid (s <| sy := t2 |>)).
  change (nextpid (s <| sy := t |>)) with (nextpid s). clear t. rename t2 into t. psteps. rewrite setp_setp. set (p := getp s i) in *.
  set (s1 := took_pid (s <| sy := t |>)).
  assert (Hpm : pmem (kmem s) p = []) by (unfold pmem; by rewrite Etf, Ept).
  eapply returns_kmem; [apply (kalloc_cases (kmem s) l), Hm|].
  intros tf k1 Hk1. psteps. rewrite setp_kmem, setp_setp. change (nextpid (s <| sy := t |>)) with (nextpid s).
  destruct Hk1 as [(-> & -> & ->)|(l1 & -> & Htf0 & Htf & Hk1 & Hf1 & Ht1)].
  - cbn [Z.eqb]. change (with_kmem (kmem s) s1) with (with_kmem (kmem s1) s1). rewrite with_kmem_id.
    eapply returns_mono; [eapply (undo_alloc None n res s1 i)|].
    { exact Ht. }
    { simpl. lia. }
    { apply (msys_same (kmem s) [] (procs s) i p _ Hm Hpi); [by rewrite Etf|reflexivity|reflexivity]. }
    intros r s' [-> (t' & k' & l' & Ht' & -> & Hm' & Hl' & Ho)]. exists t', k', l'.
    split_and!; [exact Ht'| |right; by exists i|exact Hm'|by eapply others_used].
    rewrite Hl', pmem_bare by exact Ept. done.
  - rewrite (proj2 (Z.eqb_neq tf 0)) by done.
    set (p1 := p <| ppid := nextpid s |> <| pstate := USED |> <| ptrapframe := tf |>).
    assert (Hpm1 : ∀ k, pmem k p1 = [tf]).
    { intros k. unfold pmem. cbn. by rewrite (proj2 (Z.eqb_neq tf 0)), Ept. }
    destruct (msys_step (kmem s) k1 (tf :: l1) l1 (procs s) i p p1 Hm Hpi) as [Hm1 Ho1]; [done|done| | | |].
    { eapply mem_frame_mono; [|exact Hf1]. set_solver. }
    { rewrite Hpm1, Hpm, app_nil_r. symmetry. apply Permutation_cons_append. }
    { split; [cbn; by rewrite Ht1|]. cbn. by rewrite Ept. }
    eapply returns_kmem; [apply (proc_pagetable_ok k1 l1 tf Hk1); by rewrite Ht1|].
    intros pt k2 (l2 & Ht2 & Hf2 & Hpt). psteps. rewrite setp_kmem, kmem_kmem, setp_setp.
    assert (Hp1 : <[i := p1]> (procs s) !! i = Some p1) by (rewrite list_lookup_insert_eq; [done|lia]).
    assert (Hf2' : mem_frame (l1 ++ pmem k1 p1) (mem k1) (mem k2)).
    { eapply mem_frame_mono; [|exact Hf2]. set_solver. }
    assert (Hins : ∀ j, j ≠ i → <[i := p1]> (procs s) !! j = procs s !! j).
    { intros j Hj. by rewrite list_lookup_insert_ne. }
    destruct Hpt as [(-> & Hk2 & Hl2)|(Hpt0 & Him & Hl2)].
    + cbn [Z.eqb].
      destruct (msys_step k1 k2 l1 l2 (<[i := p1]> (procs s)) i p1 p1 Hm1 Hp1) as [Hm2 Ho2]; [done|done|done| | |].
      { by rewrite !Hpm1, Hl2. }
      { split; [cbn; by rewrite Ht2, Ht1|]. cbn. by rewrite Ept. }
      eapply returns_mono; [eapply (undo_alloc None n res (with_kmem k2 s1) i _ l2)|].
      { exact Ht. }
      { simpl. lia. }
      { rewrite list_insert_insert_eq in Hm2. revert Hm2. cbn. subst p1 p. cbn. by rewrite Ept. }
      intros r s' [-> (t' & k' & l' & Ht' & -> & Hm' & Hl' & Ho)]. exists t', k', l'.
      split_and!; [exact Ht'| |right; by exists i|exact Hm'|].
      * rewrite Hl', pmem_bare by done. cbn [ptrapframe setter]. rewrite (proj2 (Z.eqb_neq tf 0)), Hl2 by done.
        symmetry. apply Permutation_cons_append.
      * eapply (others_used _ _ _ i p); [|done|done]. eapply others_kept_trans; [exact Ho1| |exact Hins].
        eapply others_kept_trans; [exact Ho2|exact Ho|intros j Hj; symmetry; by apply Hins].
    + rewrite (proj2 (Z.eqb_neq pt 0)) by done. psteps. rewrite setp_setp. apply returns_ret.
      destruct (msys_step k1 k2 l1 l2 (<[i := p1]> (procs s)) i p1 (newborn (nextpid s) tf pt p) Hm1 Hp1) as [Hm2 Ho2].
      { apply (uvm_pt _ _ _ _ (im_uvm _ _ _ _ _ Him)). }
      { done. }
      { done. }
      { rewrite Hpm1, pmem_newborn by done. rewrite <- Hl2, <- Permutation_middle. apply Permutation_cons_append. }
      { split; [cbn; by rewrite Ht2, Ht1|]. cbn. by rewrite Esz. }
      exists t, k2, l2. split_and!; [exact Ht|done|done| | |].
      * exists tf, pt. split_and!; [done|done|by rewrite Hl2|reflexivity].
      * by rewrite list_insert_insert_eq in Hm2.
      * eapply (others_used _ _ _ i p); [|done|done]. by eapply others_kept_trans.
Qed.

End Life.
