(* ===== verification/ProcFork.v ===== *)
(** [kfork] (proc.c): the child gets a private copy of the parent's memory and
    registers and shares its open files. *)

From S2P Require Import Prelude Machine CString Kalloc Vm PageTable AddrSpace Uvm UvmCopy UvmFree CopyIO.
From S2P Require Import Spinlock Bio Fs File Proc ProcBase ProcFiles ProcTable ProcMem ProcLife.

(** ** Memory *)

Section Memory.
Context {LK : Linker} {LKok : LinkerOk}.

Lemma has_flags e e' f : 0 ≤ f < 1024 → PTE_FLAGS e = PTE_FLAGS e' → has e f = has e' f.
Proof.
  intros Hf E. unfold has. unfold PTE_FLAGS in E. f_equal. f_equal.
  assert (Ef : Z.land 0x3FF f = f).
  { change 0x3FF with (Z.ones 10). rewrite Z.land_comm, Z.land_ones by lia. by apply Z.mod_small. }
  rewrite <- Ef at 1. rewrite <- Ef at 2. by rewrite !Z.land_assoc, E.
Qed.

(** The same user bytes are visible through both page tables. *)
Definition same_bytes (k : kmem_state) (pt : Z) (k' : kmem_state) (pt' : Z) : Prop :=
  ∀ va, 0 ≤ va < MAXVA → uget k' pt' va = uget k pt va ∧ uwritable k' pt' va = uwritable k pt va.

Lemma no_user_leaf pa perm : perm = RW ∨ perm = RX → has (leaf pa perm) PTE_U = false.
Proof.
  intros Hp. rewrite leaf_make. rewrite (has_flags _ (Z.lor perm PTE_V) PTE_U) by
    (done || (rewrite PTE_FLAGS_make by (by destruct Hp as [-> | ->]); by destruct Hp as [-> | ->])).
  by destruct Hp as [-> | ->].
Qed.

Lemma image_top_hidden k l pt tf sz va :
  image k l pt tf sz → TRAPFRAME ≤ va < MAXVA → upa k pt va = 0.
Proof.
  intros [_ _ Hh] Hva. unfold upa. rewrite (Hh va Hva).
  destruct (decide (va < TRAMPOLINE)); rewrite no_user_leaf by auto; by rewrite andb_false_r.
Qed.

Lemma copied_same k l pt tf sz k' l' pt' tf' :
  image k l pt tf sz → image k' l' pt' tf' sz → phys_top k' = phys_top k →
  (∀ va, 0 ≤ va < Z.of_nat (pages_of sz) * PGSIZE → copied k pt k' pt' va) →
  same_bytes k pt k' pt'.
Proof.
  intros Him Him' Ht Hc va Hva. unfold uget, uwritable.
  destruct (decide (TRAPFRAME ≤ va)) as [Hhi|Hlo].
  { by rewrite (image_top_hidden k l pt tf sz va), (image_top_hidden k' l' pt' tf' sz va) by (done || lia). }
  destruct Him as [Hu _ _], Him' as [Hu' _ _].
  destruct (decide (Z.of_nat (pages_of sz) * PGSIZE ≤ va)) as [Hout|Hin].
  { pose proof (uvm_above _ _ _ _ Hu va ltac:(lia)) as H1. pose proof (uvm_above _ _ _ _ Hu' va ltac:(lia)) as H2.
    unfold upa, mapped in *. by rewrite H1, H2, !andb_false_r. }
  specialize (Hc va ltac:(lia)). unfold copied in Hc. destruct (mapped k pt va) eqn:Em.
  2:{ unfold upa, mapped in *. by rewrite Em, Hc, !andb_false_r. }
  destruct Hc as (Em' & Ef & Hb).
  assert (Hnz : PTE2PA (vpte k pt va) ≠ 0 ∧ PTE2PA (vpte k' pt' va) ≠ 0).
  { pose proof (uvm_range _ _ _ _ Hu) as Hr. pose proof (uvm_range _ _ _ _ Hu') as Hr'.
    pose proof (uvm_top _ _ _ _ Hu). rewrite Forall_forall in Hr, Hr'.
    split; eapply page_ok_nonzero; [apply Hr|apply Hr']; apply frames_elem; (done || va_lia). }
  assert (EU : has (vpte k' pt' va) PTE_U = has (vpte k pt va) PTE_U) by (by apply has_flags).
  assert (EW : has (vpte k' pt' va) PTE_W = has (vpte k pt va) PTE_W) by (by apply has_flags).
  unfold upa, mapped in *. rewrite Em, Em', EU, EW. rewrite (proj2 (Z.ltb_lt va MAXVA)) by lia. cbn [andb].
  destruct (has (vpte k pt va) PTE_U); [|done].
  rewrite (proj2 (Z.eqb_neq _ 0) (proj1 Hnz)), (proj2 (Z.eqb_neq _ 0) (proj2 Hnz)). split; [|done].
  f_equal. apply Hb. page_lia.
Qed.

(** [uvmcopy] between two processes of the system. *)
Lemma fork_memory k l ps p np pp pn :
  msys k l ps → ps !! p = Some pp → ps !! np = Some pn → p ≠ np →
  ppagetable pp ≠ 0 → ppagetable pn ≠ 0 → psz pn = 0 →
  returns (uvmcopy (ppagetable pp) (ppagetable pn) (psz pp)) k (λ r k', ∃ l' sz',
    let pn' := pn <| psz := sz' |> in
    (r = 0 ∧ sz' = psz pp ∧ same_bytes k (ppagetable pp) k' (ppagetable pn) ∨ r = -1 ∧ sz' = 0)
    ∧ phys_top k' = phys_top k ∧ msys k' l' (<[np := pn']> ps)
    ∧ l' ++ pmem k' pn' ≡ₚ l ++ pmem k pn ∧ others_kept k k' ps np).
Proof.
  intros Hm Hp Hnp Hne Hpt Hptn Esz.
  destruct (ms_proc _ _ _ Hm p pp Hp) as [_ Himp]. destruct (Himp Hpt) as [Htf Him].
  destruct (ms_proc _ _ _ Hm np pn Hnp) as [Htfn Himn]. destruct (Himn Hptn) as [Htfn0 Hin].
  pose proof (im_uvm _ _ _ _ _ Him) as Hold. pose proof (im_uvm _ _ _ _ _ Hin) as Hnew.
  rewrite Esz in Hnew. change (pages_of 0) with 0%nat in Hnew.
  set (old := ppagetable pp) in *. set (new := ppagetable pn) in *. set (n := pages_of (psz pp)) in *.
  assert (Epn : pmem k pn = ptrapframe pn :: tables k new).
  { unfold pmem. fold new. rewrite (proj2 (Z.eqb_neq (ptrapframe pn) 0)), (proj2 (Z.eqb_neq new 0)), Esz by done. done. }
  assert (Hsep : ∀ q, q ∈ frames n k old 0 ++ tables k old → q ∉ l ++ tables k new).
  { intros q Hq Hq'. pose proof (ms_sep _ _ _ Hm) as Hs.
    rewrite (delete_Permutation ps np pn Hnp), bind_cons, app_assoc in Hs.
    apply NoDup_app in Hs as (_ & Hd & _). apply (Hd q).
    - rewrite Epn. rewrite elem_of_app in Hq'. rewrite elem_of_app, elem_of_cons. tauto.
    - apply list_elem_of_bind. exists pp. split.
      + unfold pmem. fold old n. rewrite (proj2 (Z.eqb_neq old 0)) by done. apply elem_of_app. right. exact Hq.
      + apply list_elem_of_lookup. destruct (decide (p < np)%nat).
        * exists p. by rewrite list_lookup_delete_lt.
        * exists (p - 1)%nat. rewrite list_lookup_delete_ge by lia. by replace (S (p - 1)) with p by lia. }
  unfold uvmcopy. change 0 with (Z.of_nat 0 * PGSIZE) at 2. eapply returns_mono.
  { apply (uvmcopy_loop_ok k old new n l Hold Hnew Hsep _ 0 k l (psz pp)).
    - by apply copy_inv_start.
    - reflexivity.
    - apply (im_sz _ _ _ _ _ Him).
    - lia.
    - pose proof (uvm_top _ _ _ _ Hold). subst n. va_lia. }
  intros r k' (l' & Hr).
  assert (∃ sz', copy_inv k old new l (pages_of sz') k' l' ∧ 0 ≤ sz' ≤ TRAPFRAME
    ∧ (r = 0 ∧ sz' = psz pp ∨ r = -1 ∧ sz' = 0)) as (sz' & Hc & Hsz' & Hr').
  { destruct Hr as [[-> ?]|(-> & ? & _)]; [exists (psz pp); split_and!; eauto; apply Him|exists 0; by split_and!; eauto]. }
  exists l', sz'. cbv zeta. set (pn' := pn <| psz := sz' |>). pose proof Hc as [Hu Hown Hf Ht Hh Hcp _].
  assert (Him' : image k' l' new (ptrapframe pn) sz').
  { split; [done|done|]. intros va Hva. rewrite Hh by va_lia. by apply Hin. }
  assert (Epn' : pmem k' pn' = ptrapframe pn :: frames (pages_of sz') k' new 0 ++ tables k' new).
  { unfold pmem, pn'. cbn [ptrapframe ppagetable psz setter]. fold new.
    rewrite (proj2 (Z.eqb_neq (ptrapframe pn) 0)), (proj2 (Z.eqb_neq new 0)) by done. done. }
  assert (Hperm : l' ++ pmem k' pn' ≡ₚ l ++ pmem k pn).
  { rewrite Epn, Epn', <- !Permutation_middle, <- Hown. f_equiv. unfold owned.
    rewrite !app_assoc. f_equiv. apply Permutation_app_comm. }
  destruct (msys_step k k' l l' ps np pn pn' Hm Hnp) as [Hm' Ho]; try done.
  - apply (uvm_pt _ _ _ _ Hu).
  - eapply mem_frame_mono; [|exact Hf]. rewrite Epn. intros q.
    rewrite !elem_of_app, elem_of_cons. tauto.
  - split; [by rewrite Ht|done].
  - split_and!; try done. destruct Hr' as [[-> ->]|[-> ->]]; [left|by right]. split_and!; [done|done|].
    by eapply copied_same.
Qed.

Lemma same_bytes_trans k1 p1 k2 p2 k3 p3 :
  same_bytes k1 p1 k2 p2 → same_bytes k2 p2 k3 p3 → same_bytes k1 p1 k3 p3.
Proof.
  intros H1 H2 va Hva. destruct (H1 va Hva) as [E1 W1], (H2 va Hva) as [E2 W2]. split; congruence.
Qed.

(** Changes outside the memory of an address space do not show in it. *)
Lemma same_bytes_frame k l pt tf sz k' :
  image k l pt tf sz → (∀ va, vpte k' pt va = vpte k pt va) →
  (∀ q b, q ∈ frames (pages_of sz) k pt 0 → in_page q b → mget (mem k') b = mget (mem k) b) →
  same_bytes k pt k' pt.
Proof.
  intros Him Hv Hb va Hva.
  assert (Eu : upa k' pt va = upa k pt va) by (unfold upa; by rewrite Hv).
  unfold uget, uwritable. rewrite Eu, Hv. split; [|done]. destruct (Z.eqb_spec (upa k pt va) 0) as [E|E]; [done|].
  f_equal. destruct (decide (TRAPFRAME ≤ va)) as [Hhi|Hlo].
  { destruct E. eapply image_top_hidden; [done|lia]. }
  pose proof (im_uvm _ _ _ _ _ Him) as Hu.
  assert (mapped k pt va = true ∧ upa k pt va = PTE2PA (vpte k pt va)) as [Hm Ep].
  { unfold upa, mapped in *. destruct (va <? MAXVA); [|done].
    destruct (has (vpte k pt va) PTE_V); [|done]. by destruct (has (vpte k pt va) PTE_U). }
  apply (Hb (upa k pt va)); [|unfold in_page; page_lia]. rewrite Ep. apply frames_elem; [|pose proof (uvm_top _ _ _ _ Hu); va_lia|done].
  destruct (decide (Z.of_nat (pages_of sz) * PGSIZE ≤ va)); [|lia].
  pose proof (uvm_above _ _ _ _ Hu va ltac:(lia)). congruence.
Qed.

Lemma elem_delete {A} (l : list A) i j x : l !! j = Some x → j ≠ i → x ∈ delete i l.
Proof.
  intros Hj Hne. apply list_elem_of_lookup. destruct (decide (j < i)%nat).
  - exists j. by rewrite list_lookup_delete_lt.
  - exists (j - 1)%nat. rewrite list_lookup_delete_ge by lia. by replace (S (j - 1)) with j by lia.
Qed.

Lemma kept_bytes k k' l p :
  pimage k l p → kept k k' p → ppagetable p ≠ 0 → same_bytes k (ppagetable p) k' (ppagetable p).
Proof.
  intros [_ Him] [_ Hb Hv] Hp. destruct (Him Hp) as [_ HI].
  eapply same_bytes_frame; [exact HI|by intros va; apply Hv|]. intros q b Hq. apply Hb.
  unfold pmem. rewrite (proj2 (Z.eqb_neq (ppagetable p) 0)) by done. rewrite !elem_of_app. auto.
Qed.

(** Writing to the trapframe page of a process. *)
Lemma msys_trapframe k m l ps i p :
  msys k l ps → ps !! i = Some p → ptrapframe p ≠ 0 → mem_frame [ptrapframe p] (mem k) m →
  let k' := with_mem m k in
  msys k' l ps ∧ others_kept k k' ps i
  ∧ ∀ j q, ps !! j = Some q → pmem k' q = pmem k q
      ∧ (ppagetable q ≠ 0 → same_bytes k (ppagetable q) k' (ppagetable q)).
Proof.
  intros Hm Hi Htf Hf k'. set (tf := ptrapframe p) in *.
  pose proof (ms_kinv _ _ _ Hm) as Hk.
  assert (Htfp : page_ok (phys_top k) tf) by (by apply (ms_proc _ _ _ Hm i p Hi)).
  assert (Hin : tf ∈ pmem k p).
  { unfold pmem. fold tf. rewrite (proj2 (Z.eqb_neq tf 0)) by done. left. }
  assert (Hal : Forall (λ q, q mod PGSIZE = 0) (tf :: l)).
  { constructor; [by eapply page_ok_aligned|]. eapply pages_aligned, Hk. }
  pose proof (ms_sep _ _ _ Hm) as Hs. rewrite (delete_Permutation ps i p Hi), bind_cons in Hs.
  apply NoDup_app in Hs as (_ & Hd & Hs). apply NoDup_app in Hs as (Hndp & Hdp & _).
  assert (Htl : tf ∉ l).
  { intros Hl. apply (Hd tf Hl), elem_of_app. by left. }
  assert (Hk' : kinv k' l).
  { apply (kinv_frame [tf] k k' l Hk Hf); [reflexivity|reflexivity| |].
    - apply Forall_singleton. by eapply page_ok_aligned.
    - intros q Hq ->%list_elem_of_singleton. contradiction. }
  assert (Hf' : mem_frame (tf :: l) (mem k) (mem k')).
  { eapply mem_frame_mono; [|exact Hf]. intros q ->%list_elem_of_singleton. left. }
  assert (Hav : ∀ j q, ps !! j = Some q → j ≠ i → ∀ a, a ∈ pmem k q → a ∉ tf :: l).
  { intros j q Hj Hne a Ha Hin'.
    assert (Hq : a ∈ delete i ps ≫= pmem k) by (apply list_elem_of_bind; exists q; split; [exact Ha|by eapply elem_delete]).
    apply elem_of_cons in Hin' as [->|Hl]; [by apply (Hdp tf Hin)|]. apply (Hd a Hl), elem_of_app. by right. }
  assert (Hall : ∀ j q, ps !! j = Some q → ppagetable q ≠ 0 → ∀ a,
    a ∈ frames (pages_of (psz q)) k (ppagetable q) 0 ++ tables k (ppagetable q) → a ∉ tf :: l).
  { intros j q Hj Hpt a Ha. assert (Hap : a ∈ pmem k q).
    { unfold pmem. rewrite (proj2 (Z.eqb_neq (ppagetable q) 0)) by done. apply elem_of_app. right. exact Ha. }
    destruct (decide (j = i)) as [->|Hne]; [|by apply (Hav j q)]. assert (q = p) as -> by congruence.
    intros [->|Hl]%elem_of_cons.
    - unfold pmem in Hndp. fold tf in Hndp. rewrite (proj2 (Z.eqb_neq tf 0)), (proj2 (Z.eqb_neq (ppagetable p) 0)) in Hndp by done.
      apply NoDup_cons in Hndp as [Hn _]. exact (Hn Ha).
    - apply (Hd a Hl), elem_of_app. left. exact Hap. }
  assert (Hst : ∀ j q, ps !! j = Some q → pimage k' l q ∧ pmem k' q = pmem k q
      ∧ (∀ va, ppagetable q ≠ 0 → vpte k' (ppagetable q) va = vpte k (ppagetable q) va)
      ∧ (ppagetable q ≠ 0 → same_bytes k (ppagetable q) k' (ppagetable q))).
  { intros j q Hj. destruct (ms_proc _ _ _ Hm j q Hj) as [Ht Him].
    destruct (decide (ppagetable q = 0)) as [E|Hpt].
    { split_and!; [by split|unfold pmem; by rewrite E|done|done]. }
    destruct (Him Hpt) as [Ht0 HI]. pose proof HI as [Hu Hsz Hh].
    destruct (uvm_other (tf :: l) k k' (ppagetable q) (pages_of (psz q)) l l) as (Hu' & Htab & Hv & Hb); try done.
    { intros a Ha. right. exact Ha. }
    { by apply (Hall j q). }
    assert (Efr : frames (pages_of (psz q)) k' (ppagetable q) 0 = frames (pages_of (psz q)) k (ppagetable q) 0).
    { pose proof (uvm_top _ _ _ _ Hu). apply frames_ext; try va_lia. intros va _. apply Hv. }
    split_and!.
    - split; [done|]. intros _. split; [done|]. split; [done|done|]. intros va Hva. rewrite Hv. by apply Hh.
    - unfold pmem. by rewrite Efr, Htab.
    - done.
    - intros _. by eapply same_bytes_frame. }
  split_and!.
  - split; [done| |intros j q Hj; by apply (Hst j q)].
    rewrite (bind_ext_list (pmem k') (pmem k)); [apply Hm|].
    intros q Hq. apply list_elem_of_lookup in Hq as [j Hj]. by apply (Hst j q).
  - intros j q Hne Hj. split; [by apply (Hst j q)| |by apply (Hst j q)]. intros a b Ha Hb.
    apply (mem_frame_byte (tf :: l) _ _ a); try done; [|by apply (Hav j q)].
    pose proof (pmem_aligned k l q (ms_proc _ _ _ Hm j q Hj)) as Hpa. rewrite Forall_forall in Hpa. by apply Hpa.
  - intros j q Hj. split; by apply (Hst j q).
Qed.

End Memory.

(** The trapframe of the child. *)
Lemma child_registers m tf src :
  let m' := store64 (put_bytes m tf (load_bytes m src 288)) (tf + TF_a0) 0 in
  mem_frame [tf] m m'
  ∧ (∀ o, 0 ≤ o < 288 → ¬ TF_a0 ≤ o < TF_a0 + 8 → mget m' (tf + o) = mget m (src + o))
  ∧ load64 m' (tf + TF_a0) = 0.
Proof.
  intros m'. unfold m', TF_a0. split_and!.
  - intros b Hb. specialize (Hb tf ltac:(left)). unfold in_page in Hb.
    rewrite mget_store64_out by page_lia. rewrite mget_put_bytes, load_bytes_length.
    rewrite decide_False by page_lia. done.
  - intros o Ho Hno. rewrite mget_store64_out by lia. rewrite mget_put_bytes, load_bytes_length.
    rewrite decide_True by lia. rewrite lookup_load_bytes by lia. cbn.
    rewrite Z.add_simpl_l, Z2Nat.id by lia. apply u8_id, mget_bound.
  - by apply load64_store64.
Qed.

(** ** Files *)

Section Fork.
Context {B X : Type} `{BlockCache B} {LK : Linker} {LKok : LinkerOk} {SY : Symbols} {SYok : SymbolsOk}.
Context (hart : Z).
Implicit Types s : kstate B X.

Definition with_ftable (ft : list file) s : kstate B X := s <| fsys := (fsys s) <| ftable := ft |> |>.

Lemma setp_ftable ft i f s : with_ftable ft (setp i f s) = setp i f (with_ftable ft s).
Proof. done. Qed.

(** The first [k] entries of the file table copied. *)
Definition dup_prefix (files : list (option nat)) (k : nat) (x : proc) : proc :=
  x <| pofile := take k files ++ replicate (NOFILE - k) None |>.

Lemma dup_prefix_step (files : list (option nat)) k o :
  files !! k = Some o → (k < NOFILE)%nat →
  take (S k) files ++ replicate (NOFILE - S k) None = <[k := o]> (take k files ++ replicate (NOFILE - k) None).
Proof.
  intros Hk Hlt. rewrite (take_S_r _ _ _ Hk), <- app_assoc.
  assert (Hl : length (take k files) = k).
  { rewrite length_take. apply lookup_lt_Some in Hk. lia. }
  rewrite insert_app_r_alt, Hl, Nat.sub_diag by lia. replace (NOFILE - k)%nat with (S (NOFILE - S k)) by lia. done.
Qed.

Lemma dup_files_ok s p np pp pn F I :
  p ≠ np → procs s !! p = Some pp → procs s !! np = Some pn → refs_ok (fsys s) (procs s) F I →
  length (pofile pp) = NOFILE → pofile pn = replicate NOFILE None →
  returns (for_each (seq 0 NOFILE) (dup_file p np)) s (λ _ s', ∃ ft,
    s' = setp np (λ x, x <| pofile := pofile pp |>) (with_ftable ft s) ∧ refs_ok (fsys s') (procs s') F I).
Proof.
  intros Hne Hp Hn Hr Hlen Hempty.
  assert (Hnl : (np < length (procs s))%nat) by (by eapply lookup_lt_Some).
  eapply returns_mono.
  { apply (for_each_seq _ (λ k s', ∃ ft, s' = setp np (dup_prefix (pofile pp) k) (with_ftable ft s)
      ∧ refs_ok (fsys s') (procs s') F I)).
    - exists (ftable (fsys s)). unfold dup_prefix. rewrite take_0, app_nil_l, Nat.sub_0_r, <- Hempty.
      assert (E : setp np (λ x, x <| pofile := pofile pn |>) (with_ftable (ftable (fsys s)) s) = s).
      { unfold setp, getp, with_ftable. cbn [procs fsys setter]. rewrite Hn. cbn.
        rewrite list_insert_id; [by destruct s as [[]]|]. rewrite Hn. by destruct pn. }
      done.
    - intros k s' Hk (ft & -> & Hr'). unfold dup_file. psteps.
      destruct (lookup_lt_is_Some_2 (pofile pp) k) as [o Ho]; [lia|].
      rewrite getp_setp, decide_False by done.
      change (getp (with_ftable ft s) p) with (getp s p). rewrite (getp_lookup s p pp Hp), Ho. cbn [default].
      set (q := dup_prefix (pofile pp) k pn).
      assert (Hq : procs (setp np (dup_prefix (pofile pp) k) (with_ftable ft s)) !! np = Some q).
      { unfold setp. cbn [procs setter]. rewrite list_lookup_insert_eq by done. f_equal.
        change (getp (with_ftable ft s) np) with (getp s np). by rewrite (getp_lookup s np pn Hn). }
      assert (Hqk : pofile q !! k = Some None).
      { unfold q, dup_prefix. cbn [pofile setter]. rewrite lookup_app_r by (rewrite length_take; lia).
        rewrite length_take, lookup_replicate_2; [done|lia]. }
      assert (Eset : ∀ ft o, pofile pp !! k = Some o →
        setp np (λ x, x <| pofile := <[k := o]> (pofile x) |>) (setp np (dup_prefix (pofile pp) k) (with_ftable ft s))
        = setp np (dup_prefix (pofile pp) (1 + k)) (with_ftable ft s)).
      { intros ft' o' Ho'. rewrite setp_setp. unfold setp, dup_prefix. cbn [procs setter pofile].
        change (1 + k)%nat with (S k). by rewrite (dup_prefix_step _ k o') by (done || lia). }
      destruct o as [f|].
      + eapply returns_zoom_bind.
        { apply (filedup_ok _ _ F I f Hr'). apply (refs_file_in _ p pp k); [|done].
          unfold setp. cbn [procs setter]. by rewrite list_lookup_insert_ne. }
        intros r fy (-> & -> & Hrf). apply returns_modify.
        exists (ftable (setf f (λ x, x <| fref := fref x + 1 |>) (fsys (with_ftable ft s)))).
        split; [by rewrite <- (Eset _ (Some f) Ho)|].
        pose proof (refs_store _ _ F I np q k f Hrf Hq Hqk) as Hst.
        match goal with |- refs_ok _ (procs (setp _ ?g ?s2)) _ _ =>
          change (procs (setp np g s2)) with (<[np := g (getp s2 np)]> (procs s2));
          rewrite (getp_lookup s2 np q Hq) end.
        exact Hst.
      + apply returns_ret. exists ft. rewrite <- (Eset ft None Ho).
        assert (E : setp np (λ x, x <| pofile := <[k := None]> (pofile x) |>) (setp np (dup_prefix (pofile pp) k) (with_ftable ft s))
          = setp np (dup_prefix (pofile pp) k) (with_ftable ft s)).
        { unfold setp at 1. rewrite (getp_lookup _ np q Hq), (list_insert_id (pofile q) k None Hqk).
          rewrite list_insert_id; [done|]. by rewrite Hq. }
        by rewrite E. }
  intros [] s' (ft & -> & Hr'). exists ft. unfold dup_prefix in *. rewrite Nat.add_0_l, Nat.sub_diag in *.
  cbn [replicate] in *. rewrite app_nil_r, take_ge in * by lia. done.
Qed.

(** ** The whole call *)

(** The state while parent [p] sets up child [np]: [y] and [x] are their
    entries. *)
Section Pair.
Context (s : kstate B X) (p np : nat) (Hne : p ≠ np).
Context (Hp : (p < length (procs s))%nat) (Hnp : (np < length (procs s))%nat).

Definition st (fy : filesys B) (t : sync) (h : fpu_hw) (x y : proc) : kstate B X :=
  KState fy (<[np := x]> (<[p := y]> (procs s))) (initproc s) (s32 (nextpid s + 1)) t (curproc s) h (ext s).

Lemma get_p fy t h x y : getp (st fy t h x y) p = y.
Proof.
  unfold getp, st. cbn [procs]. by rewrite list_lookup_insert_ne, list_lookup_insert_eq.
Qed.

Lemma get_np fy t h x y : getp (st fy t h x y) np = x.
Proof.
  unfold getp, st. cbn [procs]. rewrite list_lookup_insert_eq; [done|]. by rewrite length_insert.
Qed.

Lemma set_p f fy t h x y : setp p f (st fy t h x y) = st fy t h x (f y).
Proof.
  unfold setp. rewrite get_p. unfold st. cbn. rewrite list_insert_insert_ne by done.
  by rewrite list_insert_insert_eq.
Qed.

Lemma set_np f fy t h x y : setp np f (st fy t h x y) = st fy t h (f x) y.
Proof. unfold setp. rewrite get_np. unfold st. cbn. by rewrite list_insert_insert_eq. Qed.

(** What [fpu_save_proc] does to the entry. *)
Definition fpu_saved (h : fpu_hw) (y : proc) : proc :=
  if pfpu_active y then y <| pfpu := Fpu (hw_f h) (hw_fcsr h) |> <| pfpu_active := false |> else y.

Lemma fpu_saved_keeps h y :
  pofile (fpu_saved h y) = pofile y ∧ pcwd (fpu_saved h y) = pcwd y ∧ psz (fpu_saved h y) = psz y
  ∧ ppagetable (fpu_saved h y) = ppagetable y ∧ ptrapframe (fpu_saved h y) = ptrapframe y
  ∧ pstate (fpu_saved h y) = pstate y.
Proof. unfold fpu_saved. by destruct (pfpu_active y). Qed.

Lemma fpu_save_st {A} (c : unit → M (kstate B X) A) fy t h x y Q :
  returns (c tt) (st fy t (FpuHw false (hw_f h) (hw_fcsr h)) x (fpu_saved h y)) Q →
  returns (bind (fpu_save_proc p) c) (st fy t h x y) Q.
Proof.
  intros Hc. unfold fpu_save_proc. psteps. rewrite get_p. unfold fpu_saved in Hc. destruct (pfpu_active y).
  - unfold fpu_on, fpu_off. psteps. set (h1 := FpuHw true (hw_f h) (hw_fcsr h)).
    change ((st fy t h x y) <| fpuhw := _ |>) with (st fy t h1 x y).
    unfold fpu_unit. psteps. change (fs_on (fpuhw (st fy t h1 x y))) with true. cbv iota. psteps.
    change (fpuhw (st fy t h1 x y)) with h1.
    rewrite !set_p. exact Hc.
  - unfold fpu_off. psteps. exact Hc.
Qed.

End Pair.

(** The entries of the table between calls: an unused one has no memory, one
    that is unused or a zombie has no files. *)
Record entry_ok (p : proc) : Prop := {
  eo_idle : idle p;
  eo_files : pstate p = UNUSED ∨ pstate p = ZOMBIE → pofile p = replicate NOFILE None ∧ pcwd p = None;
  eo_len : length (pofile p) = NOFILE;
}.

(** The state in which process [p] enters and leaves a system call: no locks
    held, memory divided among the free list [l] and the processes, all
    reference counts exact. *)
Record kernel_ok (n : Z) (res : bool) (p : nat) s (l : list Z) : Prop := {
  ko_held : held hart ∅ n res (sy s);
  ko_len : length (procs s) = NP;
  ko_mem : msys (kmem s) l (procs s);
  ko_entries : Forall entry_ok (procs s);
  ko_refs : refs_ok (fsys s) (procs s) [] [];
  ko_cur : curproc s = Some p;
  ko_lt : (p < NP)%nat;
  ko_run : pstate (getp s p) = RUNNING;
  ko_pt : ppagetable (getp s p) ≠ 0;
  ko_cwd : pcwd (getp s p) ≠ None;
}.

Lemma entries_idle ps : Forall entry_ok ps → Forall idle ps.
Proof. intros He. eapply Forall_impl; [exact He|]. by intros p []. Qed.

(** A process that could not be set up leaves the entry unused. *)
Lemma abandoned n res p s l i f t k' l' :
  kernel_ok n res p s l → (i < NP)%nat → pstate (getp s i) = UNUSED → held hart ∅ n res t →
  pofile (f (getp s i)) = pofile (getp s i) → pcwd (f (getp s i)) = pcwd (getp s i) →
  let s' := setp i (λ q, freed (f q)) (with_kmem k' (took_pid (s <| sy := t |>))) in
  msys k' l' (procs s') →
  kernel_ok n res p s' l' ∧ ∀ j, pstate (getp s j) ≠ UNUSED → getp s' j = getp s j.
Proof.
  intros [Hh Hlen Hm He Hr Hc Hlt Hrun Hpt Hcwd] Hi Hu Ht Ef Ec s' Hm'.
  assert (Hip : i ≠ p) by congruence.
  assert (Hli : (i < length (procs s))%nat) by lia.
  pose proof (lookup_getp s i Hli) as Hpi.
  assert (Hg : ∀ j, j ≠ i → getp s' j = getp s j).
  { intros j Hj. unfold s'. rewrite getp_setp by exact Hli. by rewrite decide_False. }
  set (q := getp s i) in *.
  assert (Hps : procs s' = <[i := freed (f q)]> (procs s)) by reflexivity.
  split; [|intros j Hj; apply Hg; intros ->; by apply Hj].
  split; try done; try (rewrite Hg by done; done).
  - by rewrite Hps, length_insert.
  - rewrite Hps. apply Forall_insert; [done|].
    assert (Hq : entry_ok q) by (rewrite Forall_forall in He; by eapply He, list_elem_of_lookup_2).
    destruct Hq as [_ Hf Hl]. split; [done| |].
    + intros _. change (pofile (f q) = replicate NOFILE None ∧ pcwd (f q) = None). rewrite Ef, Ec. apply Hf. by left.
    + change (length (pofile (f q)) = NOFILE). by rewrite Ef.
  - rewrite Hps. apply (refs_same (fsys s') (procs s) [] [] i q); [|done|exact Ef|exact Ec].
    by destruct Hr.
Qed.

Lemma idle_pmem k p : idle p → pstate p = UNUSED → pmem k p = [].
Proof. intros Hi Hu. destruct (Hi Hu) as (E1 & E2 & _). unfold pmem. by rewrite E1, E2. Qed.

Lemma idle_kept k k' p : idle p → pstate p = UNUSED → kept k k' p.
Proof.
  intros Hi Hu. destruct (Hi Hu) as (_ & E & _). split; [by rewrite !idle_pmem| |done].
  intros q b. rewrite idle_pmem by done. by intros ?%elem_of_nil.
Qed.

(** What the child of a successful [kfork] is. *)
Record forked s s' (p np : nat) : Prop := {
  fk_ne : np ≠ p;
  fk_fresh : pstate (getp s np) = UNUSED;
  fk_state : pstate (getp s' np) = RUNNABLE;
  fk_pid : ppid (getp s' np) = nextpid s;
  fk_parent : pparent (getp s' np) = Some p;
  fk_sz : psz (getp s' np) = psz (getp s p);
  fk_files : pofile (getp s' np) = pofile (getp s p);
  fk_cwd : pcwd (getp s' np) = pcwd (getp s p);
  fk_fpu : pfpu (getp s' np) = pfpu (fpu_saved (fpuhw s) (getp s p));
  fk_fpu_used : pfpu_used (getp s' np) = pfpu_used (getp s p);
  fk_fpu_active : pfpu_active (getp s' np) = false;
  fk_bytes : same_bytes (kmem s) (ppagetable (getp s p)) (kmem s') (ppagetable (getp s' np));
  fk_regs o : 0 ≤ o < 288 → ¬ TF_a0 ≤ o < TF_a0 + 8 →
    mget (mem (kmem s')) (ptrapframe (getp s' np) + o) = mget (mem (kmem s)) (ptrapframe (getp s p) + o);
  fk_a0 : load64 (mem (kmem s')) (ptrapframe (getp s' np) + TF_a0) = 0;
  fk_self : getp s' p = fpu_saved (fpuhw s) (getp s p);
  fk_own : same_bytes (kmem s) (ppagetable (getp s p)) (kmem s') (ppagetable (getp s p));
  fk_others j : j ≠ p → j ≠ np → getp s' j = getp s j;
  fk_mem : others_kept (kmem s) (kmem s') (procs s) np;
}.

(** The child shares the open files and the directory of its parent. *)
Lemma fork_share {A} s p np fy t h x y d (c : unit → M (kstate B X) A) Q :
  p ≠ np → (p < length (procs s))%nat → (np < length (procs s))%nat →
  refs_ok fy (<[np := x]> (<[p := y]> (procs s))) [] [] → length (pofile y) = NOFILE → pofile x = replicate NOFILE None →
  pcwd y = Some d → pcwd x = None →
  (∀ fy', kmem (s <| fsys := fy' |>) = kmem (s <| fsys := fy |>) →
     refs_ok fy' (<[np := x <| pofile := pofile y |> <| pcwd := Some d |>]> (<[p := y]> (procs s))) [] [] →
     returns (c tt) (st s p np fy' t h (x <| pofile := pofile y |> <| pcwd := Some d |>) y) Q) →
  returns (bind (for_each (seq 0 NOFILE) (dup_file p np)) (λ _,
    bind (let! d' := on_files (on_fs (idup d)) in modify (setp np (λ x, x <| pcwd := Some d' |>))) c)) (st s p np fy t h x y) Q.
Proof.
  intros Hne Hp Hn Hr Hlen Hempty Ed Ecx Hc.
  assert (Lp : procs (st s p np fy t h x y) !! p = Some y).
  { unfold st. cbn [procs]. by rewrite list_lookup_insert_ne, list_lookup_insert_eq. }
  assert (Ln : procs (st s p np fy t h x y) !! np = Some x).
  { unfold st. cbn [procs]. rewrite list_lookup_insert_eq; [done|]. by rewrite length_insert. }
  eapply returns_bind; [by apply (dup_files_ok (st s p np fy t h x y) p np y x [] [] Hne)|].
  intros [] s5 (ft & -> & Hr5). revert Hr5.
  change (with_ftable ft (st s p np fy t h x y)) with (st s p np (fy <| ftable := ft |>) t h x y).
  rewrite (set_np s p np Hn). set (x5 := x <| pofile := pofile y |>). set (fy5 := fy <| ftable := ft |>).
  intros Hr5. psteps. eapply returns_zoom_bind.
  { apply (idup_ok _ _ _ _ _ Hr5), (refs_cwd_in _ _ p y); [|by rewrite Ed].
    unfold st. cbn [procs]. by rewrite list_lookup_insert_ne, list_lookup_insert_eq. }
  intros d' fy6 (-> & Hr6 & Efy6). psteps.
  change ((st s p np fy5 t h x5 y) <| fsys := fy6 |>) with (st s p np fy6 t h x5 y). rewrite (set_np s p np Hn).
  apply Hc; [by rewrite Efy6|]. rewrite <- (list_insert_insert_eq _ np _ x5).
  apply (refs_set_cwd fy6 _ [] [d] [] np x5); [exact Hr6| |change (pcwd x5) with (pcwd x); by rewrite Ecx].
  apply list_lookup_insert_eq. by rewrite length_insert.
Qed.

(** The child becomes runnable, with its parent set. *)
Lemma fork_publish n res s p np fy t h x y :
  (np < length (procs s))%nat → held hart {[proc_addr np]} n res t →
  returns (let! pid := gets (λ s, ppid (getp s np)) in
           rel hart (proc_addr np) ;;;
           acq hart wait_lock ;;;
           modify (setp np (λ x, x <| pparent := Some p |>)) ;;;
           rel hart wait_lock ;;;
           acq hart (proc_addr np) ;;;
           modify (setp np (λ x, x <| pstate := RUNNABLE |>)) ;;;
           rel hart (proc_addr np) ;;;
           ret pid) (st s p np fy t h x y)
    (λ r s', r = ppid x ∧ ∃ t', held hart ∅ n res t' ∧ s' = st s p np fy t' h (x <| pparent := Some p |> <| pstate := RUNNABLE |>) y).
Proof.
  intros Hn Ht. psteps. rewrite (get_np s p np Hn).
  eapply returns_rel; [exact Ht|by apply elem_of_singleton_2|]. rewrite difference_diag_L. intros t6 Ht6.
  eapply returns_acq; [exact Ht6|apply not_elem_of_empty|]. rewrite union_empty_r_L. intros t7 Ht7. psteps.
  eapply returns_rel; [exact Ht7|by apply elem_of_singleton_2|]. rewrite difference_diag_L. intros t8 Ht8.
  eapply returns_acq; [exact Ht8|apply not_elem_of_empty|]. rewrite union_empty_r_L. intros t9 Ht9. psteps.
  eapply returns_rel; [exact Ht9|by apply elem_of_singleton_2|]. rewrite difference_diag_L. intros t10 Ht10.
  apply returns_ret. split; [done|]. exists t10. split; [done|].
  change ((st s p np fy t h x y) <| sy := t6 |> <| sy := t7 |>) with (st s p np fy t7 h x y). rewrite (set_np s p np Hn).
  change ((st s p np fy t7 h (x <| pparent := Some p |>) y) <| sy := t8 |> <| sy := t9 |>)
    with (st s p np fy t9 h (x <| pparent := Some p |>) y).
  by rewrite (set_np s p np Hn).
Qed.

(** The system with the child in it is well-formed. *)
Lemma forked_kernel_ok n res p np s l fy t h x x' l2 :
  kernel_ok n res p s l → p ≠ np → (np < NP)%nat → held hart ∅ n res t →
  msys (kmem (s <| fsys := fy |>)) l2 (<[np := x]> (procs s)) →
  ptrapframe x' = ptrapframe x → ppagetable x' = ppagetable x → psz x' = psz x → pstate x' = RUNNABLE → length (pofile x') = NOFILE →
  let y := fpu_saved (fpuhw s) (getp s p) in
  refs_ok fy (<[np := x']> (<[p := y]> (procs s))) [] [] →
  kernel_ok n res p (st s p np fy t h x' y) l2.
Proof.
  intros [_ Hlen Hm He Hr Hc Hlt Hrun Hpt Hcwd] Hne Hnp Ht Hm4 E1 E2 E3 E4 E5 y Hr6. set (pp := getp s p) in *.
  assert (Hp : (p < length (procs s))%nat) by lia. assert (Hn : (np < length (procs s))%nat) by lia.
  pose proof (lookup_getp s p Hp) as Epp. fold pp in Epp.
  assert (Hepp : entry_ok pp) by (rewrite Forall_forall in He; by eapply He, list_elem_of_lookup_2).
  destruct (fpu_saved_keeps (fpuhw s) pp) as (Eyf & Eyc & Eys & Eyp & Eyt & Eyst). fold y in Eyf, Eyc, Eys, Eyp, Eyt, Eyst.
  split; rewrite ?(get_p s p np Hne Hp); try done.
  - unfold st. cbn [procs]. by rewrite !length_insert.
  - change (kmem (st s p np fy t h x' y)) with (kmem (s <| fsys := fy |>)). unfold st. cbn [procs]. rewrite list_insert_insert_ne by done.
    apply (msys_same _ l2 _ p pp); [|by rewrite list_lookup_insert_ne|exact Eyt|exact Eyp|exact Eys].
    rewrite <- (list_insert_insert_eq (procs s) np x' x). apply (msys_same _ l2 _ np x); [done|by apply list_lookup_insert_eq|done..].
  - unfold st. cbn [procs]. apply Forall_insert; [apply Forall_insert; [done|]|].
    + split; [unfold idle; by rewrite Eyst, Hrun| |by rewrite Eyf; apply Hepp]. rewrite Eyst, Hrun. by intros [?|?].
    + split; [unfold idle; by rewrite E4|rewrite E4; by intros [?|?]|done].
  - by rewrite Eyst.
  - by rewrite Eyp.
  - by rewrite Eyc.
Qed.

(** The child's size, registers and floating-point state. *)
Lemma fork_registers {A} s p np k t x (c : unit → M (kstate B X) A) Q tf tp :
  p ≠ np → (p < length (procs s))%nat → (np < length (procs s))%nat →
  let pp := getp s p in
  let y := fpu_saved (fpuhw s) pp in
  let m := store64 (put_bytes (mem k) tf (load_bytes (mem k) tp 288)) (tf + TF_a0) 0 in
  returns (c tt) (st s p np (fsys (with_kmem (with_mem m k) s)) t (FpuHw false (hw_f (fpuhw s)) (hw_fcsr (fpuhw s)))
    (x <| psz := psz pp |> <| pfpu := pfpu y |> <| pfpu_used := pfpu_used y |> <| pfpu_active := false |>) y) Q →
  returns (modify (λ s, setp np (λ x, x <| psz := psz (getp s p) |>) s) ;;;
           on_kmem (copy_trapframe tf tp) ;;;
           fork_fpu p np ;;;
           bind (on_kmem (wr64 (tf + TF_a0) 0)) c) (st s p np (fsys (with_kmem k s)) t (fpuhw s) x pp) Q.
Proof.
  intros Hne Hp Hn pp y m Hc. psteps. rewrite (get_p s p np Hne Hp), (set_np s p np Hn).
  unfold copy_trapframe, wr64. apply returns_kmem_modify. set (x2 := x <| psz := psz pp |>).
  change (kmem (st s p np (fsys (with_kmem k s)) t (fpuhw s) x2 pp)) with k.
  set (m3 := put_bytes (mem k) tf (load_bytes (mem k) tp 288)).
  change (with_kmem (with_mem m3 k) (st s p np (fsys (with_kmem k s)) t (fpuhw s) x2 pp))
    with (st s p np (fsys (with_kmem (with_mem m3 k) s)) t (fpuhw s) x2 pp).
  unfold fork_fpu. apply returns_assoc, (fpu_save_st s p np Hne Hp). psteps.
  repeat first [rewrite (get_p s p np Hne Hp)|rewrite (set_np s p np Hn)]. apply returns_kmem_modify. exact Hc.
Qed.

(** The two outcomes of [kfork]. *)
Definition fork_post n res p s l (r : Z) (s' : kstate B X) : Prop := ∃ l', kernel_ok n res p s' l'
    ∧ (r = -1 ∧ l' ≡ₚ l ∧ (∀ j, pstate (getp s j) ≠ UNUSED → getp s' j = getp s j)
         ∧ used_kept (kmem s) (kmem s') (procs s)
       ∨ r = nextpid s ∧ ∃ np, forked s s' p np).

Section Child.

(** After [allocproc] and [uvmcopy]: the entry [np] is taken, the memory is [k]. *)
Context (n : Z) (res : bool) (p np : nat) (s : kstate B X) (l l2 : list Z) (k : kmem_state) (t : sync) (tf pt : Z).
Context (Hko : kernel_ok n res p s l) (Hne : p ≠ np) (Hnp : (np < NP)%nat) (Hu : pstate (getp s np) = UNUSED).
Context (Ht : held hart {[proc_addr np]} n res t) (Htf : tf ≠ 0) (Hpt : pt ≠ 0).
Context (Ho : others_kept (kmem s) k (procs s) np).

Let x1 := newborn (nextpid s) tf pt (getp s np).
Let fy := fsys (with_kmem k s).

Lemma parent_entry : procs s !! p = Some (getp s p) ∧ entry_ok (getp s p).
Proof.
  destruct Hko as [_ Hlen _ He _ _ Hlt _ _ _]. pose proof (lookup_getp s p ltac:(lia)) as E. split; [done|].
  rewrite Forall_forall in He. by eapply He, list_elem_of_lookup_2.
Qed.

Lemma child_entry :
  procs s !! np = Some (getp s np) ∧ psz (getp s np) = 0 ∧ pofile (getp s np) = replicate NOFILE None ∧ pcwd (getp s np) = None.
Proof.
  destruct Hko as [_ Hlen _ He _ _ _ _ _ _]. pose proof (lookup_getp s np ltac:(lia)) as E.
  assert (Hepn : entry_ok (getp s np)) by (rewrite Forall_forall in He; by eapply He, list_elem_of_lookup_2).
  destruct (eo_idle _ Hepn Hu) as (_ & _ & Esz0). destruct (eo_files _ Hepn ltac:(by left)) as [Eof Ecw]. done.
Qed.

(** [uvmcopy] failed. *)
Lemma fork_abandons :
  msys k l2 (<[np := x1 <| psz := 0 |>]> (procs s)) → l2 ++ pmem k (x1 <| psz := 0 |>) ≡ₚ l →
  returns (freeproc np ;;; rel hart (proc_addr np) ;;; ret (-1)) (st s p np fy t (fpuhw s) x1 (getp s p)) (fork_post n res p s l).
Proof.
  intros Hm Hl. destruct child_entry as (Epn & Esz0 & _). destruct parent_entry as [Epp _].
  assert (Hn : (np < length (procs s))%nat) by (by eapply lookup_lt_Some).
  assert (Eback : st s p np fy t (fpuhw s) x1 (getp s p)
    = setp np (newborn (nextpid s) tf pt) (with_kmem k (took_pid (s <| sy := t |>)))).
  { unfold st, setp, x1. cbn. by rewrite (list_insert_id (procs s) p (getp s p)). }
  rewrite Eback. eapply returns_mono; [eapply (undo_alloc hart (-1) n res _ np _ l2); [exact Ht|exact Hn|]|].
  - change (msys k l2 (<[np := x1]> (procs s))). rewrite <- (list_insert_insert_eq _ np x1 (x1 <| psz := 0 |>)).
    eapply msys_same; [exact Hm|by apply list_lookup_insert_eq|done|done|exact Esz0].
  - intros r s' (-> & t' & k' & l' & Ht' & -> & Hm' & Hl' & Ho').
    destruct (abandoned n res p s l np (newborn (nextpid s) tf pt) t' k' l' Hko Hnp Hu Ht' eq_refl eq_refl Hm') as [Hko' Hsame].
    exists l'. split; [exact Hko'|]. left. split_and!; [done| |exact Hsame|].
    + rewrite Hl', <- Hl. f_equiv. symmetry. apply reflexive_eq, pmem_ext; [done|done|by rewrite <- Esz0].
    + eapply (others_used _ _ _ np (getp s np)); [|done|done]. eapply others_kept_trans; [exact Ho|exact Ho'|done].
Qed.

(** [uvmcopy] succeeded. *)
Lemma fork_completes :
  msys k l2 (<[np := x1 <| psz := psz (getp s p) |>]> (procs s)) → same_bytes (kmem s) (ppagetable (getp s p)) k pt →
  returns (modify (λ s, setp np (λ x, x <| psz := psz (getp s p) |>) s) ;;;
           on_kmem (copy_trapframe tf (ptrapframe (getp s p))) ;;;
           fork_fpu p np ;;;
           on_kmem (wr64 (tf + TF_a0) 0) ;;;
           for_each (seq 0 NOFILE) (dup_file p np) ;;;
           (match pcwd (getp s p) with
            | None => panic "kerneltrap"
            | Some d => let! d' := on_files (on_fs (idup d)) in modify (setp np (λ x, x <| pcwd := Some d' |>))
            end) ;;;
           modify (λ s, setp np (λ x, x <| pname := safestrcpy (pname x) (pname (getp s p)) 16 |>) s) ;;;
           let! pid := gets (λ s, ppid (getp s np)) in
           rel hart (proc_addr np) ;;;
           acq hart wait_lock ;;;
           modify (setp np (λ x, x <| pparent := Some p |>)) ;;;
           rel hart wait_lock ;;;
           acq hart (proc_addr np) ;;;
           modify (setp np (λ x, x <| pstate := RUNNABLE |>)) ;;;
           rel hart (proc_addr np) ;;;
           ret pid) (st s p np fy t (fpuhw s) x1 (getp s p)) (fork_post n res p s l).
Proof.
  intros Hm Hb. destruct child_entry as (Epn & Esz0 & Eof & Ecw). destruct parent_entry as [Epp Hepp].
  assert (Hp : (p < length (procs s))%nat) by (by eapply lookup_lt_Some). assert (Hn : (np < length (procs s))%nat) by (by eapply lookup_lt_Some).
  apply fork_registers; [done|done|done|]. set (pp := getp s p) in *. cbv zeta. fold pp. set (y := fpu_saved (fpuhw s) pp). set (m := store64 _ _ _).
  destruct (child_registers (mem k) tf (ptrapframe pp)) as (Hf & Hregs & Ha0). fold m in Hf, Hregs, Ha0. clearbody m.
  set (x2 := x1 <| psz := psz pp |>) in *. set (x3 := _ <| pfpu_active := false |>). set (fy4 := fsys (with_kmem (with_mem m k) s)). set (h := FpuHw _ _ _).
  destruct (fpu_saved_keeps (fpuhw s) pp) as (Eyf & Eyc & Eys & Eyp & Eyt & Eyst). fold y in Eyf, Eyc, Eys, Eyp, Eyt, Eyst.
  destruct (pcwd pp) as [d|] eqn:Ed; [|by destruct (ko_cwd _ _ _ _ _ Hko)].
  apply (fork_share s p np fy4 t h x3 y d); [done|done|done| |by rewrite Eyf; apply Hepp|exact Eof|by rewrite Eyc|exact Ecw|].
  { apply (refs_same _ _ _ _ np (getp s np)); [|by rewrite list_lookup_insert_ne|reflexivity|reflexivity].
    apply (refs_same _ _ _ _ p pp); [|exact Epp|exact Eyf|by rewrite Ed]. by destruct (ko_refs _ _ _ _ _ Hko). }
  intros fy6 Ek Hr6. psteps. rewrite (get_p s p np Hne Hp), (set_np s p np Hn). set (x6 := _ <| pname := _ |>).
  eapply returns_mono; [by apply fork_publish|]. intros r s' (-> & t' & Ht' & ->). set (x7 := _ <| pstate := RUNNABLE |>).
  assert (Ex2 : <[np := x2]> (procs s) !! np = Some x2) by (by apply list_lookup_insert_eq).
  destruct (msys_trapframe k m l2 (<[np := x2]> (procs s)) np x2 Hm Ex2 Htf Hf) as (Hm4 & Ho4 & Hb4).
  exists l2. split.
  - apply (forked_kernel_ok n res p np s l fy6 t' h x2 x7 l2 Hko Hne Hnp Ht'); try done; [by rewrite Ek|cbn; rewrite Eyf; apply Hepp|].
    rewrite <- (list_insert_insert_eq _ np x7 (x3 <| pofile := pofile y |> <| pcwd := Some d |>)).
    eapply refs_same; [exact Hr6|apply list_lookup_insert_eq; by rewrite length_insert|reflexivity|reflexivity].
  - right. split; [reflexivity|]. exists np.
    assert (Hk : others_kept (kmem s) (with_mem m k) (procs s) np).
    { eapply others_kept_trans; [exact Ho|exact Ho4|]. intros j Hj. by rewrite list_lookup_insert_ne. }
    assert (Ek' : kmem (st s p np fy6 t' h x7 y) = with_mem m k) by exact Ek.
    split; rewrite ?Ek', ?(get_np s p np Hn), ?(get_p s p np Hne Hp); try done.
    + change (pfpu_used y = pfpu_used pp). unfold y, fpu_saved. by destruct (pfpu_active pp).
    + eapply same_bytes_trans; [exact Hb|exact (proj2 (Hb4 np x2 Ex2) Hpt)].
    + intros o Ho' Hno. change (mget m (tf + o) = mget (mem (kmem s)) (ptrapframe pp + o)). rewrite Hregs by done.
      apply (kp_bytes _ _ _ (Ho p pp Hne Epp) (ptrapframe pp)); [|unfold in_page; pose proof (ko_mem _ _ _ _ _ Hko); page_lia].
      destruct (pi_image _ _ _ (ms_proc _ _ _ (ko_mem _ _ _ _ _ Hko) p pp Epp) (ko_pt _ _ _ _ _ Hko)) as [Htp _].
      unfold pmem. rewrite (proj2 (Z.eqb_neq (ptrapframe pp) 0)) by exact Htp. left.
    + apply (kept_bytes _ _ l pp); [exact (ms_proc _ _ _ (ko_mem _ _ _ _ _ Hko) p pp Epp)|by apply (Hk p)|apply Hko].
    + intros j Hj1 Hj2. unfold getp, st. cbn [procs]. by rewrite !list_lookup_insert_ne.
Qed.

End Child.

Lemma kfork_ok n res p s l :
  kernel_ok n res p s l → returns (kfork hart) s (fork_post n res p s l).
Proof.
  intros Hko. pose proof Hko as [Hh Hlen Hm He Hr Hc Hlt Hrun Hpt Hcwd].
  unfold kfork. eapply returns_cur; [exact Hh|exact Hc|]. intros t0 Ht0.
  eapply returns_bind; [apply (allocproc_ok hart n res); [exact Ht0|exact Hlen|exact Hm|exact (entries_idle _ He)]|].
  intros [np|] s1 (t & k1 & l1 & Hal & Hm1 & Hkept1).
  2:{ destruct Hal as (Ht & Hl & Hcase). apply returns_ret. exists l1.
      destruct Hcase as [(-> & -> & _)|(i & Hi & Hu & ->)].
      - split; [by split|]. left. split_and!; done.
      - destruct (abandoned n res p s l i id t k1 l1 Hko Hi Hu Ht eq_refl eq_refl Hm1) as [Hko' Hsame].
        split; [exact Hko'|]. left. split_and!; done. }
  destruct Hal as (Ht & Hnp & Hu & tf & pt & Htf & Hpt' & Hl1 & Es1).
  change (pstate (getp s np) = UNUSED) in Hu. assert (Hne : p ≠ np) by congruence.
  destruct (child_entry n res p np s l Hko Hne Hnp Hu) as (Epn & Esz0 & _). destruct (parent_entry n res p np s l Hko Hne Hnp) as [Epp _].
  assert (Hp : (p < length (procs s))%nat) by lia. assert (Hn : (np < length (procs s))%nat) by lia.
  set (pp := getp s p) in *. set (x1 := newborn (nextpid s) tf pt (getp s np)).
  assert (Es1' : s1 = st s p np (fsys (with_kmem k1 s)) t (fpuhw s) x1 pp).
  { rewrite Es1. unfold st, setp. cbn. by rewrite (list_insert_id (procs s) p pp). }
  clear Es1. subst s1. psteps. unfold id. rewrite (get_p s p np Hne Hp), (get_np s p np Hn).
  assert (Hps1 : procs (st s p np (fsys (with_kmem k1 s)) t (fpuhw s) x1 pp) = <[np := x1]> (procs s)).
  { unfold st. cbn [procs]. by rewrite (list_insert_id (procs s) p pp). }
  rewrite Hps1 in Hm1.
  eapply returns_kmem.
  { change (kmem _) with k1. apply (fork_memory k1 l1 (<[np := x1]> (procs s)) p np pp x1 Hm1); try done;
      [by rewrite list_lookup_insert_ne|by apply list_lookup_insert_eq]. }
  intros c k2 (l2 & sz2 & Hc2 & Ht2 & Hm2 & Hl2 & Ho2). cbv zeta in Hm2, Hl2. rewrite list_insert_insert_eq in Hm2.
  assert (Ho1 : others_kept (kmem s) k1 (procs s) np).
  { intros j q Hj Hq. destruct (decide (pstate q = UNUSED)) as [Eq|Eq]; [|by apply (Hkept1 j q)].
    assert (Hq' : entry_ok q) by (rewrite Forall_forall in He; by eapply He, list_elem_of_lookup_2).
    by apply idle_kept; [apply Hq'|]. }
  assert (Ho12 : others_kept (kmem s) k2 (procs s) np).
  { eapply others_kept_trans; [exact Ho1|exact Ho2|]. intros j Hj. by rewrite list_lookup_insert_ne. }
  change (with_kmem k2 (st s p np (fsys (with_kmem k1 s)) t (fpuhw s) x1 pp)) with (st s p np (fsys (with_kmem k2 s)) t (fpuhw s) x1 pp).
  destruct Hc2 as [(-> & -> & Hb2)|(-> & ->)]; cbn [Z.ltb Z.compare].
  - apply (fork_completes n res p np s l l2 k2 t tf pt); try done.
    eapply same_bytes_trans; [|exact Hb2]. apply (kept_bytes _ _ l pp); [by eapply ms_proc|by apply (Ho1 p)|done].
  - apply (fork_abandons n res p np s l l2 k2 t tf pt); try done.
    etransitivity; [exact Hl2|]. rewrite <- Hl1. unfold x1. rewrite pmem_newborn by done. rewrite <- Permutation_middle. done.
Qed.

End Fork.
