(* ===== verification/ProcCalls.v ===== *)
(** [growproc], [kexit] and [kwait] (proc.c) on the whole kernel state. *)

From S2P Require Import Prelude Machine CString Kalloc Vm PageTable AddrSpace Uvm UvmCopy UvmFree CopyIO.
From S2P Require Import Spinlock Bio Fs File Proc ProcBase ProcFiles ProcTable ProcMem ProcLife ProcFork.

(** ** Growing and shrinking *)

Section Memory.
Context {LK : Linker} {LKok : LinkerOk}.

(** A user page outside the pages that changed. *)
Lemma uget_kept Q n k k' pt va l :
  uvm k pt n l → mem_frame Q (mem k) (mem k') → Forall (λ p, p mod PGSIZE = 0) Q →
  0 ≤ va < Z.of_nat n * PGSIZE → vpte k' pt va = vpte k pt va →
  (mapped k pt va = true → PTE2PA (vpte k pt va) ∉ Q) → uget k' pt va = uget k pt va.
Proof.
  intros Hu Hf Hal Hva Hv HQ. assert (Eu : upa k' pt va = upa k pt va) by (unfold upa; by rewrite Hv).
  unfold uget. rewrite Eu. destruct (Z.eqb_spec (upa k pt va) 0) as [E|E]; [done|]. f_equal.
  assert (mapped k pt va = true ∧ upa k pt va = PTE2PA (vpte k pt va)) as [Hm Ep].
  { unfold upa, mapped in *. destruct (va <? MAXVA); [|done].
    destruct (has (vpte k pt va) PTE_V); [|done]. by destruct (has (vpte k pt va) PTE_U). }
  rewrite Ep. apply (mem_frame_byte Q _ _ (PTE2PA (vpte k pt va))); [done|done|apply PTE2PA_aligned|by apply HQ|].
  unfold in_page. page_lia.
Qed.

(** The memory of a process of [sz] bytes after it was resized to [sz']. *)
Record resized (k k' : kmem_state) (pt sz sz' : Z) : Prop := {
  rz_kept va : 0 ≤ va < Z.min (PGROUNDUP sz) (PGROUNDUP sz') → uget k' pt va = uget k pt va;
  rz_new va : PGROUNDUP sz ≤ va < PGROUNDUP sz' → uget k' pt va = Some 0 ∧ uwritable k' pt va = true;
  rz_gone va : PGROUNDUP sz' ≤ va < TRAPFRAME → uget k' pt va = None;
}.

Lemma uvm_none k pt n l va : uvm k pt n l → Z.of_nat n * PGSIZE ≤ va < TRAPFRAME → uget k pt va = None.
Proof.
  intros Hu Hva. pose proof (uvm_above _ _ _ _ Hu va Hva) as Hm. unfold uget, upa, mapped in *.
  by rewrite Hm, andb_false_r.
Qed.

Lemma resized_refl k pt sz l : uvm k pt (pages_of sz) l → 0 ≤ sz ≤ TRAPFRAME → resized k k pt sz sz.
Proof.
  intros Hu Hsz. split; [done|lia|]. intros va. rewrite PGROUNDUP_pages by va_lia. by eapply uvm_none.
Qed.

Lemma fresh_zero k pt va :
  0 ≤ va < MAXVA → fresh k pt va (Z.lor (Z.lor PTE_R PTE_U) PTE_W) → phys_top k ≤ 2 ^ 55 →
  uget k pt va = Some 0 ∧ uwritable k pt va = true.
Proof.
  intros Hva (pa & Ev & Hp & Hz) Htop. set (perm := Z.lor (Z.lor PTE_R PTE_U) PTE_W) in *.
  pose proof (page_ok_range _ _ Hp Htop) as Hr. pose proof (page_ok_aligned _ _ Hp) as Hal.
  pose proof (page_ok_nonzero _ _ Hp) as Hnz.
  assert (Ep : PTE2PA (vpte k pt va) = pa) by (rewrite Ev, leaf_PTE2PA; (done || page_lia)).
  assert (Hh : ∀ f, 0 ≤ f < 1024 → has (vpte k pt va) f = has (Z.lor perm PTE_V) f).
  { intros f Hf. apply has_flags; [done|]. by rewrite Ev, leaf_flags. }
  assert (Eu : upa k pt va = pa).
  { unfold upa. rewrite !Hh, Ep by done. by rewrite (proj2 (Z.ltb_lt va MAXVA)) by lia. }
  unfold uget, uwritable. rewrite Eu, Hh by done. rewrite (proj2 (Z.eqb_neq pa 0)) by done. split; [|done].
  f_equal. apply Hz. unfold in_page. page_lia.
Qed.

(** Resizing one process of the system. *)
Lemma resize_step Q k k' l l' ps i p sz' :
  msys k l ps → ps !! i = Some p → ppagetable p ≠ 0 →
  uvm k' (ppagetable p) (pages_of sz') l' → 0 ≤ sz' ≤ TRAPFRAME →
  owned (pages_of sz') k' (ppagetable p) l' ≡ₚ owned (pages_of (psz p)) k (ppagetable p) l →
  phys_top k' = phys_top k → mem_frame Q (mem k) (mem k') → Q ⊆ owned (pages_of (psz p)) k (ppagetable p) l →
  (∀ va, TRAPFRAME ≤ va < MAXVA → vpte k' (ppagetable p) va = vpte k (ppagetable p) va) →
  msys k' l' (<[i := p <| psz := sz' |>]> ps) ∧ others_kept k k' ps i.
Proof.
  intros Hm Hi Hpt Hu' Hsz' Hown Ht Hf HQ Hh.
  destruct (pi_image _ _ _ (ms_proc _ _ _ Hm i p Hi) Hpt) as [Htf [Hu Hsz Hhi]].
  assert (Epm : ∀ k p, ppagetable p ≠ 0 → ptrapframe p ≠ 0 → pmem k p
    = ptrapframe p :: frames (pages_of (psz p)) k (ppagetable p) 0 ++ tables k (ppagetable p)).
  { clear. intros k p H1 H2. unfold pmem.
    by rewrite (proj2 (Z.eqb_neq _ 0) H1), (proj2 (Z.eqb_neq _ 0) H2). }
  assert (Hperm : ∀ n k l, l ++ ptrapframe p :: frames n k (ppagetable p) 0 ++ tables k (ppagetable p)
    ≡ₚ ptrapframe p :: owned n k (ppagetable p) l).
  { clear. intros n k l. rewrite <- Permutation_middle. f_equiv. unfold owned. rewrite !app_assoc. f_equiv.
    apply Permutation_app_comm. }
  assert (Eown : l ++ pmem k p ≡ₚ ptrapframe p :: owned (pages_of (psz p)) k (ppagetable p) l)
    by (rewrite Epm by done; apply Hperm).
  apply (msys_step k k' l l' ps i p); try done.
  - apply (uvm_pt _ _ _ _ Hu').
  - eapply mem_frame_mono; [|exact Hf]. intros q Hq. rewrite Eown. right. by apply HQ.
  - rewrite Eown, (Epm k'), Hperm by done. change (psz (p <| psz := sz' |>)) with sz'.
    change (ppagetable (p <| psz := sz' |>)) with (ppagetable p). by rewrite Hown.
  - destruct (ms_proc _ _ _ Hm i p Hi) as [Htp _]. split; [intros _; rewrite Ht; by apply Htp|]. intros _. split; [done|].
    split; [done|done|]. intros va Hva. etransitivity; [exact (Hh va Hva)|exact (Hhi va Hva)].
Qed.

Lemma grow_memory k l ps i p newsz :
  msys k l ps → ps !! i = Some p → ppagetable p ≠ 0 → psz p ≤ newsz ≤ TRAPFRAME →
  returns (uvmalloc (ppagetable p) (psz p) newsz PTE_W) k (λ r k', ∃ l' sz',
    (r = newsz ∧ sz' = newsz
     ∨ r = 0 ∧ sz' = psz p ∧ ran_out (pages_of newsz - pages_of (psz p)) (ppagetable p) l k l' k')
    ∧ msys k' l' (<[i := p <| psz := sz' |>]> ps) ∧ others_kept k k' ps i
    ∧ resized k k' (ppagetable p) (psz p) sz'
    ∧ owned (pages_of sz') k' (ppagetable p) l' ≡ₚ owned (pages_of (psz p)) k (ppagetable p) l).
Proof.
  intros Hm Hi Hpt Hsz. destruct (pi_image _ _ _ (ms_proc _ _ _ Hm i p Hi) Hpt) as [_ HI].
  destruct HI as [Hu Hsz0 _]. set (pt := ppagetable p) in *. set (n := pages_of (psz p)) in *.
  eapply returns_mono; [apply (uvmalloc_ok k pt l (psz p) newsz PTE_W); (done || lia)|].
  intros r k' (l' & n' & Hu' & Hown & Ht & Hf & Hv & Hr). fold n in Hu', Hown, Hf, Hv, Hr.
  rewrite Nat.sub_diag in Hf. cbn [frames app] in Hf.
  assert (∃ sz', n' = pages_of sz' ∧ (r = newsz ∧ sz' = newsz
        ∨ r = 0 ∧ sz' = psz p ∧ ran_out (pages_of newsz - n) pt l k l' k') ∧ psz p ≤ sz' ≤ TRAPFRAME
    ∧ ∀ va, Z.of_nat n * PGSIZE ≤ va < Z.of_nat n' * PGSIZE → fresh k' pt va (Z.lor (Z.lor PTE_R PTE_U) PTE_W))
    as (sz' & -> & Hr' & Hsz' & Hnew).
  { destruct Hr as [(-> & -> & _ & _ & Hnew)|(-> & -> & Hmt & Hlen)].
    - exists newsz. assert (Hmx : Nat.max n (pages_of newsz) = pages_of newsz) by (subst n; va_lia).
      rewrite Hmx in Hnew |- *. split_and!; auto; lia.
    - exists (psz p). split_and!; [done| |lia|lia|intros; lia]. right. split_and!; [done|done|by eapply grown_failed]. }
  exists l', sz'. split; [done|].
  destruct (resize_step (l ++ tables k pt) k k' l l' ps i p sz') as [Hm' Ho]; try done; try lia.
  { intros q Hq. unfold owned. apply elem_of_app. right. exact Hq. }
  { intros va Hva. apply Hv; [va_lia|lia]. }
  split_and!; [done|done| |done]. split.
  - intros va Hva. rewrite !PGROUNDUP_pages in Hva by lia. fold n in Hva.
    apply (uget_kept (l ++ tables k pt) n k k' pt va l); [done|done| |lia| |].
    + destruct (uvm_pt _ _ _ _ Hu) as [[_ _ Hl _] _ Hrt _]. apply Forall_app. split; by eapply pages_aligned.
    + apply Hv; [pose proof (uvm_top _ _ _ _ Hu); va_lia|lia].
    + intros Hmp. destruct Hu as [_ Hsep _ Htop _ _]. apply NoDup_app in Hsep as (_ & Hd & _). apply Hd.
      apply frames_elem; [lia|va_lia|done].
  - intros va Hva. rewrite !PGROUNDUP_pages in Hva by lia. pose proof (uvm_top _ _ _ _ Hu').
    apply fresh_zero; [va_lia|apply Hnew; fold n in Hva; lia|]. rewrite Ht. eapply kinv_top, Hm.
  - intros va. rewrite PGROUNDUP_pages by lia. by eapply uvm_none.
Qed.

Lemma shrink_memory k l ps i p newsz :
  msys k l ps → ps !! i = Some p → ppagetable p ≠ 0 → 0 ≤ newsz ≤ psz p →
  returns (uvmdealloc (ppagetable p) (psz p) newsz) k (λ r k', r = newsz ∧ ∃ l',
    msys k' l' (<[i := p <| psz := newsz |>]> ps) ∧ others_kept k k' ps i
    ∧ resized k k' (ppagetable p) (psz p) newsz
    ∧ owned (pages_of newsz) k' (ppagetable p) l' ≡ₚ owned (pages_of (psz p)) k (ppagetable p) l).
Proof.
  intros Hm Hi Hpt Hsz. destruct (pi_image _ _ _ (ms_proc _ _ _ Hm i p Hi) Hpt) as [_ HI].
  destruct HI as [Hu Hsz0 _]. set (pt := ppagetable p) in *. set (n := pages_of (psz p)) in *.
  eapply returns_mono; [apply (uvmdealloc_ok k pt l (psz p) newsz); (done || lia)|].
  intros r k' (-> & l' & Hu' & Hown & Htab & Ht & Hf & Hv). split; [done|]. exists l'. fold n in Hown, Hf.
  set (m := pages_of newsz) in *. assert (Hmn : (m ≤ n)%nat) by (subst m n; va_lia).
  assert (Efr : frames n k pt 0 = frames m k pt 0 ++ frames (n - m) k pt (Z.of_nat m * PGSIZE)).
  { replace n with (m + (n - m))%nat at 1 by lia. by rewrite frames_app, Z.add_0_l. }
  set (Q := frames (n - m) k pt (Z.of_nat m * PGSIZE) ++ tables k pt) in *.
  destruct (resize_step Q k k' l l' ps i p newsz) as [Hm' Ho]; try done; try lia.
  { intros q. fold n pt. unfold Q, owned. rewrite Efr, !elem_of_app. tauto. }
  { intros va Hva. apply Hv; [va_lia|lia]. }
  split_and!; [done|done| |done]. rewrite PGROUNDUP_pages in Hv by lia. fold m in Hv. split.
  - intros va Hva. rewrite !PGROUNDUP_pages in Hva by lia. fold n m in Hva.
    destruct Hu as [Hpo Hsep Hrg Htop Hab Hhg]. apply (uget_kept Q n k k' pt va l); [by split|done| |lia| |].
    + destruct Hpo as [_ _ Hrt _]. unfold Q. apply Forall_app. split; [|by eapply pages_aligned].
      rewrite Efr in Hrg. apply Forall_app in Hrg as [_ Hrg]. by eapply pages_aligned.
    + apply Hv; [va_lia|lia].
    + intros Hmp. unfold owned in Hsep. rewrite Efr, <- app_assoc in Hsep. apply NoDup_app in Hsep as (_ & Hd & _).
      intros Hin. eapply (Hd (PTE2PA (vpte k pt va))); [apply frames_elem; [lia|va_lia|done]|].
      unfold Q in Hin. rewrite elem_of_app in Hin. rewrite !elem_of_app. tauto.
  - intros va Hva. rewrite !PGROUNDUP_pages in Hva by lia. fold n m in Hva. va_lia.
  - intros va. rewrite PGROUNDUP_pages by lia. by eapply uvm_none.
Qed.

End Memory.

(** ** [growproc] *)

Section Calls.
Context {B X : Type} `{BlockCache B} {LK : Linker} {LKok : LinkerOk} {SY : Symbols} {SYok : SymbolsOk}.
Context (hart : Z).
Implicit Types s : kstate B X.

(** The current process changes its memory. *)
Lemma kernel_mem n res p s l t k' l' f :
  kernel_ok hart n res p s l → held hart ∅ n res t →
  msys k' l' (<[p := f (getp s p)]> (procs s)) →
  pstate (f (getp s p)) = pstate (getp s p) → ppagetable (f (getp s p)) ≠ 0 →
  pofile (f (getp s p)) = pofile (getp s p) → pcwd (f (getp s p)) = pcwd (getp s p) →
  kernel_ok hart n res p (setp p f (with_kmem k' (s <| sy := t |>))) l'.
Proof.
  intros [Hh Hlen Hm He Hr Hc Hlt Hrun Hpt Hcwd] Ht Hm' E1 E2 E3 E4.
  assert (Hl : (p < length (procs s))%nat) by lia. pose proof (lookup_getp s p Hl) as Hp.
  set (s' := setp p f _). set (q := getp s p) in *.
  assert (Hg : getp s' p = f q).
  { unfold s'. rewrite getp_setp by exact Hl. by rewrite decide_True. }
  assert (Hps : procs s' = <[p := f q]> (procs s)) by reflexivity.
  assert (Hq : entry_ok q) by (rewrite Forall_forall in He; by eapply He, list_elem_of_lookup_2).
  split; rewrite ?Hg; try done.
  - by rewrite Hps, length_insert.
  - rewrite Hps. apply Forall_insert; [done|]. split.
    + unfold idle. by rewrite E1, Hrun.
    + rewrite E1, Hrun. by intros [?|?].
    + rewrite E3. apply Hq.
  - rewrite Hps. apply (refs_same (fsys s') (procs s) [] [] p q); [by destruct Hr|done|done|done].
  - by rewrite E1.
  - by rewrite E4.
Qed.

Lemma growproc_ok n res p s l inc :
  kernel_ok hart n res p s l → - 2 ^ 31 ≤ inc < 2 ^ 31 →
  let sz := psz (getp s p) in
  returns (growproc inc) s (λ r s', ∃ l', kernel_ok hart n res p s' l'
    ∧ (let sz' := psz (getp s' p) in
       (r = -1 ∧ 0 < inc ∧ sz' = sz
          ∧ (TRAPFRAME < sz + inc ∧ kmem s' = kmem s ∧ l' = l
             ∨ ran_out (pages_of (sz + inc) - pages_of sz) (ppagetable (getp s p)) l (kmem s) l' (kmem s'))
        ∨ r = 0 ∧ sz' = if sz + inc <? 0 then sz else sz + inc)
       ∧ sz' ≤ TRAPFRAME ∧ resized (kmem s) (kmem s') (ppagetable (getp s p)) sz sz'
       ∧ owned (pages_of sz') (kmem s') (ppagetable (getp s p)) l'
           ≡ₚ owned (pages_of sz) (kmem s) (ppagetable (getp s p)) l
       ∧ procs s' = <[p := getp s p <| psz := sz' |>]> (procs s))
    ∧ ppagetable (getp s' p) = ppagetable (getp s p) ∧ others_kept (kmem s) (kmem s') (procs s) p).
Proof.
  intros Hko Hinc sz. pose proof Hko as [Hh Hlen Hm He Hr Hc Hlt Hrun Hpt Hcwd].
  assert (Hl : (p < length (procs s))%nat) by lia. pose proof (lookup_getp s p Hl) as Hp.
  set (q := getp s p) in *. destruct (pi_image _ _ _ (ms_proc _ _ _ Hm p q Hp) Hpt) as [_ [Hu Hsz _]].
  change (0 ≤ sz ≤ TRAPFRAME) in Hsz. set (pt := ppagetable q) in *.
  assert (Hsame : ∀ t, held hart ∅ n res t → kernel_ok hart n res p (s <| sy := t |>) l) by (intros t Ht; by split).
  assert (Hrz : resized (kmem s) (kmem s) pt sz sz) by (by eapply resized_refl).
  assert (Eq : q <| psz := sz |> = q) by (unfold sz; by destruct q).
  assert (Hset : ∀ t k' l' sz', held hart ∅ n res t → msys k' l' (<[p := q <| psz := sz' |>]> (procs s)) →
    let s' := setp p (λ x, x <| psz := sz' |>) (with_kmem k' (s <| sy := t |>)) in
    kernel_ok hart n res p s' l' ∧ psz (getp s' p) = sz' ∧ ppagetable (getp s' p) = pt
    ∧ procs s' = <[p := q <| psz := sz' |>]> (procs s)).
  { intros t k' l' sz' Ht Hm' s'. split; [by apply (kernel_mem n res p s l t k' l')|].
    unfold s'. rewrite getp_setp by exact Hl. by rewrite decide_True. }
  assert (Hid : procs s = <[p := q <| psz := sz |>]> (procs s)) by (by rewrite Eq, list_insert_id).
  unfold growproc. eapply returns_cur; [exact Hh|exact Hc|]. intros t Ht. psteps.
  change (getp (s <| sy := t |>) p) with q. fold sz pt.
  change TRAPFRAME with 274877898752 in *. destruct (Z.ltb_spec 0 inc) as [Hpos|Hneg].
  - rewrite (u64_id (sz + inc)) by lia. destruct (Z.ltb_spec 274877898752 (sz + inc)) as [Hbig|Hfit].
    { apply returns_ret. exists l. split_and!; [by apply Hsame| |exact (proj2 Hsz)|done|done|exact Hid|done|done].
      left. split_and!; [done|done|done|]. left. by split_and!. }
    eapply returns_kmem; [apply (grow_memory (kmem s) l (procs s) p q (sz + inc) Hm Hp Hpt);
      change TRAPFRAME with 274877898752; fold sz; lia|].
    fold sz pt. intros r k' (l' & sz' & Hr' & Hm' & Ho & Hz & Hown). destruct Hr' as [[-> ->]|(-> & -> & Hout)].
    + rewrite (proj2 (Z.eqb_neq (sz + inc) 0)) by lia. psteps. apply returns_ret.
      destruct (Hset t k' l' (sz + inc) Ht Hm') as (Hk' & E1 & E2 & E3). exists l'.
      split; [exact Hk'|]. rewrite E1. split_and!; [|done|exact Hz|exact Hown|exact E3|exact E2|exact Ho]. right. split; [done|].
      by rewrite (proj2 (Z.ltb_ge (sz + inc) 0)) by lia.
    + cbn [Z.eqb]. apply returns_ret. exists l'. set (s' := with_kmem k' (s <| sy := t |>)).
      assert (Hk' : kernel_ok hart n res p s' l').
      { destruct (Hset t k' l' sz Ht Hm') as [Hk' _]. revert Hk'. unfold setp.
        change (getp (with_kmem k' (s <| sy := t |>)) p) with q.
        rewrite Eq.
        assert (Ei : <[p := q]> (procs (with_kmem k' (s <| sy := t |>))) = procs s) by (by apply list_insert_id).
        rewrite Ei. done. }
      split; [exact Hk'|]. change (getp s' p) with q. split_and!; [|lia|exact Hz|exact Hown|exact Hid|done|exact Ho].
      left. split_and!; [done|done|done|]. by right.
  - destruct (Z.ltb_spec inc 0) as [Hneg'|Hz0].
    + destruct (Z.ltb_spec (sz + inc) 0) as [Hunder|Hok].
      * (* the size wraps around: nothing happens *)
        assert (Ew : u64 (sz + inc) = sz + inc + 2 ^ 64).
        { unfold u64. rewrite <- (Z.mod_add _ 1) by lia. apply Z.mod_small. lia. }
        unfold uvmdealloc. rewrite (proj2 (Z.leb_le sz (u64 (sz + inc)))) by lia.
        eapply returns_kmem; [apply (returns_eq _ _ sz (kmem s)); reflexivity|]. intros r k' [-> ->]. psteps.
        apply returns_ret. destruct (Hset t (kmem s) l sz Ht) as (Hk' & E1 & E2 & E3).
        { by rewrite Eq, list_insert_id. }
        exists l. split; [exact Hk'|]. rewrite E1. split_and!; [by right|lia|exact Hrz|done|exact E3|exact E2|done].
      * rewrite (u64_id (sz + inc)) by lia.
        eapply returns_kmem; [apply (shrink_memory (kmem s) l (procs s) p q (sz + inc) Hm Hp Hpt); fold sz; lia|].
        fold sz pt. intros r k' (-> & l' & Hm' & Ho & Hz & Hown). psteps. apply returns_ret.
        destruct (Hset t k' l' (sz + inc) Ht Hm') as (Hk' & E1 & E2 & E3). exists l'.
        split; [exact Hk'|]. rewrite E1. split_and!; [by right|lia|exact Hz|exact Hown|exact E3|exact E2|exact Ho].
    + psteps. apply returns_ret. destruct (Hset t (kmem s) l sz Ht) as (Hk' & E1 & E2 & E3).
      { by rewrite Eq, list_insert_id. }
      rewrite <- (with_kmem_id (s <| sy := t |>)). exists l. split; [exact Hk'|].
      change (kmem (s <| sy := t |>)) with (kmem s). rewrite E1. split_and!; [|lia|exact Hrz|done|exact E3|exact E2|done].
      right. split; [done|]. rewrite (proj2 (Z.ltb_ge (sz + inc) 0)) by lia. lia.
Qed.

End Calls.

(** ** Copies to user memory *)

Section CopyOut.
Context {LK : Linker} {LKok : LinkerOk}.

Lemma image_below k l pt tf sz : image k l pt tf sz → user_below k pt (pages_of sz).
Proof.
  intros Him va Hva Hup. destruct (decide (va < Z.of_nat (pages_of sz) * PGSIZE)) as [|Hge]; [done|]. destruct Hup.
  destruct (decide (va < TRAPFRAME)) as [Hlo|Hhi].
  { pose proof (uvm_above _ _ _ _ (im_uvm _ _ _ _ _ Him) va ltac:(lia)) as Hm. unfold upa, mapped in *.
    by rewrite Hm, andb_false_r. }
  destruct (decide (va < MAXVA)); [eapply image_top_hidden; [done|lia]|].
  unfold upa. by rewrite (proj2 (Z.ltb_ge va MAXVA)) by lia.
Qed.

Lemma copyout_memory k l ps i p va src :
  msys k l ps → ps !! i = Some p → ppagetable p ≠ 0 → 0 ≤ va →
  returns (copyout (ppagetable p) va src (Z.of_nat (length src))) k (λ r k',
    msys k' l ps ∧ others_kept k k' ps i ∧ pmem k' p = pmem k p
    ∧ (r = 0 ∧ (Forall (λ b, 0 ≤ b < 256) src → ubytes (length src) k' (ppagetable p) va = Some src) ∨ r = -1)).
Proof.
  intros Hm Hi Hpt Hva. destruct (pi_image _ _ _ (ms_proc _ _ _ Hm i p Hi) Hpt) as [Htf HI].
  pose proof HI as [Hu Hsz Hh]. set (pt := ppagetable p) in *. set (n := pages_of (psz p)) in *.
  eapply returns_mono; [by apply (copyout_ok k pt n l va src); [|eapply image_below|]|].
  intros r k' (c & Hw & Hr & _). pose proof Hw as (Hu' & Hv & Ht & Hf & _).
  assert (Efr : frames n k' pt 0 = frames n k pt 0).
  { pose proof (uvm_top _ _ _ _ Hu). apply frames_ext; try va_lia. intros va' _. apply Hv. }
  destruct Hu as [Hpo Hsep Hrg Htop Hab Hhg]. unfold owned in Hsep. apply NoDup_app in Hsep as (_ & Hd & _).
  assert (Htab : tables k' pt = tables k pt).
  { apply (pt_ok_change (frames n k pt 0) k k' pt l); [done|done|by eapply pages_aligned|].
    intros q Hq Hq'. apply (Hd q Hq'), elem_of_app. by right. }
  assert (Epm : pmem k' p = pmem k p) by (unfold pmem; fold pt n; by rewrite Efr, Htab).
  destruct (msys_step k k' l l ps i p p Hm Hi) as [Hm' Ho]; try done.
  - apply (uvm_pt _ _ _ _ Hu').
  - eapply mem_frame_mono; [|exact Hf]. intros q Hq. unfold pmem. fold pt n.
    rewrite (proj2 (Z.eqb_neq pt 0)) by done. rewrite !elem_of_app. auto.
  - by rewrite Epm.
  - destruct (ms_proc _ _ _ Hm i p Hi) as [Htp _]. split; [by rewrite Ht|]. intros _. split; [done|].
    split; [done|done|]. intros va' Hva'. fold pt. rewrite Hv. by apply Hh.
  - rewrite list_insert_id in Hm' by done. split_and!; [done|done|done|].
    destruct Hr as [[-> ->]|(-> & _)]; [left|by right]. split; [done|]. intros Hb. by eapply wrote_ubytes.
Qed.

End CopyOut.
