(* ===== verification/ProcExit.v ===== *)
(** [kexit] and [kwait] (proc.c): a process gives its files and children away,
    becomes a zombie, and is reaped by its parent. *)

From S2P Require Import Prelude Machine CString Kalloc Vm PageTable AddrSpace Uvm UvmCopy UvmFree CopyIO.
From S2P Require Import Spinlock Bio Fs File Proc ProcBase ProcFiles ProcTable ProcMem ProcLife ProcFork ProcCalls.

(** ** Changes of the table that move no resource *)

Record calm (x x' : proc) : Prop := {
  cm_tf : ptrapframe x' = ptrapframe x;
  cm_pt : ppagetable x' = ppagetable x;
  cm_sz : psz x' = psz x;
  cm_files : pofile x' = pofile x;
  cm_cwd : pcwd x' = pcwd x;
}.

Lemma bind_Forall2 {A C} (R : A → A → Prop) (g : A → list C) l l' :
  Forall2 R l l' → (∀ x y, R x y → g y = g x) → (l' ≫= g) = (l ≫= g).
Proof. intros HF HR. induction HF as [|x y l l' Hxy _ IH]; [done|]. by rewrite !bind_cons, IH, (HR x y). Qed.

Lemma omap_Forall2 {A C} (R : A → A → Prop) (g : A → option C) l l' :
  Forall2 R l l' → (∀ x y, R x y → g y = g x) → omap g l' = omap g l.
Proof. intros HF HR. induction HF as [|x y l l' Hxy _ IH]; [done|]. cbn. by rewrite IH, (HR x y). Qed.

Lemma refs_calm {B} `{BlockCache B} (fy : filesys B) ps ps' F I :
  Forall2 calm ps ps' → refs_ok fy ps F I → refs_ok fy ps' F I.
Proof.
  intros HF [Hf Hi]. split.
  - unfold file_ptrs in *. by rewrite (bind_Forall2 calm pofile ps ps' HF) by (by intros ? ? []).
  - unfold inode_ptrs in *. by rewrite (omap_Forall2 calm pcwd ps ps' HF) by (by intros ? ? []).
Qed.

Section Calm.
Context {LK : Linker} {LKok : LinkerOk}.

Lemma msys_calm k l ps ps' : Forall2 calm ps ps' → msys k l ps → msys k l ps'.
Proof.
  intros HF [Hk Hs Hp]. split; [done| |].
  - rewrite (bind_Forall2 calm (pmem k) ps ps' HF); [done|]. intros x y []. by apply pmem_ext.
  - intros i q Hq. destruct (Forall2_lookup_r _ _ _ _ _ HF Hq) as (x & Hx & [E1 E2 E3 _ _]).
    destruct (Hp i x Hx) as [Ht Him]. split; by rewrite ?E1, ?E2, ?E3.
Qed.

End Calm.

Lemma calm_imap (g : nat → proc → proc) ps : (∀ i x, calm x (g i x)) → Forall2 calm ps (imap g ps).
Proof.
  intros Hg. apply Forall2_same_length_lookup_2; [by rewrite length_imap|].
  intros i x y Hx Hy. rewrite list_lookup_imap, Hx in Hy. injection Hy as <-. apply Hg.
Qed.

Lemma calm_woken c me i x : calm x (woken c me i x).
Proof. unfold woken. by destruct (negb _ && _). Qed.

(** ** [reparent] *)

Section Reparent.
Context {B X : Type} `{BlockCache B} {LK : Linker} {SY : Symbols} {SYok : SymbolsOk}.
Context (hart : Z).
Implicit Types s : kstate B X.

(** Is there a child of [p] among the first [k] entries? *)
Definition has_kid (p : nat) (ps : list proc) (k : nat) : bool :=
  existsb (λ x, bool_decide (pparent x = Some p)) (take k ps).

(** What [reparent(p)] has done to entry [i] before it looks at entry [k]. *)
Definition adopted (p : nat) (ini me : option nat) (ps : list proc) (k i : nat) (x : proc) : proc :=
  let y := if (i <? k)%nat && bool_decide (pparent x = Some p) then x <| pparent := ini |> else x in
  if has_kid p ps k then woken (paddr ini) me i y else y.

Lemma woken_parent c me i x o : woken c me i (x <| pparent := o |>) = (woken c me i x) <| pparent := o |>.
Proof. unfold woken. cbn [pstate pchan setter]. by destruct (negb _ && _). Qed.

Lemma woken_twice c me i x : woken c me i (woken c me i x) = woken c me i x.
Proof.
  unfold woken. destruct (negb (bool_decide (me = Some i))); cbn [andb]; [|done].
  destruct (bool_decide (pstate x = SLEEPING)) eqn:E; cbn [andb]; [|by rewrite E].
  destruct (pchan x =? c) eqn:Ec; cbn [andb]; [|by rewrite E, Ec]. done.
Qed.

Lemma woken_keeps_parent c me i x : pparent (woken c me i x) = pparent x.
Proof. unfold woken. by destruct (negb _ && _). Qed.

Lemma has_kid_S p ps k x :
  ps !! k = Some x → has_kid p ps (S k) = has_kid p ps k || bool_decide (pparent x = Some p).
Proof.
  intros Hk. unfold has_kid. rewrite (take_S_r _ _ _ Hk), existsb_app. cbn. by rewrite orb_false_r.
Qed.

Lemma adopted_calm p ini me ps k i x : calm x (adopted p ini me ps k i x).
Proof.
  unfold adopted. destruct (_ && bool_decide (pparent x = Some p)), (has_kid p ps k); try done;
    unfold woken; by destruct (negb _ && _).
Qed.

(** One more entry. *)
Lemma adopted_step p ini me ps k x i y :
  ps !! k = Some x → ps !! i = Some y → pparent x = Some p →
  adopted p ini me ps (S k) i y
  = woken (paddr ini) me i (if decide (i = k) then (adopted p ini me ps k i y) <| pparent := ini |>
                            else adopted p ini me ps k i y).
Proof.
  intros Hk Hi Hx. unfold adopted. rewrite (has_kid_S p ps k x Hk), bool_decide_true, orb_true_r by done.
  destruct (decide (i = k)) as [->|Hne].
  - assert (y = x) as -> by congruence. rewrite bool_decide_true by done.
    rewrite (proj2 (Nat.ltb_lt k (S k))), Nat.ltb_irrefl by lia. cbn [andb].
    destruct (has_kid p ps k); [|done]. by rewrite !woken_parent, woken_twice.
  - assert (E : (i <? S k)%nat = (i <? k)%nat).
    { destruct (Nat.ltb_spec i (S k)), (Nat.ltb_spec i k); lia || done. }
    rewrite E. destruct (has_kid p ps k); [|done]. by rewrite woken_twice.
Qed.

Lemma adopted_skip p ini me ps k x i y :
  ps !! k = Some x → ps !! i = Some y → pparent x ≠ Some p →
  adopted p ini me ps (S k) i y = adopted p ini me ps k i y.
Proof.
  intros Hk Hi Hx. unfold adopted. rewrite (has_kid_S p ps k x Hk), (bool_decide_false (pparent x = Some p)), orb_false_r by done.
  destruct (decide (i = k)) as [->|Hne].
  - assert (y = x) as -> by congruence. by rewrite bool_decide_false, !andb_false_r.
  - assert (E : (i <? S k)%nat = (i <? k)%nat).
    { destruct (Nat.ltb_spec i (S k)), (Nat.ltb_spec i k); lia || done. }
    by rewrite E.
Qed.

Lemma reparent_ok Hs n res p s :
  held hart Hs n res (sy s) → length (procs s) = NP →
  (∀ i, (i < NP)%nat → proc_addr i ∈ Hs → curproc s = Some i) →
  returns (reparent hart p) s (λ _ s', ∃ t, held hart Hs n res t
    ∧ s' = moved s t (imap (adopted p (initproc s) (curproc s) (procs s) NP) (procs s))).
Proof.
  intros Hh Hlen Hfree. unfold reparent, NPROCS. fold NP.
  set (T := λ k, imap (adopted p (initproc s) (curproc s) (procs s) k) (procs s)).
  eapply returns_mono; [apply (for_each_seq _ (λ k s', ∃ t, held hart Hs n res t ∧ s' = moved s t (T k)))|].
  - exists (sy s). split; [done|]. rewrite <- (moved_id s) at 1. f_equal. unfold T. symmetry. apply list_eq.
    intros i. rewrite list_lookup_imap. by destruct (procs s !! i).
  - intros k s' Hk (t & Ht & ->). change (1 + k)%nat with (S k). simpl in Hk.
    destruct (lookup_lt_is_Some_2 (procs s) k) as [x Hx]; [lia|].
    assert (HTk : T k !! k = Some (adopted p (initproc s) (curproc s) (procs s) k k x)).
    { unfold T. by rewrite list_lookup_imap, Hx. }
    assert (Hpar : pparent (adopted p (initproc s) (curproc s) (procs s) k k x) = pparent x).
    { unfold adopted. rewrite Nat.ltb_irrefl. cbn [andb]. destruct (has_kid _ _ _); [apply woken_keeps_parent|done]. }
    psteps. rewrite getp_moved, HTk. cbn [default from_option id]. rewrite Hpar. case_bool_decide as Hc.
    + psteps. rewrite moved_setp, HTk. change (initproc (moved s t (T k))) with (initproc s). cbn [default from_option id].
      eapply returns_mono; [apply (wakeup_ok hart Hs n res); [exact Ht| |exact Hfree]|].
      { change (length (<[k := (adopted p (initproc s) (curproc s) (procs s) k k x) <| pparent := initproc s |>]> (T k)) = NP). unfold T. by rewrite length_insert, length_imap. }
      intros [] s' (t' & Ht' & ->). exists t'. split; [done|]. f_equal. cbn [procs setter moved curproc].
      apply list_eq. intros i. unfold T. rewrite !list_lookup_imap.
      destruct (procs s !! i) as [y|] eqn:Hy.
      * cbn. rewrite (adopted_step p (initproc s) (curproc s) (procs s) k x i y Hx Hy Hc).
        destruct (decide (i = k)) as [->|Hne].
        -- rewrite list_lookup_insert_eq by (rewrite length_imap; lia). assert (y = x) as -> by congruence. done.
        -- by rewrite list_lookup_insert_ne, list_lookup_imap, Hy by done.
      * rewrite lookup_ge_None_2; [done|]. rewrite length_insert, length_imap. by apply lookup_ge_None_1.
    + apply returns_ret. exists t. split; [done|]. f_equal. unfold T. apply imap_ext. intros i y Hy. symmetry.
      by eapply adopted_skip.
  - intros [] s' (t & Ht & ->). exists t. by rewrite Nat.add_0_l.
Qed.

End Reparent.

(** ** Closing all files *)

Section Exit.
Context {B X : Type} `{BlockCache B} {LK : Linker} {LKok : LinkerOk} {SY : Symbols} {SYok : SymbolsOk}.
Context (hart : Z) (swtch : M (kstate B X) unit).
Implicit Types s : kstate B X.

Definition closed_prefix (files : list (option nat)) (k : nat) (x : proc) : proc :=
  x <| pofile := replicate k None ++ drop k files |>.

Lemma same_fs_trans (a b c : filesys B) : same_fs a b → same_fs b c → same_fs a c.
Proof. intros (? & ? & ?) (? & ? & ?). repeat split; congruence. Qed.

Lemma closed_step (files : list (option nat)) k o :
  files !! k = Some o →
  replicate (S k) None ++ drop (S k) files = <[k := None]> (replicate k None ++ drop k files).
Proof.
  intros Hk. rewrite (drop_S _ _ _ Hk), insert_app_r_alt by (rewrite length_replicate; lia).
  by rewrite length_replicate, Nat.sub_diag, replicate_S_end, <- app_assoc.
Qed.

Lemma setp_eq i f q s : procs s !! i = Some q → setp i f s = s <| procs := <[i := f q]> (procs s) |>.
Proof. intros Hq. unfold setp. by rewrite (getp_lookup s i q Hq). Qed.

Lemma close_files_ok s p pp F I :
  procs s !! p = Some pp → refs_ok (fsys s) (procs s) F I → length (pofile pp) = NOFILE →
  returns (for_each (seq 0 NOFILE) (close_file p)) s (λ _ s', ∃ fy,
    s' = s <| fsys := fy |> <| procs := <[p := pp <| pofile := replicate NOFILE None |>]> (procs s) |>
    ∧ refs_ok fy (procs s') F I ∧ same_fs (fsys s) fy).
Proof.
  intros Hp Hr Hlen. assert (Hl : (p < length (procs s))%nat) by (by eapply lookup_lt_Some).
  set (st k fy := s <| fsys := fy |> <| procs := <[p := closed_prefix (pofile pp) k pp]> (procs s) |>).
  eapply returns_mono; [apply (for_each_seq _ (λ k s', ∃ fy, s' = st k fy ∧ refs_ok fy (procs s') F I ∧ same_fs (fsys s) fy))|].
  - exists (fsys s). assert (E : st 0%nat (fsys s) = s).
    { unfold st, closed_prefix. rewrite drop_0, app_nil_l.
      assert (E : pp <| pofile := pofile pp |> = pp) by (by destruct pp). rewrite E, list_insert_id by done. by destruct s. }
    by rewrite E.
  - intros k s' Hk (fy & -> & Hr' & Hs). simpl in Hk.
    destruct (lookup_lt_is_Some_2 (pofile pp) k) as [o Ho]; [lia|].
    set (q := closed_prefix (pofile pp) k pp).
    assert (Hq : procs (st k fy) !! p = Some q) by (by apply list_lookup_insert_eq).
    assert (Hqk : pofile q !! k = Some o).
    { unfold q, closed_prefix. cbn [pofile setter]. rewrite lookup_app_r by (rewrite length_replicate; lia).
      by rewrite length_replicate, lookup_drop, Nat.sub_diag, Nat.add_0_r. }
    assert (Estep : q <| pofile := <[k := None]> (pofile q) |> = closed_prefix (pofile pp) (S k) pp).
    { unfold q, closed_prefix. cbn [pofile setter]. by rewrite (closed_step _ k o Ho). }
    unfold close_file. psteps. rewrite (getp_lookup _ p q Hq), Hqk. cbn [default from_option id]. destruct o as [f|].
    + pose proof (refs_take fy _ F I p q k f Hr' Hq Hqk) as Ht. rewrite Estep in Ht. cbn [procs st setter] in Ht.
      rewrite list_insert_insert_eq in Ht.
      eapply returns_zoom_bind; [apply (fileclose_ok _ _ F I f Ht)|]. intros [] fy' (Hr2 & Hs2 & _).
      apply returns_modify. exists fy'. rewrite (setp_eq p _ q) by exact Hq. cbv beta. rewrite Estep.
      assert (E : (st k fy) <| fsys := fy' |> <| procs := <[p := closed_prefix (pofile pp) (S k) pp]> (procs ((st k fy) <| fsys := fy' |>)) |>
        = st (S k) fy').
      { unfold st. cbn [procs setter]. by rewrite list_insert_insert_eq. }
      rewrite E. split_and!; [done|exact Hr2|by eapply same_fs_trans].
    + apply returns_ret. exists fy. assert (E : st (1 + k)%nat fy = st k fy); [|by rewrite E].
      unfold st. change (1 + k)%nat with (S k). rewrite <- Estep.
      assert (Eq : q <| pofile := <[k := None]> (pofile q) |> = q).
      { rewrite list_insert_id by exact Hqk. by destruct q. }
      by rewrite Eq.
  - intros [] s' (fy & -> & Hr' & Hs). exists fy. unfold st, closed_prefix in *. rewrite Nat.add_0_l in *.
    rewrite drop_ge, app_nil_r in * by lia. by split_and!.
Qed.

(** ** What the exit of [p] does to another entry: children go to init, a
    parent waiting in [kwait] is woken, and so is init if it got a child. *)
Record bereaved (p : nat) (ini par : option nat) (kids : bool) (x x' : proc) : Prop := {
  bv_calm : calm x x';
  bv_pid : ppid x' = ppid x;
  bv_parent : pparent x' = if bool_decide (pparent x = Some p) then ini else pparent x;
  bv_state : pstate x' =
    if bool_decide (pstate x = SLEEPING) && ((pchan x =? paddr par) || kids && (pchan x =? paddr ini))
    then RUNNABLE else pstate x;
}.

Lemma bereaved_ok p ini par ps i x :
  i ≠ p → (i < NP)%nat →
  bereaved p ini par (has_kid p ps NP) x (woken (paddr par) (Some p) i (adopted p ini (Some p) ps NP i x)).
Proof.
  intros Hne Hi. unfold adopted, woken. rewrite (bool_decide_false (Some p = Some i)) by congruence.
  rewrite (proj2 (Nat.ltb_lt i NP)) by done. cbn [negb andb].
  assert (Hw : ∀ y c, calm x y → ppid y = ppid x → let z := if bool_decide (pstate y = SLEEPING) && (pchan y =? c)
      then y <| pstate := RUNNABLE |> else y in
    calm x z ∧ ppid z = ppid x ∧ pparent z = pparent y ∧ pchan z = pchan y
    ∧ pstate z = if bool_decide (pstate y = SLEEPING) && (pchan y =? c) then RUNNABLE else pstate y).
  { intros y c [] Hy. by destruct (bool_decide (pstate y = SLEEPING) && (pchan y =? c)). }
  set (y := if bool_decide (pparent x = Some p) then x <| pparent := ini |> else x).
  assert (Hy : calm x y ∧ ppid y = ppid x ∧ pparent y = (if bool_decide (pparent x = Some p) then ini else pparent x)
    ∧ pchan y = pchan x ∧ pstate y = pstate x) by (unfold y; by destruct (bool_decide (pparent x = Some p))).
  destruct Hy as (Hy & Ey1 & Ey2 & Ey3 & Ey4). destruct (has_kid p ps NP).
  - destruct (Hw y (paddr ini) Hy Ey1) as (Hz & Ez1 & Ez2 & Ez3 & Ez4). 
    set (z := if bool_decide (pstate y = SLEEPING) && (pchan y =? paddr ini) then y <| pstate := RUNNABLE |> else y) in *.
    destruct (Hw z (paddr par) Hz Ez1) as (Hv & Ev1 & Ev2 & Ev3 & Ev4). split; [done|done|congruence|].
    rewrite Ev4, Ez4, Ez3, Ey4, Ey3. destruct (bool_decide (pstate x = SLEEPING)) eqn:Es, (pchan x =? paddr par), (pchan x =? paddr ini);
      cbn [andb orb]; rewrite ?Es; try done; by rewrite bool_decide_false.
  - destruct (Hw y (paddr par) Hy Ey1) as (Hv & Ev1 & Ev2 & Ev3 & Ev4). split; [done|done|congruence|].
    by rewrite Ev4, Ey4, Ey3, orb_false_r.
Qed.

Lemma woken_self c p x : woken c (Some p) p x = x.
Proof. unfold woken. by rewrite bool_decide_true. Qed.

Lemma adopted_self p ini ps k x : pparent x ≠ Some p → adopted p ini (Some p) ps k p x = x.
Proof.
  intros Hx. unfold adopted. rewrite bool_decide_false, andb_false_r by done.
  destruct (has_kid p ps k); [apply woken_self|done].
Qed.

Lemma has_kid_ext p ps ps' k :
  Forall2 (λ x y, pparent y = pparent x) ps ps' → has_kid p ps' k = has_kid p ps k.
Proof.
  intros HF. unfold has_kid. revert k. induction HF as [|x y l l' Hxy _ IH]; intros [|k]; cbn; [done..|].
  by rewrite Hxy, IH.
Qed.

Lemma entry_bereaved p ini par kids x x' : bereaved p ini par kids x x' → entry_ok x → entry_ok x'.
Proof.
  intros [[E1 E2 E3 E4 E5] _ _ Es] [Hi Hf Hl].
  assert (Hs : pstate x' = UNUSED ∨ pstate x' = ZOMBIE → pstate x = pstate x').
  { rewrite Es. destruct (_ && _); [by intros [?|?]|done]. }
  split; [|intros Hz; specialize (Hs Hz)|by rewrite E4].
  - intros Hu. specialize (Hs ltac:(by left)). rewrite E1, E2, E3. apply Hi. congruence.
  - rewrite E4, E5. apply Hf. by rewrite Hs.
Qed.

Lemma kexit_prepare_ok n res p s l status :
  kernel_ok hart n res p s l → initproc s ≠ Some p → pparent (getp s p) ≠ Some p →
  returns (kexit_prepare hart status) s (λ _ s', ∃ t fy ps,
    s' = s <| sy := t |> <| fsys := fy |> <| procs := ps |>
    ∧ held hart {[proc_addr p]} n res t ∧ refs_ok fy ps [] [] ∧ same_fs (fsys s) fy
    ∧ msys (kmem s) l ps ∧ Forall entry_ok ps ∧ length ps = NP
    ∧ ps !! p = Some ((getp s p) <| pofile := replicate NOFILE None |> <| pcwd := None |>
                                 <| pxstate := status |> <| pstate := ZOMBIE |>)
    ∧ ∀ i x, i ≠ p → procs s !! i = Some x → ∃ x', ps !! i = Some x'
        ∧ bereaved p (initproc s) (pparent (getp s p)) (has_kid p (procs s) NP) x x').
Proof.
  intros Hko Hini Hpar. pose proof Hko as [Hh Hlen Hm He Hr Hc Hlt Hrun Hpt Hcwd].
  assert (Hl : (p < length (procs s))%nat) by lia. pose proof (lookup_getp s p Hl) as Hp.
  set (pp := getp s p) in *.
  assert (Hepp : entry_ok pp) by (rewrite Forall_forall in He; by eapply He, list_elem_of_lookup_2).
  unfold kexit_prepare. eapply returns_myproc; [exact Hh|]. intros t0 Ht0. psteps.
  change (initproc (s <| sy := t0 |>)) with (initproc s). rewrite Hc, bool_decide_false by congruence.
  eapply returns_bind; [apply (close_files_ok (s <| sy := t0 |>) p pp [] []); [exact Hp|exact Hr|apply Hepp]|].
  intros [] s1 (fy1 & -> & Hr1 & Hs1). set (pp1 := pp <| pofile := replicate NOFILE None |>) in *.
  assert (Hp1 : <[p := pp1]> (procs s) !! p = Some pp1) by (by apply list_lookup_insert_eq).
  psteps. rewrite (getp_lookup _ p pp1) by exact Hp1. change (pcwd pp1) with (pcwd pp).
  destruct (pcwd pp) as [d|] eqn:Ed; [|contradiction].
  pose proof (refs_set_cwd fy1 _ [] [] [d] p pp1 None Hr1 Hp1) as Hr1'.
  change (pcwd pp1) with (pcwd pp) in Hr1'. rewrite Ed in Hr1'. specialize (Hr1' ltac:(done)).
  set (pp2 := pp1 <| pcwd := None |>) in *.
  eapply returns_zoom_bind; [apply (iput_ok _ _ _ _ _ Hr1')|]. intros [] fy2 [Hr2 Efy2]. psteps.
  rewrite (setp_eq p _ pp1) by exact Hp1. cbv beta. fold pp2.
  set (ps2 := <[p := pp2]> (procs s)).
  assert (Eps2 : <[p := pp2]> (<[p := pp1]> (procs s)) = ps2) by apply list_insert_insert_eq.
  change (refs_ok fy2 (<[p := pp2]> (<[p := pp1]> (procs s))) [] []) in Hr2. rewrite Eps2 in Hr2.
  set (s2 := s <| fsys := fy2 |>).
  match goal with |- returns _ ?st _ => change st with (moved s2 t0 (<[p := pp2]> (<[p := pp1]> (procs s)))) end.
  rewrite Eps2. assert (Hp2 : ps2 !! p = Some pp2) by (by apply list_lookup_insert_eq).
  assert (Hlen2 : length ps2 = NP) by (unfold ps2; by rewrite length_insert).
  (* under wait_lock *)
  eapply returns_acq; [exact Ht0|apply not_elem_of_empty|]. rewrite union_empty_r_L. intros t1 Ht1. rewrite moved_sy.
  assert (Hnw : ∀ i, (i < NP)%nat → proc_addr i ∈ ({[wait_lock]} : gset Z) → curproc s = Some i).
  { intros i Hi E%elem_of_singleton. by destruct (wait_lock_ne i Hi). }
  eapply returns_bind; [apply (reparent_ok hart {[wait_lock]} n res); [exact Ht1|exact Hlen2|exact Hnw]|].
  intros [] s3 (t2 & Ht2 & ->). psteps.
  change (initproc (moved s2 t1 ps2)) with (initproc s). change (curproc (moved s2 t1 ps2)) with (curproc s).
  change (procs (moved s2 t1 ps2)) with ps2. rewrite Hc.
  set (ps3 := imap (adopted p (initproc s) (Some p) ps2 NP) ps2).
  change (moved (moved s2 t1 ps2) t2 ps3) with (moved s2 t2 ps3).
  assert (Hp3 : ps3 !! p = Some pp2).
  { unfold ps3. rewrite list_lookup_imap, Hp2. cbn. by rewrite adopted_self. }
  rewrite (getp_lookup _ p pp2) by exact Hp3. change (pparent pp2) with (pparent pp).
  eapply returns_bind; [apply (wakeup_ok hart {[wait_lock]} n res); [exact Ht2| |exact Hnw]|].
  { change (length ps3 = NP). unfold ps3. by rewrite length_imap. }
  intros [] s4 (t3 & Ht3 & ->). change (curproc (moved s2 t2 ps3)) with (curproc s). rewrite Hc.
  change (procs (moved s2 t2 ps3)) with ps3. set (ps4 := imap (woken (paddr (pparent pp)) (Some p)) ps3).
  change (moved (moved s2 t2 ps3) t3 ps4) with (moved s2 t3 ps4).
  assert (Hp4 : ps4 !! p = Some pp2).
  { unfold ps4. rewrite list_lookup_imap, Hp3. cbn. by rewrite woken_self. }
  eapply returns_acq; [exact Ht3|intros E%elem_of_singleton; by destruct (wait_lock_ne p Hlt)|]. intros t4 Ht4.
  rewrite moved_sy. psteps. rewrite setp_setp, (setp_eq p _ pp2) by exact Hp4. cbv beta.
  set (pp6 := pp2 <| pxstate := status |> <| pstate := ZOMBIE |>).
  match goal with |- returns _ ?st _ => change st with (moved s2 t4 (<[p := pp6]> ps4)) end.
  eapply returns_rel_last; [exact Ht4|apply elem_of_union; right; by apply elem_of_singleton|].
  assert (Eset : ({[proc_addr p]} ∪ {[wait_lock]}) ∖ {[wait_lock]} = ({[proc_addr p]} : gset Z)).
  { apply set_eq. intros z. rewrite elem_of_difference, elem_of_union, !elem_of_singleton.
    pose proof (wait_lock_ne p Hlt). split; [tauto|]. intros ->. split; [by left|congruence]. }
  rewrite Eset. intros t5 Ht5. rewrite moved_sy. exists t5, fy2, (<[p := pp6]> ps4).
  assert (Hc23 : Forall2 calm ps2 ps3) by (apply calm_imap; intros; apply adopted_calm).
  assert (Hc34 : Forall2 calm ps3 ps4) by (apply calm_imap; intros; apply calm_woken).
  assert (Hl4 : length ps4 = NP) by (unfold ps4, ps3; by rewrite !length_imap).
  assert (Hoth : ∀ i x, i ≠ p → procs s !! i = Some x → ∃ x', <[p := pp6]> ps4 !! i = Some x'
        ∧ bereaved p (initproc s) (pparent pp) (has_kid p (procs s) NP) x x').
  { intros i x Hne Hx. rewrite list_lookup_insert_ne by done. unfold ps4, ps3.
    assert (Hx2 : ps2 !! i = Some x) by (unfold ps2; by rewrite list_lookup_insert_ne).
    rewrite !list_lookup_imap, Hx2. eexists. split; [done|]. cbn.
    rewrite <- (has_kid_ext p (procs s) ps2); [apply bereaved_ok; [done|by rewrite <- Hlen; eapply lookup_lt_Some]|].
    apply Forall2_same_length_lookup_2; [lia|]. intros j a b Ha Hb. unfold ps2 in Hb.
    destruct (decide (j = p)) as [->|Hj].
    - rewrite list_lookup_insert_eq in Hb by done. injection Hb as <-. by assert (a = pp) as -> by congruence.
    - rewrite list_lookup_insert_ne in Hb by done. congruence. }
  split_and!; [done|exact Ht5| | | | | | |exact Hoth].
  - apply (refs_same _ _ _ _ p pp2); [|exact Hp4|done|done].
    eapply refs_calm; [exact Hc34|]. by eapply refs_calm.
  - eapply same_fs_trans; [exact Hs1|]. by rewrite Efy2.
  - apply (msys_same _ _ _ p pp2); [|exact Hp4|done|done|done].
    eapply msys_calm; [exact Hc34|]. eapply msys_calm; [exact Hc23|]. by apply (msys_same _ _ _ p pp).
  - apply Forall_lookup. intros i x' Hx'. destruct (decide (i = p)) as [->|Hne].
    + rewrite list_lookup_insert_eq in Hx' by lia. injection Hx' as <-. by split.
    + assert (Hi : (i < length (procs s))%nat) by (apply lookup_lt_Some in Hx'; rewrite length_insert in Hx'; lia).
      destruct (Hoth i _ Hne (lookup_getp s i Hi)) as (x2 & Hx2 & Hb). assert (x2 = x') as -> by congruence.
      assert (Hex : entry_ok (getp s i)) by (rewrite Forall_lookup in He; eapply He; by apply lookup_getp).
      by eapply entry_bereaved.
  - rewrite length_insert. done.
  - rewrite list_lookup_insert_eq by lia. done.
Qed.

(** ** Switching away *)

Lemma cur_runs Hs n res i s :
  held hart Hs n res (sy s) → curproc s = Some i →
  ∃ t, cur s = Ok i (s <| sy := t |>) ∧ held hart Hs n res t.
Proof.
  intros Hh Hc.
  destruct (returns_cur hart Hs n res i ret s (λ a s', a = i ∧ ∃ t, s' = s <| sy := t |> ∧ held hart Hs n res t) Hh Hc)
    as (a & s' & E & -> & t & -> & Ht).
  { intros t Ht. apply returns_ret. eauto. }
  exists t. split; [|done]. revert E. unfold bind, ret. by destruct (cur s).
Qed.

Lemma fpu_save_runs p s :
  (p < length (procs s))%nat →
  fpu_save_proc p s
  = Ok tt (setp p (fpu_saved (fpuhw s)) s <| fpuhw := FpuHw false (hw_f (fpuhw s)) (hw_fcsr (fpuhw s)) |>).
Proof.
  intros Hl. unfold fpu_save_proc. rewrite bind_gets. cbv beta. unfold fpu_saved.
  destruct (pfpu_active (getp s p)) eqn:E.
  - set (s1 := s <| fpuhw := FpuHw true (hw_f (fpuhw s)) (hw_fcsr (fpuhw s)) |>).
    rewrite (bind_ok _ _ s tt (setp p (λ p, p <| pfpu_active := false |>)
      (setp p (λ p, p <| pfpu := Fpu (fpu_f (pfpu p)) (hw_fcsr (fpuhw s1)) |>)
        (setp p (λ p, p <| pfpu := Fpu (hw_f (fpuhw s1)) (fpu_fcsr (pfpu p)) |>) s1)))) by reflexivity.
    unfold fpu_off, modify. rewrite !setp_setp. unfold setp. cbn. by rewrite E.
  - unfold bind, fpu_off, modify, ret, setp. cbn. rewrite E. do 2 f_equal.
    rewrite list_insert_id; [done|]. by apply lookup_getp.
Qed.

(** [sched] passes its checks, saves the floating-point registers and switches
    away; after the switch back it only restores [intena]. *)
Lemma sched_switches res p s :
  held hart {[proc_addr p]} 0 res (sy s) → curproc s = Some p → (p < length (procs s))%nat →
  pstate (getp s p) ≠ RUNNING →
  ∃ t e, held hart {[proc_addr p]} 0 res t
    ∧ sched hart swtch s = (swtch ;;; modify (λ s, s <| sy := with_cpu (Cpu (noff (this (sy s))) e (intr (this (sy s)))) (sy s) |>))
        (setp p (fpu_saved (fpuhw s)) s <| sy := t |> <| fpuhw := FpuHw false (hw_f (fpuhw s)) (hw_fcsr (fpuhw s)) |>).
Proof.
  intros Hh Hc Hl Hst. destruct (cur_runs _ _ _ _ _ Hh Hc) as (t & Ec & Ht).
  exists t, (intena (this t)). split; [done|]. unfold sched. rewrite (bind_ok _ _ _ _ _ Ec).
  pose proof Ht as [[Hok Hi] _ Hn _ Hlk]. rewrite size_singleton in Hn.
  assert (Eh : on_sync (holding hart (proc_addr p)) (s <| sy := t |>) = Ok true (s <| sy := t |>)).
  { unfold on_sync, zoom. change (sy (s <| sy := t |>)) with t. rewrite holding_eq.
    rewrite Hlk, decide_True by (by apply elem_of_singleton). cbn. by rewrite bool_decide_true. }
  rewrite (bind_ok _ _ _ _ _ Eh). cbn [negb]. rewrite bind_gets. cbv beta.
  change (this (sy (s <| sy := t |>))) with (this t).
  change (0 + Z.of_nat 1) with 1 in Hn. rewrite Hn. change (negb (1 =? 1)) with false. cbv iota. rewrite bind_gets. cbv beta.
  change (getp (s <| sy := t |>) p) with (getp s p).
  rewrite bool_decide_false, (Hi ltac:(lia)) by done. cbv iota.
  set (s0 := s <| sy := t |>). assert (Hl0 : (p < length (procs s0))%nat) by exact Hl.
  rewrite (bind_ok _ _ _ _ _ (fpu_save_runs p s0 Hl0)), bind_gets. done.
Qed.

End Exit.
