(* ===== verification/ProcWait.v ===== *)
(** [kwait] (proc.c): reaping a zombie child. *)

From S2P Require Import Prelude Machine CString Kalloc Vm PageTable AddrSpace Uvm UvmCopy UvmFree CopyIO.
From S2P Require Import Spinlock Bio Fs File Proc ProcBase ProcFiles ProcTable ProcMem ProcLife ProcFork ProcCalls ProcExit.

Lemma ubytes_same k pt k' n va bs :
  same_bytes k pt k' pt → 0 ≤ va → ubytes n k pt va = Some bs → ubytes n k' pt va = Some bs.
Proof.
  intros Hs. revert va bs. induction n as [|n IH]; intros va bs Hva; cbn [ubytes]; [done|].
  destruct (uget k pt va) as [b|] eqn:Eu; [|done]. destruct (ubytes n k pt (va + 1)) as [bs'|] eqn:Eb; [|done].
  intros [= <-]. assert (Hlt : va < MAXVA).
  { unfold uget, upa in Eu. destruct (Z.ltb_spec va MAXVA); done. }
  destruct (Hs va ltac:(lia)) as [-> _]. rewrite Eu, (IH (va + 1) bs') by (done || lia). done.
Qed.

Section Wait.
Context {B X : Type} `{BlockCache B} {LK : Linker} {LKok : LinkerOk} {SY : Symbols} {SYok : SymbolsOk}.
Context (hart : Z) (swtch : M (kstate B X) unit).
Implicit Types s : kstate B X.

Definition child (p : nat) (x : proc) : bool := bool_decide (pparent x = Some p).

Definition zombie_child (p : nat) (x : proc) : bool := child p x && bool_decide (pstate x = ZOMBIE).

(** What [kwait] has done when it found the zombie [i]: its memory is free
    again, unless the status could not be stored. *)
Definition reaped (p i : nat) (addr : Z) s (l : list Z) (v : Z) (t : sync) s' : Prop :=
  ∃ k' l', msys k' l' (procs s')
    ∧ (v = -1 ∧ addr ≠ 0 ∧ s' = with_kmem k' (s <| sy := t |>) ∧ l' = l
       ∨ v = ppid (getp s i) ∧ s' = setp i freed (with_kmem k' (s <| sy := t |>))
         ∧ l' ≡ₚ l ++ pmem (kmem s) (getp s i)
         ∧ (addr ≠ 0 → ubytes 4 k' (ppagetable (getp s p)) addr = Some (le_bytes 4 (pxstate (getp s i)))))
    ∧ ∀ j q, j ≠ i → j ≠ p → procs s !! j = Some q → kept (kmem s) k' q.

Lemma reap_ok n res p i addr s l :
  held hart {[proc_addr i; wait_lock]} n res (sy s) → (i < NP)%nat → length (procs s) = NP → msys (kmem s) l (procs s) →
  (p < NP)%nat → ppagetable (getp s p) ≠ 0 → i ≠ p → 0 ≤ addr →
  returns
    (let! c := (if negb (addr =? 0) then on_kmem (copyout (ppagetable (getp s p)) addr (le_bytes 4 (pxstate (getp s i))) 4) else ret 0) in
     if c <? 0 then rel hart (proc_addr i) ;;; rel hart wait_lock ;;; ret (inl (-1))
     else freeproc i ;;; rel hart (proc_addr i) ;;; rel hart wait_lock ;;; ret (inl (ppid (getp s i))))
    s (λ r s', ∃ v t, r = (inl v : Z + bool) ∧ held hart ∅ n res t ∧ reaped p i addr s l v t s').
Proof.
  intros Hh Hi Hlen Hm Hp Hpt Hne Haddr.
  assert (Hil : (i < length (procs s))%nat) by lia. assert (Hpl : (p < length (procs s))%nat) by lia.
  pose proof (lookup_getp s p Hpl) as Ep. pose proof (lookup_getp s i Hil) as Ei.
  pose proof (wait_lock_ne i Hi) as Hw.
  assert (Hset1 : ({[proc_addr i; wait_lock]} : gset Z) ∖ {[proc_addr i]} = {[wait_lock]}) by set_solver.
  assert (Hset2 : ({[wait_lock]} : gset Z) ∖ {[wait_lock]} = ∅) by set_solver.
  assert (Hlocks : ∀ (v : Z) (st : kstate B X) (Q : Z + bool → kstate B X → Prop), held hart {[proc_addr i; wait_lock]} n res (sy st) →
    (∀ t, held hart ∅ n res t → Q (inl v : Z + bool) (st <| sy := t |>)) →
    returns (rel hart (proc_addr i) ;;; rel hart wait_lock ;;; ret (inl v)) st Q).
  { intros v st Q Hst HQ. eapply returns_rel; [exact Hst|set_solver|]. rewrite Hset1. intros t1 Ht1.
    eapply returns_rel; [exact Ht1|by apply elem_of_singleton|]. rewrite Hset2. intros t2 Ht2. apply returns_ret. by apply HQ. }
  set (sz := pxstate (getp s i)).
  eapply returns_kmem_if with (R := λ c k1, msys k1 l (procs s) ∧ others_kept (kmem s) k1 (procs s) p
    ∧ pmem k1 (getp s i) = pmem (kmem s) (getp s i)
    ∧ (c = 0 ∧ (addr ≠ 0 → ubytes 4 k1 (ppagetable (getp s p)) addr = Some (le_bytes 4 sz)) ∨ c = -1 ∧ addr ≠ 0)).
  { destruct (Z.eqb_spec addr 0) as [E|E]; cbn [negb].
    - apply returns_ret. split_and!; [done|intros j q _ _; apply kept_refl|done|by left].
    - change 4 with (Z.of_nat (length (le_bytes 4 sz))) at 1.
      eapply returns_mono; [apply (copyout_memory (kmem s) l (procs s) p (getp s p) addr (le_bytes 4 sz) Hm Ep Hpt Haddr)|].
      intros c k1 (Hm1 & Ho1 & _ & Hc). split_and!; [done|done|by apply (Ho1 i)|].
      destruct Hc as [[-> Hb]| ->]; [left|by right]. split; [done|]. intros _. apply Hb.
      cbn [le_bytes]. repeat constructor; apply Z.mod_pos_bound; lia. }
  intros c k1 (Hm1 & Ho1 & Epm & Hc).
  destruct Hc as [[-> Hb]|[-> Hb]]; cbn [Z.ltb Z.compare].
  - eapply returns_bind; [apply (freeproc_ok (with_kmem k1 s) l i); [exact Hm1|exact Hil]|].
    intros [] s2 (k2 & l2 & -> & Hm2 & Hl2 & Ho2). rewrite kmem_kmem. apply Hlocks; [exact Hh|].
    intros t Ht. exists (ppid (getp s i)), t. split_and!; [done|done|]. exists k2, l2. split_and!; [exact Hm2| |].
    + right. split_and!; [done|done| |].
      * rewrite Hl2. by rewrite <- Epm.
      * intros Ha. eapply (ubytes_same k1); [|done|by apply Hb].
        apply (kept_bytes _ _ l (getp s p)); [by eapply ms_proc|by apply (Ho2 p)|done].
    + intros j q Hji Hjp Hq. eapply kept_trans; [by apply (Ho1 j)|by apply (Ho2 j)].
  - apply Hlocks; [exact Hh|]. intros t Ht. exists (-1), t. split_and!; [done|done|]. exists k1, l.
    split_and!; [exact Hm1|by left|]. intros j q _ Hjp Hq. by apply (Ho1 j).
Qed.

Lemma kwait_scan_ok n res p addr l m : ∀ a hk s,
  (a + m = NP)%nat → held hart {[wait_lock]} n res (sy s) → length (procs s) = NP → msys (kmem s) l (procs s) →
  (p < NP)%nat → ppagetable (getp s p) ≠ 0 → pstate (getp s p) = RUNNING → 0 ≤ addr →
  returns (kwait_scan hart (seq a m) p addr hk) s (λ r s',
    match r with
    | inr h => ∃ t, held hart {[wait_lock]} n res t ∧ s' = s <| sy := t |>
        ∧ h = hk || existsb (child p) (drop a (procs s))
        ∧ ∀ i x, (a ≤ i)%nat → procs s !! i = Some x → zombie_child p x = false
    | inl v => ∃ i t, (a ≤ i < NP)%nat ∧ zombie_child p (getp s i) = true ∧ held hart ∅ n res t
        ∧ (∀ j x, (a ≤ j < i)%nat → procs s !! j = Some x → zombie_child p x = false)
        ∧ reaped p i addr s l v t s'
    end).
Proof.
  induction m as [|m IH]; intros a hk s Ham Hh Hlen Hm Hp Hpt Hrun Haddr; cbn [seq kwait_scan].
  { apply returns_ret. exists (sy s). split_and!; [done|by destruct s| |].
    - rewrite drop_ge by lia. by rewrite orb_false_r.
    - intros i x Hi Hx. apply lookup_lt_Some in Hx. lia. }
  assert (Hal : (a < length (procs s))%nat) by lia. pose proof (lookup_getp s a Hal) as Ea.
  assert (Hdrop : existsb (child p) (drop a (procs s)) = child p (getp s a) || existsb (child p) (drop (S a) (procs s))).
  { by rewrite (drop_S _ _ _ Ea). }
  (* the entry is not a zombie child: go on *)
  assert (Hnext : ∀ t hk', held hart {[wait_lock]} n res t → zombie_child p (getp s a) = false →
    hk' = hk || child p (getp s a) →
    returns (kwait_scan hart (seq (S a) m) p addr hk') (s <| sy := t |>) (λ r s',
    match r with
    | inr h => ∃ t, held hart {[wait_lock]} n res t ∧ s' = s <| sy := t |>
        ∧ h = hk || existsb (child p) (drop a (procs s))
        ∧ ∀ i x, (a ≤ i)%nat → procs s !! i = Some x → zombie_child p x = false
    | inl v => ∃ i t, (a ≤ i < NP)%nat ∧ zombie_child p (getp s i) = true ∧ held hart ∅ n res t
        ∧ (∀ j x, (a ≤ j < i)%nat → procs s !! j = Some x → zombie_child p x = false)
        ∧ reaped p i addr s l v t s'
    end)).
  { intros t hk' Ht Hz ->. eapply returns_mono; [apply (IH (S a) (hk || child p (getp s a)) (s <| sy := t |>)); done || lia|].
    intros [v|h] s'.
    - intros (i & t' & Hi & Hzi & Ht' & Hbefore & Hre). exists i, t'. split_and!; [lia|lia|done|done| |exact Hre].
      intros j x Hj Hx. destruct (decide (j = a)) as [->|]; [congruence|]. apply (Hbefore j); [lia|done].
    - intros (t' & Ht' & -> & -> & Hno). exists t'. split_and!; [done|done| |].
      + rewrite Hdrop. change (procs (s <| sy := t |>)) with (procs s). by rewrite orb_assoc.
      + intros i x Hi Hx. destruct (decide (i = a)) as [->|]; [congruence|]. apply (Hno i); [lia|done]. }
  clear IH. psteps. fold (child p (getp s a)). destruct (child p (getp s a)) eqn:Ec; cbn [negb].
  2:{ assert (E : s = s <| sy := sy s |>) by (by destruct s). rewrite E at 1. apply Hnext; [done| |by rewrite orb_false_r].
      unfold zombie_child. by rewrite Ec. }
  assert (Haw : proc_addr a ∉ ({[wait_lock]} : gset Z)).
  { intros E%elem_of_singleton. symmetry in E. revert E. apply wait_lock_ne. change NP with 64%nat in *. lia. }
  eapply returns_acq; [exact Hh|exact Haw|]. intros t1 Ht1. set (s1 := s <| sy := t1 |>). psteps.
  case_bool_decide as Ez.
  - psteps.
    eapply returns_mono; [apply (reap_ok n res p a addr s1 l);
      [exact Ht1|lia|exact Hlen|exact Hm|exact Hp|exact Hpt|intros ->; change (pstate (getp s p) = ZOMBIE) in Ez; congruence|exact Haddr]|].
    intros r s' (v & t & -> & Ht & Hre). exists a, t. split_and!; [lia|lia| |done| |exact Hre].
    + unfold zombie_child. rewrite Ec. by rewrite bool_decide_true.
    + intros j x Hj. lia.
  - eapply returns_rel; [exact Ht1|apply elem_of_union; left; by apply elem_of_singleton|]. intros t2 Ht2.
    rewrite union_minus in Ht2 by exact Haw. apply (Hnext t2 true Ht2).
    + unfold zombie_child. rewrite Ec. by rewrite bool_decide_false.
    + by rewrite orb_true_r.
Qed.

Lemma reaped_ok n res p i addr s l v t s' :
  kernel_ok hart n res p s l → held hart ∅ n res t → (i < NP)%nat → zombie_child p (getp s i) = true →
  reaped p i addr s l v t s' → ∃ l', kernel_ok hart n res p s' l'.
Proof.
  intros Hko Ht Hi Hz (k' & l' & Hm' & Hcase & _). pose proof Hko as [Hh Hlen Hm He Hr Hc Hlt Hrun Hpt Hcwd].
  apply andb_true_iff in Hz as [_ Hz%bool_decide_eq_true].
  assert (Hil : (i < length (procs s))%nat) by lia. pose proof (lookup_getp s i Hil) as Ei.
  assert (Hne : i ≠ p) by (intros ->; congruence).
  assert (Hei : entry_ok (getp s i)) by (rewrite Forall_lookup in He; by eapply He).
  exists l'. destruct Hcase as [(_ & _ & -> & _)|(_ & -> & _ & _)].
  - split; try done. by destruct Hr.
  - set (s2 := setp i freed _) in *. assert (Hg : getp s2 p = getp s p).
    { unfold s2. rewrite getp_setp by exact Hil. by rewrite decide_False. }
    assert (Hps : procs s2 = <[i := freed (getp s i)]> (procs s)) by reflexivity.
    split; rewrite ?Hg; try done.
    + by rewrite Hps, length_insert.
    + rewrite Hps. apply Forall_insert; [done|]. split; [done| |apply Hei].
      intros _. apply (eo_files _ Hei). by right.
    + rewrite Hps. apply (refs_same (fsys s2) (procs s) [] [] i (getp s i)); [by destruct Hr|done|done|done].
Qed.

Lemma kwait_ok n res p s l addr f :
  kernel_ok hart n res p s l → 0 ≤ addr →
  existsb (zombie_child p) (procs s) = true ∨ existsb (child p) (procs s) = false ∨ pkilled (getp s p) = true →
  returns (kwait hart swtch (S f) addr) s (λ r s', ∃ t l', kernel_ok hart n res p s' l'
    ∧ ((∃ i, (i < NP)%nat ∧ zombie_child p (getp s i) = true
          ∧ (∀ j x, (j < i)%nat → procs s !! j = Some x → zombie_child p x = false)
          ∧ reaped p i addr s l r t s')
       ∨ r = -1 ∧ existsb (zombie_child p) (procs s) = false ∧ s' = s <| sy := t |> ∧ l' = l)).
Proof.
  intros Hko Haddr Hwhy. pose proof Hko as [Hh Hlen Hm He Hr Hc Hlt Hrun Hpt Hcwd].
  unfold kwait. eapply returns_cur; [exact Hh|exact Hc|]. intros t0 Ht0.
  eapply returns_acq; [exact Ht0|apply not_elem_of_empty|]. rewrite union_empty_r_L. intros t1 Ht1.
  set (s1 := s <| sy := t0 |> <| sy := t1 |>). cbn [kwait_loop].
  eapply returns_bind; [apply (kwait_scan_ok n res p addr l NP 0 false s1);
    [done|exact Ht1|exact Hlen|exact Hm|exact Hlt|exact Hpt|exact Hrun|exact Haddr]|].
  intros [v|h] s2.
  - intros (i & t & Hi & Hz & Ht & Hbef & Hre). apply returns_ret.
    destruct (reaped_ok n res p i addr s l v t s2 Hko Ht ltac:(lia) Hz Hre) as [l' Hko'].
    exists t, l'. split; [done|]. left. exists i. split_and!; [lia|done| |exact Hre].
    intros j x Hj. apply Hbef. lia.
  - intros (t & Ht & -> & -> & Hno). change (procs s1) with (procs s) in Hno |- *. rewrite drop_0. cbn [orb].
    assert (Hnz : existsb (zombie_child p) (procs s) = false).
    { apply not_true_is_false. intros (x & Hx & Hz)%existsb_exists. apply list_elem_of_In, list_elem_of_lookup in Hx as [i Hx].
      specialize (Hno i x ltac:(lia) Hx). congruence. }
    assert (Hend : ∀ t', held hart {[wait_lock]} n res t' →
      returns (rel hart wait_lock ;;; ret (-1)) (s <| sy := t' |>) (λ r s', ∃ t l', kernel_ok hart n res p s' l'
       ∧ ((∃ i, (i < NP)%nat ∧ zombie_child p (getp s i) = true
             ∧ (∀ j x, (j < i)%nat → procs s !! j = Some x → zombie_child p x = false)
             ∧ reaped p i addr s l r t s')
          ∨ r = -1 ∧ existsb (zombie_child p) (procs s) = false ∧ s' = s <| sy := t |> ∧ l' = l))).
    { intros t' Ht'. eapply returns_rel; [exact Ht'|by apply elem_of_singleton|]. rewrite difference_diag_L. intros t2 Ht2.
      apply returns_ret. exists t2, l. split; [by split|]. right. split_and!; done. }
    destruct Hwhy as [Hw|[Hw|Hw]]; [congruence| |].
    + rewrite Hw. cbn [negb]. psteps. exact (Hend t Ht).
    + destruct (existsb (child p) (procs s)); cbn [negb]; psteps; [|exact (Hend t Ht)].
      assert (Hpw : proc_addr p ∉ ({[wait_lock]} : gset Z)).
      { intros E%elem_of_singleton. symmetry in E. revert E. apply wait_lock_ne. exact Hlt. }
      unfold killed. psteps. eapply returns_acq; [exact Ht|exact Hpw|]. intros t2 Ht2. psteps.
      change (pkilled _) with (pkilled (getp s p)). rewrite Hw.
      eapply returns_rel; [exact Ht2|apply elem_of_union; left; by apply elem_of_singleton|]. intros t3 Ht3.
      rewrite union_minus in Ht3 by exact Hpw. psteps. exact (Hend t3 Ht3).
Qed.

End Wait.
