(* ===== verification/ProcSpec.v ===== *)
(** What the functions of proc.c promise, and a concrete system that satisfies
    the hypotheses of these theorems. *)

From S2P Require Import Prelude Machine CString Kalloc Vm PageTable AddrSpace Uvm UvmCopy UvmFree CopyIO VmSpec.
From S2P Require Import Spinlock Bio Fs File Proc ProcBase ProcFiles ProcTable ProcMem ProcLife ProcFork ProcCalls ProcExit ProcWait.

(** ** A system with one running process *)

Module Boot.

#[export] Existing Instance Demo.linker.
#[export] Existing Instance Demo.linker_ok.

#[export] Instance symbols : Symbols :=
  { proc_base := 0x80010000; pid_lock := 0x8000f000; wait_lock := 0x8000f100; forkret_addr := 0x80001000 }.

#[export] Instance symbols_ok : SymbolsOk.
Proof. split; try done; intros i Hi; unfold proc_addr; simpl; lia. Qed.

(** No disk. *)
#[export] Instance no_disk : BlockCache unit :=
  { c_bread := λ _ _, panic "virtio"; c_data := λ _ _, []; c_brelse := λ _, ret tt }.

(** Twenty-four free pages, each linked to the next. *)
Definition pages : list Z := (λ i, 0x80101000 + Z.of_nat i * PGSIZE) <$> seq 0 24.

Fixpoint linked (m : memory) (ps : list Z) : memory :=
  match ps with
  | [] => m
  | p :: ps' => linked (store64 m p (List.hd 0 ps')) ps'
  end.

Definition ram : kmem_state := KMem (linked ∅ pages) 0x80101000 PHYSTOP.

Lemma ram_kinv : kinv ram pages.
Proof.
  split.
  - vm_compute. repeat (split; [reflexivity|]). reflexivity.
  - evaluate.
  - repeat constructor; vm_compute; done.
  - vm_compute. done.
Qed.

Definition start : kstate unit unit :=
  KState (FileSys (FState ram tt (replicate NINODE inode0) (Superblock 0 0 0 0 0 0 0 0)) (replicate NFILE file0))
    (replicate NP proc0) None 1 (Sync (Cpu 0 false true) ∅) None (FpuHw false (replicate 32 0) 0) tt.

Lemma start_held : held 0 ∅ 0 true (sy start).
Proof. by split. Qed.

Lemma start_msys : msys (kmem start) pages (procs start).
Proof.
  split; [apply ram_kinv| |].
  - assert (E : (procs start ≫= pmem (kmem start)) = []) by (vm_compute; reflexivity). rewrite E, app_nil_r.
    apply ram_kinv.
  - intros i p Hp%lookup_replicate. destruct Hp as [-> _]. by split.
Qed.

Lemma start_alloc : match allocproc 0 start with Ok (Some 0%nat) _ => true | _ => false end = true.
Proof. vm_compute. reflexivity. Qed.

(** The first process runs, with no memory yet and the root directory. *)
Definition first (k : kmem_state) (t : sync) (tf pt : Z) : kstate unit unit :=
  KState (FileSys (FState k tt (<[0%nat := with_iref 1 inode0]> (replicate NINODE inode0)) (Superblock 0 0 0 0 0 0 0 0))
            (replicate NFILE file0))
    (<[0%nat := newborn 1 tf pt proc0 <| pstate := RUNNING |> <| pcwd := Some 0%nat |>]> (replicate NP proc0))
    None 2 t (Some 0%nat) (FpuHw false (replicate 32 0) 0) tt.

(** [userinit] on it: [allocproc], then the lock is released. *)
Definition born : kstate unit unit := match allocproc 0 start with Ok _ s => s | _ => start end.

Definition init_running : kstate unit unit :=
  first (kmem born) (match release 0 (proc_addr 0) (sy born) with Ok _ t => t | _ => sy born end)
    (ptrapframe (getp born 0)) (ppagetable (getp born 0)).

Lemma running : ∃ l, kernel_ok 0 0 true 0 init_running l.
Proof.
  assert (Hl : length (procs start) = NP) by (vm_compute; reflexivity).
  assert (Hi : Forall idle (procs start)) by (apply Forall_replicate; by intros _).
  pose proof (allocproc_ok 0 0 true start pages start_held Hl start_msys Hi) as Ha.
  destruct Ha as (r & s1 & E & t & k & l & Hr & Hm & _).
  pose proof start_alloc as Ea. rewrite E in Ea.
  assert (Eb : born = s1) by (unfold born; by rewrite E). clear E.
  destruct r as [[|i]|]; [|discriminate Ea|discriminate Ea]. clear Ea.
  destruct Hr as (Ht & _ & _ & tf & pt & Htf & Hpt & _ & ->).
  destruct (release_held_rule 0 {[proc_addr 0]} 0 true t (proc_addr 0) Ht) as ([] & t2 & E2 & Ht2); [by apply elem_of_singleton|].
  rewrite difference_diag_L in Ht2. exists l.
  assert (Es : init_running = first k t2 tf pt).
  { unfold init_running. rewrite Eb. change (sy (setp _ _ _)) with t. by rewrite E2. }
  clear Eb E2. rewrite Es. clear Es. set (s := first k t2 tf pt).
  set (p1 := newborn 1 tf pt proc0). set (p2 := p1 <| pstate := RUNNING |> <| pcwd := Some 0%nat |>).
  assert (Hps : procs s = <[0%nat := p2]> (replicate NP proc0)) by reflexivity.
  assert (Hg : getp s 0 = p2) by reflexivity.
  split; rewrite ?Hg; try done.
  - rewrite Hps. rewrite <- (list_insert_insert_eq _ 0 p2 p1).
    apply (msys_same k l _ 0 p1); [exact Hm|reflexivity|reflexivity|reflexivity|reflexivity].
  - rewrite Hps. apply Forall_insert; [|by split; [|intros [?|?]|]]. apply Forall_replicate. by split.
  - split; (split; [vm_compute; reflexivity|]).
    + assert (Ef : [] ++ file_ptrs (procs s) = []) by (vm_compute; reflexivity). rewrite Ef. constructor.
    + assert (Ei : [] ++ inode_ptrs (procs s) (ftable (fsys s)) = [0%nat]) by (vm_compute; reflexivity).
      rewrite Ei. repeat constructor; unfold NINODE; lia.
  - change NP with 64%nat. lia.
Qed.

End Boot.

(** ** The theorems *)

Section Spec.
Context {B X : Type} `{BlockCache B} {LK : Linker} {LKok : LinkerOk} {SY : Symbols} {SYok : SymbolsOk}.
Context (hart : Z) (swtch : M (kstate B X) unit).
Implicit Types s : kstate B X.

(** C10 [functional]. [kfork] never panics and keeps the system well formed.  It
    either fails with -1, having lost no page and changed no process in use, or
    returns the pid of a runnable child whose memory is a private copy of the
    parent's, with the parent's registers except a0 = 0, its floating-point
    state, its open files and its directory; the parent and all other processes
    keep their memory. *)
Theorem kfork_duplicates_process n res p s l :
  kernel_ok hart n res p s l →
  returns (kfork hart) s (λ r s', ∃ l', kernel_ok hart n res p s' l'
    ∧ (r = -1 ∧ l' ≡ₚ l ∧ (∀ j, pstate (getp s j) ≠ UNUSED → getp s' j = getp s j)
         ∧ used_kept (kmem s) (kmem s') (procs s)
       ∨ r = nextpid s ∧ ∃ np, forked s s' p np)).
Proof. apply kfork_ok. Qed.

(** C39 [bounds]. [growproc] keeps the system well formed and the size below
    the trapframe.  It adds zeroed writable memory or removes memory at the end,
    keeping the bytes below and every physical page accounted for; taking away
    more than there is succeeds without effect.  Only growing fails, with -1 and
    the process table as it was: with no effect when the new size would pass the
    trapframe, and otherwise for want of memory ([ran_out]: the page-table pages
    taken on the way stay with the process, all other free pages are free again,
    and those are no more than the frames wanted). *)
Theorem growproc_resizes n res p s l inc :
  kernel_ok hart n res p s l → - 2 ^ 31 ≤ inc < 2 ^ 31 →
  let sz := psz (getp s p) in
  returns (growproc inc) s (λ r s', ∃ l', kernel_ok hart n res p s' l'
    ∧ (let sz' := psz (getp s' p) in
       (r = -1 ∧ 0 < inc ∧ sz' = sz
          ∧ (TRAPFRAME < sz + inc ∧ kmem s' = kmem s ∧ l' = l
             ∨ ran_out (pages_of (sz + inc) - pages_of sz) (ppagetable (getp s p)) l (kmem s) l' (kmem s'))
        ∨ r = 0 ∧ sz' = if sz + inc <? 0 then sz else sz + inc)
       ∧ sz' ≤ TRAPFRAME ∧ resized (kmem s) (kmem s') (ppagetable (getp s p)) sz sz'
       ∧ owned (pages_of sz') (kmem s') (ppagetable (getp s p)) l'
           ≡ₚ owned (pages_of sz) (kmem s) (ppagetable (getp s p)) l
       ∧ procs s' = <[p := getp s p <| psz := sz' |>]> (procs s))
    ∧ ppagetable (getp s' p) = ppagetable (getp s p) ∧ others_kept (kmem s) (kmem s') (procs s) p).
Proof. apply growproc_ok. Qed.

(** C11 [safety]. [kexit] never returns: it switches away for good in a state in
    which the process is a zombie with its exit status, holds only its own lock
    with interrupts off, and has given up its files and directory with all
    reference counts exact; its children belong to init, a parent waiting for it
    is runnable, and so is init if it got a child.  Were it ever switched back
    to, it would panic. *)
Theorem kexit_leaves_zombie res p s l status :
  kernel_ok hart 0 res p s l → initproc s ≠ Some p → pparent (getp s p) ≠ Some p →
  ∃ s1 k, kexit hart swtch status s = bind swtch k s1
    ∧ (∀ s2, k tt s2 = Panic "zombie exit")
    ∧ held hart {[proc_addr p]} 0 res (sy s1)
    ∧ refs_ok (fsys s1) (procs s1) [] [] ∧ msys (kmem s1) l (procs s1) ∧ Forall entry_ok (procs s1)
    ∧ pstate (getp s1 p) = ZOMBIE ∧ pxstate (getp s1 p) = status ∧ ppid (getp s1 p) = ppid (getp s p)
    ∧ pofile (getp s1 p) = replicate NOFILE None ∧ pcwd (getp s1 p) = None
    ∧ ∀ i, i ≠ p → (i < NP)%nat →
        bereaved p (initproc s) (pparent (getp s p)) (has_kid p (procs s) NP) (getp s i) (getp s1 i).
Proof.
  intros Hko Hini Hpar.
  destruct (kexit_prepare_ok hart 0 res p s l status Hko Hini Hpar)
    as ([] & s' & E & t & fy & ps & -> & Ht & Hr & Hs & Hm & He & Hlen & Hp & Ho).
  set (z := getp s p <| pofile := _ |> <| pcwd := _ |> <| pxstate := _ |> <| pstate := _ |>) in Hp.
  set (s0 := s <| sy := t |> <| fsys := fy |> <| procs := ps |>).
  assert (Hl : (p < length (procs s0))%nat) by (eapply lookup_lt_Some; exact Hp).
  assert (Hg : getp s0 p = z) by (by apply getp_lookup).
  destruct (sched_switches hart swtch res p s0) as (t1 & e & Ht1 & Esw); [exact Ht|apply Hko|exact Hl|by rewrite Hg|].
  set (s1 := setp p (fpu_saved (fpuhw s0)) s0 <| sy := t1 |> <| fpuhw := _ |>) in Esw.
  assert (Hps : procs s1 = <[p := fpu_saved (fpuhw s0) z]> ps).
  { unfold s1, setp. cbn. by rewrite Hg. }
  destruct (fpu_saved_keeps (fpuhw s0) z) as (K1 & K2 & K3 & K4 & K5 & K6).
  assert (Hgp : getp s1 p = fpu_saved (fpuhw s0) z) by (apply getp_lookup; rewrite Hps; by apply list_lookup_insert_eq).
  exists s1. eexists. split.
  { unfold kexit. rewrite (bind_ok _ _ _ _ _ E). fold s0. rewrite (bind_eq _ _ s0 s1 _ Esw). apply bind_assoc. }
  split; [done|]. split; [exact Ht1|].
  assert (Ek : kmem s1 = kmem s) by (unfold kmem; change (fsys s1) with fy; apply Hs).
  split_and!.
  - rewrite Hps. apply (refs_same _ _ _ _ p z); [exact Hr|exact Hp|exact K1|exact K2].
  - rewrite Ek, Hps. apply (msys_same _ _ _ p z); [exact Hm|exact Hp|exact K5|exact K4|exact K3].
  - rewrite Hps. apply Forall_insert; [done|]. assert (Hz : entry_ok z) by (rewrite Forall_lookup in He; by eapply He).
    destruct Hz as [_ Hf Hl2]. split; [unfold idle; by rewrite K6| |by rewrite K1]. by rewrite K1, K2.
  - by rewrite Hgp, K6.
  - rewrite Hgp. unfold fpu_saved. by destruct (pfpu_active z).
  - rewrite Hgp. unfold fpu_saved. by destruct (pfpu_active z).
  - by rewrite Hgp, K1.
  - by rewrite Hgp, K2.
  - intros i Hne Hi. assert (Hil : (i < length (procs s))%nat) by (rewrite (ko_len _ _ _ _ _ _ Hko); lia).
    destruct (Ho i _ Hne (lookup_getp s i Hil)) as (x' & Hx' & Hb).
    replace (getp s1 i) with x'; [done|]. symmetry. apply getp_lookup. by rewrite Hps, list_lookup_insert_ne.
Qed.

(** C12 [functional]. When the process has a zombie child, has no child or is
    killed, [kwait] returns without sleeping and keeps the system well formed:
    it reaps the first zombie of the table, puts all its pages back on the free
    list, stores its exit status at the given address and returns its pid, or
    returns -1 when the status cannot be stored or there is nothing to reap. *)
Theorem kwait_reaps_zombie n res p s l addr fuel :
  kernel_ok hart n res p s l → 0 ≤ addr →
  existsb (zombie_child p) (procs s) = true ∨ existsb (child p) (procs s) = false ∨ pkilled (getp s p) = true →
  returns (kwait hart swtch (S fuel) addr) s (λ r s', ∃ t l', kernel_ok hart n res p s' l'
    ∧ ((∃ i, (i < NP)%nat ∧ zombie_child p (getp s i) = true
          ∧ (∀ j x, (j < i)%nat → procs s !! j = Some x → zombie_child p x = false)
          ∧ reaped p i addr s l r t s')
       ∨ r = -1 ∧ existsb (zombie_child p) (procs s) = false ∧ s' = s <| sy := t |> ∧ l' = l)).
Proof. apply kwait_ok. Qed.

(** [wakeup(chan)] makes every process that sleeps on [chan],
    except the caller, runnable, changes nothing else, and leaves all locks as
    they were. *)
Theorem wakeup_wakes_sleepers n res chan s :
  held hart ∅ n res (sy s) → length (procs s) = NP →
  returns (wakeup hart chan) s (λ _ s', ∃ t ps, held hart ∅ n res t ∧ s' = moved s t ps
    ∧ ∀ i, (i < NP)%nat → ps !! i = Some (
        if negb (bool_decide (curproc s = Some i)) && bool_decide (pstate (getp s i) = SLEEPING) && (pchan (getp s i) =? chan)
        then getp s i <| pstate := RUNNABLE |> else getp s i)).
Proof.
  intros Hh Hlen. eapply returns_mono; [apply (wakeup_ok hart ∅ n res chan s Hh Hlen)|].
  { intros i _ Hi. by apply not_elem_of_empty in Hi. }
  intros [] s' (t & Ht & ->). exists t, (imap (woken chan (curproc s)) (procs s)). split_and!; [done|done|].
  intros i Hi. rewrite list_lookup_imap, (lookup_getp s i) by lia. cbn. unfold woken. by rewrite <- andb_assoc.
Qed.

(** C40 [error]. [kkill(pid)] returns 0 exactly when some entry of the table has
    that pid; it marks the first such entry killed and wakes it if it sleeps,
    and otherwise returns -1 and changes nothing. *)
Theorem kkill_marks_process n res pid s :
  held hart ∅ n res (sy s) → length (procs s) = NP →
  returns (kkill hart pid) s (λ r s', ∃ t, held hart ∅ n res t
    ∧ ((∃ i, (i < NP)%nat ∧ ppid (getp s i) = pid ∧ (∀ j, (j < i)%nat → ppid (getp s j) ≠ pid)
          ∧ r = 0 ∧ s' = setp i marked (s <| sy := t |>))
       ∨ r = -1 ∧ (∀ j, (j < NP)%nat → ppid (getp s j) ≠ pid) ∧ s' = s <| sy := t |>)).
Proof.
  intros Hh Hlen. unfold kkill, NPROCS. fold NP.
  eapply returns_mono; [by apply (kkill_scan_ok hart n res pid NP 0 s)|].
  unfold has_pid. intros r s' (t & Ht & Hcase). exists t. split; [done|].
  destruct Hcase as [(i & Hi & Hpi%Z.eqb_eq & Hbef & -> & ->)|(-> & Hno & ->)].
  - left. exists i. split_and!; [lia|done| |done|done]. intros j Hj. by apply Z.eqb_neq, Hbef; lia.
  - right. split_and!; [done| |done]. intros j Hj. by apply Z.eqb_neq, Hno; lia.
Qed.

End Spec.

(** ** The hypotheses hold on the booted system *)

Section Witnesses.
Import Boot.

(** There is memory for a child. *)
Lemma kfork_duplicates_process_witness :
  returns (kfork 0) init_running (λ r s', r = 2 ∧ ∃ np, forked init_running s' 0 np).
Proof.
  destruct running as (l & Hko).
  destruct (kfork_duplicates_process 0 0 true 0 _ l Hko) as (r & s' & E & l' & _ & Hr).
  assert (Er : match kfork 0 init_running with Ok r _ => r =? 2 | _ => false end = true) by (vm_compute; reflexivity).
  rewrite E in Er. apply Z.eqb_eq in Er as ->. exists 2, s'. split; [exact E|]. split; [reflexivity|].
  destruct Hr as [(H0 & _)|(_ & Hf)]; [discriminate H0|exact Hf].
Defined.

(** Three pages fit; fifty do not, and then the process keeps the tables. *)
Lemma growproc_resizes_witness :
  returns (growproc 10000) init_running (λ r s', r = 0 ∧ psz (getp s' 0) = 10000)
  ∧ returns (growproc 204800) init_running (λ r s', r = -1 ∧ psz (getp s' 0) = 0
      ∧ ∃ l l', ran_out 50 (ppagetable (getp init_running 0)) l (kmem init_running) l' (kmem s')).
Proof.
  destruct running as (l & Hko). split.
  - destruct (growproc_resizes 0 0 true 0 _ l 10000 Hko ltac:(lia)) as (r & s' & E & l' & _ & (Hr & _) & _).
    assert (Er : match growproc 10000 init_running with Ok r _ => r =? 0 | _ => false end = true) by (vm_compute; reflexivity).
    rewrite E in Er. apply Z.eqb_eq in Er as ->. exists 0, s'. split; [exact E|]. split; [reflexivity|].
    destruct Hr as [(H0 & _)|(_ & Hs)]; [discriminate H0|exact Hs].
  - destruct (growproc_resizes 0 0 true 0 _ l 204800 Hko ltac:(lia)) as (r & s' & E & l' & _ & (Hr & _) & _).
    assert (Er : match growproc 204800 init_running with Ok r _ => r =? -1 | _ => false end = true) by (vm_compute; reflexivity).
    rewrite E in Er. apply Z.eqb_eq in Er as ->. exists (-1), s'. split; [exact E|]. split; [reflexivity|].
    destruct Hr as [(_ & _ & Hs & [(Hb & _)|Ho])|(H0 & _)]; [vm_compute in Hb; discriminate Hb| |discriminate H0].
    split; [exact Hs|]. exists l, l'. exact Ho.
Defined.

Lemma kexit_leaves_zombie_witness :
  ∃ s1 c, kexit 0 (ret tt) 7 init_running = bind (ret tt) c s1
    ∧ pstate (getp s1 0) = ZOMBIE ∧ pxstate (getp s1 0) = 7.
Proof.
  destruct running as (l & Hko).
  destruct (kexit_leaves_zombie 0 (ret tt) true 0 init_running l 7 Hko) as (s1 & c & E & _ & _ & _ & _ & _ & H1 & H2 & _).
  - discriminate.
  - discriminate.
  - exists s1, c. by split_and!.
Defined.

Lemma kwait_reaps_zombie_witness :
  returns (kwait 0 (ret tt) 1 0) init_running (λ r _, r = -1).
Proof.
  destruct running as (l & Hko).
  eapply returns_mono; [apply (kwait_reaps_zombie 0 (ret tt) 0 true 0 init_running l 0 0 Hko ltac:(lia))|].
  - right. left. vm_compute. reflexivity.
  - intros r s' (t' & l' & _ & [(i & Hi & Hz & _)|(-> & _)]); [|done]. exfalso. revert Hz.
    assert (Hn : existsb (zombie_child 0) (procs init_running) = false) by (vm_compute; reflexivity).
    assert (Hp : procs init_running !! i = Some (getp init_running i)).
    { apply lookup_getp. rewrite (ko_len _ _ _ _ _ _ Hko). exact Hi. }
    intros Hz. assert (Ht : existsb (zombie_child 0) (procs init_running) = true); [|congruence].
    apply existsb_exists. eexists. split; [|exact Hz]. apply list_elem_of_In. by eapply list_elem_of_lookup_2.
Defined.

Lemma wakeup_wakes_sleepers_witness :
  ∃ s' : kstate unit unit, wakeup 0 99 (start <| procs := <[3%nat := proc0 <| pstate := SLEEPING |> <| pchan := 99 |>]> (procs start) |>)
      = Ok tt s' ∧ pstate (getp s' 3) = RUNNABLE.
Proof.
  set (s := start <| procs := _ |>).
  destruct (wakeup_wakes_sleepers 0 0 true 99 s start_held) as ([] & s' & E & t & ps & _ & -> & Hp).
  - vm_compute. reflexivity.
  - eexists. split; [exact E|]. specialize (Hp 3%nat ltac:(change NP with 64%nat; lia)).
    rewrite (getp_lookup (moved s t ps) 3 _ Hp). vm_compute. reflexivity.
Defined.

Lemma kkill_marks_process_witness : returns (kkill 0 5) start (λ r _, r = -1).
Proof.
  eapply returns_mono; [apply (kkill_marks_process 0 0 true 5 start start_held)|].
  - vm_compute. reflexivity.
  - intros r s' (t & _ & [(i & Hi & Hp & _)|(-> & _)]); [|done]. exfalso. revert Hp. unfold getp, start. cbn [procs].
    rewrite lookup_replicate_2 by exact Hi. discriminate.
Defined.

(** Unused entries have pid 0, so [kill(0)] finds one, reports success and marks
    it; [allocproc] does not reset the mark, and the next process created in
    the entry starts out killed. *)
Lemma kill_zero_marks_next_process :
  match (let! r := kkill 0 0 in let! i := allocproc 0 in ret (r, i)) start with
  | Ok (r, Some i) s' => (r =? 0) && pkilled (getp s' i)
  | _ => false
  end = true.
Proof. vm_compute. reflexivity. Qed.

End Witnesses.
