(* ===== verification/Exec.v ===== *)
(** kernel/proc/exec.c: loading a program into a new address space and
    switching the process to it. *)

From S2P Require Import Prelude Machine CString Kalloc Vm Spinlock Bio Fs File Proc.

Definition MAXARG : nat := 32.

Definition USERSTACK : Z := 1.

Definition ELF_MAGIC : Z := 0x464C457F.

Definition ELF_PROG_LOAD : Z := 1.

(** The fields of [struct elfhdr] that the loader uses, at their offsets in the
    64 bytes of the header. *)
Record elfhdr := ElfHdr {
  e_magic : Z;
  e_entry : Z;
  e_phoff : Z;
  e_phnum : Z;
}.

Definition elfhdr_of (d : list Z) : elfhdr :=
  ElfHdr (le_at 4 d 0) (le_at 8 d 24) (le_at 8 d 32) (le_at 2 d 56).

(** [struct proghdr], 56 bytes. *)
Record proghdr := ProgHdr {
  ph_type : Z;
  ph_flags : Z;
  ph_off : Z;
  ph_vaddr : Z;
  ph_filesz : Z;
  ph_memsz : Z;
}.

Definition proghdr_of (d : list Z) : proghdr :=
  ProgHdr (le_at 4 d 0) (le_at 4 d 4) (le_at 8 d 8) (le_at 8 d 16) (le_at 8 d 32) (le_at 8 d 40).

Definition flags2perm (flags : Z) : Z :=
  let perm := if has flags 0x1 then PTE_X else 0 in
  if has flags 0x2 then Z.lor perm PTE_W else perm.

Section Operations.
Context {B : Type} `{BlockCache B} `{Linker}.

Abbreviation F := (M (fstate B)).

(** The loop of [loadseg]; [i] moves by whole pages. *)
Fixpoint loadseg_loop (fuel : nat) (pagetable va : Z) (ip : nat) (offset sz i : Z) : F Z :=
  match fuel with
  | O => nofuel
  | S f =>
      if negb (i <? sz) then ret 0
      else
        let! pa := on_mem (walkaddr pagetable (u64 (va + i))) in
        if pa =? 0 then panic "loadseg: address should exist"
        else
          let n := if sz - i <? PGSIZE then sz - i else PGSIZE in
          let! r := readi ip (KernPA pa) (u32 (offset + i)) n in
          if negb (u32 (fst r) =? n) then ret (-1)
          else loadseg_loop f pagetable va ip offset sz (u32 (i + PGSIZE))
  end.

Definition loadseg (pagetable va : Z) (ip : nat) (offset sz : Z) : F Z :=
  loadseg_loop (Z.to_nat (sz / PGSIZE + 2)) pagetable va ip offset sz 0.

(** The body of the loop over the program headers; the flag is [false] for
    [goto bad].  The size is the value of [sz] then. *)
Definition load_one (ip : nat) (pagetable off sz : Z) : F (bool * Z) :=
  let! r := readi ip KernBuf (u32 off) 56 in
  if negb (fst r =? 56) then ret (false, sz)
  else
    let ph := proghdr_of (snd r) in
    if negb (ph_type ph =? ELF_PROG_LOAD) then ret (true, sz)
    else if ph_memsz ph <? ph_filesz ph then ret (false, sz)
    else if u64 (ph_vaddr ph + ph_memsz ph) <? ph_vaddr ph then ret (false, sz)
    else if negb (ph_vaddr ph mod PGSIZE =? 0) then ret (false, sz)
    else
      let! sz1 := on_mem (uvmalloc pagetable sz (u64 (ph_vaddr ph + ph_memsz ph)) (flags2perm (ph_flags ph))) in
      if sz1 =? 0 then ret (false, sz)
      else
        let! r := loadseg pagetable (ph_vaddr ph) ip (u32 (ph_off ph)) (u32 (ph_filesz ph)) in
        if r <? 0 then ret (false, sz1) else ret (true, sz1).

Fixpoint load_loop (n : nat) (ip : nat) (pagetable off sz : Z) : F (bool * Z) :=
  match n with
  | O => ret (true, sz)
  | S n' =>
      let! r := load_one ip pagetable off sz in
      if fst r then load_loop n' ip pagetable (s32 (off + 56)) (snd r) else ret r
  end.

(** The loop that copies the argument strings: [None] is [goto bad], else the
    stack pointer and [ustack]. *)
Fixpoint push_strings (argv : list (list Z)) (pagetable sp stackbase : Z) (ustack : list Z) : K (option (Z * list Z)) :=
  match argv with
  | [] => ret (Some (sp, ustack))
  | s :: argv' =>
      if (MAXARG <=? length ustack)%nat then ret None
      else
        let sp := u64 (sp - (strlen s + 1)) in
        let sp := sp - sp mod 16 in
        if sp <? stackbase then ret None
        else
          let! r := copyout pagetable sp (take (Z.to_nat (strlen s + 1)) (s ++ [0])) (strlen s + 1) in
          if r <? 0 then ret None
          else push_strings argv' pagetable sp stackbase (ustack ++ [sp])
  end.

(** The strings, then the array of pointers to them with its null. *)
Definition push_args (argv : list (list Z)) (pagetable sp stackbase : Z) : K (option (Z * Z)) :=
  let! r := push_strings argv pagetable sp stackbase [] in
  match r with
  | None => ret None
  | Some (sp, ustack) =>
      let argc := Z.of_nat (length ustack) in
      let sp := u64 (sp - (argc + 1) * 8) in
      let sp := sp - sp mod 16 in
      if sp <? stackbase then ret None
      else
        let! r := copyout pagetable sp ((ustack ++ [0]) ≫= le_bytes 8) ((argc + 1) * 8) in
        if r <? 0 then ret None else ret (Some (sp, argc))
  end.

(** [for (last = s = path; *s; s++) if ( *s == '/') last = s + 1;] *)
Fixpoint last_elem (s last : list Z) : list Z :=
  match s with
  | [] => last
  | c :: s' => if c =? 0 then last else last_elem s' (if c =? SLASH then s' else last)
  end.

(** [kexec] up to the second [ip = 0]: the entry point and the size of the
    loaded image, or [None] after [goto bad]. *)
Definition load_image (pid : Z) (ip : nat) (trapframe : Z) : F (option (Z * Z * Z)) :=
  let bad pagetable sz :=
    (if negb (pagetable =? 0) then on_mem (proc_freepagetable pagetable sz) else ret tt) ;;;
    iunlockput pid ip ;;;
    ret None in
  ilock pid ip ;;;
  let! r := readi ip KernBuf 0 64 in
  if negb (fst r =? 64) then bad 0 0
  else
    let elf := elfhdr_of (snd r) in
    if negb (e_magic elf =? ELF_MAGIC) then bad 0 0
    else
      let! pagetable := on_mem (proc_pagetable trapframe) in
      if pagetable =? 0 then bad 0 0
      else
        let! r := load_loop (Z.to_nat (e_phnum elf)) ip pagetable (s32 (e_phoff elf)) 0 in
        if negb (fst r) then bad pagetable (snd r)
        else iunlockput pid ip ;;; ret (Some (pagetable, snd r, e_entry elf)).

(** The stack: a guard page, the stack pages and the arguments.  [None] after
    [goto bad]; the results are the new size, the stack pointer and [argc]. *)
Definition setup_stack (pagetable sz : Z) (argv : list (list Z)) : K (option (Z * Z * Z)) :=
  let bad sz := proc_freepagetable pagetable sz ;;; ret None in
  let sz := PGROUNDUP sz in
  let! sz1 := uvmalloc pagetable sz (u64 (sz + (USERSTACK + 1) * PGSIZE)) PTE_W in
  if sz1 =? 0 then bad sz
  else
    uvmclear pagetable (u64 (sz1 - (USERSTACK + 1) * PGSIZE)) ;;;
    let! r := push_args argv pagetable sz1 (u64 (sz1 - USERSTACK * PGSIZE)) in
    match r with
    | None => bad sz1
    | Some (sp, argc) => ret (Some (sz1, sp, argc))
    end.

End Operations.

Section Exec.
Context {B X : Type} `{BlockCache B} `{Linker} `{Symbols}.

Abbreviation P := (M (kstate B X)).

(** [namei] in the process that runs: relative to its directory, with its pid
    as the owner of sleep locks. *)
Definition proc_namei (i : nat) (path : list Z) : P (option nat) :=
  let! p := gets (λ s, getp s i) in
  match pcwd p, chr path 0 =? SLASH with
  | None, false => panic "kerneltrap"
  | d, _ => on_files (on_fs (namei (ppid p) (default 0%nat d) path))
  end.

(** The end of [kexec]: the process gets the new image. *)
Definition commit_image (i : nat) (path : list Z) (pagetable sz entry sp : Z) : P unit :=
  let! p := gets (λ s, getp s i) in
  on_kmem (wr64 (ptrapframe p + TF_a1) sp) ;;;
  modify (setp i (λ p, p <| pname := safestrcpy (pname p) (last_elem path path) 16 |>)) ;;;
  modify (setp i (λ p, p <| ppagetable := pagetable |>)) ;;;
  modify (setp i (λ p, p <| psz := sz |>)) ;;;
  on_kmem (wr64 (ptrapframe p + TF_epc) entry) ;;;
  on_kmem (wr64 (ptrapframe p + TF_sp) sp) ;;;
  on_kmem (proc_freepagetable (ppagetable p) (psz p)).

(** [argv] holds the strings that the non-null elements of [argv] point to,
    which nothing in [kexec] writes to. *)
Definition kexec (path : list Z) (argv : list (list Z)) : P Z :=
  let! i := cur in
  let! r := proc_namei i path in
  match r with
  | None => ret (-1)
  | Some ip =>
      let! p := gets (λ s, getp s i) in
      let! r := on_files (on_fs (load_image (ppid p) ip (ptrapframe p))) in
      match r with
      | None => ret (-1)
      | Some (pagetable, sz, entry) =>
          let! i := cur in
          let! r := on_kmem (setup_stack pagetable sz argv) in
          match r with
          | None => ret (-1)
          | Some (sz, sp, argc) =>
              commit_image i path pagetable sz entry sp ;;;
              ret (s32 argc)
          end
      end
  end.

End Exec.
