(* ===== verification/Console.v ===== *)
(** kernel/dev/console.c and kernel/dev/uart.c: the console's input ring with
    line editing, and the serial port. *)

From S2P Require Import Prelude Machine CString Printf Utf8 Kalloc Vm Spinlock Bio Virtio Fs File Proc.

Definition INPUT_BUF_SIZE : Z := 128.

Record console := Console {
  cbuf : list Z;       (* INPUT_BUF_SIZE bytes *)
  cr : Z;              (* read index *)
  cw : Z;              (* write index *)
  ce : Z;              (* edit index *)
  craw : bool;
}.

#[global] Instance eta_console : Eta console := λ c, Console (cbuf c) (cr c) (cw c) (ce c) (craw c).

(** The serial port: the driver's [tx_busy], the bytes written to THR so far,
    the input waiting in RHR and the transmitter-idle bit of LSR. *)
Record uart := Uart {
  tx_busy : bool;
  thr : list Z;
  rx : list Z;
  tx_idle : bool;
}.

#[global] Instance eta_uart : Eta uart := λ u, Uart (tx_busy u) (thr u) (rx u) (tx_idle u).

(** Supervisor registers of the hart; [r_sstatus] adds the interrupt-enable bit
    and the floating-point field to [sstatus_rest]. *)
Record csrs := Csrs {
  stvec : Z;
  sepc : Z;
  scause : Z;
  stval : Z;
  satp : Z;
  sstatus_rest : Z;
  stime : Z;                (* the time register *)
  stimecmp : Z;
}.

#[global] Instance eta_csrs : Eta csrs := λ c,
  Csrs (stvec c) (sepc c) (scause c) (stval c) (satp c) (sstatus_rest c) (stime c) (stimecmp c).

(** The interrupts the PLIC has to deliver and those being served. *)
Record plic := Plic {
  pending : list Z;
  claimed : list Z;
}.

#[global] Instance eta_plic : Eta plic := λ p, Plic (pending p) (claimed p).

Record devices := Devices {
  con : console;
  ser : uart;
  csr : csrs;
  irq : plic;
  ticks : Z;
  vdsk : vdisk;
  mmio : list (Z * Z);      (* the stores to device registers, in order *)
  first_ret : bool;         (* [first] of forkret *)
}.

#[global] Instance eta_devices : Eta devices := λ d,
  Devices (con d) (ser d) (csr d) (irq d) (ticks d) (vdsk d) (mmio d) (first_ret d).

(** Addresses of the drivers' locks and wait channels. *)
Class DevSymbols := {
  cons_lock : Z;
  cons_chan : Z;       (* &cons.r *)
  pr_lock : Z;
  tx_lock : Z;
  tx_chan : Z;
}.

Definition CTRL (c : Z) : Z := c - 64.

(** ** The ring *)

Definition ring_at (c : console) (i : Z) : Z := chr (cbuf c) (Z.to_nat (i mod INPUT_BUF_SIZE)).

Definition put_ring (i v : Z) (c : console) : console :=
  c <| cbuf := <[Z.to_nat (i mod INPUT_BUF_SIZE) := u8 v]> (cbuf c) |>.

(** The loop of [utf8_char_len]. *)
Fixpoint char_len_loop (fuel : nat) (c : console) (idx n : Z) : Z :=
  match fuel with
  | O => n
  | S f =>
      if (cw c <? idx) && (Z.land (ring_at c idx) 0xC0 =? 0x80)
      then char_len_loop f c (u32 (idx - 1)) (n + 1) else n
  end.

Definition utf8_char_len (c : console) (e : Z) : Z :=
  if e <=? cw c then 0 else char_len_loop (Z.to_nat (e - cw c)) c (u32 (e - 1)) 1.

Fixpoint ring_decode_loop (n : nat) (c : console) (i r : Z) : option Z :=
  match n with
  | O => Some r
  | S n' =>
      let b := ring_at c (u32 i) in
      if negb (Z.land b 0xC0 =? 0x80) then None
      else ring_decode_loop n' c (i + 1) (Z.lor (u32 (Z.shiftl r 6)) (Z.land b 0x3F))
  end.

(** [utf8_decode] of console.c, on the ring. *)
Definition ring_decode (c : console) (e len : Z) : Z :=
  let c0 := ring_at c (u32 (e - len)) in
  if len =? 1 then c0
  else
    let rest r := default c0 (ring_decode_loop (Z.to_nat (len - 1)) c (e - len + 1) r) in
    if len =? 2 then rest (Z.land c0 0x1F)
    else if len =? 3 then rest (Z.land c0 0x0F)
    else if len =? 4 then rest (Z.land c0 0x07)
    else c0.

Definition utf8_display_width (rune : Z) : Z := if rune <? 0x80 then 1 else if wide rune then 2 else 1.

Section Operations.
Context {B : Type} `{BlockCache B} `{Linker} `{Symbols} `{DevSymbols}.
Context (hart : Z) (swtch : M (kstate B devices) unit).

Abbreviation P := (M (kstate B devices)).

Definition get_con (s : kstate B devices) : console := con (ext s).

Definition set_con (f : console → console) (s : kstate B devices) : kstate B devices :=
  s <| ext := (ext s) <| con := f (get_con s) |> |>.

Definition get_ser (s : kstate B devices) : uart := ser (ext s).

Definition set_ser (f : uart → uart) (s : kstate B devices) : kstate B devices :=
  s <| ext := (ext s) <| ser := f (get_ser s) |> |>.

(** [*(volatile uint32* )a = v] of a device register. *)
Definition store_reg (a v : Z) : P unit :=
  modify (λ s, s <| ext := (ext s) <| mmio := mmio (ext s) ++ [(a, v)] |> |>).

(** ** uart.c *)

Definition IER : Z := 1.
Definition IER_RX_ENABLE : Z := Z.shiftl 1 0.
Definition IER_TX_ENABLE : Z := Z.shiftl 1 1.
Definition FCR : Z := 2.
Definition FCR_FIFO_ENABLE : Z := Z.shiftl 1 0.
Definition FCR_FIFO_CLEAR : Z := Z.shiftl 3 1.
Definition LCR : Z := 3.
Definition LCR_EIGHT_BITS : Z := Z.shiftl 3 0.
Definition LCR_BAUD_LATCH : Z := Z.shiftl 1 7.

Definition uartinit : P unit :=
  store_reg (UART0 + IER) 0x00 ;;;
  store_reg (UART0 + LCR) LCR_BAUD_LATCH ;;;
  store_reg (UART0 + 0) 0x03 ;;;
  store_reg (UART0 + 1) 0x00 ;;;
  store_reg (UART0 + LCR) LCR_EIGHT_BITS ;;;
  store_reg (UART0 + FCR) (Z.lor FCR_FIFO_ENABLE FCR_FIFO_CLEAR) ;;;
  store_reg (UART0 + IER) (Z.lor IER_TX_ENABLE IER_RX_ENABLE) ;;;
  on_sync (initlock tx_lock).

(** [uartputc_sync] while the kernel is not panicking; the loop that waits for
    the transmitter ends when the port has sent the previous byte. *)
Definition uartputc_sync (c : Z) : P unit :=
  on_sync push_off ;;;
  modify (set_ser (λ u, u <| thr := thr u ++ [u8 c] |>)) ;;;
  on_sync pop_off.

Fixpoint uart_wait (fuel : nat) : P unit :=
  match fuel with
  | O => nofuel
  | S f =>
      let! busy := gets (λ s, tx_busy (get_ser s)) in
      if busy then sleep hart swtch tx_chan tx_lock ;;; uart_wait f else ret tt
  end.

Definition uartwrite (fuel : nat) (buf : list Z) : P unit :=
  acq hart tx_lock ;;;
  for_each buf (λ c,
    uart_wait fuel ;;;
    modify (set_ser (λ u, u <| thr := thr u ++ [u8 c] |>)) ;;;
    modify (set_ser (λ u, u <| tx_busy := true |>))) ;;;
  rel hart tx_lock.

Definition uartgetc : P Z :=
  let! u := gets get_ser in
  match rx u with
  | [] => ret (-1)
  | c :: r => modify (set_ser (λ u, u <| rx := r |>)) ;;; ret (u8 c)
  end.

(** ** printf on the console *)

Definition consputc (c : Z) : P unit :=
  if c =? BACKSPACE then uartputc_sync 8 ;;; uartputc_sync 32 ;;; uartputc_sync 8
  else uartputc_sync c.

Definition kprintf (fmt : list Z) (ap : list arg) : P unit :=
  acq hart pr_lock ;;;
  (match printf fmt ap with
   | None => panic "undefined behaviour"
   | Some out => for_each out uartputc_sync
   end) ;;;
  rel hart pr_lock.

Definition state_name (st : procstate) : list Z :=
  match st with
  | UNUSED => [117; 110; 117; 115; 101; 100]
  | USED => [117; 115; 101; 100]
  | SLEEPING => [115; 108; 101; 101; 112; 32]
  | RUNNABLE => [114; 117; 110; 98; 108; 101]
  | RUNNING => [114; 117; 110; 32; 32; 32]
  | ZOMBIE => [122; 111; 109; 98; 105; 101]
  end.

(** [procdump]: "%d %s %s" and a newline for every process. *)
Definition procdump : P unit :=
  kprintf [10] [] ;;;
  for_each NPROCS (λ i,
    let! p := gets (λ s, getp s i) in
    if bool_decide (pstate p = UNUSED) then ret tt
    else
      kprintf [37; 100; 32; 37; 115; 32; 37; 115]
        [AInt (ppid p); AStr (Some (state_name (pstate p))); AStr (Some (pname p))] ;;;
      kprintf [10] []).

(** ** The input interrupt *)

Definition erase_char : P unit :=
  let! c := gets get_con in
  let len := utf8_char_len c (ce c) in
  let width := utf8_display_width (ring_decode c (ce c) len) in
  modify (set_con (λ c, c <| ce := u32 (ce c - len) |>)) ;;;
  for_each (replicate (Z.to_nat width) tt) (λ _, consputc BACKSPACE).

Fixpoint kill_line (fuel : nat) : P unit :=
  match fuel with
  | O => nofuel
  | S f =>
      let! c := gets get_con in
      if negb (ce c =? cw c) && negb (ring_at c (u32 (ce c - 1)) =? 10)
      then erase_char ;;; kill_line f else ret tt
  end.

Definition store_char (c : Z) : P unit :=
  modify (set_con (λ x, put_ring (ce x) c x)) ;;;
  modify (set_con (λ x, x <| ce := u32 (ce x + 1) |>)).

Definition commit : P unit :=
  modify (set_con (λ x, x <| cw := ce x |>)) ;;;
  wakeup hart cons_chan.

Definition consoleintr (c : Z) : P unit :=
  acq hart cons_lock ;;;
  (if c =? CTRL 80 then procdump
   else
     let! k := gets get_con in
     if craw k then
       if negb (c =? 0) && (u32 (ce k - cr k) <? INPUT_BUF_SIZE) then
         let c := if c =? 13 then 10 else c in
         store_char c ;;; commit
       else ret tt
     else if c =? CTRL 85 then kill_line (S (Z.to_nat INPUT_BUF_SIZE))
     else if (c =? CTRL 72) || (c =? 127) then
       if negb (ce k =? cw k) then erase_char else ret tt
     else if negb (c =? 0) && (u32 (ce k - cr k) <? INPUT_BUF_SIZE) then
       let c := if c =? 13 then 10 else c in
       consputc c ;;;
       store_char c ;;;
       let! k := gets get_con in
       if (c =? 10) || (c =? CTRL 68) || (u32 (ce k - cr k) =? INPUT_BUF_SIZE) then commit else ret tt
     else ret tt) ;;;
  rel hart cons_lock.

(** [while (1) { c = uartgetc(); if (c == -1) break; consoleintr(c); }] *)
Fixpoint uart_input (fuel : nat) : P unit :=
  match fuel with
  | O => nofuel
  | S f =>
      let! c := uartgetc in
      if c =? -1 then ret tt else consoleintr c ;;; uart_input f
  end.

Definition uartintr : P unit :=
  acq hart tx_lock ;;;
  let! u := gets get_ser in
  (if tx_idle u then
     modify (set_ser (λ u, u <| tx_busy := false |>)) ;;;
     wakeup hart tx_chan
   else ret tt) ;;;
  rel hart tx_lock ;;;
  let! u := gets get_ser in
  uart_input (S (length (rx u))).

(** ** read and write *)

Fixpoint wait_input (fuel : nat) : P bool :=
  match fuel with
  | O => nofuel
  | S f =>
      let! c := gets get_con in
      if cr c =? cw c then
        let! i := cur in
        let! k := killed hart i in
        if k : bool then ret false
        else sleep hart swtch cons_chan cons_lock ;;; wait_input f
      else ret true
  end.

(** [either_copyout(user_dst, dst, &cbuf, 1)] *)
Definition copy_byte (user_dst : bool) (dst b : Z) : P Z :=
  let! me := myproc in
  if user_dst then
    match me with
    | None => panic "kerneltrap"
    | Some i =>
        let! p := gets (λ s, getp s i) in
        on_kmem (copyout (ppagetable p) dst [b] 1)
    end
  else on_kmem (modify (λ k, with_mem (put_bytes (mem k) dst [b]) k)) ;;; ret 0.

(** The outer loop of [consoleread]; the result is [None] when it returned from
    inside with -1, the lock released. *)
Fixpoint read_loop (waits fuel : nat) (user_dst : bool) (dst n target : Z) : P (option Z) :=
  match fuel with
  | O => nofuel
  | S f =>
      if negb (0 <? n) then ret (Some n)
      else
        let! ok := wait_input waits in
        if negb ok then rel hart cons_lock ;;; ret None
        else
          let! x := gets get_con in
          let c := ring_at x (cr x) in
          modify (set_con (λ x, x <| cr := u32 (cr x + 1) |>)) ;;;
          if c =? CTRL 68 then
            (if n <? target then modify (set_con (λ x, x <| cr := u32 (cr x - 1) |>)) else ret tt) ;;;
            ret (Some n)
          else
            let! r := copy_byte user_dst dst c in
            if r =? -1 then ret (Some n)
            else if c =? 10 then ret (Some (n - 1))
            else read_loop waits f user_dst (u64 (dst + 1)) (n - 1) target
  end.

Definition consoleread (waits : nat) (user_dst : bool) (dst n : Z) : P Z :=
  let target := u32 n in
  acq hart cons_lock ;;;
  let! r := read_loop waits (S (Z.to_nat n)) user_dst dst n target in
  match r with
  | None => ret (-1)
  | Some n => rel hart cons_lock ;;; ret (s32 (target - n))
  end.

Fixpoint write_loop (waits fuel : nat) (user_src : bool) (src i n : Z) : P Z :=
  match fuel with
  | O => nofuel
  | S f =>
      if negb (i <? n) then ret i
      else
        let nn := Z.min 32 (n - i) in
        let! q := either_copyin user_src (u64 (src + i)) nn in
        let '(r, buf) := q in
        if r =? -1 then ret i
        else uartwrite waits buf ;;; write_loop waits f user_src src (i + nn) n
  end.

Definition consolewrite (waits : nat) (user_src : bool) (src n : Z) : P Z :=
  write_loop waits (S (Z.to_nat n)) user_src src 0 n.

Definition consolesetraw (raw : Z) : P unit :=
  acq hart cons_lock ;;;
  modify (set_con (λ x, x <| craw := negb (raw =? 0) |>)) ;;;
  rel hart cons_lock.

(** The device switch that [consoleinit] fills in: entry 1. *)
Definition CONSOLE : Z := 1.

Definition console_devsw (waits : nat) (major : Z) : devsw_entry (kstate B devices) :=
  if major =? CONSOLE then DevSw (Some (consoleread waits true)) (Some (consolewrite waits true))
  else DevSw None None.

Definition consoleinit : P unit :=
  on_sync (initlock cons_lock) ;;;
  uartinit.

Definition printfinit : P unit := on_sync (initlock pr_lock).

End Operations.
