(* ===== verification/Syscall.v ===== *)
(** kernel/proc/syscall.c, kernel/proc/sysproc.c and kernel/fs/sysfile.c: the
    arguments of system calls, their handlers and the dispatch.

    A [uint64] result is the number the handler computes, before the conversion
    to 64 bits that the store to [a0] does. *)

From S2P Require Import Prelude Machine CString Printf Kalloc Vm Spinlock Bio Virtio Fs File Proc Exec Console.

Definition MAXPATH : Z := 128.

Definition O_RDONLY : Z := 0.

Definition O_WRONLY : Z := 1.

Definition O_RDWR : Z := 2.

Definition O_CREATE : Z := 0x200.

Definition O_TRUNC : Z := 0x400.

(** syscall.h *)
Definition SYS_fork : Z := 1.
Definition SYS_exit : Z := 2.
Definition SYS_wait : Z := 3.
Definition SYS_read : Z := 5.
Definition SYS_kill : Z := 6.
Definition SYS_exec : Z := 7.
Definition SYS_fstat : Z := 8.
Definition SYS_dup : Z := 10.
Definition SYS_getpid : Z := 11.
Definition SYS_sbrk : Z := 12.
Definition SYS_open : Z := 15.
Definition SYS_write : Z := 16.
Definition SYS_close : Z := 21.
Definition SYS_shutdown : Z := 22.
Definition SYS_consolemode : Z := 23.
Definition SYS_freemem : Z := 24.
Definition SYS_vmstat : Z := 25.
Definition SYS_filemap : Z := 26.

(** ** Descriptors and arguments, for any devices *)

Section Arguments.
Context {B X : Type} `{BlockCache B} `{Linker} `{Symbols}.

Abbreviation P := (M (kstate B X)).

(** The result and the word stored at [ip]. *)
Definition fetchaddr (addr : Z) : P (Z * Z) :=
  let! i := cur in
  let! p := gets (λ s, getp s i) in
  if (psz p <=? addr) || (psz p <? u64 (addr + 8)) then ret (-1, 0)
  else
    let! r := on_kmem (copyin (ppagetable p) addr 8) in
    if negb (fst r =? 0) then ret (-1, 0) else ret (0, le_at 8 (snd r) 0).

(** The result and the bytes stored at [buf]. *)
Definition fetchstr (addr max : Z) : P (Z * list Z) :=
  let! i := cur in
  let! p := gets (λ s, getp s i) in
  let! r := on_kmem (copyinstr (ppagetable p) addr max) in
  if fst r <? 0 then ret (-1, snd r) else ret (strlen (snd r), snd r).

(** [a0] to [a5] lie next to each other in the trapframe. *)
Definition argraw (n : Z) : P Z :=
  let! i := cur in
  let! p := gets (λ s, getp s i) in
  if (0 <=? n) && (n <=? 5) then on_kmem (rd64 (ptrapframe p + TF_a0 + 8 * n)) else panic "argraw".

Definition argint (n : Z) : P Z := let! x := argraw n in ret (s32 x).

Definition argaddr (n : Z) : P Z := argraw n.

Definition argstr (n max : Z) : P (Z * list Z) :=
  let! addr := argaddr n in
  fetchstr addr max.

(** [argfd]: the descriptor and the file, or -1. *)
Definition argfd (n : Z) : P (option (nat * nat)) :=
  let! fd := argint n in
  if (fd <? 0) || (Z.of_nat NOFILE <=? fd) then ret None
  else
    let! i := cur in
    let! f := gets (λ s, default None (pofile (getp s i) !! Z.to_nat fd)) in
    match f with
    | None => ret None
    | Some f => ret (Some (Z.to_nat fd, f))
    end.

(** The first descriptor without a file. *)
Fixpoint first_fd (l : list (option nat)) (fd : nat) : option nat :=
  match l with
  | [] => None
  | Some _ :: l' => first_fd l' (S fd)
  | None :: _ => Some fd
  end.

Definition fdalloc (f : nat) : P (option nat) :=
  let! i := cur in
  let! l := gets (λ s, pofile (getp s i)) in
  match first_fd l 0 with
  | Some fd => modify (setp i (λ p, p <| pofile := <[fd := Some f]> (pofile p) |>)) ;;; ret (Some fd)
  | None => ret None
  end.

Definition sys_dup : P Z :=
  let! r := argfd 0 in
  match r with
  | None => ret (-1)
  | Some (_, f) =>
      let! fd := fdalloc f in
      match fd with
      | None => ret (-1)
      | Some fd => on_files (filedup f) ;;; ret (Z.of_nat fd)
      end
  end.

Definition sys_close : P Z :=
  let! r := argfd 0 in
  match r with
  | None => ret (-1)
  | Some (fd, f) =>
      let! i := cur in
      modify (setp i (λ p, p <| pofile := <[fd := None]> (pofile p) |>)) ;;;
      on_files (fileclose f) ;;;
      ret 0
  end.

(** The fields [sys_open] gives to the new file. *)
Definition open_file (ip : nat) (x : inode) (omode : Z) (f : file) : file :=
  let f := if itype x =? T_DEVICE then f <| ftype := FD_DEVICE |> <| fmajor := imajor x |>
           else f <| ftype := FD_INODE |> <| foff := 0 |> in
  f <| fip := ip |> <| readable := negb (has omode O_WRONLY) |>
    <| writable := (itype x =? T_DEVICE) && (has omode O_WRONLY || has omode O_RDWR) |>.

Definition sys_open : P Z :=
  let! omode := argint 1 in
  let! r := argstr 0 MAXPATH in
  if fst r <? 0 then ret (-1)
  else if negb (Z.land omode (Z.lor O_CREATE O_TRUNC) =? 0) then ret (-1)
  else
    let! i := cur in
    let! pid := gets (λ s, ppid (getp s i)) in
    let! n := proc_namei i (snd r) in
    match n with
    | None => ret (-1)
    | Some ip =>
        on_files (on_fs (ilock pid ip)) ;;;
        let! x := gets (λ s, geti (fs (fsys s)) ip) in
        let fail := on_files (on_fs (iunlockput pid ip)) ;;; ret (-1) in
        if (itype x =? T_DIR) && negb (omode =? O_RDONLY) then fail
        else if (itype x =? T_DEVICE) && ((imajor x <? 0) || (NDEV <=? imajor x)) then fail
        else
          let! f := on_files filealloc in
          match f with
          | None => fail
          | Some f =>
              let! fd := fdalloc f in
              match fd with
              | None => on_files (fileclose f) ;;; fail
              | Some fd =>
                  on_files (modify (setf f (open_file ip x omode))) ;;;
                  on_files (on_fs (iunlock pid ip)) ;;;
                  ret (Z.of_nat fd)
              end
          end
    end.

Definition sys_filemap : P Z :=
  let! _ := argint 0 in
  let! _ := argaddr 1 in
  ret (-1).

(** ** Processes *)

Definition sys_getpid : P Z :=
  let! i := cur in
  gets (λ s, ppid (getp s i)).

Definition sys_sbrk : P Z :=
  let! n := argint 0 in
  let! i := cur in
  let! addr := gets (λ s, psz (getp s i)) in
  let! r := growproc n in
  if r <? 0 then ret (-1) else ret addr.

Definition sys_vmstat : P Z :=
  let! _ := argaddr 0 in
  ret (-1).

Definition sys_freemem : P Z := on_kmem kfreemem.

Context (hart : Z).

Definition sys_fork : P Z := kfork hart.

Definition sys_kill : P Z :=
  let! pid := argint 0 in
  kkill hart pid.

Context (swtch : P unit).

Definition sys_exit : P Z :=
  let! n := argint 0 in
  kexit hart swtch n ;;;
  ret 0.

Definition sys_wait (fuel : nat) : P Z :=
  let! p := argaddr 0 in
  kwait hart swtch fuel p.

(** ** sys_exec *)

(** The loop that fetches the arguments; [argv] holds the pages allocated so
    far.  The flag is [false] for [goto bad]. *)
Fixpoint fetch_args (n : nat) (uargv i : Z) (argv : list Z) : P (bool * list Z) :=
  match n with
  | O => ret (false, argv)
  | S n' =>
      let! r := fetchaddr (u64 (uargv + 8 * i)) in
      if fst r <? 0 then ret (false, argv)
      else if snd r =? 0 then ret (true, argv)
      else
        let! page := on_kmem kalloc in
        if page =? 0 then ret (false, argv)
        else
          let! q := fetchstr (snd r) PGSIZE in
          on_kmem (modify (λ k, with_mem (put_bytes (mem k) page (snd q)) k)) ;;;
          if fst q <? 0 then ret (false, argv ++ [page])
          else fetch_args n' uargv (i + 1) (argv ++ [page])
  end.

Definition free_args (argv : list Z) : P unit := for_each argv (λ a, on_kmem (kfree a)).

Definition sys_exec : P Z :=
  let! uargv := argaddr 1 in
  let! path := argstr 0 MAXPATH in
  if fst path <? 0 then ret (-1)
  else
    let! r := fetch_args MAXARG uargv 0 [] in
    if fst r then
      let! strs := on_kmem (gets (λ k, (λ a, load_bytes (mem k) a (Z.to_nat PGSIZE)) <$> snd r)) in
      let! ret_ := kexec (snd path) strs in
      free_args (snd r) ;;;
      ret ret_
    else free_args (snd r) ;;; ret (-1).

End Arguments.

(** ** Calls that reach the devices *)

Section Dispatch.
Context {B : Type} `{BlockCache B} `{Linker} `{Symbols} `{DevSymbols}.
Context (hart : Z) (swtch : M (kstate B devices) unit).
Context (waits : nat).       (* rounds of sleep in a blocking call *)
Context (pad : list Z).      (* stack bytes that become padding of struct stat *)

Abbreviation P := (M (kstate B devices)).

Definition file_env {A} (k : Z → Z → P A) : P A :=
  let! i := cur in
  let! p := gets (λ s, getp s i) in
  k (ppid p) (ppagetable p).

Definition sys_read : P Z :=
  let! p := argaddr 1 in
  let! n := argint 2 in
  let! r := argfd 0 in
  match r with
  | None => ret (-1)
  | Some (_, f) =>
      file_env (λ pid pt, fileread (λ A, on_files) pid pt (console_devsw hart swtch waits) f p n)
  end.

Definition sys_write : P Z :=
  let! p := argaddr 1 in
  let! n := argint 2 in
  let! r := argfd 0 in
  match r with
  | None => ret (-1)
  | Some (_, f) => filewrite (λ A, on_files) (console_devsw hart swtch waits) f p n
  end.

Definition sys_fstat : P Z :=
  let! st := argaddr 1 in
  let! r := argfd 0 in
  match r with
  | None => ret (-1)
  | Some (_, f) => file_env (λ pid pt, filestat (λ A, on_files) pid pt pad f st)
  end.

Definition sys_consolemode : P Z :=
  let! raw := argint 0 in
  consolesetraw hart raw ;;;
  ret 0.

Definition w_intr (b : bool) (s : kstate B devices) : kstate B devices :=
  s <| sy := with_cpu (Cpu (noff (this (sy s))) (intena (this (sy s))) b) (sy s) |>.

Definition VIRT_TEST_PASS : Z := 0x5555.

(** [poweroff] (power.c) does not return: the hart stops in its loop. *)
Definition poweroff : P unit :=
  modify (w_intr false) ;;;
  store_reg VIRT_TEST VIRT_TEST_PASS ;;;
  nofuel.

Definition sys_shutdown : P Z := poweroff ;;; ret 0.

(** The table [syscalls]. *)
Definition syscalls (num : Z) : option (P Z) :=
  if num =? SYS_fork then Some (sys_fork hart)
  else if num =? SYS_exit then Some (sys_exit hart swtch)
  else if num =? SYS_wait then Some (sys_wait hart swtch waits)
  else if num =? SYS_read then Some sys_read
  else if num =? SYS_kill then Some (sys_kill hart)
  else if num =? SYS_exec then Some sys_exec
  else if num =? SYS_fstat then Some sys_fstat
  else if num =? SYS_dup then Some sys_dup
  else if num =? SYS_getpid then Some sys_getpid
  else if num =? SYS_sbrk then Some sys_sbrk
  else if num =? SYS_open then Some sys_open
  else if num =? SYS_write then Some sys_write
  else if num =? SYS_close then Some sys_close
  else if num =? SYS_shutdown then Some sys_shutdown
  else if num =? SYS_consolemode then Some sys_consolemode
  else if num =? SYS_freemem then Some sys_freemem
  else if num =? SYS_vmstat then Some sys_vmstat
  else if num =? SYS_filemap then Some sys_filemap
  else None.

Definition unknown_call : list Z := chars "%d %s: unknown sys call %d" ++ [10].

Definition syscall : P unit :=
  let! i := cur in
  let! p := gets (λ s, getp s i) in
  let! a7 := on_kmem (rd64 (ptrapframe p + TF_a7)) in
  let num := s32 a7 in
  match syscalls num with
  | Some f =>
      let! r := f in
      on_kmem (wr64 (ptrapframe p + TF_a0) (u64 r))
  | None =>
      kprintf hart unknown_call [AInt (ppid p); AStr (Some (pname p)); AInt num] ;;;
      on_kmem (wr64 (ptrapframe p + TF_a0) (u64 (-1)))
  end.

End Dispatch.
