(* ===== verification/SysFile.v ===== *)
(** The system calls on descriptors (sysfile.c) keep every reference count
    exact: [sys_dup] and [sys_close]. *)

From S2P Require Import Prelude Machine CString Kalloc Vm PageTable AddrSpace Uvm CopyIO.
From S2P Require Import Spinlock Bio Fs FsRead File Proc ProcBase ProcFiles FsName ProcTable ProcMem ProcLife ProcFork ProcExit.
From S2P Require Import Exec Console Syscall.

Section Descriptors.
Context {B X : Type} {BC : BlockCache B} {LK : Linker} {LKok : LinkerOk} {SY : Symbols} {SYok : SymbolsOk}.
Context (hart : Z).
Implicit Types s : kstate B X.

Definition with_sync (t : sync) s : kstate B X := s <| sy := t |>.

(** Argument [n] of the system call of process [p]. *)
Definition argument s (p : nat) (n : Z) : Z := load64 (mem (kmem s)) (ptrapframe (getp s p) + TF_a0 + 8 * n).

(** ** Rules *)

Lemma returns_kmem_read {A C} (g : kmem_state → A) (c : A → M (kstate B X) C) s Q :
  returns (c (g (kmem s))) s Q → returns (bind (on_kmem (gets g)) c) s Q.
Proof.
  intros Hc. eapply returns_kmem; [by apply (returns_gets g _ (λ a k, a = g (kmem s) ∧ k = kmem s))|].
  intros a k [-> ->]. by rewrite with_kmem_id.
Qed.

Section Call.
Context (H : gset Z) (n : Z) (res : bool) (p : nat).

Abbreviation calls s := (held hart H n res (sy s) ∧ curproc s = Some p).

Lemma returns_argraw {A} s k (c : Z → M (kstate B X) A) Q :
  calls s → 0 ≤ k ≤ 5 → (∀ t, held hart H n res t → returns (c (argument s p k)) (with_sync t s) Q) →
  returns (bind (argraw k) c) s Q.
Proof.
  intros [Hh Hc] Hk HQ. unfold argraw. apply returns_assoc_bind. eapply returns_cur; [done..|]. intros t Ht. psteps.
  rewrite (proj2 (Z.leb_le 0 k)), (proj2 (Z.leb_le k 5)) by lia. cbn [andb].
  apply returns_kmem_read. by apply HQ.
Qed.

Lemma returns_argint {A} s k (c : Z → M (kstate B X) A) Q :
  calls s → 0 ≤ k ≤ 5 → (∀ t, held hart H n res t → returns (c (s32 (argument s p k))) (with_sync t s) Q) →
  returns (bind (argint k) c) s Q.
Proof.
  intros Hc Hk HQ. unfold argint. apply returns_assoc_bind, returns_argraw; [done|done|]. intros t Ht. psteps. by apply HQ.
Qed.

(** The open file that descriptor [fd] stands for. *)
Definition descriptor s (fd : Z) : option nat :=
  if (fd <? 0) || (Z.of_nat NOFILE <=? fd) then None else default None (pofile (getp s p) !! Z.to_nat fd).

Lemma returns_argfd {A} s k (c : option (nat * nat) → M (kstate B X) A) Q :
  calls s → 0 ≤ k ≤ 5 →
  (∀ t, held hart H n res t →
     returns (c ((λ f, (Z.to_nat (s32 (argument s p k)), f)) <$> descriptor s (s32 (argument s p k)))) (with_sync t s) Q) →
  returns (bind (argfd k) c) s Q.
Proof.
  intros Hc Hk HQ. unfold argfd. apply returns_assoc_bind, returns_argint; [done|done|]. intros t Ht.
  unfold descriptor in HQ. destruct (_ || _); [by apply HQ|]. apply returns_assoc_bind.
  eapply returns_cur; [exact Ht|apply Hc|]. intros t' Ht'. psteps.
  change (getp _ p) with (getp s p). change (_ <| sy := t' |>) with (with_sync t' s).
  specialize (HQ t' Ht'). by destruct (default None _).
Qed.

Lemma first_fd_spec l k :
  match first_fd l k with
  | Some fd => ∃ j, fd = (k + j)%nat ∧ l !! j = Some None ∧ ∀ i, (i < j)%nat → ∃ f, l !! i = Some (Some f)
  | None => ∀ i, (i < length l)%nat → ∃ f, l !! i = Some (Some f)
  end.
Proof.
  revert k. induction l as [|[f|] l IH]; intros k; cbn [first_fd]; [intros i Hi; simpl in Hi; lia| |].
  - specialize (IH (S k)). destruct (first_fd l (S k)) as [fd|].
    + destruct IH as (j & -> & Hj & Hlow). exists (S j). split_and!; [lia|done|]. intros [|i] Hi; [by exists f|].
      apply Hlow. lia.
    + intros [|i] Hi; [by exists f|]. apply IH. simpl in Hi. lia.
  - exists 0%nat. split_and!; [lia|done|lia].
Qed.

End Call.

(** The file table of the calling process changes. *)
Definition with_files (p : nat) (l : list (option nat)) s : kstate B X := setp p (λ x, x <| pofile := l |>) s.

Lemma kernel_ok_sy n res p s l t : kernel_ok hart n res p s l → held hart ∅ n res t → kernel_ok hart n res p (with_sync t s) l.
Proof. intros [] Ht. by split. Qed.

Lemma kernel_ok_files n res p s l fy fl :
  kernel_ok hart n res p s l → fkm (fs fy) = kmem s → length fl = NOFILE →
  refs_ok fy (procs (with_files p fl s)) [] [] → kernel_ok hart n res p (with_files p fl s <| fsys := fy |>) l.
Proof.
  intros [Hh Hlen Hm He Hr Hc Hlt Hrun Hpt Hcwd] Ek Hfl Hr'.
  assert (Hp : procs s !! p = Some (getp s p)) by (apply lookup_getp; lia).
  assert (Hg : getp (with_files p fl s <| fsys := fy |>) p = getp s p <| pofile := fl |>).
  { apply getp_lookup. apply list_lookup_insert_eq. lia. }
  split; try done; rewrite ?Hg; try done.
  - change (length (procs (with_files p fl s)) = NP). unfold with_files. by rewrite setp_length.
  - change (kmem (with_files p fl s <| fsys := fy |>)) with (fkm (fs fy)). rewrite Ek.
    by apply (msys_same _ _ _ p (getp s p)).
  - apply Forall_insert; [done|]. rewrite Forall_lookup in He. destruct (He _ _ Hp) as [Hi _ _].
    split; [exact Hi| |done]. intros [E|E]; cbn in E; congruence.
Qed.

(** ** sys_dup and sys_close *)

Lemma descriptor_ptr n res p s l fd f :
  kernel_ok hart n res p s l → descriptor p s fd = Some f →
  0 ≤ fd < Z.of_nat NOFILE ∧ pofile (getp s p) !! Z.to_nat fd = Some (Some f)
  ∧ procs s !! p = Some (getp s p) ∧ f ∈ file_ptrs (procs s).
Proof.
  intros Hko Hd. unfold descriptor in Hd. destruct (_ || _) eqn:Er; [done|]. apply orb_false_iff in Er as [E1 E2].
  apply Z.ltb_ge in E1. apply Z.leb_gt in E2.
  assert (Hp : procs s !! p = Some (getp s p)) by (apply lookup_getp; rewrite (ko_len _ _ _ _ _ _ Hko); apply Hko).
  assert (Hl : pofile (getp s p) !! Z.to_nat fd = Some (Some f)).
  { destruct (pofile (getp s p) !! Z.to_nat fd) as [o|]; [|done]. simpl in Hd. by subst o. }
  split_and!; try done. unfold file_ptrs. apply list_elem_of_omap. exists (Some f). split; [|done].
  apply list_elem_of_bind. exists (getp s p). split; by eapply list_elem_of_lookup_2.
Qed.

Lemma files_length n res p s l : kernel_ok hart n res p s l → length (pofile (getp s p)) = NOFILE.
Proof.
  intros Hko. pose proof (ko_entries _ _ _ _ _ _ Hko) as He. rewrite Forall_lookup in He.
  eapply eo_len, He, lookup_getp. rewrite (ko_len _ _ _ _ _ _ Hko). apply Hko.
Qed.

(** What [sys_dup] does to the descriptors: the least free one gets the file. *)
Definition dups (p : nat) (r : Z) s s' : Prop :=
  let fl := pofile (getp s p) in
  match descriptor p s (s32 (argument s p 0)) with
  | None => r = -1 ∧ pofile (getp s' p) = fl
  | Some f =>
      r = -1 ∧ pofile (getp s' p) = fl ∧ (∀ i, (i < NOFILE)%nat → fl !! i ≠ Some None)
      ∨ ∃ fd, r = Z.of_nat fd ∧ fl !! fd = Some None ∧ (∀ i, (i < fd)%nat → fl !! i ≠ Some None)
          ∧ pofile (getp s' p) = <[fd := Some f]> fl
  end.

(** Working directories are not concerned. *)
Definition same_dirs s s' : Prop := ∀ ft, inode_ptrs (procs s') ft ≡ₚ inode_ptrs (procs s) ft.

Lemma same_dirs_files p fl s t fy :
  procs s !! p = Some (getp s p) → same_dirs s (with_files p fl (with_sync t s) <| fsys := fy |>).
Proof. intros Hp ft. apply (inode_ptrs_same (procs s) ft p (getp s p)); [exact Hp|reflexivity]. Qed.

Lemma sys_dup_ok n res p s l :
  kernel_ok hart n res p s l →
  returns sys_dup s (λ r s', (kernel_ok hart n res p s' l ∧ dups p r s s') ∧ same_dirs s s'
    ∧ (fsys s' = fsys s ∨ ∃ f, f ∈ file_ptrs (procs s) ∧ fsys s' = setf f (λ x, x <| fref := fref x + 1 |>) (fsys s))).
Proof.
  intros Hko. pose proof (files_length _ _ _ _ _ Hko) as Hfl. unfold sys_dup, dups.
  apply (returns_argfd ∅ n res p); [split; apply Hko|lia|]. intros t Ht.
  destruct (descriptor p s (s32 (argument s p 0))) as [f|] eqn:Ed; cbn [fmap option_fmap option_map].
  2:{ apply returns_ret. split_and!; [by apply kernel_ok_sy|done|done|by intros ft|by left]. }
  destruct (descriptor_ptr _ _ _ _ _ _ _ Hko Ed) as (Hr & Hlk & Hp & Hin).
  unfold fdalloc. apply returns_assoc_bind. eapply returns_cur; [exact Ht|apply Hko|]. intros t' Ht'. psteps.
  change (_ <| sy := t' |>) with (with_sync t' s). change (getp (with_sync t' s) p) with (getp s p).
  pose proof (kernel_ok_sy _ _ _ _ _ _ Hko Ht') as Hko'.
  pose proof (first_fd_spec (pofile (getp s p)) 0) as Hff. destruct (first_fd (pofile (getp s p)) 0) as [fd|].
  - destruct Hff as (j & -> & Hj & Hlow). cbn [Nat.add]. psteps.
    destruct (filedup_ok (fsys s) (procs s) [] [] f) as (f' & fy & E & -> & Efy & Hr'); [apply Hko|done|].
    eapply returns_zoom_bind; [by apply (returns_eq _ _ f fy)|]. intros a fy' [-> ->]. apply returns_ret.
    set (fl := <[j := Some f]> (pofile (getp s p))).
    match goal with |- (kernel_ok _ _ _ _ ?st _ ∧ _) ∧ _ => change st with (with_files p fl (with_sync t' s) <| fsys := fy |>) end.
    assert (Hlen : (p < length (procs s))%nat) by (by eapply lookup_lt_Some).
    split; [split|split; [by apply same_dirs_files|right; by exists f]].
    + apply kernel_ok_files; [done|by rewrite Efy|by unfold fl; rewrite length_insert|].
      exact (refs_store _ _ _ _ p _ j f Hr' Hp Hj).
    + right. exists j. split_and!; [done|done| |].
      * intros i Hi. destruct (Hlow i Hi) as [g ->]. done.
      * assert (E' : getp (with_files p fl (with_sync t' s) <| fsys := fy |>) p = getp s p <| pofile := fl |>)
          by (apply getp_lookup, list_lookup_insert_eq; exact Hlen).
        by rewrite E'.
  - psteps. apply returns_ret. split_and!; [done| |by intros ft|by left]. left. split_and!; [done|done|]. intros i Hi.
    destruct (Hff i) as [g ->]; [lia|done].
Qed.

(** [sys_close] gives the descriptor up. *)
Definition closes (p : nat) (r : Z) s s' : Prop :=
  let fl := pofile (getp s p) in
  match descriptor p s (s32 (argument s p 0)) with
  | None => r = -1 ∧ pofile (getp s' p) = fl
  | Some f => r = 0 ∧ pofile (getp s' p) = <[Z.to_nat (s32 (argument s p 0)) := None]> fl
      ∧ ∀ g, g ≠ f → getf (fsys s') g = getf (fsys s) g
  end.

Lemma sys_close_ok n res p s l :
  kernel_ok hart n res p s l →
  returns sys_close s (λ r s', (kernel_ok hart n res p s' l ∧ closes p r s s') ∧ same_dirs s s'
    ∧ (fsys s' = fsys s ∨ ∃ f, f ∈ file_ptrs (procs s) ∧ fileclose f (fsys s) = Ok tt (fsys s'))).
Proof.
  intros Hko. pose proof (files_length _ _ _ _ _ Hko) as Hfl. unfold sys_close, closes.
  apply (returns_argfd ∅ n res p); [split; apply Hko|lia|]. intros t Ht.
  destruct (descriptor p s (s32 (argument s p 0))) as [f|] eqn:Ed; cbn [fmap option_fmap option_map].
  2:{ apply returns_ret. split_and!; [by apply kernel_ok_sy|done|done|by intros ft|by left]. }
  destruct (descriptor_ptr _ _ _ _ _ _ _ Hko Ed) as (Hr & Hlk & Hp & Hin). set (fd := Z.to_nat (s32 (argument s p 0))) in *.
  eapply returns_cur; [exact Ht|apply Hko|]. intros t' Ht'. psteps.
  change (_ <| sy := t' |>) with (with_sync t' s). pose proof (kernel_ok_sy _ _ _ _ _ _ Hko Ht') as Hko'.
  set (fl := <[fd := None]> (pofile (getp s p))). pose proof (refs_take _ _ _ _ p _ fd f (ko_refs _ _ _ _ _ _ Hko) Hp Hlk) as Htk.
  destruct (fileclose_ok _ _ _ _ _ Htk) as ([] & fy & Erun & Hr2 & Hs2 & Hg).
  eapply returns_zoom_bind; [by apply (returns_eq _ _ tt fy)|]. intros u fy' [_ ->]. apply returns_ret.
  match goal with |- (kernel_ok _ _ _ _ ?st _ ∧ _) ∧ _ => change st with (with_files p fl (with_sync t' s) <| fsys := fy |>) end.
  assert (Hlen : (p < length (procs s))%nat) by (by eapply lookup_lt_Some).
  split; [|split; [by apply same_dirs_files|right; by exists f]].
  split; [apply kernel_ok_files; [done|apply Hs2|by unfold fl; rewrite length_insert|exact Hr2]|].
  assert (E' : getp (with_files p fl (with_sync t' s) <| fsys := fy |>) p = getp s p <| pofile := fl |>)
    by (apply getp_lookup, list_lookup_insert_eq; exact Hlen).
  rewrite E'. by split_and!.
Qed.

End Descriptors.
