(* ===== verification/SysOpen.v ===== *)
(** [sys_open] (sysfile.c): from the user's path to an open file, with every
    reference count exact on success and on every failure. *)

From S2P Require Import Prelude Machine CString Kalloc Vm PageTable AddrSpace Uvm CopyIO.
From S2P Require Import Spinlock Bio Fs FsRead File Proc ProcBase ProcFiles FsName ProcTable ProcMem ProcLife ProcFork ProcExit.
From S2P Require Import Exec Console Syscall SysFile.

Section Open.
Context {B X : Type} {BC : BlockCache B} {BOk : BlockCacheOk B}.
Context {LK : Linker} {LKok : LinkerOk} {SY : Symbols} {SYok : SymbolsOk}.
Context (hart : Z) (dk : Z → list Z) (sbk : superblock).
Implicit Types s : kstate B X.

(** ** The file table *)

(** Free entries have no type. *)
Definition clean (ft : list file) : Prop := ∀ f x, ft !! f = Some x → fref x = 0 → ftype x = FD_NONE.

Lemma first_free_spec l k :
  match first_free l k with
  | Some f => ∃ j x, f = (k + j)%nat ∧ l !! j = Some x ∧ fref x = 0
  | None => True
  end.
Proof.
  revert k. induction l as [|x l IH]; intros k; [done|]. cbn [first_free].
  destruct (Z.eqb_spec (fref x) 0) as [E|E]; [exists 0%nat, x; split_and!; [lia|done..]|].
  specialize (IH (S k)). destruct (first_free l (S k)) as [f|]; [|done]. destruct IH as (j & y & -> & Hj & Hy).
  exists (S j), y. split_and!; [lia|done..].
Qed.

(** The entry that [filealloc] hands out. *)
Definition taken (f : nat) (fy : filesys B) : filesys B := setf f (λ x, x <| fref := 1 |>) fy.

Lemma filealloc_ok fy ps F I :
  refs_ok fy ps F I → clean (ftable fy) →
  returns filealloc fy (λ r fy', r = first_free (ftable fy) 0
    ∧ match r with
      | None => fy' = fy
      | Some f => fy' = taken f fy ∧ refs_ok fy' ps (f :: F) I
          ∧ (f < length (ftable fy))%nat ∧ ftype (getf fy f) = FD_NONE ∧ f ∉ F ++ file_ptrs ps
      end).
Proof.
  intros Hr Hcl. unfold filealloc. psteps. pose proof (first_free_spec (ftable fy) 0) as Hff.
  destruct (first_free (ftable fy) 0) as [f|]; [|by apply returns_ret].
  destruct Hff as (j & x & -> & Hj & Hx). cbn [Nat.add]. psteps. apply returns_ret. split; [done|].
  assert (Hl : (j < length (ftable fy))%nat) by (by eapply lookup_lt_Some).
  assert (Eg : getf fy j = x) by (unfold getf; by rewrite Hj).
  assert (Hlt : (j < NFILE)%nat).
  { pose proof (cnt_refs _ _ _ (ro_files _ _ _ _ Hr)) as E. apply (f_equal length) in E.
    rewrite !length_fmap, length_seq in E. lia. }
  assert (Ho : occ (F ++ file_ptrs ps) j = 0).
  { pose proof (counted_lookup _ _ _ j (ro_files _ _ _ _ Hr) Hlt) as E. rewrite list_lookup_fmap, Hj in E.
    injection E as E. lia. }
  split_and!; [done| |done|rewrite Eg; by eapply Hcl|intros Hin; apply occ_pos in Hin; lia].
  rewrite <- setf_const, Eg. cbv beta.
  apply (refs_setf fy ps F (j :: F) I I j x); [done|done| |].
  - cbn [fref setter]. replace 1 with (occ (F ++ file_ptrs ps) j + 1) by lia. by apply counted_add; [apply Hr|].
  - unfold file_inode. rewrite Hx. cbn [fref ftype setter]. rewrite (Hcl j x Hj Hx). done.
Qed.

(** ** The file system below the processes *)

Definition pointers s : list nat := inode_ptrs (procs s) (ftable (fsys s)).

Context (live : Z → Prop).
Context (live_type : ∀ n, live n → itype (disk_inode dk sbk n) ≠ 0).
Context (live_dir : ∀ n, live n → itype (disk_inode dk sbk n) = T_DIR → dir_ok dk (disk_inode dk sbk n)).
Context (live_find : ∀ n name k, live n → dir_find dk (disk_inode dk sbk n) name = Some k →
  live (entry_inum dk (disk_inode dk sbk n) k)).

(** An idle file system whose inode table agrees with the disk. *)
Record fs_ok s : Prop := {
  fk_ready pid : ready dk sbk pid live (fs (fsys s)) (pointers s) None;
  fk_clean : clean (ftable (fsys s));
}.

Definition with_fs (t : fstate B) s : kstate B X := s <| fsys := (fsys s) <| fs := t |> |>.

Lemma returns_fs {A C} (m : M (fstate B) A) (c : A → M (kstate B X) C) s R Q :
  returns m (fs (fsys s)) R → (∀ a t, R a t → returns (c a) (with_fs t s) Q) →
  returns (bind (on_files (on_fs m)) c) s Q.
Proof.
  intros (a & t & E & HR) Hc. destruct (Hc a t HR) as (b & s' & Ec & HQ). exists b, s'. split; [|done].
  unfold bind, on_files, on_fs, zoom. by rewrite E.
Qed.

Lemma returns_files {A C} (m : M (filesys B) A) (c : A → M (kstate B X) C) s R Q :
  returns m (fsys s) R → (∀ a fy, R a fy → returns (c a) (s <| fsys := fy |>) Q) → returns (bind (on_files m) c) s Q.
Proof. intros Hm Hc. by eapply returns_zoom_bind. Qed.

Lemma ready_pid pid pid' t H : ready dk sbk pid live t H None → ready dk sbk pid' live t H None.
Proof. intros [[Hc Hl Hr Hi] Hq Hs]. by split. Qed.

Lemma ready_perm pid t H H' lk : H ≡ₚ H' → ready dk sbk pid live t H lk → ready dk sbk pid live t H' lk.
Proof. intros Hp [Ht Hq Hs]. split; [by eapply tab_perm|done|done]. Qed.

(** The processes and open files are as before, the inode table has moved on. *)
Lemma kernel_ok_fs n res p s l t y :
  kernel_ok hart n res p s l → held hart ∅ n res y → fkm t = kmem s →
  counted NINODE (iref <$> itable t) (pointers s) → kernel_ok hart n res p (with_fs t (with_sync y s)) l.
Proof.
  intros [Hh Hlen Hm He Hr Hc Hlt Hrun Hpt Hcwd] Hy Ek Hcnt. split; try done.
  - change (kmem (with_fs t (with_sync y s))) with (fkm t). by rewrite Ek.
  - split; [apply Hr|exact Hcnt].
Qed.

Lemma fs_ok_fs pid s t y : fs_ok s → ready dk sbk pid live t (pointers s) None → fs_ok (with_fs t (with_sync y s)).
Proof. intros [_ Hcl] Hrd. split; [|done]. intros pid'. by eapply ready_pid. Qed.

(** Nothing was opened. *)
Definition refused (n : Z) (res : bool) (p : nat) (l : list Z) s (r : Z) s' : Prop :=
  r = -1 ∧ kernel_ok hart n res p s' l ∧ fs_ok s' ∧ pofile (getp s' p) = pofile (getp s p).

Lemma refused_now n res p s l y :
  kernel_ok hart n res p s l → fs_ok s → held hart ∅ n res y → refused n res p l s (-1) (with_sync y s).
Proof. intros Hko Hfs Hy. split_and!; [done|by apply kernel_ok_sy| |done]. by destruct Hfs; split. Qed.

(** The label [fail]: the inode is released. *)
Lemma fail_ok n res p s l t y pid ip :
  kernel_ok hart n res p s l → fs_ok s → held hart ∅ n res y → fkm t = kmem s →
  ready dk sbk pid live t (ip :: pointers s) (Some ip) →
  returns (on_files (on_fs (iunlockput pid ip)) ;;; ret (-1)) (with_fs t (with_sync y s)) (refused n res p l s).
Proof.
  intros Hko Hfs Hy Ek Hrd. eapply returns_fs; [by eapply iunlockput_ok|]. intros u t2 (Hrd2 & Ek2 & _).
  apply returns_ret. split; [done|]. change (with_fs t2 (with_fs t (with_sync y s))) with (with_fs t2 (with_sync y s)).
  change (fs (fsys (with_fs t (with_sync y s)))) with t in Ek2.
  split_and!; [apply kernel_ok_fs; [done|done|congruence|apply Hrd2]|by eapply fs_ok_fs|done].
Qed.

(** A file that was allocated and not opened is closed again. *)
Lemma close_taken f fy :
  (f < length (ftable fy))%nat → ftype (getf fy f) = FD_NONE →
  returns (fileclose f) (taken f fy) (λ _ fy', ∃ g, fy' = setf f g fy ∧ fref (g (getf fy f)) = 0 ∧ ftype (g (getf fy f)) = FD_NONE).
Proof.
  intros Hl Hty.
  unfold fileclose, taken. psteps. rewrite getf_setf by done. cbn [fref setter]. change (1 <? 1) with false. cbv iota. psteps.
  rewrite setf_setf, getf_setf by done. cbn [fref setter]. change (0 <? 1 - 1) with false. cbv iota. psteps.
  assert (Hl2 : ∀ h, (f < length (ftable (setf f h fy)))%nat) by (intros h; unfold setf; cbn; by rewrite length_insert).
  rewrite !setf_setf by (done || apply Hl2). cbn [ftype setter]. rewrite Hty. cbn. apply returns_ret. by eexists.
Qed.

(** Giving a file back leaves the pointers as they were. *)
Lemma pointers_closed ps ft f x x' :
  ft !! f = Some x → file_inode x = None → file_inode x' = None → inode_ptrs ps (<[f := x']> ft) ≡ₚ inode_ptrs ps ft.
Proof. intros Hf E E'. pose proof (inode_ptrs_file ps ft f x x' Hf) as Hp. by rewrite E, E' in Hp. Qed.

(** ** What the call should do *)

(** The user's path. *)
Definition path_of s (p : nat) : option (list Z) := ustr 128 (kmem s) (ppagetable (getp s p)) (argument s p 0).

Definition mode_of s (p : nat) : Z := s32 (argument s p 1).

(** The inode that the path leads to. *)
Definition target s (p : nat) (path : list Z) : option Z :=
  resolve dk sbk (if chr path 0 =? SLASH then ROOTINO
                  else inum (geti (fs (fsys s)) (default 0%nat (pcwd (getp s p))))) (elems path).

(** Directories are opened for reading only, devices need a driver number. *)
Definition openable (x : inode) (omode : Z) : bool :=
  negb ((itype x =? T_DIR) && negb (omode =? O_RDONLY))
  && negb ((itype x =? T_DEVICE) && ((imajor x <? 0) || (NDEV <=? imajor x))).

(** The inode number, open file and descriptor of a call that succeeds. *)
Definition opening s (p : nat) : option (Z * nat * nat) :=
  match path_of s p with
  | None => None
  | Some path =>
      if negb (Z.land (mode_of s p) (Z.lor O_CREATE O_TRUNC) =? 0) then None
      else
        match target s p path with
        | None => None
        | Some n =>
            if openable (disk_inode dk sbk n) (mode_of s p) then
              match first_free (ftable (fsys s)) 0, first_fd (pofile (getp s p)) 0 with
              | Some f, Some fd => Some (n, f, fd)
              | _, _ => None
              end
            else None
        end
  end.

Lemma open_file_ext ip x y omode g :
  itype x = itype y → imajor x = imajor y → open_file ip x omode g = open_file ip y omode g.
Proof. intros Et Em. unfold open_file. by rewrite Et, Em. Qed.

(** The descriptor [fd] of the process is the new file [f] on inode [m]. *)
Definition opened (n : Z) (res : bool) (p : nat) (l : list Z) s (m : Z) (f fd : nat) (r : Z) s' : Prop :=
  r = Z.of_nat fd ∧ kernel_ok hart n res p s' l ∧ fs_ok s'
  ∧ pofile (getp s' p) = <[fd := Some f]> (pofile (getp s p))
  ∧ ∃ ip, inum (geti (fs (fsys s')) ip) = m
      ∧ getf (fsys s') f = open_file ip (disk_inode dk sbk m) (mode_of s p) (getf (fsys s) f <| fref := 1 |>).

Section Rest.
Context (n : Z) (res : bool) (p : nat) (s : kstate B X) (l : list Z) (pid : Z) (ip : nat) (m : Z).
Context (Hko : kernel_ok hart n res p s l) (Hfs : fs_ok s).

Lemma refs_with t y :
  ready dk sbk pid live t (ip :: pointers s) (Some ip) → refs_ok (fsys (with_fs t (with_sync y s))) (procs s) [] [ip].
Proof. intros Hrd. split; [apply Hko|apply Hrd]. Qed.

(** No descriptor is free: the file is closed and the inode released. *)
Lemma no_descriptor t y f :
  held hart ∅ n res y → fkm t = kmem s → ready dk sbk pid live t (ip :: pointers s) (Some ip) →
  (f < length (ftable (fsys s)))%nat → fref (getf (fsys s) f) = 0 → ftype (getf (fsys s) f) = FD_NONE →
  refs_ok (taken f (fsys (with_fs t (with_sync y s)))) (procs s) [f] [ip] →
  returns (on_files (fileclose f) ;;; on_files (on_fs (iunlockput pid ip)) ;;; ret (-1))
    (with_fs t (with_sync y s) <| fsys := taken f (fsys (with_fs t (with_sync y s))) |>) (refused n res p l s).
Proof.
  intros Hy Ek Hrd Hl Hr0 Hty Hr. set (s1 := with_fs t (with_sync y s)) in *. set (x := getf (fsys s) f) in *.
  assert (Hx : ftable (fsys s) !! f = Some x).
  { unfold x, getf. by destruct (lookup_lt_is_Some_2 (ftable (fsys s)) f Hl) as [z ->]. }
  eapply returns_files; [apply returns_and; [exact (fileclose_ok _ _ [] [ip] f Hr)|by apply (close_taken f (fsys s1))]|].
  intros u fy ((Hr2 & _) & g & -> & Hg0 & Hgt). change (getf (fsys s1) f) with x in Hg0, Hgt.
  set (s2 := s <| fsys := setf f g (fsys s) |>).
  assert (Hx2 : file_inode (g x) = None) by (unfold file_inode; by rewrite Hg0).
  assert (Hptr : pointers s2 ≡ₚ pointers s).
  { apply (pointers_closed _ _ f x); [done|unfold file_inode; by rewrite Hr0|exact Hx2]. }
  assert (Hko2 : kernel_ok hart n res p s2 l).
  { destruct Hko. split; try done. split; [exact (ro_files _ _ _ _ Hr2)|]. eapply counted_perm; [symmetry; exact Hptr|].
    exact (ro_inodes _ _ _ _ ko_refs). }
  assert (Hfs2 : fs_ok s2).
  { destruct Hfs as [Hq Hcl]. split; [intros q; eapply ready_perm; [symmetry; exact Hptr|apply Hq]|].
    intros h z Hz. change (<[f := g x]> (ftable (fsys s)) !! h = Some z) in Hz. destruct (decide (h = f)) as [->|Hne].
    - rewrite list_lookup_insert_eq in Hz by done. by injection Hz as <-.
    - rewrite list_lookup_insert_ne in Hz by done. by eapply Hcl. }
  eapply returns_mono; [apply (fail_ok n res p s2 l t y pid ip Hko2 Hfs2 Hy Ek)|].
  - eapply ready_perm; [|exact Hrd]. by rewrite Hptr.
  - intros r s' (-> & ? & ? & E). by split_and!.
Qed.

(** The file gets its fields, the descriptor its file. *)
Lemma got_descriptor t y f fd x :
  let omode := mode_of s p in
  let fy := taken f (fsys (with_fs t (with_sync y s))) in
  let fl := <[fd := Some f]> (pofile (getp s p)) in
  held hart ∅ n res y → fkm t = kmem s → ready dk sbk pid live t (ip :: pointers s) (Some ip) →
  inum (geti t ip) = m → itype x = itype (disk_inode dk sbk m) → imajor x = imajor (disk_inode dk sbk m) →
  (f < length (ftable (fsys s)))%nat → fref (getf (fsys s) f) = 0 → ftype (getf (fsys s) f) = FD_NONE →
  pofile (getp s p) !! fd = Some None → refs_ok fy (procs s) [f] [ip] →
  returns (on_files (modify (setf f (open_file ip x omode))) ;;; on_files (on_fs (iunlock pid ip)) ;;; ret (Z.of_nat fd))
    (with_files p fl (with_sync y s) <| fsys := fy |>) (opened n res p l s m f fd).
Proof.
  intros omode fy fl Hy Ek Hrd Hm Et Em Hl Hr0 Hty Hfd Hr. pose proof Hko as [_ Hlen _ _ _ _ Hlt _ _ _].
  assert (Hlp : (p < length (procs s))%nat) by lia. pose proof (lookup_getp s p Hlp) as Hp.
  assert (Hx : ftable (fsys s) !! f = Some (getf (fsys s) f)).
  { unfold getf. by destruct (lookup_lt_is_Some_2 (ftable (fsys s)) f Hl) as [z ->]. }
  set (z := open_file ip x omode (getf (fsys s) f <| fref := 1 |>)).
  assert (Hz : file_inode z = Some ip ∧ fref z = 1).
  { unfold z, open_file, file_inode. by destruct (itype x =? T_DEVICE). }
  assert (E4 : setf f (open_file ip x omode) fy = setf f (λ _, z) (fsys (with_fs t (with_sync y s)))).
  { unfold fy, taken. rewrite setf_setf by done. done. }
  assert (Hr4 : refs_ok (setf f (λ _, z) (fsys (with_fs t (with_sync y s)))) (<[p := getp s p <| pofile := fl |>]> (procs s)) [] []).
  { rewrite <- E4. rewrite <- (setf_const f (open_file ip x omode) fy).
    assert (Hxf : ftable fy !! f = Some (getf (fsys s) f <| fref := 1 |>)) by (by apply list_lookup_insert_eq).
    assert (Eg : getf fy f = getf (fsys s) f <| fref := 1 |>) by (unfold getf at 1; by rewrite Hxf).
    pose proof (refs_store _ _ _ _ p _ fd f Hr Hp Hfd) as Hr1. rewrite Eg.
    apply (refs_setf _ _ [] [] [ip] [] f _ z Hr1 Hxf).
    - rewrite (proj2 Hz), list_insert_id; [apply Hr1|]. by rewrite list_lookup_fmap, Hxf.
    - rewrite (proj1 Hz). unfold file_inode. cbn [fref ftype setter].
      by rewrite Hty. }
  assert (Hptr : inode_ptrs (<[p := getp s p <| pofile := fl |>]> (procs s)) (<[f := z]> (ftable (fsys s))) ≡ₚ ip :: pointers s).
  { rewrite (inode_ptrs_same _ _ p (getp s p)) by done.
    pose proof (inode_ptrs_file (procs s) (ftable (fsys s)) f _ z Hx) as Hq. rewrite (proj1 Hz) in Hq.
    unfold file_inode at 1 in Hq. by rewrite Hr0 in Hq. }
  apply (returns_files _ _ _ (λ _ fy', fy' = setf f (open_file ip x omode) fy)); [by apply returns_modify|].
  intros u fy' ->. rewrite E4. eapply returns_fs; [by eapply (iunlock_ok dk sbk pid live t (ip :: pointers s)); [|left]|].
  intros u2 t5 (Hrd5 & [Ek5 Hk5] & _). apply returns_ret. unfold opened.
  set (s' := with_fs t5 _). set (fy5 := setf f (λ _, z) (fsys (with_fs t (with_sync y s))) <| fs := t5 |>).
  change s' with (with_files p fl (with_sync y s) <| fsys := fy5 |>).
  assert (E' : getp (with_files p fl (with_sync y s) <| fsys := fy5 |>) p = getp s p <| pofile := fl |>)
    by (apply getp_lookup, list_lookup_insert_eq; exact Hlp).
  rewrite E'. pose proof (ready_perm _ _ _ _ _ (Permutation_sym Hptr) Hrd5) as Hrd6. split_and!; [done| | |done|].
  - apply kernel_ok_files; [by apply kernel_ok_sy|exact (eq_trans Ek5 Ek)|unfold fl; rewrite length_insert; by eapply files_length|].
    split; [apply Hr4|apply Hrd6].
  - split; [intros q; eapply ready_pid; exact Hrd6|]. intros h w Hw.
    change (<[f := z]> (ftable (fsys s)) !! h = Some w) in Hw. destruct (decide (h = f)) as [->|Hne].
    + rewrite list_lookup_insert_eq in Hw by done. injection Hw as <-. rewrite (proj2 Hz). done.
    + rewrite list_lookup_insert_ne in Hw by done. destruct Hfs as [_ Hcl]. by eapply Hcl.
  - exists ip. split.
    + change (inum (geti t5 ip) = m). rewrite Hk5 by left. done.
    + change (getf (fsys (with_files p fl (with_sync y s) <| fsys := fy5 |>)) f) with (default file0 (<[f := z]> (ftable (fsys s)) !! f)).
      rewrite list_lookup_insert_eq by done. simpl. by apply open_file_ext.
Qed.

End Rest.

(** The string argument. *)
Lemma returns_argstr {A} (H : gset Z) n res p s k (c : Z * list Z → M (kstate B X) A) Q :
  held hart H n res (sy s) → curproc s = Some p → 0 ≤ k ≤ 5 →
  (∀ t r bs, held hart H n res t →
     match ustr 128 (kmem s) (ppagetable (getp s p)) (argument s p k) with
     | Some str => 0 ≤ r ∧ bs = str
     | None => r = -1
     end → returns (c (r, bs)) (with_sync t s) Q) →
  returns (bind (argstr k MAXPATH) c) s Q.
Proof.
  intros Hh Hc Hk HQ. unfold argstr, argaddr. apply returns_assoc_bind.
  apply (returns_argraw hart H n res p); [done|done|]. intros t Ht. unfold fetchstr. apply returns_assoc_bind.
  eapply returns_cur; [exact Ht|exact Hc|]. intros t' Ht'. psteps.
  destruct (copyinstr_ok (kmem s) (ppagetable (getp s p)) (argument s p k) MAXPATH) as (bs & E);
    [apply load64_bound|done|]. change (Z.to_nat MAXPATH) with 128%nat in E.
  eapply returns_kmem; [by apply (returns_eq _ _ _ _ E)|]. intros r k' [-> ->].
  change (with_kmem (kmem s) _) with (with_kmem (kmem (with_sync t' s)) (with_sync t' s)). rewrite with_kmem_id.
  specialize (HQ t'). destruct (ustr 128 _ _ _) as [str|]; cbn [fst snd]; psteps; apply HQ; try done.
  split; [unfold strlen; lia|done].
Qed.

(** From the inode that the path leads to. *)
Lemma open_inode n res p s l pid t ip m y :
  kernel_ok hart n res p s l → fs_ok s → held hart ∅ n res y → fkm t = kmem s →
  ready dk sbk pid live t (ip :: pointers s) None → inum (geti t ip) = m →
  returns (on_files (on_fs (ilock pid ip)) ;;;
    let! x := gets (λ s, geti (fs (fsys s)) ip) in
    let fail := on_files (on_fs (iunlockput pid ip)) ;;; ret (-1) in
    if (itype x =? T_DIR) && negb (mode_of s p =? O_RDONLY) then fail
    else if (itype x =? T_DEVICE) && ((imajor x <? 0) || (NDEV <=? imajor x)) then fail
    else
      let! f := on_files filealloc in
      match f with
      | None => fail
      | Some f =>
          let! fd := fdalloc f in
          match fd with
          | None => on_files (fileclose f) ;;; fail
          | Some fd =>
              on_files (modify (setf f (open_file ip x (mode_of s p)))) ;;;
              on_files (on_fs (iunlock pid ip)) ;;;
              ret (Z.of_nat fd)
          end
      end) (with_fs t (with_sync y s))
    (match (if openable (disk_inode dk sbk m) (mode_of s p) then
              match first_free (ftable (fsys s)) 0, first_fd (pofile (getp s p)) 0 with
              | Some f, Some fd => Some (m, f, fd)
              | _, _ => None
              end
            else None) with
     | Some (m, f, fd) => opened n res p l s m f fd
     | None => refused n res p l s
     end).
Proof.
  intros Hko Hfs Hy Ek Hrd Hm. pose proof Hko as [_ _ _ _ _ Hc _ _ _ _].
  eapply returns_fs; [by eapply (ilock_ok dk sbk pid live live_type t (ip :: pointers s) ip Hrd); left|].
  intros u t1 (Hrd1 & [Ek1 Hk1] & Hsame). rewrite Hm in Hsame.
  assert (Hm1 : inum (geti t1 ip) = m) by (rewrite Hk1 by left; exact Hm).
  assert (Ek' : fkm t1 = kmem s) by (exact (eq_trans Ek1 Ek)).
  change (with_fs t1 (with_fs t (with_sync y s))) with (with_fs t1 (with_sync y s)). psteps.
  change (geti (fs (fsys (with_fs t1 (with_sync y s)))) ip) with (geti t1 ip).
  destruct Hsame as (_ & Et & _ & _ & Em). unfold openable. rewrite Et, Em.
  set (x := geti t1 ip) in *. set (z := disk_inode dk sbk m) in *.
  destruct ((itype z =? T_DIR) && _); cbn [negb andb]; [by apply fail_ok|].
  destruct ((itype z =? T_DEVICE) && _); cbn [negb]; [by apply fail_ok|].
  pose proof (refs_with n res p s l pid ip Hko t1 y Hrd1) as Hr1.
  eapply returns_files; [apply (filealloc_ok _ _ _ _ Hr1), Hfs|].
  intros fo fy (-> & Hfo). change (ftable (fsys (with_fs t1 (with_sync y s)))) with (ftable (fsys s)) in *.
  destruct (first_free (ftable (fsys s)) 0) as [f|] eqn:Eff.
  2:{ rewrite Hfo. by apply fail_ok. }
  destruct Hfo as (-> & Hr2 & Hl & Hty & _).
  assert (Hr0 : fref (getf (fsys s) f) = 0).
  { pose proof (first_free_spec (ftable (fsys s)) 0) as Hs. rewrite Eff in Hs. destruct Hs as (j & w & -> & Hj & Hw).
    unfold getf. cbn [Nat.add]. by rewrite Hj. }
  unfold fdalloc. apply returns_assoc_bind. eapply returns_cur; [exact Hy|exact Hc|]. intros y2 Hy2. psteps.
  set (s2 := _ <| sy := y2 |>). change (pofile (getp s2 p)) with (pofile (getp s p)).
  pose proof (first_fd_spec (pofile (getp s p)) 0) as Hfd. destruct (first_fd (pofile (getp s p)) 0) as [fd|]; psteps.
  - destruct Hfd as (j & -> & Hj & _). cbn [Nat.add].
    exact (got_descriptor n res p s l pid ip m Hko Hfs t1 y2 f j x Hy2 Ek' Hrd1 Hm1 Et Em Hl Hr0 Hty Hj Hr2).
  - exact (no_descriptor n res p s l pid ip Hko Hfs t1 y2 f Hy2 Ek' Hrd1 Hl Hr0 Hty Hr2).
Qed.

Lemma returns_namei {A} n res p s l y path (c : option nat → M (kstate B X) A) Q :
  kernel_ok hart n res p s l → fs_ok s → room (pointers s) 2 → live ROOTINO →
  (∀ t r, walked dk sbk (ppid (getp s p)) live (fs (fsys s)) (pointers s) (target s p path) r t →
     returns (c r) (with_fs t (with_sync y s)) Q) →
  returns (bind (proc_namei p path) c) (with_sync y s) Q.
Proof.
  intros Hko Hfs Hroom Hroot HQ. pose proof Hko as [_ Hlen _ _ _ _ Hlt _ _ Hcwd]. unfold target in HQ.
  unfold proc_namei. psteps. change (getp (with_sync y s) p) with (getp s p).
  destruct (pcwd (getp s p)) as [cwd|] eqn:Ecwd; [|done]. cbn [default] in HQ.
  assert (Hcin : cwd ∈ pointers s).
  { unfold pointers, inode_ptrs. apply elem_of_app. left. apply list_elem_of_omap. exists (getp s p). split; [|done].
    eapply list_elem_of_lookup_2, lookup_getp. lia. }
  pose proof (namei_ok dk sbk (ppid (getp s p)) live live_type live_dir live_find _ _ cwd path
    (fk_ready _ Hfs (ppid (getp s p))) Hcin Hroom Hroot) as Hn.
  destruct (chr path 0 =? SLASH); (eapply returns_fs; [exact Hn|]); intros r t Hw; by apply HQ.
Qed.

Lemma sys_open_ok n res p s l :
  kernel_ok hart n res p s l → fs_ok s → room (pointers s) 2 → live ROOTINO →
  returns sys_open s (match opening s p with
    | Some (m, f, fd) => opened n res p l s m f fd
    | None => refused n res p l s
    end).
Proof.
  intros Hko Hfs Hroom Hroot. pose proof Hko as [Hh Hlen _ _ Hr Hc Hlt _ _ Hcwd].
  unfold sys_open. apply (returns_argint hart ∅ n res p); [done|lia|]. intros t1 Ht1. fold (mode_of s p).
  eapply (returns_argstr ∅ n res p); [exact Ht1|exact Hc|lia|]. intros t2 r bs Ht2 Hstr.
  change (with_sync t2 (with_sync t1 s)) with (with_sync t2 s). cbn [fst snd].
  change (ustr 128 _ _ _) with (path_of s p) in Hstr. unfold opening.
  assert (Hrefuse : ∀ t, held hart ∅ n res t → returns (ret (-1)) (with_sync t s) (refused n res p l s)).
  { intros t Ht. apply returns_ret. by apply refused_now. }
  destruct (path_of s p) as [path|]; [destruct Hstr as [Hr0 ->]|subst r].
  2:{ apply Hrefuse, Ht2. }
  rewrite (proj2 (Z.ltb_ge _ _)) by done. destruct (negb _); [apply Hrefuse, Ht2|].
  eapply returns_cur; [exact Ht2|exact Hc|]. intros t3 Ht3. psteps.
  change (_ <| sy := t3 |>) with (with_sync t3 s). change (getp (with_sync t3 s) p) with (getp s p).
  apply (returns_namei n res p s l); [done..|]. clear Hrefuse. intros t r' [[Ek Hk] Hw]. destruct (target s p path) as [m|].
  - destruct Hw as (ip & -> & Hrd & Hm). by apply open_inode.
  - destruct Hw as [-> Hrd]. apply returns_ret. split_and!; [done| | |done].
    + apply kernel_ok_fs; try done. apply Hrd.
    + by eapply fs_ok_fs.
Qed.

(** ** [sys_dup] and [sys_close] keep the file system in order *)

(** Only reference counts of inodes have changed. *)
Definition recounted (t t' : fstate B) : Prop :=
  cache t' = cache t ∧ sb t' = sb t ∧ ∀ i, itable t' !! i = (λ x, with_iref (iref (geti t' i)) x) <$> itable t !! i.

Lemma recounted_refl t : recounted t t.
Proof.
  split_and!; try done. intros i. unfold geti. destruct (itable t !! i) as [x|]; [|done]. simpl. by destruct x.
Qed.

Lemma recounted_iput t i : recounted t (seti i (λ x, with_iref (iref x - 1) x) t).
Proof.
  split_and!; try done. intros j. unfold seti, geti. cbn [itable].
  destruct (decide (j = i)) as [->|Hne]; [|rewrite list_lookup_insert_ne by done; destruct (itable t !! j) as [[]|]; done].
  destruct (itable t !! i) as [x|] eqn:E.
  - rewrite list_lookup_insert_eq by (by eapply lookup_lt_Some). by destruct x.
  - rewrite list_insert_ge by (by apply lookup_ge_None). by rewrite E.
Qed.

Lemma ready_recounted pid t t' H H' :
  ready dk sbk pid live t H None → recounted t t' → counted NINODE (iref <$> itable t') H' → (∀ i, i ∈ H' → i ∈ H) →
  ready dk sbk pid live t' H' None.
Proof.
  intros [Ht Hq Hs] (Ec & Es & Hi) Hcnt Hsub. split; [|by rewrite Ec|by rewrite Es].
  assert (Hg : ∀ i, i ∈ H' → geti t' i = with_iref (iref (geti t' i)) (geti t i)).
  { intros i Hin. destruct (tab_lookup _ _ _ _ _ _ _ i Ht (tab_lt _ _ _ _ _ _ _ i Ht (Hsub i Hin))) as [Hx _].
    pose proof (Hi i) as E. rewrite Hx in E. unfold geti at 1. rewrite E. done. }
  split; [done|..].
  - intros i x Hx. rewrite decide_False by done. rewrite Hi in Hx. destruct (itable t !! i) as [y|] eqn:Ey; [|done].
    injection Hx as <-. pose proof (tb_lock _ _ _ _ _ _ _ Ht i y Ey) as Hl. by rewrite decide_False in Hl.
  - intros i Hin. rewrite (Hg i Hin). exact (tb_ref _ _ _ _ _ _ _ Ht i (Hsub i Hin)).
  - intros i j Hin Hjn. rewrite (Hg i Hin), (Hg j Hjn). apply (tb_inj _ _ _ _ _ _ _ Ht); auto.
Qed.

(** What closing does to the tables. *)
Lemma fileclose_tables f fy :
  1 ≤ fref (getf fy f) → (f < length (ftable fy))%nat → clean (ftable fy) →
  returns (fileclose f) fy (λ _ fy', recounted (fs fy) (fs fy') ∧ clean (ftable fy')
    ∧ ∃ z, ftable fy' = <[f := z]> (ftable fy) ∧ (file_inode z = None ∨ file_inode z = file_inode (getf fy f))).
Proof.
  intros Hr Hl Hcl. unfold fileclose. psteps. rewrite (proj2 (Z.ltb_ge _ _)) by lia. psteps.
  rewrite getf_setf by done. cbn [fref setter]. set (x := getf fy f) in *.
  assert (Hclean : ∀ z, (fref z = 0 → ftype z = FD_NONE) → clean (<[f := z]> (ftable fy))).
  { intros z Hz g y Hy. destruct (decide (g = f)) as [->|Hne].
    - rewrite list_lookup_insert_eq in Hy by done. injection Hy as <-. exact Hz.
    - rewrite list_lookup_insert_ne in Hy by done. by apply (Hcl g). }
  destruct (Z.ltb_spec 0 (fref x - 1)) as [Hpos|Hz].
  - apply returns_ret. split_and!; [apply recounted_refl|apply Hclean; intros E; exfalso; change (fref x - 1 = 0) in E; lia|]. eexists. split; [done|]. right.
    change (file_inode (x <| fref := fref x - 1 |>) = file_inode x). by apply file_inode_ref; lia.
  - psteps. rewrite !setf_setf by (done || (unfold setf; cbn [ftable setter]; by rewrite length_insert)).
    cbn [ftype fip setter]. match goal with |- returns _ (setf f ?g fy) _ => set (h := g) end.
    assert (Hh : fref (h x) = 0 ∧ ftype (h x) = FD_NONE) by done.
    assert (Hn : file_inode (h x) = None) by done.
    destruct (bool_decide (ftype x = FD_INODE) || bool_decide (ftype x = FD_DEVICE)).
    + apply returns_modify. split_and!; [apply recounted_iput|by apply Hclean|]. eexists. by split; [|left].
    + apply returns_ret. split_and!; [apply recounted_refl|by apply Hclean|]. eexists. by split; [|left].
Qed.

Lemma fs_ok_dup s s' f ps' :
  fs_ok s → same_dirs s s' → ps' = procs s → refs_ok (fsys s) ps' [] [] → f ∈ file_ptrs ps' →
  fsys s' = setf f (λ x, x <| fref := fref x + 1 |>) (fsys s) → fs_ok s'.
Proof.
  intros [Hq Hcl] Hd -> Hr Hf Efy. destruct (ro_lookup _ _ [] [] f Hr Hf) as (_ & x & Hx & Eg & _ & H1).
  assert (Hl : (f < length (ftable (fsys s)))%nat) by (by eapply lookup_lt_Some).
  assert (Eft : ftable (fsys s') = <[f := x <| fref := fref x + 1 |>]> (ftable (fsys s))) by (rewrite Efy; cbn; by rewrite Eg).
  assert (Hptr : pointers s' ≡ₚ pointers s).
  { unfold pointers. rewrite Eft, (Hd _). pose proof (inode_ptrs_file (procs s) _ f x (x <| fref := fref x + 1 |>) Hx) as Hp.
    rewrite file_inode_ref in Hp by lia. by apply Permutation_app_inv_l in Hp. }
  split.
  - intros pid. eapply ready_perm; [symmetry; exact Hptr|]. rewrite Efy. apply Hq.
  - rewrite Eft. intros g y Hy. destruct (decide (g = f)) as [->|Hne].
    + rewrite list_lookup_insert_eq in Hy by done. injection Hy as <-. intros E. exfalso. change (fref x + 1 = 0) in E. lia.
    + rewrite list_lookup_insert_ne in Hy by done. by apply (Hcl g).
Qed.

Lemma fs_ok_close s s' f :
  fs_ok s → same_dirs s s' → refs_ok (fsys s) (procs s) [] [] → refs_ok (fsys s') (procs s') [] [] → f ∈ file_ptrs (procs s) →
  fileclose f (fsys s) = Ok tt (fsys s') → fs_ok s'.
Proof.
  intros [Hq Hcl] Hd Hr Hr' Hf Erun. destruct (ro_lookup _ _ [] [] f Hr Hf) as (_ & x & Hx & Eg & _ & H1).
  assert (Hl : (f < length (ftable (fsys s)))%nat) by (by eapply lookup_lt_Some).
  destruct (fileclose_tables f (fsys s)) as ([] & fy & E & Hrec & Hcl' & z & Eft & Hz); [by rewrite Eg|done|done|].
  rewrite Erun in E. injection E as <-. split; [|done]. intros pid.
  eapply ready_recounted; [apply (Hq pid)|done|apply Hr'|].
  intros i. unfold pointers. rewrite (Hd _), Eft. unfold inode_ptrs. rewrite !elem_of_app. intros [Hi|Hi]; [by left|right].
  apply list_elem_of_omap in Hi as (y & Hy & Hyi). apply list_elem_of_lookup in Hy as [g Hy]. apply list_elem_of_omap.
  destruct (decide (g = f)) as [->|Hne].
  - rewrite list_lookup_insert_eq in Hy by done. injection Hy as <-. destruct Hz as [Hz|Hz]; rewrite Hz in Hyi; [done|].
    exists x. rewrite Eg in Hyi. split; [by eapply list_elem_of_lookup_2|done].
  - rewrite list_lookup_insert_ne in Hy by done. exists y. split; [by eapply list_elem_of_lookup_2|done].
Qed.

Lemma fs_ok_same s s' : fs_ok s → same_dirs s s' → fsys s' = fsys s → fs_ok s'.
Proof.
  intros [Hq Hcl] Hd E. split; rewrite ?E; [|done]. intros pid. eapply ready_perm; [|apply (Hq pid)].
  unfold pointers. rewrite E. symmetry. apply Hd.
Qed.

(** C8 [invariant]. [sys_dup] and [sys_close], called in a state whose
    reference counts are exact and whose inode table agrees with the disk, leave
    such a state behind, whatever their arguments are.  [sys_dup] gives the least
    free descriptor to the same open file, or returns -1 when the descriptor is
    bad or none is free; [sys_close] empties the descriptor and touches no other
    open file, or returns -1. *)
Theorem descriptors_stay_counted n res p s l :
  kernel_ok hart n res p s l → fs_ok s →
  returns sys_dup s (λ r s', kernel_ok hart n res p s' l ∧ fs_ok s' ∧ dups p r s s')
  ∧ returns sys_close s (λ r s', kernel_ok hart n res p s' l ∧ fs_ok s' ∧ closes p r s s').
Proof.
  intros Hko Hfs. pose proof (ko_refs _ _ _ _ _ _ Hko) as Hr. split.
  - eapply returns_mono; [by apply (sys_dup_ok hart n res p s l)|].
    intros r s' ([Hko' Hd] & Hdirs & Hfy). split_and!; try done.
    destruct Hfy as [E|(f & Hf & E)]; [by eapply fs_ok_same|by eapply fs_ok_dup].
  - eapply returns_mono; [by apply (sys_close_ok hart n res p s l)|].
    intros r s' ([Hko' Hd] & Hdirs & Hfy). split_and!; try done.
    destruct Hfy as [E|(f & Hf & E)]; [by eapply fs_ok_same|]. eapply fs_ok_close; try done. apply Hko'.
Qed.

(** C7 [functional]. [sys_open] opens exactly what it should.  The path is the
    user's string; the call succeeds when it leads to an inode through the
    directories of the disk, no creation or truncation is asked for, a directory
    is opened for reading only, a device has a driver number, and an open file
    and a descriptor are free.  Then the least free descriptor stands for a file
    on that inode with the access the mode asks for.  On every other branch the
    result is -1, the descriptors are as before and nothing is leaked: in both
    cases all reference counts are exact afterwards.  The in-memory inode table
    must have two entries to spare ([room]): [iget] panics when it is full, so
    that [sys_open] then does neither. *)
Theorem sys_open_opens n res p s l :
  kernel_ok hart n res p s l → fs_ok s → room (pointers s) 2 → live ROOTINO →
  returns sys_open s (match opening s p with
    | Some (m, f, fd) => opened n res p l s m f fd
    | None => refused n res p l s
    end).
Proof. apply sys_open_ok. Qed.

End Open.

(** ** The hypotheses hold

    The first process of [Boot], its working directory the root of the disk of
    [TestDisk], read through a cache that is the disk itself. *)

From S2P Require Import VmSpec ProcCalls ProcSpec.

Module OpenTest.
Import Boot.

Definition dk (bn : Z) : list Z := TestDisk.dk (Z.max 0 bn).

#[export] Instance rom : BlockCache unit :=
  { c_bread := λ _ bn, ret (Z.to_nat bn); c_data := λ _ b, TestDisk.dk (Z.of_nat b); c_brelse := λ _, ret tt }.

#[export] Instance rom_ok : BlockCacheOk unit.
Proof.
  refine {| c_quiet _ d := ∀ bn, d bn = dk bn |}. intros c d bn Hd. apply returns_ret. split; [|by apply returns_ret].
  rewrite Hd. unfold dk. cbn. f_equal. lia.
Defined.

Abbreviation sbk := NameTest.sbk.
Abbreviation live := NameTest.live.

Lemma live_type n : live n → itype (disk_inode dk sbk n) ≠ 0.
Proof. intros [-> | ->]; vm_compute; discriminate. Qed.

Lemma live_dir n : live n → itype (disk_inode dk sbk n) = T_DIR → dir_ok dk (disk_inode dk sbk n).
Proof.
  intros [-> | ->] Ht; [|vm_compute in Ht; discriminate Ht]. split; [|reflexivity].
  assert (H0 : ∀ bn, 0 ≤ bn → bn * BSIZE < isize (disk_inode dk sbk 1) → bn = 0).
  { intros bn Hbn. change (isize (disk_inode dk sbk 1)) with 32. unfold BSIZE. lia. }
  split; [reflexivity|evaluate|..]; intros bn Hbn Hlt; rewrite (H0 bn Hbn Hlt); evaluate.
Qed.

Lemma tree_live n name k :
  live n → dir_find dk (disk_inode dk sbk n) name = Some k → live (entry_inum dk (disk_inode dk sbk n) k).
Proof.
  intros Hn Hk. unfold dir_find in Hk. apply dir_scan_some in Hk as [Hk _]. destruct Hn as [-> | ->].
  - change (Z.of_nat (Z.to_nat (isize (disk_inode dk sbk 1) / 16))) with 2 in Hk.
    assert (k = 0 ∨ k = 1) as [-> | ->] by lia; [left|right]; reflexivity.
  - change (Z.of_nat (Z.to_nat (isize (disk_inode dk sbk 2) / 16))) with 0 in Hk. lia.
Qed.

(** The current process after [growproc], with a string in its memory and with
    arguments in its registers. *)
Definition grown (s : kstate unit unit) : kstate unit unit :=
  match growproc 4096 s with Ok _ s' => s' | _ => s end.

Definition with_string (src : list Z) (s : kstate unit unit) : kstate unit unit :=
  match copyout (ppagetable (getp s 0)) 0 src (Z.of_nat (length src)) (kmem s) with
  | Ok _ k => with_kmem k s
  | _ => s
  end.

Definition with_args (a0 a1 : Z) (s : kstate unit unit) : kstate unit unit :=
  let tf := ptrapframe (getp s 0) in
  with_kmem (with_mem (store64 (store64 (mem (kmem s)) (tf + TF_a0) a0) (tf + TF_a1) a1) (kmem s)) s.

Lemma grown_ok (s : kstate unit unit) l : kernel_ok 0 0 true 0 s l → ∃ l', kernel_ok 0 0 true 0 (grown s) l'.
Proof.
  intros Hko. destruct (growproc_ok 0 0 true 0 s l 4096 Hko ltac:(lia)) as (r & s' & E & l' & Hko' & _).
  exists l'. unfold grown. by rewrite E.
Qed.

Lemma with_memory (s : kstate unit unit) l k' :
  kernel_ok 0 0 true 0 s l → msys k' l (procs s) → kernel_ok 0 0 true 0 (with_kmem k' s) l.
Proof.
  intros Hko Hm. pose proof (lookup_getp s 0 ltac:(rewrite (ko_len _ _ _ _ _ _ Hko); change NP with 64%nat; lia)) as Hp.
  pose proof (kernel_mem 0 0 true 0 s l (sy s) k' l id Hko (ko_held _ _ _ _ _ _ Hko)) as Hk.
  unfold id in Hk. rewrite list_insert_id in Hk by exact Hp.
  specialize (Hk Hm eq_refl (ko_pt _ _ _ _ _ _ Hko) eq_refl eq_refl). revert Hk. unfold setp.
  change (procs (with_kmem k' (s <| sy := sy s |>))) with (procs s).
  change (getp (with_kmem k' (s <| sy := sy s |>)) 0) with (getp s 0).
  rewrite list_insert_id by exact Hp. by destruct s.
Qed.

Lemma with_string_ok src (s : kstate unit unit) l : kernel_ok 0 0 true 0 s l → kernel_ok 0 0 true 0 (with_string src s) l.
Proof.
  intros Hko. pose proof (lookup_getp s 0 ltac:(rewrite (ko_len _ _ _ _ _ _ Hko); change NP with 64%nat; lia)) as Hp.
  destruct (copyout_memory (kmem s) l (procs s) 0 (getp s 0) 0 src
              (ko_mem _ _ _ _ _ _ Hko) Hp (ko_pt _ _ _ _ _ _ Hko) ltac:(lia)) as (r & k & E & Hm & _).
  unfold with_string. rewrite E. by apply with_memory.
Qed.

Lemma with_args_ok a0 a1 (s : kstate unit unit) l : kernel_ok 0 0 true 0 s l → kernel_ok 0 0 true 0 (with_args a0 a1 s) l.
Proof.
  intros Hko. pose proof (lookup_getp s 0 ltac:(rewrite (ko_len _ _ _ _ _ _ Hko); change NP with 64%nat; lia)) as Hp.
  unfold with_args. cbv zeta. set (tf := ptrapframe (getp s 0)). apply with_memory; [done|].
  apply (msys_trapframe (kmem s) _ l (procs s) 0 (getp s 0) (ko_mem _ _ _ _ _ _ Hko) Hp).
  - by destruct (pi_image _ _ _ (ms_proc _ _ _ (ko_mem _ _ _ _ _ _ Hko) 0 _ Hp) (ko_pt _ _ _ _ _ _ Hko)) as [? _].
  - apply (mem_frame_trans _ _ (store64 (mem (kmem s)) (tf + TF_a0) a0)); apply mem_frame_store64;
      unfold TF_a0, TF_a1, PGSIZE; lia.
Qed.

(** The process calls [open(0, O_RDONLY)] with the string [/hi] at address 0. *)
Definition calling : kstate unit unit := with_args 0 O_RDONLY (with_string [47; 104; 105; 0] (grown init_running)).

Definition sys : kstate unit unit :=
  with_fs (FState (kmem calling) tt NameTest.table sbk) (with_sync (sy calling) calling).

Lemma ptrs : pointers sys = [0%nat].
Proof. vm_compute. reflexivity. Qed.

Lemma calling_ok : ∃ l, kernel_ok 0 0 true 0 calling l.
Proof.
  destruct running as [l0 H0]. destruct (grown_ok _ _ H0) as [l Hl]. exists l. by apply with_args_ok, with_string_ok.
Qed.

Lemma opening_state : ∃ l, kernel_ok 0 0 true 0 sys l ∧ fs_ok dk sbk live sys ∧ room (pointers sys) 2.
Proof.
  destruct calling_ok as [l Hko]. exists l. split_and!.
  - apply kernel_ok_fs; [exact Hko|apply Hko|reflexivity|]. split; [vm_compute; reflexivity|].
    assert (Ep : pointers calling = [0%nat]) by (vm_compute; reflexivity). rewrite Ep.
    constructor; [unfold NINODE; lia|constructor].
  - split.
    + intros pid. rewrite ptrs. split; [|intros bn; reflexivity|reflexivity]. split.
      * split; [reflexivity|]. constructor; [unfold NINODE; lia|constructor].
      * intros i x Hx. rewrite decide_False by done. destruct i as [|i]; [by injection Hx as <-|].
        change (replicate 49 inode0 !! i = Some x) in Hx. by apply lookup_replicate in Hx as [-> _].
      * intros i Hi. apply list_elem_of_singleton in Hi as ->. split_and!; [reflexivity|by left|discriminate].
      * intros i j Hi Hj _. apply list_elem_of_singleton in Hi as ->. by apply list_elem_of_singleton in Hj as ->.
    + intros f x Hx _. assert (Ef : ftable (fsys sys) = replicate NFILE file0) by (vm_compute; reflexivity).
      rewrite Ef in Hx. by apply lookup_replicate in Hx as [-> _].
  - rewrite ptrs. unfold room. vm_compute. lia.
Qed.

End OpenTest.

Section OpenWitnesses.
Import Boot OpenTest.

(** With nothing open, both calls find a bad descriptor and return -1. *)
Lemma descriptors_stay_counted_witness :
  ∃ l, returns sys_dup sys (λ r s', r = -1 ∧ kernel_ok 0 0 true 0 s' l)
     ∧ returns sys_close sys (λ r s', r = -1 ∧ kernel_ok 0 0 true 0 s' l).
Proof.
  destruct OpenTest.opening_state as (l & Hko & Hfs & _). exists l.
  destruct (descriptors_stay_counted 0 dk sbk live 0 true 0 sys l Hko Hfs) as [(r1 & s1 & E1 & H1 & _) (r2 & s2 & E2 & H2 & _)].
  assert (Er1 : match sys_dup sys with Ok r _ => r =? -1 | _ => false end = true) by (vm_compute; reflexivity).
  assert (Er2 : match sys_close sys with Ok r _ => r =? -1 | _ => false end = true) by (vm_compute; reflexivity).
  rewrite E1 in Er1. rewrite E2 in Er2. apply Z.eqb_eq in Er1 as ->. apply Z.eqb_eq in Er2 as ->.
  split; [exists (-1), s1|exists (-1), s2]; auto.
Defined.

(** The file [/hi] is inode 2; it becomes open file 0 behind descriptor 0. *)
Lemma sys_open_opens_witness :
  returns sys_open sys (λ r s', r = 0 ∧ pofile (getp s' 0) = <[0%nat := Some 0%nat]> (pofile (getp sys 0))
    ∧ ∃ ip, inum (geti (fs (fsys s')) ip) = 2
        ∧ getf (fsys s') 0 = open_file ip (disk_inode dk sbk 2) O_RDONLY (getf (fsys sys) 0 <| fref := 1 |>)).
Proof.
  destruct OpenTest.opening_state as (l & Hko & Hfs & Hroom).
  assert (Eo : opening dk sbk sys 0 = Some (2, 0%nat, 0%nat)) by (vm_compute; reflexivity).
  assert (Em : mode_of sys 0 = O_RDONLY) by (vm_compute; reflexivity).
  eapply returns_mono; [apply (sys_open_opens 0 dk sbk live live_type live_dir tree_live 0 true 0 _ l Hko Hfs Hroom); by left|].
  intros r s'. rewrite Eo. intros (-> & _ & _ & Hf & ip & H1 & H2). rewrite Em in H2.
  split; [reflexivity|]. split; [exact Hf|]. exists ip. split; [exact H1|exact H2].
Defined.

End OpenWitnesses.
