(* ===== verification/Trap.v ===== *)
(** kernel/proc/trap.c, kernel/dev/plic.c and [forkret] of kernel/proc/proc.c:
    traps from user space and from the kernel, device interrupts, and the return
    to user space.  The kernel is also the host of the disk driver here. *)

From S2P Require Import Prelude Machine CString Printf Kalloc Vm Spinlock Bio Virtio Fs File Proc Exec Console Syscall.

(** riscv.h *)
Definition SSTATUS_SPP : Z := Z.shiftl 1 8.

Definition SSTATUS_SPIE : Z := Z.shiftl 1 5.

Definition SSTATUS_SIE : Z := Z.shiftl 1 1.

Definition SSTATUS_FS_MASK : Z := Z.shiftl 3 13.

Definition SSTATUS_FS_OFF : Z := Z.shiftl 0 13.

Definition SSTATUS_FS_DIRTY : Z := Z.shiftl 3 13.

Definition SATP_SV39 : Z := Z.shiftl 8 60.

Definition MAKE_SATP (pagetable : Z) : Z := Z.lor SATP_SV39 (Z.shiftr pagetable 12).

(** memlayout.h *)
Definition UART0_IRQ : Z := 10.

Definition VIRTIO0_IRQ : Z := 1.

Definition PLIC_SENABLE (hart : Z) : Z := PLIC + 0x2080 + hart * 0x100.

Definition PLIC_SPRIORITY (hart : Z) : Z := PLIC + 0x201000 + hart * 0x2000.

Definition PLIC_SCLAIM (hart : Z) : Z := PLIC + 0x201004 + hart * 0x2000.

(** Code addresses, the lock of the ticks and their channel. *)
Class TrapSymbols := {
  kernelvec : Z;
  uservec : Z;
  userret : Z;
  usertrap_addr : Z;
  tickslock : Z;
  ticks_chan : Z;
}.

Section Traps.
Context {B : Type} `{BlockCache B} `{Linker} `{Symbols} `{DevSymbols} `{DiskSymbols} `{TrapSymbols}.
Context (hart : Z) (swtch : M (kstate B devices) unit) (waits : nat) (pad : list Z).

(** What a load from a register of the disk returns, after the stores so far. *)
Context (disk_reg : list (Z * Z) → Z → Z).

Abbreviation P := (M (kstate B devices)).

Implicit Types s : kstate B devices.

Definition set_ext (f : devices → devices) s : kstate B devices := s <| ext := f (ext s) |>.

#[global] Instance kernel_disk_host : DiskHost (kstate B devices) := {|
  h_disk s := vdsk (ext s);
  h_set v := set_ext (λ d, d <| vdsk := v |>);
  h_initlock lk := on_sync (initlock lk);
  h_acquire := acq hart;
  h_release := rel hart;
  h_sleep := sleep hart swtch;
  h_wakeup := wakeup hart;
  h_kalloc := on_kmem kalloc;
  h_read r := gets (λ s, disk_reg (mmio (ext s)) r);
  h_write r v := store_reg (VIRTIO0 + r) v;
|}.

(** ** Control registers *)

Definition get_csr (f : csrs → Z) : P Z := gets (λ s, f (csr (ext s))).

Definition set_csr (f : csrs → csrs) : P unit := modify (set_ext (λ d, d <| csr := f (csr d) |>)).

Definition sstatus_of s : Z :=
  Z.lor (sstatus_rest (csr (ext s)))
    (Z.lor (if intr (this (sy s)) then SSTATUS_SIE else 0)
           (if fs_on (fpuhw s) then SSTATUS_FS_DIRTY else SSTATUS_FS_OFF)).

Definition r_sstatus : P Z := gets sstatus_of.

Definition w_sstatus (x : Z) : P unit :=
  set_csr (λ c, c <| sstatus_rest := Z.land x (Z.lnot (Z.lor SSTATUS_SIE SSTATUS_FS_MASK)) |>) ;;;
  modify (w_intr (has x SSTATUS_SIE)) ;;;
  modify (λ s, s <| fpuhw := FpuHw (has x SSTATUS_FS_MASK) (hw_f (fpuhw s)) (hw_fcsr (fpuhw s)) |>).

Definition intr_on : P unit := let! x := r_sstatus in w_sstatus (Z.lor x SSTATUS_SIE).

Definition intr_off : P unit := let! x := r_sstatus in w_sstatus (Z.land x (Z.lnot SSTATUS_SIE)).

Definition intr_get : P bool := let! x := r_sstatus in ret (has x SSTATUS_SIE).

(** ** plic.c *)

Definition plicinit : P unit :=
  store_reg (PLIC + UART0_IRQ * 4) 1 ;;;
  store_reg (PLIC + VIRTIO0_IRQ * 4) 1.

Definition plicinithart : P unit :=
  store_reg (PLIC_SENABLE hart) (Z.lor (Z.shiftl 1 UART0_IRQ) (Z.shiftl 1 VIRTIO0_IRQ)) ;;;
  store_reg (PLIC_SPRIORITY hart) 0.

(** The load from the claim register takes an interrupt, or reads 0. *)
Definition plic_claim : P Z :=
  let! q := gets (λ s, irq (ext s)) in
  match pending q with
  | [] => ret 0
  | i :: l => modify (set_ext (λ d, d <| irq := Plic l (i :: claimed q) |>)) ;;; ret i
  end.

Definition plic_complete (i : Z) : P unit :=
  store_reg (PLIC_SCLAIM hart) i ;;;
  modify (set_ext (λ d, d <| irq := (irq d) <| claimed := filter (λ j, j ≠ i) (claimed (irq d)) |> |>)).

(** ** trap.c *)

Definition trapinit : P unit := on_sync (initlock tickslock).

Definition trapinithart : P unit := set_csr (λ c, c <| stvec := kernelvec |>).

Definition user_fpu_instruction (i : nat) : P bool :=
  let! p := gets (λ s, getp s i) in
  let! epc := on_kmem (rd64 (ptrapframe p + TF_epc)) in
  let! r := on_kmem (copyin (ppagetable p) epc 4) in
  if fst r <? 0 then ret false
  else
    let op := Z.land (le_at 4 (snd r) 0) 0x7f in
    ret (bool_decide (op ∈ [0x07; 0x27; 0x43; 0x47; 0x4b; 0x4f; 0x53])).

Definition clockintr : P unit :=
  (if hart =? 0 then
     acq hart tickslock ;;;
     modify (set_ext (λ d, d <| ticks := u32 (ticks d + 1) |>)) ;;;
     wakeup hart ticks_chan ;;;
     rel hart tickslock
   else ret tt) ;;;
  let! t := get_csr stime in
  set_csr (λ c, c <| stimecmp := u64 (t + 1000000) |>).

Definition devintr : P Z :=
  let! cause := get_csr scause in
  if cause =? 0x8000000000000009 then
    let! i := plic_claim in
    (if i =? UART0_IRQ then uartintr hart
     else if i =? VIRTIO0_IRQ then virtio_disk_intr
     else if negb (i =? 0) then kprintf hart (chars "unexpected interrupt irq=%d" ++ [10]) [AInt i]
     else ret tt) ;;;
    (if negb (i =? 0) then plic_complete i else ret tt) ;;;
    ret 1
  else if cause =? 0x8000000000000005 then clockintr ;;; ret 2
  else ret 0.

Definition prepare_return : P unit :=
  let! i := cur in
  intr_off ;;;
  set_csr (λ c, c <| stvec := TRAMPOLINE + (uservec - trampoline) |>) ;;;
  let! p := gets (λ s, getp s i) in
  let! satp := get_csr satp in
  on_kmem (wr64 (ptrapframe p + TF_kernel_satp) satp) ;;;
  on_kmem (wr64 (ptrapframe p + TF_kernel_sp) (u64 (pkstack p + PGSIZE))) ;;;
  on_kmem (wr64 (ptrapframe p + TF_kernel_trap) usertrap_addr) ;;;
  on_kmem (wr64 (ptrapframe p + TF_kernel_hartid) hart) ;;;
  let! x := r_sstatus in
  let x := Z.land x (Z.lnot SSTATUS_SPP) in
  let x := Z.lor x SSTATUS_SPIE in
  let x := Z.land x (Z.lnot SSTATUS_FS_MASK) in
  let x := Z.lor x (if pfpu_active p then SSTATUS_FS_DIRTY else SSTATUS_FS_OFF) in
  w_sstatus x ;;;
  let! epc := on_kmem (rd64 (ptrapframe p + TF_epc)) in
  set_csr (λ c, c <| sepc := epc |>).

(** The cases of [usertrap]; the result is [which_dev]. *)
Definition handle_trap (i : nat) : P Z :=
  let! p := gets (λ s, getp s i) in
  let! cause := get_csr scause in
  if cause =? 8 then
    let! k := killed hart i in
    (if k : bool then kexit hart swtch (-1) else ret tt) ;;;
    let! epc := on_kmem (rd64 (ptrapframe p + TF_epc)) in
    on_kmem (wr64 (ptrapframe p + TF_epc) (u64 (epc + 4))) ;;;
    intr_on ;;;
    syscall hart swtch waits pad ;;;
    ret 0
  else
    let! which_dev := devintr in
    if negb (which_dev =? 0) then ret which_dev
    else
      let! cause := get_csr scause in
      let! fpu := (if cause =? 2 then user_fpu_instruction i else ret false) in
      if fpu : bool then fpu_handle_trap i ;;; ret 0
      else
        let! p := gets (λ s, getp s i) in
        let! va := get_csr stval in
        let! mapped := (if (cause =? 15) || (cause =? 13)
                        then on_kmem (vmfault (ppagetable p) va (if cause =? 13 then 1 else 0)) else ret 0) in
        if negb (mapped =? 0) then ret 0
        else
          let! pc := get_csr sepc in
          kprintf hart (chars "usertrap(): unexpected scause 0x%lx pid=%d" ++ [10]) [AInt cause; AInt (ppid p)] ;;;
          kprintf hart (chars "            sepc=0x%lx stval=0x%lx" ++ [10]) [AInt pc; AInt va] ;;;
          setkilled hart i ;;;
          ret 0.

Definition usertrap : P Z :=
  let! st := r_sstatus in
  if has st SSTATUS_SPP then panic "usertrap: not from user mode"
  else
    set_csr (λ c, c <| stvec := kernelvec |>) ;;;
    let! i := cur in
    let! p := gets (λ s, getp s i) in
    let! pc := get_csr sepc in
    on_kmem (wr64 (ptrapframe p + TF_epc) pc) ;;;
    let! which_dev := handle_trap i in
    let! k := killed hart i in
    (if k : bool then kexit hart swtch (-1) else ret tt) ;;;
    (if which_dev =? 2 then yield hart swtch else ret tt) ;;;
    prepare_return ;;;
    gets (λ s, MAKE_SATP (ppagetable (getp s i))).

Definition kerneltrap : P unit :=
  let! pc := get_csr sepc in
  let! st := r_sstatus in
  let! cause := get_csr scause in
  if negb (has st SSTATUS_SPP) then panic "kerneltrap: not from supervisor mode"
  else
    let! on := intr_get in
    if on : bool then panic "kerneltrap: interrupts enabled"
    else
      let! which_dev := devintr in
      if which_dev =? 0 then
        let! va := get_csr stval in
        kprintf hart (chars "scause=0x%lx sepc=0x%lx stval=0x%lx" ++ [10]) [AInt cause; AInt pc; AInt va] ;;;
        panic "kerneltrap"
      else
        (if which_dev =? 2 then
           let! me := myproc in
           match me with Some _ => yield hart swtch | None => ret tt end
         else ret tt) ;;;
        set_csr (λ c, c <| sepc := pc |>) ;;;
        w_sstatus st.

(** [forkret]; the result is the [satp] it passes to [userret]. *)
Definition forkret : P Z :=
  let! i := cur in
  rel hart (proc_addr i) ;;;
  let! first := gets (λ s, first_ret (ext s)) in
  (if first : bool then
     on_files (on_fs (fsinit ROOTDEV)) ;;;
     modify (set_ext (λ d, d <| first_ret := false |>)) ;;;
     let! r := kexec (chars "/init" ++ [0]) [chars "/init" ++ [0]] in
     let! p := gets (λ s, getp s i) in
     on_kmem (wr64 (ptrapframe p + TF_a0) (u64 r)) ;;;
     let! a0 := on_kmem (rd64 (ptrapframe p + TF_a0)) in
     if a0 =? u64 (-1) then panic "exec" else ret tt
   else ret tt) ;;;
  prepare_return ;;;
  gets (λ s, MAKE_SATP (ppagetable (getp s i))).

End Traps.
