(* ===== verification/Fpu.v ===== *)
(** kernel/proc/fpu.c at work: floating-point registers are switched lazily.

    Several harts run processes; a process reaches the registers of its hart only
    after a trap has loaded them, and they are saved when it leaves the hart.  The
    reference machine gives every process registers of its own. *)

From stdpp Require Import functions.
From S2P Require Import Prelude Machine Kalloc Vm Spinlock Bio Virtio Fs File Proc ProcBase ProcLife ProcFork ProcExit Exec Console Syscall Trap.

(** ** The reference: registers per process *)

Inductive fp_event :=
| FpOp (i : nat) (f : fpu_state → fpu_state)    (* process [i] executes an instruction *)
| FpFork (p np : nat)                           (* [np] is created as a copy of [p] *)
| FpReset (i : nat)                             (* the table entry [i] is freed *)
| FpLost (i : nat) (r : fpu_state)              (* the registers of [i] become [r] *)
| FpNone.

Definition own_step (regs : nat → fpu_state) (e : fp_event) : nat → fpu_state :=
  match e with
  | FpOp i f => <[i := f (regs i)]> regs
  | FpFork p np => <[np := regs p]> regs
  | FpReset i => <[i := fpu0]> regs
  | FpLost i r => <[i := r]> regs
  | FpNone => regs
  end.

Lemma bind_inv {S A C} (m : M S A) (k : A → M S C) s b s' :
  bind m k s = Ok b s' → ∃ a s1, m s = Ok a s1 ∧ k a s1 = Ok b s'.
Proof. unfold bind. destruct (m s) as [a s1| | |] eqn:E; intros H; try discriminate. by exists a, s1. Qed.

Section Lazy.

Context {B : Type} {BC : BlockCache B} {LK : Linker} {SY : Symbols} {DS : DevSymbols} {KS : DiskSymbols} {TS : TrapSymbols}.
Implicit Types s : kstate B devices.

(** ** The machine: shared kernel state, and per hart its registers, the process
    it runs, and whether it is in user mode *)

Record machine := Machine {
  m_st : kstate B devices;
  m_hw : Z → fpu_hw;
  m_run : Z → option nat;
  m_user : Z → bool;
}.

(** The kernel as hart [h] sees it, with its interrupt state [t], and back. *)
Definition on_hart (h : Z) (t : sync) (m : machine) : kstate B devices :=
  m_st m <| fpuhw := m_hw m h |> <| curproc := m_run m h |> <| sy := t |>.

Definition put_hart (h : Z) (s : kstate B devices) (run : option nat) (user : bool) (m : machine) : machine :=
  Machine s (<[h := fpuhw s]> (m_hw m)) (<[h := run]> (m_run m)) (<[h := user]> (m_user m)).

Definition hw_regs (w : fpu_hw) : fpu_state := Fpu (hw_f w) (hw_fcsr w).

Definition fpu_fields (p : proc) : fpu_state * bool * bool := (pfpu p, pfpu_used p, pfpu_active p).

Definition idle (m : machine) (i : nat) : Prop := ∀ h, m_run m h ≠ Some i.

(** Each step runs the function of the source that the kernel runs there:
    [usertrap] calls [fpu_handle_trap] and ends in [prepare_return], [sched]
    calls [fpu_save_proc], [kfork] and [freeproc] are built with [fork_fpu] and
    [free_fpu], [kerneltrap] ends in [w_sstatus]. *)
Inductive fstep (m : machine) : fp_event → machine → Prop :=
| fs_op h i f :           (* in user mode, with the unit on *)
    m_user m h = true → m_run m h = Some i → fs_on (m_hw m h) = true →
    fstep m (FpOp i f)
      (let r := f (hw_regs (m_hw m h)) in
       put_hart h (m_st m <| fpuhw := FpuHw true (fpu_f r) (fpu_fcsr r) |>) (Some i) true m)
| fs_trap h t i s' :      (* with the unit off the instruction traps *)
    m_user m h = true → m_run m h = Some i → fs_on (m_hw m h) = false →
    fpu_handle_trap i (on_hart h t m) = Ok tt s' →
    fstep m FpNone (put_hart h s' (Some i) false m)
| fs_lost h t i s' :      (* illegal although the unit is on: the same handler *)
    m_user m h = true → m_run m h = Some i → fs_on (m_hw m h) = true →
    fpu_handle_trap i (on_hart h t m) = Ok tt s' →
    fstep m (FpLost i (pfpu (getp (m_st m) i))) (put_hart h s' (Some i) false m)
| fs_enter h i :          (* any other trap *)
    m_run m h = Some i → fstep m FpNone (put_hart h (on_hart h (sy (m_st m)) m) (Some i) false m)
| fs_return h t i s' :    (* back to user mode *)
    m_user m h = false → m_run m h = Some i →
    prepare_return h (on_hart h t m) = Ok tt s' →
    fstep m FpNone (put_hart h s' (Some i) true m)
| fs_out h t i s' :       (* [sched] *)
    m_user m h = false → m_run m h = Some i →
    fpu_save_proc i (on_hart h t m) = Ok tt s' →
    fstep m FpNone (put_hart h s' None false m)
| fs_in h i :             (* [scheduler] *)
    m_run m h = None → idle m i → (i < length (procs (m_st m)))%nat →
    fstep m FpNone (put_hart h (on_hart h (sy (m_st m)) m) (Some i) false m)
| fs_fork h t p np s' :
    m_user m h = false → m_run m h = Some p → idle m np → (np < length (procs (m_st m)))%nat →
    fork_fpu p np (on_hart h t m) = Ok tt s' →
    fstep m (FpFork p np) (put_hart h s' (Some p) false m)
| fs_free h t i s' :
    m_user m h = false → idle m i → (i < length (procs (m_st m)))%nat →
    free_fpu i (on_hart h t m) = Ok tt s' →
    fstep m (FpReset i) (put_hart h s' (m_run m h) false m)
| fs_sstatus h t x s' :   (* [kerneltrap] restores an [sstatus], read earlier and maybe elsewhere *)
    m_user m h = false → w_sstatus x (on_hart h t m) = Ok tt s' →
    fstep m FpNone (put_hart h s' (m_run m h) false m)
| fs_kernel h s' :        (* other kernel code *)
    m_user m h = false → fpuhw s' = m_hw m h →
    fpu_fields <$> procs s' = fpu_fields <$> procs (m_st m) →
    fstep m FpNone (put_hart h s' (m_run m h) false m).

Inductive fsteps (m0 : machine) : list fp_event → machine → Prop :=
| fsteps_nil : fsteps m0 [] m0
| fsteps_snoc es m e m' : fsteps m0 es m → fstep m e m' → fsteps m0 (es ++ [e]) m'.

(** ** The simulation *)

(** Where the registers of process [i] are. *)
Definition registers (m : machine) (i : nat) (r : fpu_state) : Prop :=
  let p := getp (m_st m) i in
  if pfpu_active p then ∃ h, m_run m h = Some i ∧ r = hw_regs (m_hw m h)
  else r = if pfpu_used p then pfpu p else fpu0.

Record fpu_inv (m : machine) : Prop := {
  fi_once : ∀ h h' i, m_run m h = Some i → m_run m h' = Some i → h = h';
  fi_used : ∀ i, pfpu_active (getp (m_st m) i) = true → pfpu_used (getp (m_st m) i) = true;
  fi_runs : ∀ i, pfpu_active (getp (m_st m) i) = true → ∃ h, m_run m h = Some i;
  fi_entry : ∀ h i, m_run m h = Some i → (i < length (procs (m_st m)))%nat;
  fi_user : ∀ h i, m_user m h = true → m_run m h = Some i → fs_on (m_hw m h) = pfpu_active (getp (m_st m) i);
}.

Definition simulates (m : machine) (regs : nat → fpu_state) : Prop := fpu_inv m ∧ ∀ i, registers m i (regs i).

(** ** What the functions do to the state *)

Lemma put_inv h s run user m :
  fpu_inv m → length (procs s) = length (procs (m_st m)) →
  (∀ i, run = Some i → (m_run m h = Some i ∨ idle m i) ∧ (i < length (procs (m_st m)))%nat) →
  (∀ j, pfpu_active (getp s j) = true → pfpu_used (getp s j) = true) →
  (∀ j, pfpu_active (getp s j) = true → run = Some j ∨ ∃ h', h' ≠ h ∧ m_run m h' = Some j) →
  (∀ h' j, h' ≠ h → m_run m h' = Some j → pfpu_active (getp s j) = pfpu_active (getp (m_st m) j)) →
  (∀ i, user = true → run = Some i → fs_on (fpuhw s) = pfpu_active (getp s i)) →
  fpu_inv (put_hart h s run user m).
Proof.
  intros [Honce Hused Hruns Hentry Huser] Hlen H2 H3 H4 H5 H6. split; cbn [m_st m_hw m_run m_user put_hart].
  - intros h1 h2 i. destruct (decide (h1 = h)) as [->|Hn1], (decide (h2 = h)) as [->|Hn2]; rewrite ?fn_lookup_insert, ?fn_lookup_insert_ne by done.
    + done.
    + intros Hr Hm. destruct (H2 i Hr) as [[Hh|Hid] _]; [by eapply Honce|by destruct (Hid h2)].
    + intros Hm Hr. destruct (H2 i Hr) as [[Hh|Hid] _]; [by eapply Honce|by destruct (Hid h1)].
    + apply Honce.
  - done.
  - intros j Hj. destruct (H4 j Hj) as [Hr|(h' & Hne & Hr)]; [exists h; by rewrite fn_lookup_insert|].
    exists h'. by rewrite fn_lookup_insert_ne.
  - intros h' i. rewrite Hlen. destruct (decide (h' = h)) as [->|Hne]; [rewrite fn_lookup_insert; apply H2|].
    rewrite fn_lookup_insert_ne by done. apply Hentry.
  - intros h' i. destruct (decide (h' = h)) as [->|Hne]; [rewrite !fn_lookup_insert; apply H6|].
    rewrite !fn_lookup_insert_ne by done. intros Hu Hr. rewrite (H5 h') by done. by apply Huser.
Qed.

(** The registers of a process that this hart does not run, and of one whose
    registers the hart leaves alone. *)
Lemma registers_other h s run user m j r :
  fpu_fields (getp s j) = fpu_fields (getp (m_st m) j) → m_run m h ≠ Some j →
  registers m j r → registers (put_hart h s run user m) j r.
Proof.
  unfold registers, fpu_fields. cbn [m_st m_hw m_run put_hart]. intros [= -> -> ->] Hne. destruct (pfpu_active _); [|done].
  intros (h' & Hr & ->). assert (h' ≠ h) by congruence. exists h'. by rewrite !fn_lookup_insert_ne.
Qed.

Lemma registers_kept h s user m j r :
  fpu_fields (getp s j) = fpu_fields (getp (m_st m) j) → hw_regs (fpuhw s) = hw_regs (m_hw m h) →
  registers m j r → registers (put_hart h s (m_run m h) user m) j r.
Proof.
  unfold registers, fpu_fields. cbn [m_st m_hw m_run put_hart]. intros [= -> -> ->] Hw. destruct (pfpu_active _); [|done].
  intros (h' & Hr & ->). exists h'. destruct (decide (h' = h)) as [->|Hne]; [by rewrite !fn_lookup_insert|by rewrite !fn_lookup_insert_ne].
Qed.

(** What [fpu_handle_trap] does to the entry. *)
Definition fpu_loaded (p : proc) : proc :=
  (if pfpu_used p then p else p <| pfpu := fpu0 |> <| pfpu_used := true |>) <| pfpu_active := true |>.

Lemma fpu_trap_runs i s :
  (i < length (procs s))%nat →
  let q := fpu_loaded (getp s i) in
  fpu_handle_trap i s = Ok tt (setp i fpu_loaded s <| fpuhw := FpuHw true (fpu_f (pfpu q)) (fpu_fcsr (pfpu q)) |>).
Proof.
  intros Hi q. unfold fpu_handle_trap, fpu_on. set (s1 := s <| fpuhw := FpuHw true (hw_f (fpuhw s)) (hw_fcsr (fpuhw s)) |>).
  rewrite (bind_ok _ _ s tt s1) by done. rewrite bind_gets. change (getp s1 i) with (getp s i).
  set (g := λ p : proc, if pfpu_used p then p else p <| pfpu := fpu0 |> <| pfpu_used := true |>).
  rewrite (bind_ok _ _ s1 tt (setp i g s1)).
  2:{ destruct (pfpu_used (getp s i)) eqn:E; cbn [negb].
      - unfold ret. f_equal. unfold setp. change (getp s1 i) with (getp s i). unfold g. rewrite E.
        change (procs s1) with (procs s). rewrite list_insert_id by (by apply lookup_getp). done.
      - unfold bind, modify. rewrite setp_setp. f_equal. unfold setp. change (getp s1 i) with (getp s i). unfold g. by rewrite E. }
  rewrite bind_gets. rewrite getp_setp, decide_True by done. change (getp s1 i) with (getp s i).
  assert (Eq : pfpu (g (getp s i)) = pfpu q) by (unfold q, fpu_loaded, g; by destruct (pfpu_used _)).
  rewrite Eq. transitivity (Ok tt (setp i (λ p, p <| pfpu_active := true |>) (setp i g s)
    <| fpuhw := FpuHw true (fpu_f (pfpu q)) (fpu_fcsr (pfpu q)) |>)); [reflexivity|]. by rewrite setp_setp.
Qed.

(** ** The way back to user mode *)

Definition keeps_fpu s s' : Prop := procs s' = procs s ∧ curproc s' = curproc s ∧ hw_regs (fpuhw s') = hw_regs (fpuhw s).

Definition leaves_fpu {A} (m : M (kstate B devices) A) : Prop :=
  ∀ s a s', m s = Ok a s' → procs s' = procs s ∧ curproc s' = curproc s ∧ fpuhw s' = fpuhw s.

Lemma leaves_sync {A} (m : M sync A) : leaves_fpu (on_sync m).
Proof. intros s a s'. unfold on_sync, zoom. destruct (m (sy s)); try discriminate. by intros [= <- <-]. Qed.

Lemma leaves_kmem {A} (m : K A) : leaves_fpu (on_kmem m).
Proof.
  intros s a s'. unfold on_kmem, on_files, zoom. destruct (on_fs (on_mem m) (fsys s)); try discriminate. by intros [= <- <-].
Qed.

Lemma leaves_csr f : leaves_fpu (set_csr (B := B) f).
Proof. by intros s a s' [= <- <-]. Qed.

Lemma cur_inv s i s' : cur s = Ok i s' → curproc s = Some i ∧ procs s' = procs s ∧ curproc s' = curproc s ∧ fpuhw s' = fpuhw s.
Proof.
  unfold cur, myproc. intros H. apply bind_inv in H as (p & s1 & E1 & E2). apply bind_inv in E1 as (u & s2 & Es & E1).
  apply leaves_sync in Es as (Hp & Hc & Hw). rewrite bind_gets in E1. apply bind_inv in E1 as (u' & s3 & Es & E1).
  apply leaves_sync in Es as (Hp' & Hc' & Hw'). injection E1 as <- <-. destruct (curproc s2) as [j|] eqn:Ej; [|discriminate].
  injection E2 as <- <-. split_and!; congruence.
Qed.

Lemma w_sstatus_fs x s s' :
  w_sstatus x s = Ok tt s' → keeps_fpu s s' ∧ fs_on (fpuhw s') = has x SSTATUS_FS_MASK.
Proof. unfold w_sstatus. intros H. apply bind_inv in H as ([] & s1 & [= <-] & [= <-]). done. Qed.

Lemma has_fs x (b : bool) :
  has (Z.lor (Z.land x (Z.lnot SSTATUS_FS_MASK)) (if b then SSTATUS_FS_DIRTY else SSTATUS_FS_OFF)) SSTATUS_FS_MASK = b.
Proof.
  unfold has. rewrite Z.land_lor_distr_l, <- Z.land_assoc, (Z.land_comm (Z.lnot _)), Z.land_lnot_diag, Z.land_0_r, Z.lor_0_l.
  by destruct b.
Qed.

(** [prepare_return] turns the unit on exactly when the process's registers are
    in it. *)
Lemma prepare_return_fs h s s' :
  prepare_return h s = Ok tt s' →
  keeps_fpu s s' ∧ ∃ i, curproc s = Some i ∧ fs_on (fpuhw s') = pfpu_active (getp s i).
Proof.
  unfold prepare_return, intr_off, r_sstatus. intros H. apply bind_inv in H as (i & s1 & Ec & H). apply cur_inv in Ec as (Hc & Hp1 & Hc1 & Hw1).
  apply bind_inv in H as ([] & s2 & Ei & H). rewrite bind_gets in Ei. apply w_sstatus_fs in Ei as [(Hp2 & Hc2 & Hw2) _].
  apply bind_inv in H as ([] & s3 & E3 & H). apply leaves_csr in E3 as (Hp3 & Hc3 & Hw3).
  rewrite bind_gets in H. unfold get_csr in H. rewrite bind_gets in H.
  do 4 (apply bind_inv in H as ([] & ? & ?E & H)). 
  repeat match goal with E : on_kmem _ _ = Ok _ _ |- _ => apply leaves_kmem in E as (? & ? & ?) end.
  rewrite bind_gets in H. apply bind_inv in H as ([] & s8 & E8 & H). apply w_sstatus_fs in E8 as [(Hp8 & Hc8 & Hw8) Hfs].
  apply bind_inv in H as (epc & s9 & E9 & H). apply leaves_kmem in E9 as (Hp9 & Hc9 & Hw9). apply leaves_csr in H as (Hp10 & Hc10 & Hw10).
  split; [unfold keeps_fpu; split_and!; congruence|]. exists i. split; [done|].
  rewrite Hw10, Hw9, Hfs, has_fs. unfold getp. by rewrite Hp3, Hp2, Hp1.
Qed.

(** ** The steps *)

Definition same_fields s s' : Prop :=
  length (procs s') = length (procs s) ∧ ∀ j, fpu_fields (getp s' j) = fpu_fields (getp s j).

Lemma runs_elsewhere m h j : fpu_inv m → pfpu_active (getp (m_st m) j) = true → m_run m h = Some j ∨ ∃ h', h' ≠ h ∧ m_run m h' = Some j.
Proof.
  intros Hi Hj. destruct (fi_runs _ Hi j Hj) as [h' Hh]. destruct (decide (h' = h)) as [->|Hne]; [by left|right; by exists h'].
Qed.

(** A step that changes no entry. *)
Lemma same_step m h s user regs :
  simulates m regs → same_fields (m_st m) s → hw_regs (fpuhw s) = hw_regs (m_hw m h) →
  (∀ i, user = true → m_run m h = Some i → fs_on (fpuhw s) = pfpu_active (getp (m_st m) i)) →
  simulates (put_hart h s (m_run m h) user m) regs.
Proof.
  intros [Hi Hr] [Hlen Hf] Hw Hu.
  assert (Ha : ∀ j, pfpu_active (getp s j) = pfpu_active (getp (m_st m) j) ∧ pfpu_used (getp s j) = pfpu_used (getp (m_st m) j)).
  { intros j. specialize (Hf j). unfold fpu_fields in Hf. by injection Hf as _ -> ->. }
  split; [|intros j; by apply registers_kept].
  apply put_inv; [done|done|..].
  - intros i Hm. split; [by left|by eapply fi_entry].
  - intros j. rewrite (proj1 (Ha j)), (proj2 (Ha j)). by apply fi_used.
  - intros j. rewrite (proj1 (Ha j)). by apply runs_elsewhere.
  - intros h' j _ _. apply Ha.
  - intros i. rewrite (proj1 (Ha i)). apply Hu.
Qed.

Lemma op_step m h i f regs :
  simulates m regs → m_user m h = true → m_run m h = Some i → fs_on (m_hw m h) = true →
  let r := f (hw_regs (m_hw m h)) in
  simulates (put_hart h (m_st m <| fpuhw := FpuHw true (fpu_f r) (fpu_fcsr r) |>) (Some i) true m) (own_step regs (FpOp i f)).
Proof.
  intros [Hi Hr] Hu Hrun Hon r. assert (Hact : pfpu_active (getp (m_st m) i) = true) by (by rewrite <- (fi_user _ Hi h i)).
  split.
  - apply put_inv; [done|done|..]; cbn [fpuhw setter].
    + intros j [= <-]. split; [by left|by eapply fi_entry].
    + apply (fi_used _ Hi).
    + intros j Hj. rewrite <- Hrun. by apply runs_elsewhere.
    + done.
    + intros j _ [= <-]. symmetry. exact Hact.
  - intros j. cbn [own_step]. destruct (decide (j = i)) as [->|Hne].
    + rewrite fn_lookup_insert. pose proof (Hr i) as Hri. unfold registers in *. cbn [m_st m_hw m_run put_hart].
      change (getp (m_st m <| fpuhw := _ |>) i) with (getp (m_st m) i). rewrite Hact in *. destruct Hri as (h' & Hh' & ->).
      rewrite (fi_once _ Hi h' h i Hh' Hrun). exists h. rewrite !fn_lookup_insert. split; [done|]. unfold r. by destruct (f _).
    + rewrite fn_lookup_insert_ne by done. apply registers_other; [done|congruence|apply Hr].
Qed.

(** [fpu_handle_trap] gives the process the registers of its table entry. *)
Lemma load_step m h t i s' regs :
  simulates m regs → m_run m h = Some i → fpu_handle_trap i (on_hart h t m) = Ok tt s' →
  simulates (put_hart h s' (Some i) false m) (<[i := pfpu (fpu_loaded (getp (m_st m) i))]> regs).
Proof.
  intros [Hi Hr] Hrun E.
  pose proof (fi_entry _ Hi h i Hrun) as Hlt. rewrite fpu_trap_runs in E by done. injection E as Es.
  set (q := fpu_loaded (getp (m_st m) i)).
  assert (Hg : ∀ j, getp s' j = if decide (j = i) then q else getp (m_st m) j).
  { intros j. rewrite <- Es. change (getp (setp i fpu_loaded (on_hart h t m)) j = if decide (j = i) then q else getp (m_st m) j).
    by rewrite getp_setp. }
  assert (Hw : fpuhw s' = FpuHw true (fpu_f (pfpu q)) (fpu_fcsr (pfpu q))) by (by rewrite <- Es).
  assert (Hlen : length (procs s') = length (procs (m_st m))) by (rewrite <- Es; apply (setp_length i fpu_loaded (on_hart h t m))).
  assert (Hq : pfpu_active q = true ∧ pfpu_used q = true) by (unfold q, fpu_loaded; destruct (pfpu_used (getp (m_st m) i)) eqn:Eu; by split).
  split.
  - apply put_inv; [done|done|..].
    + intros j [= <-]. split; [by left|done].
    + intros j. rewrite Hg. destruct (decide (j = i)); [intros _; apply Hq|apply (fi_used _ Hi)].
    + intros j. rewrite Hg. destruct (decide (j = i)) as [->|]; [by left|]. intros Hj. rewrite <- Hrun. by apply runs_elsewhere.
    + intros h' j Hne Hj. rewrite Hg, decide_False; [done|]. intros ->. apply Hne. by eapply (fi_once _ Hi).
    + done.
  - intros j. destruct (decide (j = i)) as [->|Hne].
    + unfold registers. cbn [m_st m_hw m_run put_hart]. rewrite Hg, decide_True, (proj1 Hq), fn_lookup_insert by done.
      exists h. rewrite !fn_lookup_insert, Hw. split; [done|]. unfold hw_regs. cbn [hw_f hw_fcsr]. fold q. by destruct (pfpu q).
    + rewrite fn_lookup_insert_ne by done. apply registers_other; [by rewrite Hg, decide_False|congruence|apply Hr].
Qed.

(** With the unit off that is what the process had; with the unit on it is what
    was saved last. *)
Lemma trap_step m h t i s' regs :
  simulates m regs → m_user m h = true → m_run m h = Some i → fs_on (m_hw m h) = false →
  fpu_handle_trap i (on_hart h t m) = Ok tt s' → simulates (put_hart h s' (Some i) false m) regs.
Proof.
  intros Hs Hu Hrun Hoff E. destruct (load_step m h t i s' regs Hs Hrun E) as [Hi' Hr']. split; [done|].
  destruct Hs as [Hi Hr]. assert (Hact : pfpu_active (getp (m_st m) i) = false) by (by rewrite <- (fi_user _ Hi h i)).
  assert (Er : pfpu (fpu_loaded (getp (m_st m) i)) = regs i).
  { specialize (Hr i). unfold registers in Hr. rewrite Hact in Hr. rewrite Hr. unfold fpu_loaded. by destruct (pfpu_used _). }
  intros j. specialize (Hr' j). rewrite Er in Hr'. destruct (decide (j = i)) as [->|Hne].
  - by rewrite fn_lookup_insert in Hr'.
  - by rewrite fn_lookup_insert_ne in Hr'.
Qed.

Lemma lost_step m h t i s' regs :
  simulates m regs → m_user m h = true → m_run m h = Some i → fs_on (m_hw m h) = true →
  fpu_handle_trap i (on_hart h t m) = Ok tt s' →
  simulates (put_hart h s' (Some i) false m) (own_step regs (FpLost i (pfpu (getp (m_st m) i)))).
Proof.
  intros Hs Hu Hrun Hon E. pose proof (load_step m h t i s' regs Hs Hrun E) as Hl. destruct Hs as [Hi Hr].
  assert (Hact : pfpu_active (getp (m_st m) i) = true) by (by rewrite <- (fi_user _ Hi h i)).
  unfold fpu_loaded in Hl. by rewrite (fi_used _ Hi i Hact) in Hl.
Qed.

Lemma in_step m h i regs :
  simulates m regs → m_run m h = None → idle m i → (i < length (procs (m_st m)))%nat →
  simulates (put_hart h (on_hart h (sy (m_st m)) m) (Some i) false m) regs.
Proof.
  intros [Hi Hr] Hrun Hid Hlt. split.
  - apply put_inv; [done|done|..].
    + intros j [= <-]. split; [by right|done].
    + apply (fi_used _ Hi).
    + intros j Hj. destruct (runs_elsewhere m h j Hi Hj) as [Hh|Hh]; [congruence|by right].
    + done.
    + done.
  - intros j. apply registers_other; [done|congruence|apply Hr].
Qed.

(** After [fpu_save_proc] the registers are in the table entry. *)
Lemma saved_registers m h i regs :
  simulates m regs → m_run m h = Some i → let q := fpu_saved (m_hw m h) (getp (m_st m) i) in
  pfpu_active q = false ∧ regs i = if pfpu_used q then pfpu q else fpu0.
Proof.
  intros [Hi Hr] Hrun q. specialize (Hr i). unfold registers in Hr. unfold q, fpu_saved.
  destruct (pfpu_active (getp (m_st m) i)) eqn:Ha; [|by rewrite Ha]. cbn. split; [done|].
  destruct Hr as (h' & Hh & ->). rewrite (fi_once _ Hi h' h i Hh Hrun), (fi_used _ Hi i Ha). done.
Qed.

Lemma out_step m h t i s' regs :
  simulates m regs → m_run m h = Some i → fpu_save_proc i (on_hart h t m) = Ok tt s' →
  simulates (put_hart h s' None false m) regs.
Proof.
  intros Hs Hrun E. destruct (saved_registers m h i regs Hs Hrun) as [Hact Hreg]. destruct Hs as [Hi Hr].
  pose proof (fi_entry _ Hi h i Hrun) as Hlt. rewrite fpu_save_runs in E by done. injection E as Es.
  set (q := fpu_saved (m_hw m h) (getp (m_st m) i)) in *.
  assert (Hg : ∀ j, getp s' j = if decide (j = i) then q else getp (m_st m) j).
  { intros j. rewrite <- Es. change (getp (setp i (fpu_saved (m_hw m h)) (on_hart h t m)) j = if decide (j = i) then q else getp (m_st m) j).
    by rewrite getp_setp. }
  assert (Hlen : length (procs s') = length (procs (m_st m))) by (rewrite <- Es; apply (setp_length i _ (on_hart h t m))).
  split.
  - apply put_inv; [done|done|..].
    + done.
    + intros j. rewrite Hg. destruct (decide (j = i)); [by rewrite Hact|apply (fi_used _ Hi)].
    + intros j. rewrite Hg. destruct (decide (j = i)); [by rewrite Hact|]. intros Hj.
      destruct (runs_elsewhere m h j Hi Hj) as [Hh|Hh]; [congruence|by right].
    + intros h' j Hne Hj. rewrite Hg, decide_False; [done|]. intros ->. apply Hne. by eapply (fi_once _ Hi).
    + done.
  - intros j. destruct (decide (j = i)) as [->|Hne].
    + unfold registers. cbn [m_st put_hart]. rewrite Hg, decide_True by done. by rewrite Hact.
    + apply registers_other; [by rewrite Hg, decide_False|congruence|apply Hr].
Qed.

Lemma fork_fpu_runs p np s :
  (p < length (procs s))%nat → (np < length (procs s))%nat → p ≠ np →
  let q := fpu_saved (fpuhw s) (getp s p) in
  ∃ s', fork_fpu p np s = Ok tt s' ∧ fs_on (fpuhw s') = false ∧ length (procs s') = length (procs s)
    ∧ ∀ j, getp s' j = if decide (j = np) then getp s np <| pfpu := pfpu q |> <| pfpu_used := pfpu_used q |> <| pfpu_active := false |>
                       else if decide (j = p) then q else getp s j.
Proof.
  intros Hp Hnp Hne q. unfold fork_fpu. rewrite (bind_ok _ _ _ _ _ (fpu_save_runs p s Hp)).
  set (s1 := setp p (fpu_saved (fpuhw s)) s <| fpuhw := _ |>).
  assert (Hg1 : ∀ j, getp s1 j = if decide (j = p) then q else getp s j).
  { intros j. change (getp s1 j) with (getp (setp p (fpu_saved (fpuhw s)) s) j). by rewrite getp_setp. }
  assert (Hl1 : length (procs s1) = length (procs s)) by apply (setp_length p _ s).
  unfold bind, modify. eexists. split; [reflexivity|]. split; [done|]. rewrite !setp_length. split; [done|]. intros j.
  rewrite !getp_setp by (rewrite ?setp_length; lia). rewrite !Hg1.
  rewrite !(decide_False (P := np = p)) by done. rewrite !(decide_False (P := p = np)) by done.
  rewrite !(decide_True (P := np = np)), !(decide_True (P := p = p)) by done. by destruct (decide (j = np)).
Qed.

Lemma fork_step m h t p np s' regs :
  simulates m regs → m_run m h = Some p → idle m np → (np < length (procs (m_st m)))%nat →
  fork_fpu p np (on_hart h t m) = Ok tt s' → simulates (put_hart h s' (Some p) false m) (own_step regs (FpFork p np)).
Proof.
  intros Hs Hrun Hid Hnp E. destruct (saved_registers m h p regs Hs Hrun) as [Hact Hreg]. destruct Hs as [Hi Hr].
  assert (Hne : p ≠ np) by (intros ->; by destruct (Hid h)). pose proof (fi_entry _ Hi h p Hrun) as Hp.
  destruct (fork_fpu_runs p np (on_hart h t m) Hp Hnp Hne) as (s2 & E2 & Hoff & Hlen & Hg).
  rewrite E in E2. injection E2 as <-. change (getp (on_hart h t m)) with (getp (m_st m)) in Hg. change (fpuhw (on_hart h t m)) with (m_hw m h) in Hg.
  set (q := fpu_saved (m_hw m h) (getp (m_st m) p)) in *.
  assert (Hold : ∀ j, j ≠ np → j ≠ p → getp s' j = getp (m_st m) j) by (intros j H1 H2; by rewrite Hg, !decide_False).
  assert (Hpq : getp s' p = q) by (by rewrite Hg, decide_False, decide_True).
  assert (Hnew : pfpu_active (getp s' np) = false) by (by rewrite Hg, decide_True).
  split.
  - apply put_inv; [done|done|..].
    + intros j [= <-]. split; [by left|done].
    + intros j. destruct (decide (j = np)) as [->|]; [by rewrite Hnew|]. destruct (decide (j = p)) as [->|]; [by rewrite Hpq, Hact|].
      rewrite Hold by done. apply (fi_used _ Hi).
    + intros j. destruct (decide (j = np)) as [->|]; [by rewrite Hnew|]. destruct (decide (j = p)) as [->|]; [by left|].
      rewrite Hold by done. rewrite <- Hrun. by apply runs_elsewhere.
    + intros h' j Hh Hj. rewrite Hold; [done|..]; intros ->; [by destruct (Hid h')|]. apply Hh. by eapply (fi_once _ Hi).
    + done.
  - intros j. cbn [own_step]. destruct (decide (j = np)) as [->|Hjn]; [|rewrite fn_lookup_insert_ne by done; destruct (decide (j = p)) as [->|Hjp]].
    + rewrite fn_lookup_insert. unfold registers. cbn [m_st put_hart]. rewrite Hnew. by rewrite Hg, decide_True.
    + unfold registers. cbn [m_st put_hart]. by rewrite Hpq, Hact.
    + apply registers_other; [by rewrite Hold|congruence|apply Hr].
Qed.

Lemma free_step m h t i s' regs :
  simulates m regs → m_user m h = false → idle m i → (i < length (procs (m_st m)))%nat →
  free_fpu i (on_hart h t m) = Ok tt s' → simulates (put_hart h s' (m_run m h) false m) (own_step regs (FpReset i)).
Proof.
  intros [Hi Hr] _ Hid Hlt [= Es].
  assert (Hg : ∀ j, j ≠ i → getp s' j = getp (m_st m) j).
  { intros j Hj. rewrite <- Es. by rewrite getp_setp, decide_False. }
  assert (Hnew : pfpu_active (getp s' i) = false ∧ pfpu_used (getp s' i) = false).
  { rewrite <- Es. by rewrite getp_setp, decide_True. }
  assert (Hlen : length (procs s') = length (procs (m_st m))) by (rewrite <- Es; apply (setp_length i _ (on_hart h t m))).
  assert (Hw : fpuhw s' = m_hw m h) by (by rewrite <- Es).
  split.
  - apply put_inv; [done|done|..].
    + intros j Hj. split; [by left|by eapply fi_entry].
    + intros j. destruct (decide (j = i)) as [->|]; [by rewrite (proj1 Hnew)|]. rewrite Hg by done. apply (fi_used _ Hi).
    + intros j. destruct (decide (j = i)) as [->|]; [by rewrite (proj1 Hnew)|]. rewrite Hg by done. by apply runs_elsewhere.
    + intros h' j _ Hj. rewrite Hg; [done|]. intros ->. by destruct (Hid h').
    + done.
  - intros j. cbn [own_step]. destruct (decide (j = i)) as [->|Hne].
    + rewrite fn_lookup_insert. unfold registers. cbn [m_st put_hart]. by rewrite (proj1 Hnew), (proj2 Hnew).
    + rewrite fn_lookup_insert_ne by done. apply registers_kept; [by rewrite Hg|by rewrite Hw|apply Hr].
Qed.

Lemma fstep_simulates m e m' regs : simulates m regs → fstep m e m' → simulates m' (own_step regs e).
Proof.
  intros Hs Hst. destruct Hst as [h i f Hu Hrun Hon|h t i s' Hu Hrun Hoff E|h t i s' Hu Hrun Hon E|h i Hrun|h t i s' Hu Hrun E|h t i s' Hu Hrun E
    |h i Hrun Hid Hlt|h t p np s' Hu Hrun Hid Hlt E|h t i s' Hu Hid Hlt E|h t x s' Hu E|h s' Hu Hw Hf].
  - by apply op_step.
  - by eapply trap_step.
  - by eapply lost_step.
  - rewrite <- Hrun. by apply same_step.
  - rewrite <- Hrun. apply prepare_return_fs in E as [(Hp & Hc & Hregs) (j & Hj & Hfs)].
    change (curproc (on_hart h t m)) with (m_run m h) in Hj. change (procs (on_hart h t m)) with (procs (m_st m)) in Hp.
    change (getp (on_hart h t m) j) with (getp (m_st m) j) in Hfs.
    apply same_step; [done| |done|].
    + split; [by rewrite Hp|]. intros k. unfold getp. by rewrite Hp.
    + intros k _ Hk. rewrite Hfs. congruence.
  - by eapply out_step.
  - by apply in_step.
  - by eapply fork_step.
  - by eapply free_step.
  - apply w_sstatus_fs in E as [(Hp & _ & Hregs) _]. change (procs (on_hart h t m)) with (procs (m_st m)) in Hp.
    apply same_step; [done| |done|done]. split; [by rewrite Hp|]. intros k. unfold getp. by rewrite Hp.
  - apply same_step; [done| |by rewrite Hw|done]. split.
    + apply (f_equal length) in Hf. by rewrite !length_fmap in Hf.
    + intros j. apply (f_equal (lookup j)) in Hf. rewrite !list_lookup_fmap in Hf. unfold getp.
      destruct (procs s' !! j), (procs (m_st m) !! j); cbn in *; congruence.
Qed.

(** A machine whose processes have not used the unit. *)
Record fresh (m : machine) : Prop := {
  fr_off : ∀ h, fs_on (m_hw m h) = false ∧ m_run m h = None ∧ m_user m h = false;
  fr_unused : ∀ j, pfpu_used (getp (m_st m) j) = false ∧ pfpu_active (getp (m_st m) j) = false;
}.

(** C5 [equivalence]. Lazy switching of the floating-point registers cannot be
    told from registers of one's own.  Harts run processes, which execute
    floating-point instructions, trap, return to user mode through
    [prepare_return], are switched out through [fpu_save_proc], fork and are
    freed, in any order; in the kernel [kerneltrap] may put back any earlier
    value of [sstatus], with the unit on or off.  Whenever a process is in user
    mode with the unit on, the registers of its hart are those that the process
    would have if every process had its own, zeroed at first and copied by fork;
    otherwise the table entry holds them.  One thing the process can tell: a
    floating-point instruction that is illegal although the unit is on ([FpLost])
    runs the same handler, and throws that process, and no other, back to the
    registers that were saved last. *)
Theorem lazy_fpu_equivalent m0 es m :
  fresh m0 → fsteps m0 es m →
  let regs := foldl own_step (λ _, fpu0) es in
  (∀ h i, m_user m h = true → m_run m h = Some i → fs_on (m_hw m h) = true → hw_regs (m_hw m h) = regs i)
  ∧ (∀ h i, m_user m h = true → m_run m h = Some i → fs_on (m_hw m h) = pfpu_active (getp (m_st m) i))
  ∧ (∀ i, pfpu_active (getp (m_st m) i) = false →
       regs i = if pfpu_used (getp (m_st m) i) then pfpu (getp (m_st m) i) else fpu0).
Proof.
  intros [Hoff Hun] Hst regs. assert (Hs : simulates m regs).
  { subst regs. induction Hst as [|es m e m' Hst IH Hstep].
    - split; [split|]; intros.
      + by rewrite (proj1 (proj2 (Hoff h))) in *.
      + by rewrite (proj2 (Hun i)) in *.
      + by rewrite (proj2 (Hun i)) in *.
      + by rewrite (proj1 (proj2 (Hoff h))) in *.
      + by rewrite (proj2 (proj2 (Hoff h))) in *.
      + unfold registers. by rewrite (proj1 (Hun i)), (proj2 (Hun i)).
    - rewrite foldl_app. cbn. by eapply fstep_simulates. }
  destruct Hs as [Hi Hr]. split_and!.
  - intros h i Hu Hrun Hon. specialize (Hr i). unfold registers in Hr. rewrite <- (fi_user _ Hi h i Hu Hrun), Hon in Hr.
    destruct Hr as (h' & Hh & ->). by rewrite (fi_once _ Hi h' h i).
  - apply Hi.
  - intros i Ha. specialize (Hr i). unfold registers in Hr. by rewrite Ha in Hr.
Qed.

End Lazy.

(** ** A process uses the unit

    Process 0 enters user mode on hart 0, traps on its first floating-point
    instruction, returns and executes it. *)
Module FpuTest.

#[export] Existing Instance Demo.linker.

#[export] Instance no_disk : BlockCache unit :=
  {| c_bread := λ _ _, panic "virtio"; c_data := λ _ _, []; c_brelse := λ _, ret tt |}.

#[export] Instance trap_symbols : TrapSymbols :=
  {| kernelvec := 0x80004000; uservec := 0x80005000; userret := 0x80005100; usertrap_addr := 0x80006000;
     tickslock := 0x80007000; ticks_chan := 0x80007100 |}.

#[export] Instance symbols : Symbols :=
  {| proc_base := 0x80010000; pid_lock := 0x8000f000; wait_lock := 0x8000f100; forkret_addr := 0x80001000 |}.

Definition dev0 : devices :=
  Devices (Console [] 0 0 0 false) (Uart false [] [] true) (Csrs 0 0 0 0 0 0 0 0) (Plic [] []) 0
    (VDisk 0 0 0 [] 0 [] 0 [] [] 0 [] [] []) [] true.

Definition sync0 : sync := Sync (Cpu 0 false false) ∅.

Definition s0 : kstate unit devices :=
  KState (FileSys (FState (KMem ∅ 0 PHYSTOP) tt [] (Superblock 0 0 0 0 0 0 0 0)) []) (replicate 2 proc0) None 1 sync0 None
    (FpuHw false [] 0) dev0.

Definition after (m : M (kstate unit devices) unit) (s : kstate unit devices) : kstate unit devices :=
  match m s with
  | Ok _ s' => s'
  | _ => s
  end.

Definition m0 : machine := Machine s0 (λ _, FpuHw false [] 0) (λ _, None) (λ _, false).

Definition m1 : machine := put_hart 0 (on_hart 0 sync0 m0) (Some 0%nat) false m0.

Definition m2 : machine := put_hart 0 (after (prepare_return 0) (on_hart 0 sync0 m1)) (Some 0%nat) true m1.

Definition m3 : machine := put_hart 0 (after (fpu_handle_trap 0) (on_hart 0 sync0 m2)) (Some 0%nat) false m2.

Definition m4 : machine := put_hart 0 (after (prepare_return 0) (on_hart 0 sync0 m3)) (Some 0%nat) true m3.

Definition set_f1 (r : fpu_state) : fpu_state := Fpu (<[1%nat := 42]> (fpu_f r)) (fpu_fcsr r).

Definition m5 : machine :=
  put_hart 0 (m_st m4 <| fpuhw := FpuHw true (fpu_f (set_f1 (hw_regs (m_hw m4 0)))) (fpu_fcsr (set_f1 (hw_regs (m_hw m4 0)))) |>)
    (Some 0%nat) true m4.

Lemma runs_f1 : fsteps m0 [FpNone; FpNone; FpNone; FpNone; FpOp 0 set_f1] m5.
Proof.
  apply (fsteps_snoc m0 [FpNone; FpNone; FpNone; FpNone] m4).
  - apply (fsteps_snoc m0 [FpNone; FpNone; FpNone] m3).
    + apply (fsteps_snoc m0 [FpNone; FpNone] m2).
      * apply (fsteps_snoc m0 [FpNone] m1).
        -- apply (fsteps_snoc m0 [] m0); [constructor|]. apply (fs_in m0 0 0); [done|intros h; done|vm_compute; lia].
        -- apply (fs_return m1 0 sync0 0); [done|done|]. vm_compute. reflexivity.
      * apply (fs_trap m2 0 sync0 0); [done|done|vm_compute; reflexivity|]. vm_compute. reflexivity.
    + apply (fs_return m3 0 sync0 0); [done|done|]. vm_compute. reflexivity.
  - apply (fs_op m4 0 0); [done|done|]. vm_compute. reflexivity.
Qed.

(** The next instruction is illegal: what was put into f1 is gone. *)
Definition m6 : machine := put_hart 0 (after (fpu_handle_trap 0) (on_hart 0 sync0 m5)) (Some 0%nat) false m5.

Lemma illegal_instruction_loses_registers :
  fstep m5 (FpLost 0 fpu0) m6
  ∧ hw_regs (m_hw m5 0) = Fpu (<[1%nat := 42]> (replicate 32 0)) 0 ∧ hw_regs (m_hw m6 0) = fpu0.
Proof.
  split; [|split; vm_compute; reflexivity].
  apply (fs_lost m5 0 sync0 0); [done|done|vm_compute; reflexivity|]. vm_compute. reflexivity.
Qed.

End FpuTest.

Lemma lazy_fpu_equivalent_witness :
  hw_regs (m_hw FpuTest.m5 0) = Fpu (<[1%nat := 42]> (replicate 32 0)) 0.
Proof.
  assert (Hf : fresh FpuTest.m0).
  { split; [done|]. intros [|[|j]]; done. }
  destruct (lazy_fpu_equivalent FpuTest.m0 _ FpuTest.m5 Hf FpuTest.runs_f1) as [H1 _].
  exact (H1 0 0%nat eq_refl eq_refl eq_refl).
Defined.
