(* ===== verification/FloatMath.v ===== *)
(** user/lib/math.c: single-precision approximations of the elementary functions.

    Floats are IEEE binary32 numbers as the specification of the Rocq library
    defines them, executable on integers; every operation of the source rounds to
    nearest even by itself (no operation is fused with another). *)

From Stdlib Require Import Floats.SpecFloat.
From S2P Require Import Prelude.

(** ** binary32 *)

Abbreviation float := spec_float.

Definition fadd : float → float → float := SFadd 24 128.

Definition fsub : float → float → float := SFsub 24 128.

Definition fmul : float → float → float := SFmul 24 128.

Definition fdiv : float → float → float := SFdiv 24 128.

Definition fneg : float → float := SFopp.

(** [a < b] and [a <= b]: false when one of them is a NaN. *)
Definition flt : float → float → bool := SFltb.

Definition fle : float → float → bool := SFleb.

(** The conversion of an integer. *)
Definition of_int (z : Z) : float := binary_normalize 24 128 z 0 false.

(** The constant whose value is [n / d], correctly rounded. *)
Definition of_ratio (n d : positive) : float :=
  let '(m, e, l) := SFdiv_core_binary 24 128 (Zpos n) 0 (Zpos d) 0 in
  binary_round_aux 24 128 false m e l.

Definition zero : float := S754_zero false.

Definition one : float := of_int 1.

Definition two : float := of_int 2.

Definition half : float := of_ratio 1 2.

(** math.h *)
Definition PI : float := of_ratio 31415926535 10000000000.

Definition LN2 : float := of_ratio 6931471806 10000000000.

(** ** math.c *)

(** Twelve Newton steps: [r = 0.5f * (r + x / r)]. *)
Fixpoint newton (n : nat) (x r : float) : float :=
  match n with
  | O => r
  | S n' => newton n' x (fmul half (fadd r (fdiv x r)))
  end.

Definition sqrt_approx (x : float) : float :=
  if fle x zero then zero else newton 12 x (if flt one x then x else one).

(** [for (int i = 1; i <= 10; i++) { term *= x / i; sum += term; }] *)
Fixpoint exp_sum (n : nat) (i : Z) (x term sum : float) : float :=
  match n with
  | O => sum
  | S n' =>
      let term := fmul term (fdiv x (of_int i)) in
      exp_sum n' (i + 1) x term (fadd sum term)
  end.

Definition exp_unit (x : float) : float := exp_sum 10 1 x one one.

(** [while (x > 1.0f) { x *= 0.5f; scale++; }] *)
Fixpoint exp_scale (fuel : nat) (x : float) (scale : nat) : option (float * nat) :=
  match fuel with
  | O => None
  | S f => if flt one x then exp_scale f (fmul x half) (S scale) else Some (x, scale)
  end.

(** [while (scale-- > 0) y *= y;] *)
Fixpoint squares (scale : nat) (y : float) : float :=
  match scale with
  | O => y
  | S n => squares n (fmul y y)
  end.

(** [None]: a loop was still running after [fuel] rounds. *)
Definition exp_approx (fuel : nat) (x : float) : option float :=
  let neg := flt x zero in
  let x := if neg then fneg x else x in
  let x := if flt (of_int 20) x then of_int 20 else x in
  match exp_scale fuel x 0 with
  | None => None
  | Some (x, scale) =>
      let y := squares scale (exp_unit x) in
      Some (if neg then fdiv one y else y)
  end.

(** [while (x >= 2.0f) { x *= 0.5f; k++; }] and
    [while (x < 1.0f) { x *= 2.0f; k--; }] *)
Fixpoint log_down (fuel : nat) (x : float) (k : Z) : option (float * Z) :=
  match fuel with
  | O => None
  | S f => if fle two x then log_down f (fmul x half) (k + 1) else Some (x, k)
  end.

Fixpoint log_up (fuel : nat) (x : float) (k : Z) : option (float * Z) :=
  match fuel with
  | O => None
  | S f => if flt x one then log_up f (fmul x two) (k - 1) else Some (x, k)
  end.

(** [for (int i = 1; i <= 23; i += 2) { sum += term / i; term *= z2; }] *)
Fixpoint log_sum (n : nat) (i : Z) (z2 term sum : float) : float :=
  match n with
  | O => sum
  | S n' => log_sum n' (i + 2) z2 (fmul term z2) (fadd sum (fdiv term (of_int i)))
  end.

Definition log_approx (fuel : nat) (x : float) : option float :=
  if fle x zero then Some zero
  else
    match log_down fuel x 0 with
    | None => None
    | Some (x, k) =>
        match log_up fuel x k with
        | None => None
        | Some (x, k) =>
            let z := fdiv (fsub x one) (fadd x one) in
            let sum := log_sum 12 1 (fmul z z) z zero in
            Some (fadd (fmul two sum) (fmul (of_int k) LN2))
        end
    end.

Definition pow_approx (fuel : nat) (base exp : float) : option float :=
  if fle base zero then Some zero
  else
    match log_approx fuel base with
    | None => None
    | Some l => exp_approx fuel (fmul exp l)
    end.

(** [while (x > PI) x -= 2.0f * PI;] and [while (x < -PI) x += 2.0f * PI;] *)
Fixpoint turn_down (fuel : nat) (x : float) : option float :=
  match fuel with
  | O => None
  | S f => if flt PI x then turn_down f (fsub x (fmul two PI)) else Some x
  end.

Fixpoint turn_up (fuel : nat) (x : float) : option float :=
  match fuel with
  | O => None
  | S f => if flt x (fneg PI) then turn_up f (fadd x (fmul two PI)) else Some x
  end.

Definition reduce (fuel : nat) (x : float) : option float :=
  match turn_down fuel x with
  | None => None
  | Some x => turn_up fuel x
  end.

Definition sin_approx (fuel : nat) (x : float) : option float :=
  match reduce fuel x with
  | None => None
  | Some x =>
      let x2 := fmul x x in
      let t1 := fdiv one (of_int 5040) in
      let t2 := fsub (fdiv one (of_int 120)) (fmul x2 t1) in
      let t3 := fsub (fdiv one (of_int 6)) (fmul x2 t2) in
      Some (fmul x (fsub one (fmul x2 t3)))
  end.

Definition cos_approx (fuel : nat) (x : float) : option float :=
  match reduce fuel x with
  | None => None
  | Some x =>
      let x2 := fmul x x in
      let t1 := fdiv one (of_int 720) in
      let t2 := fsub (fdiv one (of_int 24)) (fmul x2 t1) in
      let t3 := fsub (fdiv one two) (fmul x2 t2) in
      Some (fsub one (fmul x2 t3))
  end.
