(* ===== verification/FloatTerm.v ===== *)
(** Which loops of math.c end. *)

From Stdlib Require Import Floats.SpecFloat.
From S2P Require Import Prelude FloatMath.

Abbreviation valid := (valid_binary 24 128).

Lemma fexp_eq e : fexp 24 128 e = Z.max (e - 24) (-149).
Proof. reflexivity. Qed.

(** A finite number has a 24-bit mantissa, or the least exponent. *)
Lemma valid_finite s m e :
  valid (S754_finite s m e) = true ↔
  (Zpos (digits2_pos m) ≤ 24 ∧ -149 ≤ e ≤ 104) ∧ (Zpos (digits2_pos m) = 24 ∨ e = -149).
Proof.
  cbn [valid_binary]. unfold bounded, canonical_mantissa. rewrite andb_true_iff, Z.eqb_eq, Z.leb_le, fexp_eq. lia.
Qed.

Lemma digits_xO m : digits2_pos m~0 = Pos.succ (digits2_pos m).
Proof. reflexivity. Qed.

(** The distance of the rounding shift is known. *)
Ltac normal_shift k := match goal with |- context [Z.max ?a ?b - ?c] => replace (Z.max a b - c) with k by lia end.

(** Rounding a mantissa of at most 24 bits, shifted up by 23 or 22 places, shifts
    it back. *)
Lemma half_exact s m e :
  digits2_pos m = 24%positive → -148 ≤ e ≤ 104 → fmul (S754_finite s m e) half = S754_finite s m (e - 1).
Proof.
  intros Hd He. change half with (S754_finite false 8388608 (-24)). unfold fmul, SFmul. rewrite xorb_false_r.
  rewrite Pos.mul_comm. change (8388608 * m)%positive with (m~0~0~0~0~0~0~0~0~0~0~0~0~0~0~0~0~0~0~0~0~0~0~0)%positive.
  unfold binary_round_aux, shr_fexp. cbn [Zdigits2]. rewrite !digits_xO, Hd. rewrite fexp_eq.
  normal_shift 23. cbn [shr shr_record_of_loc SpecFloat.iter_pos shr_1 orb loc_of_shr_record shr_m round_nearest_even Zdigits2].
  rewrite Hd, fexp_eq. normal_shift 0. cbn [shr shr_m].
  rewrite (proj2 (Z.leb_le (e + -24 + 23) (128 - 24))) by lia. f_equal. lia.
Qed.

Lemma double_exact m e :
  digits2_pos m = 24%positive → -149 ≤ e ≤ 103 → fmul (S754_finite false m e) two = S754_finite false m (e + 1).
Proof.
  intros Hd He. change two with (S754_finite false 8388608 (-22)). unfold fmul, SFmul.
  rewrite Pos.mul_comm. change (8388608 * m)%positive with (m~0~0~0~0~0~0~0~0~0~0~0~0~0~0~0~0~0~0~0~0~0~0~0)%positive.
  unfold binary_round_aux, shr_fexp. cbn [Zdigits2]. rewrite !digits_xO, Hd. rewrite fexp_eq.
  normal_shift 23. cbn [shr shr_record_of_loc SpecFloat.iter_pos shr_1 orb loc_of_shr_record shr_m round_nearest_even Zdigits2].
  rewrite Hd, fexp_eq. normal_shift 0. cbn [shr shr_m].
  rewrite (proj2 (Z.leb_le (e + -22 + 23) (128 - 24))) by lia. cbn [xorb]. f_equal. lia.
Qed.

Lemma double_subnormal m :
  Zpos (digits2_pos m) < 24 → fmul (S754_finite false m (-149)) two = S754_finite false m~0 (-149).
Proof.
  intros Hd. change two with (S754_finite false 8388608 (-22)). unfold fmul, SFmul.
  rewrite Pos.mul_comm. change (8388608 * m)%positive with (m~0~0~0~0~0~0~0~0~0~0~0~0~0~0~0~0~0~0~0~0~0~0~0)%positive.
  unfold binary_round_aux, shr_fexp. cbn [Zdigits2]. rewrite !digits_xO, fexp_eq.
  normal_shift 22.
  cbn [shr shr_record_of_loc SpecFloat.iter_pos shr_1 orb loc_of_shr_record shr_m round_nearest_even Zdigits2].
  rewrite digits_xO, fexp_eq. normal_shift 0.
  reflexivity.
Qed.

Lemma digits_lower m : 2 ^ (Zpos (digits2_pos m) - 1) ≤ Zpos m.
Proof.
  induction m as [m IH|m IH|]; [| |reflexivity]; change (digits2_pos _) with (Pos.succ (digits2_pos m));
    rewrite Pos2Z.inj_succ; replace (Z.succ (Zpos (digits2_pos m)) - 1) with (Z.succ (Zpos (digits2_pos m) - 1)) by lia;
    rewrite Z.pow_succ_r by lia; lia.
Qed.

Lemma mantissa_lt m c : Pos.compare_cont Eq m c = Lt → Zpos m < Zpos c.
Proof. intros H. exact (proj1 (Pos.compare_lt_iff m c) H). Qed.

(** ** Comparisons with constants *)

Lemma one_lt m e : flt one (S754_finite false m e) = true → -23 ≤ e.
Proof.
  change one with (S754_finite false 8388608 (-23)). unfold flt, SFltb, SFcompare.
  destruct (Z.compare_spec (-23) e); [lia|lia|discriminate].
Qed.

Lemma two_le m e : fle two (S754_finite false m e) = true → -22 ≤ e.
Proof.
  change two with (S754_finite false 8388608 (-22)). unfold fle, SFleb, SFcompare.
  destruct (Z.compare_spec (-22) e); [lia|lia|discriminate].
Qed.

Lemma lt_one m e : digits2_pos m = 24%positive → flt (S754_finite false m e) one = true → e < -23.
Proof.
  change one with (S754_finite false 8388608 (-23)). unfold flt, SFltb, SFcompare. intros Hd.
  destruct (Z.compare_spec e (-23)) as [->|H|H]; [|lia|discriminate].
  destruct (Pos.compare_cont Eq m 8388608) eqn:E; [discriminate| |discriminate]. intros _. exfalso.
  pose proof (digits_lower m) as Hm. rewrite Hd in Hm. apply mantissa_lt in E. apply (Z.lt_irrefl (Zpos m)).
  eapply Z.lt_le_trans; [exact E|exact Hm].
Qed.

Lemma le_20 m e : flt (of_int 20) (S754_finite false m e) = false → e ≤ -19.
Proof.
  change (of_int 20) with (S754_finite false 10485760 (-19)). unfold flt, SFltb, SFcompare.
  destruct (Z.compare_spec (-19) e); [lia|discriminate|lia].
Qed.

(** ** The loops *)

Lemma exp_scale_ends fuel : ∀ m e k,
  digits2_pos m = 24%positive ∨ e < -23 → -149 ≤ e ≤ 104 → e + 25 ≤ Z.of_nat fuel → (1 ≤ fuel)%nat →
  is_Some (exp_scale fuel (S754_finite false m e) k).
Proof.
  induction fuel as [|f IH]; intros m e k Hd He Hf H1; [lia|]. cbn [exp_scale].
  destruct (flt one (S754_finite false m e)) eqn:E; [|by eexists]. apply one_lt in E. destruct Hd as [Hd|]; [|lia].
  rewrite half_exact by (done || lia). apply IH; [by left|lia|lia|lia].
Qed.

Lemma log_down_ends fuel : ∀ m e k,
  digits2_pos m = 24%positive ∨ e < -22 → -149 ≤ e ≤ 104 → e + 24 ≤ Z.of_nat fuel → (1 ≤ fuel)%nat →
  ∃ m' e' k', log_down fuel (S754_finite false m e) k = Some (S754_finite false m' e', k')
    ∧ (m' = m ∧ e' = e ∨ digits2_pos m' = 24%positive ∧ -23 ≤ e' ≤ 104).
Proof.
  induction fuel as [|f IH]; intros m e k Hd He Hf H1; [lia|]. cbn [log_down].
  destruct (fle two (S754_finite false m e)) eqn:E; [|exists m, e, k; split; [done|by left]]. apply two_le in E. destruct Hd as [Hd|]; [|lia].
  rewrite half_exact by (done || lia). destruct (IH m (e - 1) (k + 1)) as (m' & e' & k' & -> & Hr); [by left|lia|lia|lia|].
  exists m', e', k'. split; [done|]. right. destruct Hr as [[-> ->]|Hr]; [split; [done|lia]|done].
Qed.

Lemma log_up_ends fuel : ∀ m e k,
  valid (S754_finite false m e) = true → 2 ≤ Z.of_nat fuel + Zpos (digits2_pos m) + e → (1 ≤ fuel)%nat →
  is_Some (log_up fuel (S754_finite false m e) k).
Proof.
  induction fuel as [|f IH]; intros m e k Hv Hf H1; [lia|]. cbn [log_up].
  destruct (flt (S754_finite false m e) one) eqn:E; [|by eexists]. pose proof Hv as Hv'. apply valid_finite in Hv' as [Hb Hd].
  destruct (decide (digits2_pos m = 24%positive)) as [H24|H24].
  - apply lt_one in E; [|done]. rewrite double_exact by (done || lia). rewrite H24 in *. apply IH; [|lia|lia].
    apply valid_finite. rewrite H24. split; [lia|by left].
  - assert (e = -149) as -> by (destruct Hd; [lia|done]). rewrite double_subnormal by lia. apply IH; [|rewrite digits_xO; lia|lia].
    apply valid_finite. rewrite digits_xO. split; [lia|by right].
Qed.

Lemma exp_ends x : valid x = true → is_Some (exp_approx 6 x).
Proof.
  intros Hv. unfold exp_approx. set (a := if flt x zero then fneg x else x).
  set (b := if flt (of_int 20) a then of_int 20 else a). assert (Hs : is_Some (exp_scale 6 b 0)).
  { assert (Ha : valid a = true) by (unfold a; destruct (flt x zero); [by destruct x|done]).
    unfold b. destruct (flt (of_int 20) a) eqn:E; [vm_compute; by eexists|].
    destruct a as [s|s| |s m e]; [vm_compute; by eexists| |vm_compute; by eexists|].
    - destruct s; [vm_compute; by eexists|discriminate E].
    - apply valid_finite in Ha as [Hb Hd]. destruct s; [cbn; by eexists|]. apply le_20 in E.
      apply exp_scale_ends; [destruct Hd; [left; lia|right; lia]|lia|lia|lia]. }
  destruct Hs as [[y k] ->]. by eexists.
Qed.

Lemma log_ends x : valid x = true → x ≠ S754_infinity false → is_Some (log_approx 151 x).
Proof.
  intros Hv Hx. unfold log_approx. destruct x as [s|s| |s m e].
  - destruct s; vm_compute; by eexists.
  - destruct s; [vm_compute; by eexists|exfalso; apply Hx; reflexivity].
  - vm_compute; by eexists.
  - destruct s; [cbn; by eexists|]. cbn [fle SFleb SFcompare zero]. pose proof Hv as Hv'. apply valid_finite in Hv' as [Hb Hd].
    destruct (log_down_ends 151 m e 0) as (m' & e' & k' & -> & Hr); [destruct Hd; [left; lia|right; lia]|lia|lia|lia|].
    assert (Hv' : valid (S754_finite false m' e') = true ∧ -148 ≤ Zpos (digits2_pos m') + e').
    { destruct Hr as [[-> ->]|[H24 He]]; [split; [done|lia]|]. rewrite H24. split; [|lia]. apply valid_finite. rewrite H24. split; [lia|by left]. }
    destruct (log_up_ends 151 m' e' k' (proj1 Hv')) as [[y k''] ->]; [lia|lia|]. by eexists.
Qed.

Lemma log_infinity fuel k : log_down fuel (S754_infinity false) k = None.
Proof. revert k. induction fuel as [|f IH]; intros k; [done|]. apply (IH (k + 1)). Qed.

(** Where the spacing of floats exceeds 4 pi, subtracting 2 pi does nothing. *)
Lemma turn_stuck fuel x : flt PI x = true → fsub x (fmul two PI) = x → turn_down fuel x = None.
Proof. intros H1 H2. induction fuel as [|f IH]; [done|]. cbn [turn_down]. by rewrite H1, H2. Qed.

(** C24 [termination]. Which loops of the floating-point library end: for every
    float, [exp_approx] returns after at most 5 halvings, and [log_approx] after at
    most 150 halvings and doublings, except at plus infinity, where it never
    returns; [sin_approx] and [cos_approx] never return at 2^28. *)
Theorem float_loops_end x :
  valid x = true →
  is_Some (exp_approx 6 x)
  ∧ (x ≠ S754_infinity false → is_Some (log_approx 151 x))
  ∧ (∀ fuel, log_approx fuel (S754_infinity false) = None)
  ∧ (∀ fuel, sin_approx fuel (of_int (2 ^ 28)) = None ∧ cos_approx fuel (of_int (2 ^ 28)) = None).
Proof.
  intros Hv. split_and!; [by apply exp_ends|by apply log_ends|..]; intros fuel.
  - unfold log_approx. cbn [fle SFleb SFcompare zero]. by rewrite log_infinity.
  - unfold sin_approx, cos_approx, reduce. by rewrite turn_stuck by (vm_compute; reflexivity).
Qed.

Lemma float_loops_end_witness : is_Some (exp_approx 6 (of_int 3)) ∧ is_Some (log_approx 151 (of_int 3)).
Proof.
  destruct (float_loops_end (of_int 3) eq_refl) as (H1 & H2 & _). split; [exact H1|apply H2; discriminate].
Defined.
