(* ===== verification/Llm.v ===== *)
(** user/lib/llm.c, the model part: the layout of the weights, the sizes of the
    work arrays, and the forward pass of the transformer.

    A float pointer is an array and an index into it.  Every access is checked:
    one outside its array is [Panic "fault"]. *)

From stdpp Require Import functions.
From Stdlib Require Import Floats.SpecFloat.
From S2P Require Import Prelude Machine FloatMath.

(** llm.h *)
Definition MODEL_MAGIC : Z := 0x464e494c.

Definition MODEL_VERSION : Z := 3.

Record config := Config {
  dim : Z;
  hidden_dim : Z;
  n_layers : Z;
  n_heads : Z;
  n_kv_heads : Z;
  vocab_size : Z;
  seq_len : Z;
  rope_theta : float;
  rms_norm_eps : float;
  shared_classifier : bool;
}.

(** The pointers into [weight_data], as offsets in floats. *)
Record weights := Wts {
  wq : Z;
  wk : Z;
  wv : Z;
  wo : Z;
  w1 : Z;
  w2 : Z;
  w3 : Z;
  rms_att_weight : Z;
  rms_ffn_weight : Z;
  rms_final_weight : Z;
  wcls : Z;
  token_embedding_table : Z;
}.

(** ** Sizes; [None] is [exit(1)] *)

Definition checked_mul (a b : Z) : option Z :=
  let a := u64 a in
  let b := u64 b in
  if negb (a =? 0) && ((2 ^ 64 - 1) / a <? b) then None else Some (u64 (a * b)).

Definition checked_bytes (count item_size : Z) : option Z :=
  bytes ← checked_mul count item_size;
  if 0xffffffff <? bytes then None else Some bytes.

Definition head_size (p : config) : Z := Z.quot (dim p) (n_heads p).

Definition kv_dim (p : config) : Z := n_kv_heads p * head_size p.

Definition mul3 (a b c : Z) : option Z := n ← checked_mul a b; checked_mul n c.

Definition map_weights (p : config) : option weights :=
  let layers := u64 (n_layers p) in
  let wq := 0 in
  n ← mul3 layers (dim p) (dim p);
  let wk := wq + n in
  n ← mul3 layers (dim p) (kv_dim p);
  let wv := wk + n in
  n ← mul3 layers (dim p) (kv_dim p);
  let wo := wv + n in
  n ← mul3 layers (dim p) (dim p);
  let w1 := wo + n in
  n ← mul3 layers (hidden_dim p) (dim p);
  let w2 := w1 + n in
  n ← mul3 layers (dim p) (hidden_dim p);
  let w3 := w2 + n in
  n ← mul3 layers (hidden_dim p) (dim p);
  let att := w3 + n in
  n ← checked_mul layers (dim p);
  let ffn := att + n in
  n ← checked_mul layers (dim p);
  let final := ffn + n in
  let ptr := final + dim p in
  n ← (if shared_classifier p then Some 0 else checked_mul (vocab_size p) (dim p));
  let emb := ptr + n in
  Some (Wts wq wk wv wo w1 w2 w3 att ffn final (if shared_classifier p then emb else ptr) emb).

Definition expected_weight_count (p : config) : option Z :=
  let layers := u64 (n_layers p) in
  n1 ← mul3 layers (dim p) (dim p);
  n2 ← mul3 layers (dim p) (kv_dim p);
  n3 ← mul3 layers (dim p) (kv_dim p);
  n4 ← mul3 layers (dim p) (dim p);
  n5 ← mul3 layers (hidden_dim p) (dim p);
  n6 ← mul3 layers (dim p) (hidden_dim p);
  n7 ← mul3 layers (hidden_dim p) (dim p);
  n8 ← checked_mul layers (dim p);
  n9 ← checked_mul layers (dim p);
  n10 ← (if shared_classifier p then Some 0 else checked_mul (vocab_size p) (dim p));
  n11 ← checked_mul (vocab_size p) (dim p);
  Some (foldl (λ n m, u64 (n + m)) 0 [n1; n2; n3; n4; n5; n6; n7; n8; n9; dim p; n10; n11]).

(** The arrays of the model: the weights and those of [llm_state_t]. *)
Inductive array :=
| Weights | Sx | Sxb | Sxb2 | Shb | Shb2 | Sq | Satt | Slogits | Skey | Svalue.

#[export] Instance array_eq_dec : EqDecision array.
Proof. solve_decision. Defined.

(** The number of floats [alloc_state] asks for, with the bytes of every request
    in the order of the calls. *)
Definition alloc_state (p : config) : option (list (array * Z)) :=
  n ← mul3 (n_layers p) (seq_len p) (kv_dim p);
  let sizes := [(Sx, dim p); (Sxb, dim p); (Sxb2, dim p); (Shb, hidden_dim p); (Shb2, hidden_dim p); (Sq, dim p);
                (Satt, u64 (u64 (n_heads p) * seq_len p)); (Slogits, vocab_size p); (Skey, n); (Svalue, n)] in
  mapM (λ '(a, k), b ← checked_bytes k 4; Some (a, b)) sizes.

(** The checks of [llm_model_load] on the header. *)
Definition config_accepted (p : config) : bool :=
  negb ((dim p <=? 0) || (n_heads p <=? 0) || negb (Z.rem (dim p) (n_heads p) =? 0)
        || (n_kv_heads p <=? 0) || negb (Z.rem (n_heads p) (n_kv_heads p) =? 0)).

(** ** The forward pass *)

Abbreviation arrays := (array → list float).
Abbreviation F := (M arrays).
Abbreviation ptr := (array * Z)%type.

Definition padd (p : ptr) (n : Z) : ptr := (p.1, p.2 + n).

(** [p[i]] *)
Definition rd (p : ptr) (i : Z) : F float := λ s,
  let o := p.2 + i in
  match (if 0 <=? o then s p.1 !! Z.to_nat o else None) with
  | Some v => Ok v s
  | None => Panic "fault"
  end.

(** [p[i] = v] *)
Definition wr (p : ptr) (i : Z) (v : float) : F unit := λ s,
  let o := p.2 + i in
  if (0 <=? o) && (o <? Z.of_nat (length (s p.1))) then Ok tt (<[p.1 := <[Z.to_nat o := v]> (s p.1)]> s) else Panic "fault".

(** The result of a function with loops of its own. *)
Definition lift (o : option float) : F float :=
  match o with
  | Some x => ret x
  | None => nofuel
  end.

(** A loop with an accumulator. *)
Fixpoint fold_each (l : list Z) (body : Z → float → F float) (a : float) : F float :=
  match l with
  | [] => ret a
  | i :: l' => let! a := body i a in fold_each l' body a
  end.

Definition range (n : Z) : list Z := seqZ 0 n.

Definition rmsnorm (out x weight : ptr) (size : Z) (eps : float) : F unit :=
  let! ss := fold_each (range size) (λ i ss,
    let! a := rd x i in
    let! b := rd x i in
    ret (fadd ss (fmul a b))) zero in
  let ss := fdiv one (sqrt_approx (fadd (fdiv ss (of_int size)) eps)) in
  for_each (range size) (λ i,
    let! a := rd weight i in
    let! b := rd x i in
    wr out i (fmul a (fmul ss b))).

Definition matmul (out x w : ptr) (n d : Z) : F unit :=
  for_each (range d) (λ i,
    let! val := fold_each (range n) (λ j val,
      let! a := rd w (u64 (i * n + j)) in
      let! b := rd x j in
      ret (fadd val (fmul a b))) zero in
    wr out i val).

(** math.c: [softmax] *)
Definition softmax (fuel : nat) (x : ptr) (n : Z) : F unit :=
  let! x0 := rd x 0 in
  let! max := fold_each (seqZ 1 (n - 1)) (λ i max,
    let! a := rd x i in
    ret (if flt max a then a else max)) x0 in
  let! sum := fold_each (range n) (λ i sum,
    let! a := rd x i in
    let! e := lift (exp_approx fuel (fsub a max)) in
    wr x i e ;;;
    let! e := rd x i in
    ret (fadd sum e)) zero in
  for_each (range n) (λ i, let! a := rd x i in wr x i (fdiv a sum)).

Section Forward.

Context (fuel : nat) (p : config) (w : weights).

(** The rotation of the query and the key, two components at a time. *)
Definition rotate_pair (k : ptr) (pos h : Z) : F unit :=
  let head_dim := Z.rem h (head_size p) in
  let! pw := lift (pow_approx fuel (rope_theta p) (fdiv (of_int head_dim) (of_int (head_size p)))) in
  let freq := fdiv one pw in
  let val := fmul (of_int pos) freq in
  let! fcr := lift (cos_approx fuel val) in
  let! fci := lift (sin_approx fuel val) in
  let rotn := if h <? kv_dim p then 2 else 1 in
  for_each (range rotn) (λ vi,
    let vec := if vi =? 0 then (Sq, 0) else k in
    let! v0 := rd vec h in
    let! v1 := rd vec (h + 1) in
    wr vec h (fsub (fmul v0 fcr) (fmul v1 fci)) ;;;
    wr vec (h + 1) (fadd (fmul v0 fci) (fmul v1 fcr))).

(** The row of position [t] and head [h] in a cache. *)
Definition cache_row (c : array) (loff t h : Z) : ptr :=
  let kv_mul := Z.quot (n_heads p) (n_kv_heads p) in
  padd (padd (c, loff) (u64 (t * kv_dim p))) (Z.quot h kv_mul * head_size p).

Definition attention (loff pos h : Z) : F unit :=
  let q := padd (Sq, 0) (h * head_size p) in
  let att := padd (Satt, 0) (u64 (h * seq_len p)) in
  let xb := padd (Sxb, 0) (h * head_size p) in
  for_each (range (pos + 1)) (λ t,
    let kt := cache_row Skey loff t h in
    let! score := fold_each (range (head_size p)) (λ i score,
      let! a := rd q i in
      let! b := rd kt i in
      ret (fadd score (fmul a b))) zero in
    wr att t (fdiv score (sqrt_approx (of_int (head_size p))))) ;;;
  softmax fuel att (pos + 1) ;;;
  for_each (range (head_size p)) (λ i, wr xb i zero) ;;;
  for_each (range (pos + 1)) (λ t,
    let vt := cache_row Svalue loff t h in
    let! a := rd att t in
    for_each (range (head_size p)) (λ i,
      let! x := rd xb i in
      let! v := rd vt i in
      wr xb i (fadd x (fmul a v)))).

(** [x[i] += y[i]] *)
Definition accumulate (x y : ptr) (n : Z) : F unit :=
  for_each (range n) (λ i,
    let! a := rd x i in
    let! b := rd y i in
    wr x i (fadd a b)).

(** The gate of the feed-forward network. *)
Definition swiglu : F unit :=
  for_each (range (hidden_dim p)) (λ i,
    let! val := rd (Shb, 0) i in
    let! e := lift (exp_approx fuel (fneg val)) in
    let val := fmul val (fdiv one (fadd one e)) in
    let! b := rd (Shb2, 0) i in
    wr (Shb, 0) i (fmul val b)).

Definition layer (pos l : Z) : F unit :=
  let d := dim p in
  let loff := u64 (u64 (l * seq_len p) * kv_dim p) in
  let k := padd (Skey, loff) (u64 (pos * kv_dim p)) in
  let v := padd (Svalue, loff) (u64 (pos * kv_dim p)) in
  rmsnorm (Sxb, 0) (Sx, 0) (Weights, rms_att_weight w + u64 (l * d)) d (rms_norm_eps p) ;;;
  matmul (Sq, 0) (Sxb, 0) (Weights, wq w + u64 (u64 (l * d) * d)) d d ;;;
  matmul k (Sxb, 0) (Weights, wk w + u64 (u64 (l * d) * kv_dim p)) d (kv_dim p) ;;;
  matmul v (Sxb, 0) (Weights, wv w + u64 (u64 (l * d) * kv_dim p)) d (kv_dim p) ;;;
  for_each (filter (λ h, Z.even h) (range d)) (rotate_pair k pos) ;;;
  for_each (range (n_heads p)) (attention loff pos) ;;;
  matmul (Sxb2, 0) (Sxb, 0) (Weights, wo w + u64 (u64 (l * d) * d)) d d ;;;
  accumulate (Sx, 0) (Sxb2, 0) d ;;;
  rmsnorm (Sxb, 0) (Sx, 0) (Weights, rms_ffn_weight w + u64 (l * d)) d (rms_norm_eps p) ;;;
  matmul (Shb, 0) (Sxb, 0) (Weights, w1 w + u64 (u64 (l * hidden_dim p) * d)) d (hidden_dim p) ;;;
  matmul (Shb2, 0) (Sxb, 0) (Weights, w3 w + u64 (u64 (l * hidden_dim p) * d)) d (hidden_dim p) ;;;
  swiglu ;;;
  matmul (Sxb, 0) (Shb, 0) (Weights, w2 w + u64 (u64 (l * d) * hidden_dim p)) (hidden_dim p) d ;;;
  accumulate (Sx, 0) (Sxb, 0) d.

Definition llm_forward (token pos : Z) : F unit :=
  for_each (range (dim p)) (λ i,
    let! v := rd (Weights, token_embedding_table w + u64 (token * dim p)) i in
    wr (Sx, 0) i v) ;;;
  for_each (range (n_layers p)) (layer pos) ;;;
  rmsnorm (Sx, 0) (Sx, 0) (Weights, rms_final_weight w) (dim p) (rms_norm_eps p) ;;;
  matmul (Slogits, 0) (Sx, 0) (Weights, wcls w) (dim p) (vocab_size p).

End Forward.
