(* ===== verification/LlmSpec.v ===== *)
(** The forward pass stays inside its arrays. *)

From stdpp Require Import functions.
From Stdlib Require Import Floats.SpecFloat.
From S2P Require Import Prelude Machine FloatMath Llm.

(** ** Accesses inside arrays of known sizes *)

Section Bounds.

Context (sz : array → Z).

Definition shaped (s : arrays) : Prop := ∀ a, Z.of_nat (length (s a)) = sz a.

(** The computation accesses the arrays inside their bounds and keeps their
    sizes, as long as it runs. *)
Definition keeps {A} (m : F A) : Prop := ∀ s, shaped s →
  match m s with
  | Ok _ s' => shaped s'
  | NoFuel => True
  | _ => False
  end.

(** [n] elements from [p] on lie in the array. *)
Definition within (p : ptr) (n : Z) : Prop := 0 ≤ p.2 ∧ p.2 + n ≤ sz p.1.

Lemma keeps_ret {A} (a : A) : keeps (ret a).
Proof. by intros s Hs. Qed.

Lemma keeps_bind {A C} (m : F A) (k : A → F C) : keeps m → (∀ a, keeps (k a)) → keeps (bind m k).
Proof.
  intros Hm Hk s Hs. specialize (Hm s Hs). unfold bind. destruct (m s); [by apply Hk|done..].
Qed.

Lemma keeps_lift o : keeps (lift o).
Proof. intros t Ht. by destruct o. Qed.

Lemma keeps_rd p n i : within p n → 0 ≤ i < n → keeps (rd p i).
Proof.
  intros [H1 H2] Hi s Hs. unfold rd. rewrite (proj2 (Z.leb_le 0 (p.2 + i))) by lia.
  destruct (s p.1 !! Z.to_nat (p.2 + i)) eqn:E; [done|]. apply lookup_ge_None in E. specialize (Hs p.1). lia.
Qed.

Lemma keeps_wr p n i v : within p n → 0 ≤ i < n → keeps (wr p i v).
Proof.
  intros [H1 H2] Hi s Hs. unfold wr. pose proof (Hs p.1).
  rewrite (proj2 (Z.leb_le 0 (p.2 + i))), (proj2 (Z.ltb_lt (p.2 + i) (Z.of_nat (length (s p.1))))) by lia. cbn [andb].
  intros a. destruct (decide (a = p.1)) as [->|Hne]; [rewrite fn_lookup_insert, length_insert; apply Hs|].
  rewrite fn_lookup_insert_ne by done. apply Hs.
Qed.

Lemma keeps_for (l : list Z) (body : Z → F unit) : (∀ i, i ∈ l → keeps (body i)) → keeps (for_each l body).
Proof.
  induction l as [|i l IH]; intros Hb; cbn [for_each]; [apply keeps_ret|].
  apply keeps_bind; [apply Hb, list_elem_of_here|]. intros _. apply IH. intros j Hj. apply Hb. by right.
Qed.

Lemma keeps_fold (l : list Z) (body : Z → float → F float) a : (∀ i a, i ∈ l → keeps (body i a)) → keeps (fold_each l body a).
Proof.
  revert a. induction l as [|i l IH]; intros a Hb; cbn [fold_each]; [apply keeps_ret|].
  apply keeps_bind; [apply Hb, list_elem_of_here|]. intros b. apply IH. intros j c Hj. apply Hb. by right.
Qed.

Lemma in_range i n : i ∈ range n ↔ 0 ≤ i < n.
Proof. unfold range. rewrite elem_of_seqZ. lia. Qed.

Lemma within_le p n n' : within p n → n' ≤ n → within p n'.
Proof. unfold within. lia. Qed.

End Bounds.

(** Row [i], column [j] of a matrix with rows of [n]. *)
Lemma row_col i j d n : 0 ≤ i < d → 0 ≤ j < n → 0 ≤ i * n + j < d * n.
Proof.
  intros Hi Hj. assert (i * n ≤ (d - 1) * n) by (apply Z.mul_le_mono_nonneg_r; lia).
  assert (0 ≤ i * n) by (apply Z.mul_nonneg_nonneg; lia). lia.
Qed.

(** Loops and accesses, with the bounds left as goals. *)
Ltac keep :=
  repeat first
    [ apply keeps_ret | apply keeps_lift
    | apply keeps_bind; [|intros ?]
    | apply keeps_for; intros ? ?%in_range
    | apply keeps_fold; intros ? ? ?%in_range
    | eapply keeps_rd; [eassumption|lia]
    | eapply keeps_wr; [eassumption|lia] ].

Section Routines.

Context (sz : array → Z).

Lemma rmsnorm_keeps out x w n eps : within sz out n → within sz x n → within sz w n → keeps sz (rmsnorm out x w n eps).
Proof. intros H1 H2 H3. unfold rmsnorm. keep. Qed.

Lemma matmul_keeps out x w n d :
  within sz out d → within sz x n → within sz w (d * n) → d * n < 2 ^ 64 → keeps sz (matmul out x w n d).
Proof.
  intros H1 H2 H3 Hlt. unfold matmul. keep. eapply keeps_rd; [exact H3|]. rewrite u64_id; pose proof (row_col i i0 d n ltac:(lia) ltac:(lia)); lia.
Qed.

Lemma accumulate_keeps x y n : within sz x n → within sz y n → keeps sz (accumulate x y n).
Proof. intros H1 H2. unfold accumulate. keep. Qed.

Lemma softmax_keeps fuel x n : within sz x n → 0 < n → keeps sz (softmax fuel x n).
Proof.
  intros H1 Hn. unfold softmax. keep.
  apply keeps_fold. intros i b Hi%elem_of_seqZ. keep.
Qed.

End Routines.

(** ** The sizes of the arrays *)

(** The checks of the loader, and what it leaves out: counts that are not
    negative, an even head size, and weights whose number fits 64 bits. *)
Record config_ok (p : config) : Prop := {
  co_accepted : config_accepted p = true;
  co_ranges : dim p < 2 ^ 31 ∧ 0 ≤ hidden_dim p < 2 ^ 31 ∧ 0 ≤ n_layers p < 2 ^ 31 ∧ n_heads p < 2 ^ 31
              ∧ 0 ≤ vocab_size p < 2 ^ 31 ∧ 0 ≤ seq_len p < 2 ^ 31;
  co_even : Z.even (head_size p) = true;
}.

Definition weight_total (p : config) : Z :=
  let L := n_layers p in let d := dim p in let h := hidden_dim p in let kv := kv_dim p in
  L * d * d + L * d * kv + L * d * kv + L * d * d + L * h * d + L * d * h + L * h * d + L * d + L * d + d
  + (if shared_classifier p then 0 else vocab_size p * d) + vocab_size p * d.

Definition array_size (p : config) (a : array) : Z :=
  match a with
  | Weights => weight_total p
  | Sx | Sxb | Sxb2 | Sq => dim p
  | Shb | Shb2 => hidden_dim p
  | Satt => n_heads p * seq_len p
  | Slogits => vocab_size p
  | Skey | Svalue => n_layers p * seq_len p * kv_dim p
  end.

(** How the dimensions relate. *)
Lemma dims p : config_ok p →
  0 < head_size p ∧ 0 < n_heads p ∧ dim p = n_heads p * head_size p ∧ 0 < n_kv_heads p
  ∧ n_heads p = n_kv_heads p * Z.quot (n_heads p) (n_kv_heads p) ∧ 0 < Z.quot (n_heads p) (n_kv_heads p)
  ∧ 0 < kv_dim p ≤ dim p.
Proof.
  intros [Ha (H1 & H2 & H3 & H4 & H5 & H6) _]. unfold config_accepted in Ha.
  rewrite negb_true_iff, !orb_false_iff, !negb_false_iff, !Z.eqb_eq, !Z.leb_gt in Ha. destruct Ha as ((((Hd & Hn) & Hdn) & Hk) & Hnk).
  pose proof (Z.quot_rem (dim p) (n_heads p) ltac:(lia)) as E1. pose proof (Z.quot_rem (n_heads p) (n_kv_heads p) ltac:(lia)) as E2.
  rewrite Hdn, Z.add_0_r in E1. rewrite Hnk, Z.add_0_r in E2. unfold kv_dim. fold (head_size p) in E1.
  assert (0 < head_size p) by nia. assert (0 < Z.quot (n_heads p) (n_kv_heads p)) by nia. split_and!; try done; try nia.
Qed.

Lemma checked_mul_Some a b n : 0 ≤ a < 2 ^ 64 → 0 ≤ b < 2 ^ 64 → checked_mul a b = Some n → n = a * b ∧ a * b < 2 ^ 64.
Proof.
  intros Ha Hb. unfold checked_mul. rewrite !u64_id by done. destruct (Z.eqb_spec a 0) as [->|Hne]; cbn [negb andb].
  - intros [= <-]. done.
  - destruct (Z.ltb_spec ((2 ^ 64 - 1) / a) b) as [|Hle]; [done|]. intros [= <-].
    assert (a * b ≤ 2 ^ 64 - 1).
    { etransitivity; [apply Z.mul_le_mono_nonneg_l; [lia|exact Hle]|]. apply Z.mul_div_le. lia. }
    rewrite u64_id by nia. split; [done|lia].
Qed.

Lemma mul3_Some a b c n :
  0 ≤ a < 2 ^ 64 → 0 ≤ b < 2 ^ 64 → 0 ≤ c < 2 ^ 64 → mul3 a b c = Some n → n = a * b * c ∧ a * b * c < 2 ^ 64.
Proof.
  intros Ha Hb Hc. unfold mul3. destruct (checked_mul a b) as [k|] eqn:E; [cbn|done]. intros Hn.
  apply checked_mul_Some in E as [-> Hk]; [|done..]. apply checked_mul_Some in Hn; [done|nia|done].
Qed.

Lemma checked_bytes_Some k b : 0 ≤ k < 2 ^ 64 → checked_bytes k 4 = Some b → b = 4 * k.
Proof.
  intros Hk. unfold checked_bytes. destruct (checked_mul k 4) as [n|] eqn:E; [cbn|done].
  apply checked_mul_Some in E as [-> _]; [|done|lia]. destruct (0xffffffff <? k * 4); [done|]. intros [= <-]. lia.
Qed.

(** The tensors follow each other in [weight_data]. *)
Record laid_out (p : config) (w : weights) : Prop := {
  lo_q : wq w = 0;
  lo_k : wk w = wq w + n_layers p * dim p * dim p;
  lo_v : wv w = wk w + n_layers p * dim p * kv_dim p;
  lo_o : wo w = wv w + n_layers p * dim p * kv_dim p;
  lo_1 : w1 w = wo w + n_layers p * dim p * dim p;
  lo_2 : w2 w = w1 w + n_layers p * hidden_dim p * dim p;
  lo_3 : w3 w = w2 w + n_layers p * dim p * hidden_dim p;
  lo_att : rms_att_weight w = w3 w + n_layers p * hidden_dim p * dim p;
  lo_ffn : rms_ffn_weight w = rms_att_weight w + n_layers p * dim p;
  lo_final : rms_final_weight w = rms_ffn_weight w + n_layers p * dim p;
  lo_emb : token_embedding_table w
           = rms_final_weight w + dim p + (if shared_classifier p then 0 else vocab_size p * dim p);
  lo_cls : wcls w = if shared_classifier p then token_embedding_table w else rms_final_weight w + dim p;
}.

(** None of the products wraps around. *)
Record products_fit (p : config) : Prop := {
  pf_dd : n_layers p * dim p * dim p < 2 ^ 64;
  pf_dk : n_layers p * dim p * kv_dim p < 2 ^ 64;
  pf_hd : n_layers p * hidden_dim p * dim p < 2 ^ 64;
  pf_dh : n_layers p * dim p * hidden_dim p < 2 ^ 64;
  pf_d : n_layers p * dim p < 2 ^ 64;
}.

Lemma obind_Some {A C} (x : A) (f : A → option C) : (Some x ≫= f) = f x.
Proof. done. Qed.

Lemma Some_inj {A} (x y : A) : Some x = Some y → x = y.
Proof. by injection 1. Qed.

Ltac take_mul H :=
  match type of H with
  | @mbind _ _ _ _ _ (Some _) = Some _ => rewrite obind_Some in H
  | @mbind _ _ _ _ _ (mul3 ?a ?b ?c) = Some _ =>
      let E := fresh "E" in let n := fresh "n" in
      destruct (mul3 a b c) as [n|] eqn:E; [|discriminate H];
      apply mul3_Some in E as [-> ?]; [|lia|lia|lia]; rewrite obind_Some in H
  | @mbind _ _ _ _ _ (checked_mul ?a ?b) = Some _ =>
      let E := fresh "E" in let n := fresh "n" in
      destruct (checked_mul a b) as [n|] eqn:E; [|discriminate H];
      apply checked_mul_Some in E as [-> ?]; [|lia|lia]; rewrite obind_Some in H
  end.

Lemma map_weights_laid p w : config_ok p → map_weights p = Some w → laid_out p w ∧ products_fit p.
Proof.
  intros Hok Hm. destruct (dims p Hok) as (D1 & D2 & D3 & D4 & D5 & D6 & D7). destruct (co_ranges p Hok) as (R1 & R2 & R3 & R4 & R5 & R6).
  unfold map_weights in Hm. cbv zeta in Hm. rewrite u64_id in Hm by lia. do 9 take_mul Hm.
  destruct (shared_classifier p) eqn:Es.
  - rewrite obind_Some in Hm. injection Hm as <-. split; split; cbn; rewrite ?Es; lia.
  - take_mul Hm. injection Hm as <-. split; split; cbn; rewrite ?Es; lia.
Qed.

Lemma laid_out_total p w : laid_out p w → token_embedding_table w + vocab_size p * dim p = weight_total p.
Proof. intros []. unfold weight_total. cbv zeta. destruct (shared_classifier p); lia. Qed.

Lemma sum_fits l : ∀ n,
  0 ≤ n → Forall (λ m, 0 ≤ m) l → n + foldr Z.add 0 l < 2 ^ 64 → foldl (λ n m, u64 (n + m)) n l = n + foldr Z.add 0 l.
Proof.
  induction l as [|m l IH]; intros n Hn Hl Hlt; cbn in *; [lia|]. apply Forall_cons in Hl as [Hm Hl].
  assert (0 ≤ foldr Z.add 0 l) by (clear -Hl; induction Hl; cbn; lia). rewrite u64_id by lia. rewrite IH by (done || lia). lia.
Qed.

Lemma expected_total p n :
  config_ok p → weight_total p < 2 ^ 64 → expected_weight_count p = Some n → n = weight_total p.
Proof.
  intros Hok Htot Hm. destruct (dims p Hok) as (D1 & D2 & D3 & D4 & D5 & D6 & D7). destruct (co_ranges p Hok) as (R1 & R2 & R3 & R4 & R5 & R6).
  unfold expected_weight_count in Hm. cbv zeta in Hm. rewrite u64_id in Hm by lia. do 9 take_mul Hm. unfold weight_total in *. cbv zeta in *.
  assert (0 ≤ n_layers p * dim p * dim p ∧ 0 ≤ n_layers p * dim p * kv_dim p ∧ 0 ≤ n_layers p * hidden_dim p * dim p
    ∧ 0 ≤ n_layers p * dim p * hidden_dim p ∧ 0 ≤ n_layers p * dim p ∧ 0 ≤ vocab_size p * dim p).
  { split_and!; repeat apply Z.mul_nonneg_nonneg; lia. }
  destruct (shared_classifier p) eqn:Es.
  - rewrite obind_Some in Hm. take_mul Hm. apply Some_inj in Hm. rewrite <- Hm. clear Hm.
    rewrite sum_fits; [cbn [foldr]; lia|lia|repeat constructor; lia|cbn [foldr]; lia].
  - do 2 take_mul Hm. apply Some_inj in Hm. rewrite <- Hm. clear Hm.
    rewrite sum_fits; [cbn [foldr]; lia|lia|repeat constructor; lia|cbn [foldr]; lia].
Qed.

(** ** The forward pass *)

Section Pass.

Context (fuel : nat) (p : config) (w : weights).
Hypothesis (Hok : config_ok p).
Hypothesis (Hlaid : laid_out p w).
Hypothesis (Hfit : products_fit p).
Hypothesis (Hcache : n_layers p * seq_len p * kv_dim p < 2 ^ 64).

Abbreviation sz := (array_size p).

Lemma row_in l L a b :
  0 ≤ l < L → 0 ≤ a < 2 ^ 31 → 0 ≤ b < 2 ^ 31 → L < 2 ^ 31 → L * a * b < 2 ^ 64 →
  u64 (u64 (l * a) * b) = l * (a * b) ∧ 0 ≤ l * (a * b) ∧ l * (a * b) + a * b ≤ L * a * b.
Proof.
  intros Hl Ha Hb HL Hlt. assert (0 ≤ a * b) by (apply Z.mul_nonneg_nonneg; lia).
  assert (0 ≤ l * a < 2 ^ 64) by nia. assert (l * (a * b) ≤ (L - 1) * (a * b)) by (apply Z.mul_le_mono_nonneg_r; lia).
  assert (0 ≤ l * (a * b)) by (apply Z.mul_nonneg_nonneg; lia).
  rewrite (u64_id (l * a)) by lia. rewrite <- Z.mul_assoc, u64_id by lia. split_and!; lia.
Qed.

(** A tensor of [L] layers at [off], and layer [l] of it. *)
Lemma tensor_in off l a b :
  0 ≤ off → 0 ≤ l < n_layers p → 0 ≤ a < 2 ^ 31 → 0 ≤ b < 2 ^ 31 → n_layers p * a * b < 2 ^ 64 →
  off + n_layers p * a * b ≤ weight_total p → within sz (Weights, off + u64 (u64 (l * a) * b)) (a * b).
Proof.
  intros Hoff Hl Ha Hb Hlt Htot. destruct (co_ranges p Hok) as (_ & _ & R3 & _).
  destruct (row_in l (n_layers p) a b Hl Ha Hb ltac:(lia) Hlt) as (-> & H1 & H2). split; cbn; lia.
Qed.

Lemma vector_in off l :
  0 ≤ off → 0 ≤ l < n_layers p → off + n_layers p * dim p ≤ weight_total p → within sz (Weights, off + u64 (l * dim p)) (dim p).
Proof.
  intros Hoff Hl Htot. pose proof (pf_d p Hfit). destruct (dims p Hok) as (_ & _ & _ & _ & _ & _ & D7).
  assert (l * dim p ≤ (n_layers p - 1) * dim p) by (apply Z.mul_le_mono_nonneg_r; lia).
  assert (0 ≤ l * dim p) by (apply Z.mul_nonneg_nonneg; lia). rewrite u64_id by lia. split; cbn; lia.
Qed.

Lemma dim_even : Z.even (dim p) = true ∧ Z.even (kv_dim p) = true.
Proof.
  destruct (dims p Hok) as (_ & _ & D3 & _). pose proof (co_even p Hok) as He.
  rewrite D3. unfold kv_dim. by rewrite !Z.even_mul, He, !orb_true_r.
Qed.

Lemma next_in h n : Z.even h = true → Z.even n = true → h < n → h + 1 < n.
Proof.
  intros Hh Hn Hlt. apply Z.even_spec in Hh as [a ->]. apply Z.even_spec in Hn as [b ->]. lia.
Qed.

Lemma cache_pos (c : array) l t :
  c = Skey ∨ c = Svalue → 0 ≤ l < n_layers p → 0 ≤ t < seq_len p →
  within sz (padd (c, u64 (u64 (l * seq_len p) * kv_dim p)) (u64 (t * kv_dim p))) (kv_dim p).
Proof.
  intros Hc Hl Ht. destruct (co_ranges p Hok) as (R1 & _ & R3 & _ & _ & R6). destruct (dims p Hok) as (_ & _ & _ & _ & _ & _ & D7).
  destruct (row_in l (n_layers p) (seq_len p) (kv_dim p) Hl ltac:(lia) ltac:(lia) ltac:(lia) Hcache) as (-> & H1 & H2).
  pose proof (row_col t 0 (seq_len p) (kv_dim p) Ht ltac:(lia)) as H3.
  assert (t * kv_dim p + kv_dim p ≤ seq_len p * kv_dim p) by nia. rewrite (u64_id (t * kv_dim p)) by nia.
  split; cbn; [lia|]. destruct Hc as [-> | ->]; cbn; lia.
Qed.

Lemma rotate_keeps l pos h :
  0 ≤ l < n_layers p → 0 ≤ pos < seq_len p → Z.even h = true → 0 ≤ h < dim p →
  keeps sz (rotate_pair fuel p (padd (Skey, u64 (u64 (l * seq_len p) * kv_dim p)) (u64 (pos * kv_dim p))) pos h).
Proof.
  intros Hl Hpos He Hh. pose proof (cache_pos Skey l pos ltac:(by left) Hl Hpos) as Hk. destruct dim_even as [E1 E2].
  assert (Hq : within sz (Sq, 0) (dim p)) by (split; cbn; lia). pose proof (next_in h (dim p) He E1 ltac:(lia)).
  assert (Hvec : ∀ i, 0 ≤ i < (if h <? kv_dim p then 2 else 1) →
    within sz (if i =? 0 then (Sq, 0) else padd (Skey, u64 (u64 (l * seq_len p) * kv_dim p)) (u64 (pos * kv_dim p))) (h + 2)).
  { intros i Hi. destruct (Z.eqb_spec i 0) as [->|Hne]; [eapply within_le; [exact Hq|lia]|].
    destruct (Z.ltb_spec h (kv_dim p)) as [Hlt|]; [|lia]. pose proof (next_in h (kv_dim p) He E2 Hlt).
    eapply within_le; [exact Hk|lia]. }
  unfold rotate_pair. keep; (eapply keeps_rd || eapply keeps_wr); try (by apply Hvec); lia.
Qed.

(** The key or value of position [t] that head [h] reads. *)
Lemma cache_row_in (c : array) l t h :
  c = Skey ∨ c = Svalue → 0 ≤ l < n_layers p → 0 ≤ t < seq_len p → 0 ≤ h < n_heads p →
  within sz (cache_row p c (u64 (u64 (l * seq_len p) * kv_dim p)) t h) (head_size p).
Proof.
  intros Hc Hl Ht Hh. destruct (cache_pos c l t Hc Hl Ht) as [H1 H2]. destruct (dims p Hok) as (D1 & D2 & D3 & D4 & D5 & D6 & D7).
  unfold cache_row. cbv zeta. set (k := Z.quot (n_heads p) (n_kv_heads p)) in *.
  assert (Hq : 0 ≤ Z.quot h k < n_kv_heads p).
  { rewrite Z.quot_div_nonneg by lia. split; [apply Z.div_pos; lia|]. apply Z.div_lt_upper_bound; lia. }
  pose proof (row_col (Z.quot h k) 0 (n_kv_heads p) (head_size p) Hq ltac:(lia)).
  assert (Z.quot h k * head_size p + head_size p ≤ kv_dim p) by (unfold kv_dim; nia).
  unfold within, padd in *. cbn in *. split; lia.
Qed.

Lemma attention_keeps l pos h :
  0 ≤ l < n_layers p → 0 ≤ pos < seq_len p → 0 ≤ h < n_heads p →
  keeps sz (attention fuel p (u64 (u64 (l * seq_len p) * kv_dim p)) pos h).
Proof.
  intros Hl Hpos Hh. destruct (co_ranges p Hok) as (R1 & R2 & R3 & R4 & R5 & R6). destruct (dims p Hok) as (D1 & D2 & D3 & D4 & D5 & D6 & D7).
  pose proof (row_col h 0 (n_heads p) (head_size p) Hh ltac:(lia)) as Hr.
  assert (Hrow : h * head_size p + head_size p ≤ dim p) by nia.
  assert (Hq : within sz (padd (Sq, 0) (h * head_size p)) (head_size p)) by (split; cbn; lia).
  assert (Hxb : within sz (padd (Sxb, 0) (h * head_size p)) (head_size p)) by (split; cbn; lia).
  assert (Hatt : within sz (padd (Satt, 0) (u64 (h * seq_len p))) (seq_len p)).
  { pose proof (row_col h 0 (n_heads p) (seq_len p) Hh ltac:(lia)). rewrite u64_id by nia. split; cbn; nia. }
  assert (Hatt' : within sz (padd (Satt, 0) (u64 (h * seq_len p))) (pos + 1)) by (eapply within_le; [exact Hatt|lia]).
  pose proof (λ t Ht, cache_row_in Skey l t h (or_introl eq_refl) Hl Ht Hh) as Hk.
  pose proof (λ t Ht, cache_row_in Svalue l t h (or_intror eq_refl) Hl Ht Hh) as Hv.
  unfold attention. apply keeps_bind; [|intros _; apply keeps_bind; [by apply softmax_keeps; [|lia]|intros _]].
  - keep. eapply keeps_rd; [apply Hk; lia|lia].
  - keep. eapply keeps_rd; [apply Hv; lia|lia].
Qed.

(** The offsets of the tensors. *)
Lemma offsets :
  0 ≤ wq w ∧ 0 ≤ wk w ∧ 0 ≤ wv w ∧ 0 ≤ wo w ∧ 0 ≤ w1 w ∧ 0 ≤ w2 w ∧ 0 ≤ w3 w ∧ 0 ≤ rms_att_weight w ∧ 0 ≤ rms_ffn_weight w
  ∧ 0 ≤ rms_final_weight w
  ∧ wq w + n_layers p * dim p * dim p ≤ weight_total p ∧ wk w + n_layers p * dim p * kv_dim p ≤ weight_total p
  ∧ wv w + n_layers p * dim p * kv_dim p ≤ weight_total p ∧ wo w + n_layers p * dim p * dim p ≤ weight_total p
  ∧ w1 w + n_layers p * hidden_dim p * dim p ≤ weight_total p ∧ w2 w + n_layers p * dim p * hidden_dim p ≤ weight_total p
  ∧ w3 w + n_layers p * hidden_dim p * dim p ≤ weight_total p ∧ rms_att_weight w + n_layers p * dim p ≤ weight_total p
  ∧ rms_ffn_weight w + n_layers p * dim p ≤ weight_total p ∧ rms_final_weight w + dim p ≤ weight_total p
  ∧ 0 ≤ token_embedding_table w ∧ 0 ≤ wcls w ∧ wcls w + vocab_size p * dim p ≤ weight_total p.
Proof.
  destruct (co_ranges p Hok) as (R1 & R2 & R3 & R4 & R5 & R6). destruct (dims p Hok) as (D1 & _ & _ & D4 & _ & _ & D7).
  assert (0 ≤ n_layers p * dim p * dim p ∧ 0 ≤ n_layers p * dim p * kv_dim p ∧ 0 ≤ n_layers p * hidden_dim p * dim p
    ∧ 0 ≤ n_layers p * dim p * hidden_dim p ∧ 0 ≤ n_layers p * dim p ∧ 0 ≤ vocab_size p * dim p).
  { split_and!; repeat apply Z.mul_nonneg_nonneg; lia. }
  pose proof (laid_out_total p w Hlaid) as Htot. destruct Hlaid as [E1 E2 E3 E4 E5 E6 E7 E8 E9 E10 E11 E12].
  destruct (shared_classifier p); split_and!; lia.
Qed.

Lemma layer_keeps pos l : 0 ≤ l < n_layers p → 0 ≤ pos < seq_len p → keeps sz (layer fuel p w pos l).
Proof.
  intros Hl Hpos. destruct (co_ranges p Hok) as (R1 & R2 & R3 & R4 & R5 & R6). destruct (dims p Hok) as (_ & _ & _ & _ & _ & _ & D7).
  destruct offsets as (P1 & P2 & P3 & P4 & P5 & P6 & P7 & P8 & P9 & _ & Q1 & Q2 & Q3 & Q4 & Q5 & Q6 & Q7 & Q8 & Q9 & _).
  destruct Hfit as [F1 F2 F3 F4 F5].
  assert (Hx : within sz (Sx, 0) (dim p)) by (split; cbn; lia). assert (Hxb : within sz (Sxb, 0) (dim p)) by (split; cbn; lia).
  assert (Hxb2 : within sz (Sxb2, 0) (dim p)) by (split; cbn; lia). assert (Hq : within sz (Sq, 0) (dim p)) by (split; cbn; lia).
  assert (Hhb : within sz (Shb, 0) (hidden_dim p)) by (split; cbn; lia). assert (Hhb2 : within sz (Shb2, 0) (hidden_dim p)) by (split; cbn; lia).
  assert (Hs : ∀ a b, 0 ≤ a < 2 ^ 31 → 0 ≤ b < 2 ^ 31 → a * b < 2 ^ 64) by (intros a b Ha Hb; nia).
  unfold layer. repeat (apply keeps_bind; [|intros _]).
  - apply rmsnorm_keeps; [done|done|by apply vector_in].
  - apply matmul_keeps; [done|done|by apply tensor_in; try lia|apply Hs; lia].
  - apply matmul_keeps; [by apply cache_pos; [left| |]|done| |apply Hs; lia]. rewrite (Z.mul_comm (kv_dim p)). apply tensor_in; lia.
  - apply matmul_keeps; [by apply cache_pos; [right| |]|done| |apply Hs; lia]. rewrite (Z.mul_comm (kv_dim p)). apply tensor_in; lia.
  - apply keeps_for. intros h Hh. apply list_elem_of_filter in Hh as [He Hh%in_range]. apply rotate_keeps; [done|done|by apply Is_true_true|done].
  - apply keeps_for. intros h Hh%in_range. by apply attention_keeps.
  - apply matmul_keeps; [done|done|by apply tensor_in; try lia|apply Hs; lia].
  - by apply accumulate_keeps.
  - apply rmsnorm_keeps; [done|done|by apply vector_in].
  - apply matmul_keeps; [done|done|apply tensor_in; lia|apply Hs; lia].
  - apply matmul_keeps; [done|done|apply tensor_in; lia|apply Hs; lia].
  - unfold swiglu. keep.
  - apply matmul_keeps; [done|done|apply tensor_in; lia|apply Hs; lia].
  - by apply accumulate_keeps.
Qed.

Lemma forward_keeps token pos :
  0 ≤ token < vocab_size p → 0 ≤ pos < seq_len p → keeps sz (llm_forward fuel p w token pos).
Proof.
  intros Ht Hpos. destruct (co_ranges p Hok) as (R1 & R2 & R3 & R4 & R5 & R6). destruct (dims p Hok) as (_ & _ & _ & _ & _ & _ & D7).
  destruct offsets as (_ & _ & _ & _ & _ & _ & _ & _ & _ & P10 & _ & _ & _ & _ & _ & _ & _ & _ & _ & Q10 & P11 & P12 & Q12).
  pose proof (laid_out_total p w Hlaid) as Htot.
  assert (Hx : within sz (Sx, 0) (dim p)) by (split; cbn; lia).
  assert (Hlog : within sz (Slogits, 0) (vocab_size p)) by (split; cbn; lia).
  assert (Hemb : within sz (Weights, token_embedding_table w + u64 (token * dim p)) (dim p)).
  { pose proof (row_col token 0 (vocab_size p) (dim p) Ht ltac:(lia)).
    assert (token * dim p + dim p ≤ vocab_size p * dim p) by nia. rewrite u64_id by nia. split; cbn; lia. }
  unfold llm_forward. repeat (apply keeps_bind; [|intros _]).
  - keep.
  - apply keeps_for. intros l Hl%in_range. by apply layer_keeps.
  - apply rmsnorm_keeps; [done|done|split; cbn; lia].
  - apply matmul_keeps; [done|done|split; cbn; lia|nia].
Qed.

End Pass.

(** What [alloc_state] asks for is what the forward pass needs. *)
Lemma alloc_sizes p reqs :
  config_ok p → alloc_state p = Some reqs →
  n_layers p * seq_len p * kv_dim p < 2 ^ 64 ∧ ∀ a, a ≠ Weights → (a, 4 * array_size p a) ∈ reqs.
Proof.
  intros Hok. destruct (co_ranges p Hok) as (R1 & R2 & R3 & R4 & R5 & R6). destruct (dims p Hok) as (_ & D2 & _ & _ & _ & _ & D7).
  unfold alloc_state. destruct (mul3 (n_layers p) (seq_len p) (kv_dim p)) as [n|] eqn:E; [|done].
  apply mul3_Some in E as [-> Hfit]; [|lia|lia|lia]. rewrite obind_Some. intros Hm. split; [done|]. intros a Ha.
  apply mapM_Some_1 in Hm. set (sizes := [_; _; _; _; _; _; _; _; _; _]) in Hm.
  assert (Hin : (a, array_size p a) ∈ sizes ∧ 0 ≤ array_size p a < 2 ^ 64).
  { assert (0 ≤ n_heads p * seq_len p < 2 ^ 64) by nia. assert (0 ≤ n_layers p * seq_len p * kv_dim p).
    { apply Z.mul_nonneg_nonneg; [apply Z.mul_nonneg_nonneg|]; lia. }
    unfold sizes. rewrite (u64_id (n_heads p)), (u64_id (n_heads p * seq_len p)) by lia.
    destruct a; cbn [array_size]; [done|..]; (split; [|lia]); repeat (apply list_elem_of_here || apply list_elem_of_further). }
  destruct Hin as [Hin Hrange]. apply list_elem_of_lookup in Hin as [i Hi].
  destruct (Forall2_lookup_l _ _ _ _ _ Hm Hi) as (y & Hy & Ey). cbn in Ey.
  destruct (checked_bytes (array_size p a) 4) as [b|] eqn:Eb; [|done]. rewrite obind_Some in Ey. injection Ey as <-.
  apply checked_bytes_Some in Eb as ->; [|done]. by eapply list_elem_of_lookup_2.
Qed.

(** For a configuration that the loader accepts, with counts that are not negative
    and an even head size, arrays of the sizes that the loader computes are large
    enough for every token and every position. *)
Lemma forward_in_bounds fuel p w n reqs s token pos :
  config_ok p → weight_total p < 2 ^ 64 →
  expected_weight_count p = Some n → map_weights p = Some w → alloc_state p = Some reqs →
  Z.of_nat (length (s Weights)) = n → (∀ a b, (a, b) ∈ reqs → a ≠ Weights → 4 * Z.of_nat (length (s a)) = b) →
  0 ≤ token < vocab_size p → 0 ≤ pos < seq_len p →
  match llm_forward fuel p w token pos s with
  | Ok _ s' => ∀ a, length (s' a) = length (s a)
  | NoFuel => True
  | _ => False
  end.
Proof.
  intros Hok Htot Hn Hw Hr Hlw Hla Ht Hpos. destruct (map_weights_laid p w Hok Hw) as [Hlaid Hfit].
  destruct (alloc_sizes p reqs Hok Hr) as [Hcache Hreq].
  assert (Hs : shaped (array_size p) s).
  { intros a. destruct (decide (a = Weights)) as [->|Hne]; [rewrite Hlw; by apply expected_total|].
    specialize (Hla a _ (Hreq a Hne) Hne). lia. }
  pose proof (forward_keeps fuel p w Hok Hlaid Hfit Hcache token pos Ht Hpos s Hs) as Hk.
  destruct (llm_forward fuel p w token pos s) as [u s'|msg|c s'|]; try done. intros a. specialize (Hk a). specialize (Hs a). lia.
Qed.

(** ** What the loader does not check *)

(** The sum of the sizes wraps around: a configuration of more than 2^64 weights is
    taken for one without any. *)
Lemma weight_count_wraps :
  let p := Config (2 ^ 30) 715827881 8 1 1 23 1 one zero true in
  config_accepted p = true ∧ expected_weight_count p = Some 0 ∧ 2 ^ 64 ≤ weight_total p.
Proof. split_and!; vm_compute; reflexivity || discriminate. Qed.

(** With an odd head size the rotation writes past the end of the query. *)
Lemma odd_head_faults :
  let p := Config 1 1 1 1 1 1 1 (of_int 10000) zero true in
  let w := default (Wts 0 0 0 0 0 0 0 0 0 0 0 0) (map_weights p) in
  config_accepted p = true ∧ llm_forward 200 p w 0 0 (λ a, replicate (Z.to_nat (array_size p a)) one) = Panic "fault".
Proof. split; vm_compute; reflexivity. Qed.
