(* ===== verification/LlmTok.v ===== *)
(** user/lib/llm.c, the tokenizer part: byte-pair encoding of a text and decoding,
    with the sampling of user/bin/next.c.

    An array is a list; an access outside it is [Panic "fault"].  A block of the
    heap is its address with its contents; the null pointer has address 0 and no
    contents. *)

From Stdlib Require Import Floats.SpecFloat.
From S2P Require Import Prelude Machine CString Utf8 FloatMath Llm.

(** llm.h *)
Definition TOKENIZER_MAGIC : Z := 0x4e4b4f54.

Definition TOKENIZER_VERSION : Z := 3.

Record merge := Merge {
  left : Z;
  right : Z;
  out : Z;
}.

Record block (A : Type) := Block {
  addr : Z;
  data : list A;
}.

Arguments Block {A} addr data.
Arguments addr {A} b.
Arguments data {A} b.

Definition null {A} : block A := Block 0 [].

Record tokenizer := Tok {
  pieces : block (block Z);
  piece_lens : block Z;
  initial_ids : block Z;
  special_ids : block Z;
  merges : block merge;
  t_vocab_size : Z;
  max_piece_len : Z;
  bos_id : Z;
  eos_id : Z;
  unk_id : Z;
  special_count : Z;
  merge_count : Z;
}.

#[export] Instance tokenizer_eta : Eta tokenizer := λ t,
  Tok (pieces t) (piece_lens t) (initial_ids t) (special_ids t) (merges t) (t_vocab_size t) (max_piece_len t)
      (bos_id t) (eos_id t) (unk_id t) (special_count t) (merge_count t).

(** [memset(t, 0, sizeof( *t))] *)
Definition tok0 : tokenizer := Tok null null null null null 0 0 0 0 0 0 0.

(** [a[i]] in an array that the computation does not change. *)
Definition at_ {S A} (a : list A) (i : Z) : M S A := λ s,
  match (if 0 <=? i then a !! Z.to_nat i else None) with
  | Some v => Ok v s
  | None => Panic "fault"
  end.

(** [a[i] = v] in the array that is the state. *)
Definition put {A} (i : Z) (v : A) : M (list A) unit := λ a,
  if (0 <=? i) && (i <? Z.of_nat (length a)) then Ok tt (<[Z.to_nat i := v]> a) else Panic "fault".

(** [a[i]] in the array that is the state. *)
Definition get {A} (i : Z) : M (list A) A := λ a, at_ a i a.

(** ** Encoding; the state is the array [tokens] *)

Abbreviation T := (M (list Z)).

(** [k] comparisons from index [i] on. *)
Fixpoint starts_with_loop (s : list Z) (p : Z) (prefix : list Z) (i : Z) (k : nat) : T bool :=
  match k with
  | O => ret true
  | S k' =>
      let! a := at_ s (p + i) in
      let! b := at_ prefix i in
      if negb (a =? b) then ret false else starts_with_loop s p prefix (i + 1) k'
  end.

Definition starts_with (s : list Z) (p : Z) (prefix : list Z) (len : Z) : T bool :=
  starts_with_loop s p prefix 0 (Z.to_nat len).

Section Encode.

Context (t : tokenizer).

(** The longest special piece at [p]: its id, or -1, and its length. *)
Fixpoint special_loop (text : list Z) (p : Z) (l : list Z) (special special_len : Z) : T (Z * Z) :=
  match l with
  | [] => ret (special, special_len)
  | i :: l' =>
      let! id := at_ (data (special_ids t)) i in
      if (id <? 0) || (t_vocab_size t <=? id) then special_loop text p l' special special_len
      else
        let! len := at_ (data (piece_lens t)) id in
        if (special_len <? len) && (0 <? len) then
          let! piece := at_ (data (pieces t)) id in
          let! same := starts_with text p (data piece) len in
          if same then special_loop text p l' id len else special_loop text p l' special special_len
        else special_loop text p l' special special_len
  end.

(** [tokens[n++] = id], or [None] when there is no room. *)
Definition push_token (max_tokens n id : Z) : T (option Z) :=
  if max_tokens <=? n then ret None else put n id ;;; ret (Some (n + 1)).

(** [while ( *p) ...]; [None] is [return -1]. *)
Fixpoint split_loop (fuel : nat) (text : list Z) (max_tokens p n : Z) : T (option Z) :=
  match fuel with
  | O => nofuel
  | S f =>
      let! c := at_ text p in
      if c =? 0 then ret (Some n)
      else
        let! r := special_loop text p (range (special_count t)) (-1) 0 in
        let '(special, special_len) := r in
        if 0 <=? special then
          let! o := push_token max_tokens n special in
          match o with
          | None => ret None
          | Some n => split_loop f text max_tokens (p + special_len) n
          end
        else
          let! id := at_ (data (initial_ids t)) c in
          let id := if id <? 0 then unk_id t else id in
          if id <? 0 then ret None
          else
            let! o := push_token max_tokens n id in
            match o with
            | None => ret None
            | Some n => split_loop f text max_tokens (p + 1) n
            end
  end.

(** The first rule for the pair at [i]: the rank and the output, with the loop of
    ranks from [rank] on. *)
Fixpoint rank_loop (i rank : Z) (k : nat) : T (option (Z * Z)) :=
  match k with
  | O => ret None
  | S k' =>
      let! m := at_ (data (merges t)) rank in
      let! a := get i in
      if left m =? a then
        let! b := get (i + 1) in
        if right m =? b then ret (Some (rank, out m)) else rank_loop i (rank + 1) k'
      else rank_loop i (rank + 1) k'
  end.

(** [best_rank], [best_idx] and [best_out] over the listed indices. *)
Fixpoint best_loop (l : list Z) (best : Z * Z * Z) : T (Z * Z * Z) :=
  match l with
  | [] => ret best
  | i :: l' =>
      let! o := rank_loop i 0 (Z.to_nat (merge_count t)) in
      match o with
      | Some (rank, out) => best_loop l' (if rank <? best.1.1 then (rank, i, out) else best)
      | None => best_loop l' best
      end
  end.

(** [do ... while (merged)]: the number of tokens at the end. *)
Fixpoint merge_loop (fuel : nat) (n : Z) : T Z :=
  match fuel with
  | O => nofuel
  | S f =>
      let! best := best_loop (range (n - 1)) (merge_count t + 1, -1, -1) in
      let '(_, best_idx, best_out) := best in
      if 0 <=? best_idx then
        put best_idx best_out ;;;
        for_each (seqZ (best_idx + 1) (n - 1 - (best_idx + 1))) (λ i,
          let! v := get (i + 1) in
          put i v) ;;;
        merge_loop f (n - 1)
      else ret n
  end.

(** [fuel]: the rounds of the loop over the text and of the merging loop. *)
Definition llm_encode (fuel : nat) (text : list Z) (add_bos add_eos : bool) (max_tokens : Z) : T Z :=
  let! o := (if add_bos && (0 <=? bos_id t) then push_token max_tokens 0 (bos_id t) else ret (Some 0)) in
  match o with
  | None => ret (-1)
  | Some n =>
      let! o := split_loop fuel text max_tokens 0 n in
      match o with
      | None => ret (-1)
      | Some n =>
          let! n := merge_loop fuel n in
          if add_eos && (0 <=? eos_id t) then
            let! o := push_token max_tokens n (eos_id t) in
            ret (default (-1) o)
          else ret n
      end
  end.

End Encode.

(** The null pointer is [None]. *)
Definition llm_decode_piece {S} (t : tokenizer) (token : Z) : M S (option (block Z)) :=
  if (token <? 0) || (t_vocab_size t <=? token) then ret None
  else let! b := at_ (data (pieces t)) token in ret (Some b).

(** What [llm_print_piece] writes. *)
Definition llm_print_piece (piece : option (block Z)) : list Z :=
  match piece with
  | None => []
  | Some b =>
      let s := data b in
      if chr s 0 =? 0 then []
      else if (chr s 1 =? 0) && negb (char_printable (chr s 0)) && negb (char_whitespace (chr s 0)) then []
      else take (Z.to_nat (strlen s)) s
  end.

(** next.c: the index of the greatest logit, the first of them. *)
Fixpoint argmax_loop {S} (logits : list float) (l : list Z) (best : Z) (best_val : float) : M S Z :=
  match l with
  | [] => ret best
  | i :: l' =>
      let! v := at_ logits i in
      if flt best_val v then argmax_loop logits l' i v else argmax_loop logits l' best best_val
  end.

Definition sample_argmax {S} (logits : list float) (n : Z) : M S Z :=
  let! v := at_ logits 0 in
  argmax_loop logits (seqZ 1 (n - 1)) 0 v.
