(* ===== verification/LlmEncode.v ===== *)
(** The encoder of the tokenizer computes a byte-pair encoding. *)

From stdpp Require Import relations.
From Stdlib Require Import Floats.SpecFloat.
From S2P Require Import Prelude Machine CString FloatMath Llm LlmTok.

(** ** What the encoder is to compute *)

Section Spec.

Context (t : tokenizer).

(** The bytes of a piece, without the terminating zero. *)
Definition piece (id : Z) : option (list Z) :=
  if (0 <=? id) && (id <? t_vocab_size t) then
    b ← data (pieces t) !! Z.to_nat id;
    n ← data (piece_lens t) !! Z.to_nat id;
    Some (take (Z.to_nat n) (data b))
  else None.

(** The [i]-th special piece is [p] and the text starts with it. *)
Definition special_at (text : list Z) (i : nat) (id : Z) (p : list Z) : Prop :=
  data (special_ids t) !! i = Some id ∧ piece id = Some p ∧ p ≠ [] ∧ p `prefix_of` text.

(** It is the longest one, and the first among those of its length. *)
Definition longest_special (text : list Z) (i : nat) (id : Z) (p : list Z) : Prop :=
  special_at text i id p ∧
  ∀ i' id' p', special_at text i' id' p' → (length p' < length p ∨ length p' = length p ∧ i ≤ i')%nat.

Definition byte_id (c id : Z) : Prop :=
  0 ≤ id ∧ ∃ z, data (initial_ids t) !! Z.to_nat c = Some z ∧ id = if z <? 0 then unk_id t else z.

(** The text is cut into special pieces and bytes, from left to right. *)
Inductive splits : list Z → list Z → Prop :=
| splits_nil : splits [] []
| splits_special i id p rest ids :
    longest_special (p ++ rest) i id p → splits rest ids → splits (p ++ rest) (id :: ids)
| splits_byte c rest id ids :
    (∀ i id p, ¬ special_at (c :: rest) i id p) → byte_id c id → splits rest ids → splits (c :: rest) (id :: ids).

Definition rule (x y : Z) (m : merge) : Prop := left m = x ∧ right m = y.

#[export] Instance rule_dec x y m : Decision (rule x y m).
Proof. unfold rule. apply _. Defined.

(** The first rule for a pair of tokens and its rank. *)
Definition rank (x y : Z) : option (nat * merge) := list_find (rule x y) (data (merges t)).

(** One merge: of all pairs with a rule, the one of the lowest rank, and of those
    the leftmost, becomes one token. *)
Inductive bpe_step : list Z → list Z → Prop :=
| bpe_merge l x y r k m :
    rank x y = Some (k, m) →
    (∀ l' x' y' r' k' m', l ++ x :: y :: r = l' ++ x' :: y' :: r' → rank x' y' = Some (k', m') →
       (k < k' ∨ k = k' ∧ length l ≤ length l')%nat) →
    bpe_step (l ++ x :: y :: r) (l ++ out m :: r).

(** The arrays have the announced lengths, every piece ends in a zero byte at its
    length, and no special piece contains one. *)
Record tok_ok : Prop := {
  to_special : Z.of_nat (length (data (special_ids t))) = special_count t;
  to_merges : Z.of_nat (length (data (merges t))) = merge_count t;
  to_initial : length (data (initial_ids t)) = 256%nat;
  to_pieces : Z.of_nat (length (data (pieces t))) = t_vocab_size t;
  to_lens : Z.of_nat (length (data (piece_lens t))) = t_vocab_size t;
  to_len : ∀ i b n, data (pieces t) !! i = Some b → data (piece_lens t) !! i = Some n → 0 ≤ n ∧ data b !! Z.to_nat n = Some 0;
  to_zero : ∀ i id p, data (special_ids t) !! i = Some id → piece id = Some p → 0 ∉ p;
}.

End Spec.

(** The arguments of the encoder: a byte string without zero bytes. *)
Definition is_text (text : list Z) : Prop := Forall (λ c, 0 < c < 256) text.

(** ** Arrays *)

Lemma at_lookup {S A} (l : list A) i v (s : S) : 0 ≤ i → l !! Z.to_nat i = Some v → at_ l i s = Ok v s.
Proof. intros Hi E. unfold at_. rewrite (proj2 (Z.leb_le 0 i)) by done. by rewrite E. Qed.

Lemma at_nat {S A} (l : list A) (i : nat) v (s : S) : l !! i = Some v → at_ l (Z.of_nat i) s = Ok v s.
Proof. intros E. apply at_lookup; [lia|by rewrite Nat2Z.id]. Qed.

Lemma get_nat {A} (l : list A) (i : nat) v : l !! i = Some v → get (Z.of_nat i) l = Ok v l.
Proof. apply at_nat. Qed.

Lemma get_succ {A} (l : list A) (i : nat) v : l !! S i = Some v → get (Z.of_nat i + 1) l = Ok v l.
Proof. intros E. replace (Z.of_nat i + 1) with (Z.of_nat (S i)) by lia. by apply get_nat. Qed.

Lemma put_nat {A} (l : list A) (i : nat) v : (i < length l)%nat → put (Z.of_nat i) v l = Ok tt (<[i := v]> l).
Proof.
  intros Hi. unfold put. rewrite (proj2 (Z.leb_le _ _)), (proj2 (Z.ltb_lt _ _)), Nat2Z.id by lia. done.
Qed.

Lemma drop_lookup {A} (l : list A) i x r : drop i l = x :: r → l !! i = Some x.
Proof. intros E. rewrite <- (Nat.add_0_r i), <- lookup_drop, E. done. Qed.

Lemma drop_next {A} (l : list A) i x r : drop i l = x :: r → drop (S i) l = r.
Proof. intros E. rewrite <- (Nat.add_1_r i), <- drop_drop, E. done. Qed.

(** ** The pieces *)

Lemma starts_with_ok (buf : list Z) p prefix more suf rest k s :
  0 ∉ k → drop p buf = suf ++ 0 :: rest → prefix = k ++ more →
  starts_with buf (Z.of_nat p) prefix (Z.of_nat (length k)) s = Ok (bool_decide (k `prefix_of` suf)) s.
Proof.
  intros Hk Hb ->. unfold starts_with. rewrite Nat2Z.id. set (prefix := k ++ more).
  assert (H : ∀ (i : nat) y suf, 0 ∉ y → drop (p + i) buf = suf ++ 0 :: rest → drop i prefix = y ++ more →
    starts_with_loop buf (Z.of_nat p) prefix (Z.of_nat i) (length y) s = Ok (bool_decide (y `prefix_of` suf)) s).
  { clear. intros i y. revert i. induction y as [|b y IH]; intros i suf Hy Hb Hp; cbn [starts_with_loop length].
    { rewrite bool_decide_true by apply prefix_nil. done. }
    apply not_elem_of_cons in Hy as [Hb0 Hy]. cbn [app] in Hp.
    destruct suf as [|a suf]; cbn [app] in Hb.
    - erewrite bind_ok; [|rewrite <- Nat2Z.inj_add; eapply at_nat, drop_lookup, Hb].
      erewrite bind_ok; [|eapply at_nat, drop_lookup, Hp]. rewrite (proj2 (Z.eqb_neq 0 b)) by done. cbn [negb].
      rewrite bool_decide_false by (by intros ?%prefix_nil_not). done.
    - erewrite bind_ok; [|rewrite <- Nat2Z.inj_add; eapply at_nat, drop_lookup, Hb].
      erewrite bind_ok; [|eapply at_nat, drop_lookup, Hp].
      destruct (Z.eqb_spec a b) as [->|Hne]; cbn [negb].
      + replace (Z.of_nat i + 1) with (Z.of_nat (S i)) by lia.
        rewrite (IH (S i) suf Hy); [|rewrite Nat.add_succ_r; eapply drop_next, Hb|eapply drop_next, Hp].
        f_equal. apply bool_decide_ext. split; [apply prefix_cons|apply prefix_cons_inv_2].
      + rewrite bool_decide_false by (by intros ->%prefix_cons_inv_1). done. }
  apply (H 0%nat); [done|by rewrite Nat.add_0_r|done].
Qed.

Lemma lexicographic_eq (a b i j : nat) :
  (a < b ∨ a = b ∧ i ≤ j)%nat → (b < a ∨ b = a ∧ j ≤ i)%nat → i = j.
Proof. lia. Qed.

Section Pieces.

Context (t : tokenizer) (Hok : tok_ok t).

Lemma longest_unique text i id p i' id' p' :
  longest_special t text i id p → longest_special t text i' id' p' → id = id' ∧ p = p'.
Proof.
  intros [H1 L1] [H2 L2]. assert (i' = i) as -> by exact (lexicographic_eq _ _ _ _ (L2 _ _ _ H1) (L1 _ _ _ H2)).
  destruct H1 as (E1 & P1 & _), H2 as (E2 & P2 & _). rewrite E1 in E2. injection E2 as <-. rewrite P1 in P2. by injection P2 as <-.
Qed.

(** The search among the first [k] special pieces. *)
Definition found (text : list Z) (k : nat) (r : Z * Z) : Prop :=
  (r = (-1, 0) ∧ ∀ i id p, (i < k)%nat → ¬ special_at t text i id p) ∨
  (∃ i id p, r = (id, Z.of_nat (length p)) ∧ 0 ≤ id ∧ special_at t text i id p ∧ (i < k)%nat ∧
     ∀ i' id' p', (i' < k)%nat → special_at t text i' id' p' → (length p' < length p ∨ length p' = length p ∧ i ≤ i')%nat).

Lemma piece_Some id p : piece t id = Some p →
  0 ≤ id < t_vocab_size t ∧ ∃ b, data (pieces t) !! Z.to_nat id = Some b
  ∧ data (piece_lens t) !! Z.to_nat id = Some (Z.of_nat (length p)) ∧ ∃ more, data b = p ++ more.
Proof.
  unfold piece. destruct (Z.leb_spec 0 id); cbn [andb]; [|done]. destruct (Z.ltb_spec id (t_vocab_size t)); [|done].
  intros (b & Eb & (n & En & [= <-])%bind_Some)%bind_Some. split; [lia|]. exists b. split; [done|].
  destruct (to_len t Hok _ _ _ Eb En) as [Hn Hz]. apply lookup_lt_Some in Hz. split; [rewrite length_take, En; f_equal; lia|].
  exists (drop (Z.to_nat n) (data b)). by rewrite take_drop.
Qed.

Lemma piece_valid id : 0 ≤ id < t_vocab_size t → is_Some (piece t id).
Proof.
  intros Hid. unfold piece. rewrite (proj2 (Z.leb_le _ _)), (proj2 (Z.ltb_lt _ _)) by lia. cbn [andb].
  pose proof (to_pieces t Hok). pose proof (to_lens t Hok).
  destruct (lookup_lt_is_Some_2 (data (pieces t)) (Z.to_nat id)) as [b ->]; [lia|].
  destruct (lookup_lt_is_Some_2 (data (piece_lens t)) (Z.to_nat id)) as [n ->]; [lia|]. cbn. by eexists.
Qed.

(** One more special piece that is no better leaves the search as it is. *)
Lemma found_skip text k r :
  found text k r →
  (∀ id p, special_at t text k id p → Z.of_nat (length p) ≤ r.2) → found text (S k) r.
Proof.
  intros Hf Hskip. destruct Hf as [[-> Hno]|(i & id & p & -> & Hid & Hat & Hi & Hbest)].
  - left. split; [done|]. intros i id p Hi Hat. destruct (decide (i = k)) as [->|]; [|by apply (Hno i id p); [lia|]].
    specialize (Hskip _ _ Hat). cbn in Hskip. destruct Hat as (_ & _ & Hp & _). destruct p; [done|cbn in Hskip; lia].
  - right. exists i, id, p. split_and!; [done|done|done|lia|]. intros i' id' p' Hi' Hat'.
    destruct (decide (i' = k)) as [->|]; [|by eapply Hbest; [lia|]]. specialize (Hskip _ _ Hat'). cbn in Hskip. lia.
Qed.

(** A longer one replaces what was found. *)
Lemma found_take text k id p r :
  found text k r → special_at t text k id p → 0 ≤ id → r.2 < Z.of_nat (length p) → found text (S k) (id, Z.of_nat (length p)).
Proof.
  intros Hf Hat Hid Hlt. right. exists k, id, p. split_and!; [done|done|done|lia|]. intros i' id' p' Hi' Hat'.
  destruct (decide (i' = k)) as [->|].
  { destruct Hat as (E & P & _), Hat' as (E' & P' & _). rewrite E in E'. injection E' as <-. rewrite P in P'. injection P' as <-. by right. }
  left. destruct Hf as [[-> Hno]|(i & id2 & p2 & -> & _ & Hat2 & Hi & Hbest)]; cbn in Hlt.
  - by destruct (Hno i' id' p' ltac:(lia) Hat').
  - specialize (Hbest i' id' p' ltac:(lia) Hat'). lia.
Qed.

(** The rest of the indices, from the [k]-th on. *)
Lemma special_loop_ok buf p suf rest n k r s :
  drop p buf = suf ++ 0 :: rest → (k + n = length (data (special_ids t)))%nat → found suf k r →
  ∃ r', special_loop t buf (Z.of_nat p) (seqZ (Z.of_nat k) (Z.of_nat n)) r.1 r.2 s = Ok r' s ∧ found suf (k + n) r'.
Proof.
  intros Hb. revert k r. induction n as [|n IH]; intros k r Hk Hf.
  { exists r. rewrite Nat.add_0_r. by destruct r. }
  rewrite seqZ_cons by lia. replace (Z.pred (Z.of_nat (S n))) with (Z.of_nat n) by lia.
  replace (Z.succ (Z.of_nat k)) with (Z.of_nat (S k)) by lia. cbn [special_loop].
  destruct (lookup_lt_is_Some_2 (data (special_ids t)) k) as [id Eid]; [lia|].
  erewrite bind_ok; [|by apply at_nat]. rewrite <- Nat.add_succ_comm.
  destruct ((id <? 0) || (t_vocab_size t <=? id)) eqn:Ev.
  { apply (IH (S k) r); [lia|]. apply found_skip; [done|]. intros id' p' (E & P & _). rewrite Eid in E. injection E as <-.
    apply piece_Some in P as [P _]. apply orb_true_iff in Ev as [?%Z.ltb_lt|?%Z.leb_le]; lia. }
  apply orb_false_iff in Ev as [Hid1%Z.ltb_ge Hid2%Z.leb_gt]. destruct (piece_valid id ltac:(lia)) as [pc Ep].
  destruct (piece_Some _ _ Ep) as (_ & b & E1 & E2 & more & E3).
  erewrite bind_ok; [|by apply at_lookup; [|exact E2]].
  destruct ((r.2 <? Z.of_nat (length pc)) && (0 <? Z.of_nat (length pc))) eqn:El.
  - apply andb_true_iff in El as [El1%Z.ltb_lt El2%Z.ltb_lt]. erewrite bind_ok; [|by apply at_lookup; [|exact E1]].
    erewrite bind_ok; [|by eapply starts_with_ok; [eapply (to_zero t Hok); eassumption|exact Hb|exact E3]].
    case_bool_decide as Hpre.
    + apply (IH (S k) (id, Z.of_nat (length pc))); [lia|]. eapply found_take; [exact Hf| |done|done].
      split_and!; [done|done| |done]. intros ->. cbn in El2. lia.
    + apply (IH (S k) r); [lia|]. apply found_skip; [done|]. intros id' p' (E & P & _ & Hp). rewrite Eid in E. injection E as <-.
      rewrite Ep in P. by injection P as <-.
  - apply (IH (S k) r); [lia|]. apply found_skip; [done|]. intros id' p' (E & P & Hp & _). rewrite Eid in E. injection E as <-.
    rewrite Ep in P. injection P as <-. assert (0 < length pc)%nat by (destruct pc; [done|cbn; lia]).
    apply andb_false_iff in El as [?%Z.ltb_ge|?%Z.ltb_ge]; lia.
Qed.

Lemma special_search buf p suf rest s :
  drop p buf = suf ++ 0 :: rest →
  ∃ r, special_loop t buf (Z.of_nat p) (range (special_count t)) (-1) 0 s = Ok r s ∧
    ((r = (-1, 0) ∧ ∀ i id k, ¬ special_at t suf i id k) ∨
     (∃ i id k, r = (id, Z.of_nat (length k)) ∧ 0 ≤ id ∧ longest_special t suf i id k)).
Proof.
  intros Hb. destruct (special_loop_ok buf p suf rest (length (data (special_ids t))) 0 (-1, 0) s Hb) as (r & E & Hf); [done| |].
  { left. split; [done|]. intros i id k Hi. lia. }
  exists r. split; [unfold range; rewrite <- (to_special t Hok); exact E|].
  assert (Hlt : ∀ i id k, special_at t suf i id k → (i < 0 + length (data (special_ids t)))%nat).
  { intros i id k (Hi & _). by apply lookup_lt_Some in Hi. }
  destruct Hf as [[-> Hno]|(i & id & k & -> & Hid & Hat & Hi & Hbest)]; [left|right].
  - split; [done|]. intros i id k Hat. by eapply Hno; [eapply Hlt|].
  - exists i, id, k. split_and!; [done|done|]. split; [done|]. intros i' id' k' Hat'. eapply Hbest; [by eapply Hlt|done].
Qed.

(** [push_token] at the end of what is there. *)
Lemma push_token_ok (acc a : list Z) max id :
  take (length acc) a = acc → 0 ≤ max ≤ Z.of_nat (length a) → Z.of_nat (length acc) ≤ max →
  push_token max (Z.of_nat (length acc)) id a = Ok None a ∧ max < Z.of_nat (length (acc ++ [id])) ∨
  ∃ a', push_token max (Z.of_nat (length acc)) id a = Ok (Some (Z.of_nat (length (acc ++ [id])))) a' ∧ length a' = length a
    ∧ take (length (acc ++ [id])) a' = acc ++ [id] ∧ Z.of_nat (length (acc ++ [id])) ≤ max.
Proof.
  intros Ha Hmax Hacc. rewrite length_app. cbn [length]. unfold push_token. destruct (Z.leb_spec max (Z.of_nat (length acc))); [left; split; [done|lia]|].
  right. exists (<[length acc := id]> a). erewrite bind_ok; [|apply put_nat; lia].
  split; [unfold ret; do 2 f_equal; lia|]. split; [apply length_insert|]. split; [|lia].
  rewrite Nat.add_1_r, (take_S_r _ _ id) by (apply list_lookup_insert_eq; lia). by rewrite take_insert_ge, Ha by lia.
Qed.

(** What is left of the text, with [acc] already in the array. *)
Definition split_result (suf acc : list Z) (max : Z) (len : nat) (o : option Z) (a' : list Z) : Prop :=
  length a' = len ∧
  match o with
  | Some n => ∃ ids, splits t suf ids ∧ n = Z.of_nat (length (acc ++ ids)) ∧ n ≤ max ∧ take (length (acc ++ ids)) a' = acc ++ ids
  | None => ∀ ids, splits t suf ids → max < Z.of_nat (length (acc ++ ids))
  end.

(** A first token in front of the rest. *)
Lemma split_result_cons suf suf' acc id max len o a' :
  (∀ ids, splits t suf ids → splits t suf' (id :: ids)) → (∀ ids, splits t suf' ids → ∃ ids', ids = id :: ids' ∧ splits t suf ids') →
  split_result suf (acc ++ [id]) max len o a' → split_result suf' acc max len o a'.
Proof.
  intros Hin Hout [Hlen Ho]. split; [done|]. destruct o as [n|].
  - destruct Ho as (ids & Hs & Hn & Hmax & Ht). exists (id :: ids). rewrite <- app_assoc in Hn, Ht. eauto.
  - intros ids (ids' & -> & Hs)%Hout. specialize (Ho ids' Hs). by rewrite <- app_assoc in Ho.
Qed.

(** The array is full: no encoding with this first token fits. *)
Lemma split_result_full suf acc id max a :
  (∀ ids, splits t suf ids → ∃ ids', ids = id :: ids') → max < Z.of_nat (length (acc ++ [id])) →
  split_result suf acc max (length a) None a.
Proof.
  intros Hout Hmax. split; [done|]. intros ids (ids' & ->)%Hout. rewrite length_app in *. cbn [length] in *. lia.
Qed.

Lemma splits_special_inv i id k rest ids :
  longest_special t (k ++ rest) i id k → splits t (k ++ rest) ids → ∃ ids', ids = id :: ids' ∧ splits t rest ids'.
Proof.
  intros Hl H. inversion H as [E|i' id' p' rest' ids2 Hl' Hs E|c rest' id' ids2 Hno _ _ E].
  - symmetry in E. apply app_eq_nil in E as [-> _]. by destruct Hl as [(_ & _ & ? & _) _].
  - rewrite E in Hl'. destruct (longest_unique _ _ _ _ _ _ _ Hl Hl') as [<- <-]. apply app_inv_head in E as ->. eauto.
  - destruct Hl as [Hl _]. by destruct (Hno _ _ _ Hl).
Qed.

Lemma splits_byte_inv c rest ids :
  (∀ i id p, ¬ special_at t (c :: rest) i id p) → splits t (c :: rest) ids →
  ∃ id ids', ids = id :: ids' ∧ byte_id t c id ∧ splits t rest ids'.
Proof.
  intros Hno H. inversion H as [|i' id' p' rest' ids2 Hl' Hs E|c' rest' id' ids2 _ Hb Hs E]; [|eauto].
  rewrite E in Hl'. destruct Hl' as [Hl' _]. by destruct (Hno _ _ _ Hl').
Qed.

Lemma split_loop_ok fuel buf p suf rest acc a max :
  drop p buf = suf ++ 0 :: rest → is_text suf → take (length acc) a = acc →
  0 ≤ max ≤ Z.of_nat (length a) → Z.of_nat (length acc) ≤ max → (length suf < fuel)%nat →
  returns (split_loop t fuel buf max (Z.of_nat p) (Z.of_nat (length acc))) a (split_result suf acc max (length a)).
Proof.
  revert p suf acc a. induction fuel as [|fuel IH]; intros p suf acc a Hb Htext Ha Hmax Hacc Hfuel; [lia|]. cbn [split_loop].
  destruct suf as [|c suf]; cbn [app] in Hb.
  { eapply returns_bind; [eapply returns_eq, at_nat, drop_lookup, Hb|]. intros ? ? [-> ->]. cbn. apply returns_ret. split; [done|].
    exists []. rewrite app_nil_r. split_and!; [constructor|done|done|done]. }
  apply Forall_cons in Htext as [Hc Htext]. cbn [length] in Hfuel.
  eapply returns_bind; [eapply returns_eq, at_nat, drop_lookup, Hb|]. intros ? ? [-> ->]. rewrite (proj2 (Z.eqb_neq c 0)) by lia.
  destruct (special_search buf p (c :: suf) rest a Hb) as (r & Er & Hr).
  eapply returns_bind; [eapply returns_eq, Er|]. intros ? ? [-> ->].
  destruct Hr as [[-> Hno]|(i & id & k & -> & Hid & Hl)].
  - cbn [Z.leb Z.compare]. destruct (lookup_lt_is_Some_2 (data (initial_ids t)) (Z.to_nat c)) as [z Ez]; [rewrite (to_initial t Hok); lia|].
    eapply returns_bind; [eapply returns_eq, at_lookup; [lia|exact Ez]|]. intros ? ? [-> ->].
    set (id := if z <? 0 then unk_id t else z).
    assert (Hbyte : ∀ id', byte_id t c id' → id' = id ∧ 0 ≤ id).
    { intros id' (H0 & z' & Ez' & ->). rewrite Ez in Ez'. by injection Ez' as <-. }
    destruct (Z.ltb_spec id 0) as [Hneg|Hpos].
    { apply returns_ret. split; [done|]. intros ids (id' & _ & _ & [_ ?]%Hbyte & _)%splits_byte_inv; [lia|done]. }
    assert (Hinv : ∀ ids, splits t (c :: suf) ids → ∃ ids', ids = id :: ids' ∧ splits t suf ids').
    { intros ids (id' & ids' & -> & [-> _]%Hbyte & Hs)%splits_byte_inv; [|done]. eauto. }
    destruct (push_token_ok acc a max id Ha Hmax Hacc) as [[Ep Hfull]|(a' & Ep & Hlen & Ha' & Hroom)];
      (eapply returns_bind; [eapply returns_eq, Ep|]); intros ? ? [-> ->].
    { apply returns_ret. eapply split_result_full; [|exact Hfull]. intros ids (ids' & -> & _)%Hinv. eauto. }
    replace (Z.of_nat p + 1) with (Z.of_nat (S p)) by lia.
    eapply returns_mono; [apply (IH (S p) suf (acc ++ [id]) a'); [eapply drop_next, Hb|done|done|lia|done|lia]|].
    intros o a2 H2. rewrite Hlen in H2. eapply split_result_cons; [|exact Hinv|exact H2].
    intros ids Hs. constructor; [done| |done]. split; [done|]. eauto.
  - destruct Hl as [(E1 & E2 & Hk & Hpre) Hbest] eqn:El. clear El. destruct Hpre as [suf' Esuf]. cbn [app] in Esuf. rewrite Esuf in *.
    assert (Hl' : longest_special t (k ++ suf') i id k) by (split; [split_and!; [done|done|done|by exists suf']|done]).
    assert (Hinv := λ ids, splits_special_inv i id k suf' ids Hl').
    rewrite (proj2 (Z.leb_le 0 id)) by done.
    destruct (push_token_ok acc a max id Ha Hmax Hacc) as [[Ep Hfull]|(a' & Ep & Hlen & Ha' & Hroom)];
      (eapply returns_bind; [eapply returns_eq, Ep|]); intros ? ? [-> ->].
    { apply returns_ret. eapply split_result_full; [|exact Hfull]. intros ids (ids' & -> & _)%Hinv. eauto. }
    assert (Hsl : (length (c :: suf) = length k + length suf')%nat) by (rewrite Esuf; apply length_app).
    assert (0 < length k)%nat by (destruct k; [done|cbn; lia]). cbn [length] in Hsl.
    rewrite <- Nat2Z.inj_add.
    eapply returns_mono; [apply (IH (p + length k)%nat suf' (acc ++ [id]) a'); [| |done|lia|done|lia]|].
    + rewrite <- drop_drop. change (c :: suf ++ 0 :: rest) with ((c :: suf) ++ 0 :: rest) in Hb.
      rewrite Hb, Esuf, <- app_assoc. by rewrite drop_app_length.
    + assert (Hall : is_text (c :: suf)) by (by constructor). rewrite Esuf in Hall. by apply Forall_app in Hall as [_ ?].
    + intros o a2 H2. rewrite Hlen in H2. eapply split_result_cons; [|exact Hinv|exact H2]. intros ids Hs. by econstructor.
Qed.

End Pieces.

(** ** Merging *)

Section Merging.

Context (t : tokenizer) (Hok : tok_ok t).

Lemma rank_loop_ok (a : list Z) i x y k :
  a !! i = Some x → a !! S i = Some y → (k ≤ length (data (merges t)))%nat →
  rank_loop t (Z.of_nat i) (Z.of_nat k) (length (data (merges t)) - k) a =
    Ok (match list_find (rule x y) (drop k (data (merges t))) with
        | Some (j, m) => Some (Z.of_nat (k + j), out m)
        | None => None
        end) a.
Proof.
  intros Hx Hy Hk. remember (length (data (merges t)) - k)%nat as n eqn:En. revert k Hk En.
  induction n as [|n IH]; intros k Hk En; cbn [rank_loop]; [by rewrite drop_ge by lia|].
  destruct (lookup_lt_is_Some_2 (data (merges t)) k) as [m Em]; [lia|].
  erewrite bind_ok; [|by apply at_nat]. erewrite bind_ok; [|by apply get_nat].
  rewrite (drop_S _ _ _ Em). cbn [list_find].
  assert (Hnext : ¬ rule x y m → rank_loop t (Z.of_nat i) (Z.of_nat k + 1) n a =
    Ok (match prod_map S id <$> list_find (rule x y) (drop (S k) (data (merges t))) with
        | Some (j, m) => Some (Z.of_nat (k + j), out m) | None => None end) a).
  { intros _. replace (Z.of_nat k + 1) with (Z.of_nat (S k)) by lia. rewrite IH by lia.
    destruct (list_find _ _) as [[j m']|]; [|done]. cbn. do 3 f_equal. lia. }
  destruct (decide (rule x y m)) as [[<- <-]|Hne].
  - rewrite Z.eqb_refl. erewrite bind_ok; [|by apply get_succ].
    rewrite Z.eqb_refl. by rewrite Nat.add_0_r.
  - destruct (Z.eqb_spec (left m) x) as [E1|]; [|by apply Hnext].
    erewrite bind_ok; [|by apply get_succ].
    destruct (Z.eqb_spec (right m) y) as [E2|]; [by destruct Hne|by apply Hnext].
Qed.

(** The pair of tokens at position [i], and the rank of its rule. *)
Definition ranked (l : list Z) (i k : nat) (m : merge) : Prop :=
  ∃ x y, l !! i = Some x ∧ l !! S i = Some y ∧ rank t x y = Some (k, m).

(** The best pair among the first [j]. *)
Definition best_among (l : list Z) (j : nat) (b : Z * Z * Z) : Prop :=
  (b = (merge_count t + 1, -1, -1) ∧ ∀ i k m, (i < j)%nat → ¬ ranked l i k m) ∨
  (∃ i k m, b = (Z.of_nat k, Z.of_nat i, out m) ∧ (i < j)%nat ∧ ranked l i k m ∧
     ∀ i' k' m', (i' < j)%nat → ranked l i' k' m' → (k < k' ∨ k = k' ∧ i ≤ i')%nat).

Lemma rank_bound x y k m : rank t x y = Some (k, m) → Z.of_nat k < merge_count t.
Proof.
  intros (E & _)%list_find_Some. apply lookup_lt_Some in E. pose proof (to_merges t Hok). lia.
Qed.

(** The next pair replaces the best one exactly when its rank is lower. *)
Lemma best_among_next l j b x y :
  l !! j = Some x → l !! S j = Some y → best_among l j b →
  best_among l (S j) (match rank t x y with
                      | Some (k, m) => if Z.of_nat k <? b.1.1 then (Z.of_nat k, Z.of_nat j, out m) else b
                      | None => b
                      end).
Proof.
  intros Hx Hy Hb.
  assert (Hj : ∀ k m, ranked l j k m → rank t x y = Some (k, m)).
  { intros k m (x' & y' & Ex & Ey & E). congruence. }
  assert (Hlt : ∀ i, (i < S j)%nat → i ≠ j → (i < j)%nat) by lia.
  destruct (rank t x y) as [[k m]|] eqn:Er.
  - assert (Hr : ranked l j k m) by (by exists x, y).
    pose proof (rank_bound _ _ _ _ Er) as Hk.
    destruct Hb as [[-> Hno]|(i & k0 & m0 & -> & Hi & Hr0 & Hbest)]; cbn [fst].
    + rewrite (proj2 (Z.ltb_lt _ _)) by lia. right. exists j, k, m. split_and!; [done|lia|done|].
      intros i' k' m' Hi' Hr'. destruct (decide (i' = j)) as [->|Hne]; [|by destruct (Hno i' k' m' (Hlt _ Hi' Hne) Hr')].
      specialize (Hj _ _ Hr'). injection Hj as <- <-. by right.
    + destruct (Z.ltb_spec (Z.of_nat k) (Z.of_nat k0)); right.
      * exists j, k, m. split_and!; [done|lia|done|]. intros i' k' m' Hi' Hr'.
        destruct (decide (i' = j)) as [->|Hne]; [specialize (Hj _ _ Hr'); injection Hj as <- <-; by right|].
        specialize (Hbest i' k' m' (Hlt _ Hi' Hne) Hr'). lia.
      * exists i, k0, m0. split_and!; [done|lia|done|]. intros i' k' m' Hi' Hr'.
        destruct (decide (i' = j)) as [->|Hne]; [specialize (Hj _ _ Hr'); injection Hj as <- <-; lia|].
        by eapply Hbest; [apply Hlt|].
  - assert (Hnone : ∀ i k m, (i < S j)%nat → ranked l i k m → (i < j)%nat).
    { intros i k m Hi Hr. apply Hlt; [done|]. intros ->. by specialize (Hj _ _ Hr). }
    destruct Hb as [[-> Hno]|(i & k0 & m0 & -> & Hi & Hr0 & Hbest)]; [left|right].
    + split; [done|]. intros i k m Hi Hr. by eapply Hno; [eapply Hnone|].
    + exists i, k0, m0. split_and!; [done|lia|done|]. intros i' k' m' Hi' Hr'. by eapply Hbest; [eapply Hnone|].
Qed.

Lemma best_loop_ok (a l : list Z) n j b :
  take (length l) a = l → (S (j + n) = length l)%nat → best_among l j b →
  ∃ b', best_loop t (seqZ (Z.of_nat j) (Z.of_nat n)) b a = Ok b' a ∧ best_among l (j + n) b'.
Proof.
  intros Ha. revert j b. induction n as [|n IH]; intros j b Hn Hb; [exists b; by rewrite Nat.add_0_r|].
  rewrite seqZ_cons by lia. replace (Z.pred (Z.of_nat (S n))) with (Z.of_nat n) by lia.
  replace (Z.succ (Z.of_nat j)) with (Z.of_nat (S j)) by lia. cbn [best_loop].
  destruct (lookup_lt_is_Some_2 l j) as [x Ex]; [lia|]. destruct (lookup_lt_is_Some_2 l (S j)) as [y Ey]; [lia|].
  assert (Hin : ∀ i v, l !! i = Some v → a !! i = Some v).
  { intros i v E. rewrite <- Ha in E. rewrite lookup_take in E. by case_decide. }
  rewrite <- (to_merges t Hok), Nat2Z.id. pose proof (rank_loop_ok a j x y 0 (Hin _ _ Ex) (Hin _ _ Ey) ltac:(lia)) as Er.
  rewrite Nat.sub_0_r in Er. erewrite bind_ok; [|exact Er].
  pose proof (best_among_next l j b x y Ex Ey Hb) as Hnext. rewrite <- Nat.add_succ_comm.
  change (drop 0 (data (merges t))) with (data (merges t)). fold (rank t x y).
  destruct (rank t x y) as [[k m]|]; (apply IH; [lia|exact Hnext]).
Qed.

(** Moving the tokens above [j] down by one. *)
Lemma shift_ok (a : list Z) j n :
  (j + n < length a)%nat →
  returns (for_each (seqZ (Z.of_nat j) (Z.of_nat n)) (λ i, let! v := get (i + 1) in put i v)) a (λ _ a',
    length a' = length a ∧ ∀ i, a' !! i = if decide (j ≤ i < j + n)%nat then a !! S i else a !! i).
Proof.
  revert j a. induction n as [|n IH]; intros j a Hn.
  { apply returns_ret. split; [done|]. intros i. by rewrite decide_False by lia. }
  rewrite seqZ_cons by lia. replace (Z.pred (Z.of_nat (S n))) with (Z.of_nat n) by lia.
  replace (Z.succ (Z.of_nat j)) with (Z.of_nat (S j)) by lia. cbn [for_each].
  destruct (lookup_lt_is_Some_2 a (S j)) as [v Ev]; [lia|].
  eapply (returns_bind _ _ _ (λ _ a', a' = <[j := v]> a)).
  { eapply returns_bind; [by eapply returns_eq, get_succ|]. intros ? ? [-> ->].
    eapply returns_mono; [eapply returns_eq, put_nat; lia|]. by intros ? ? [_ ->]. }
  intros _ ? ->. eapply returns_mono; [apply IH; rewrite length_insert; lia|]. intros _ a' [Hlen Ha']. rewrite length_insert in Hlen.
  split; [done|]. intros i. rewrite Ha'. destruct (decide (i = j)) as [->|Hne].
  - rewrite decide_False, decide_True by lia. rewrite list_lookup_insert_eq by lia. done.
  - repeat case_decide; try lia; by rewrite list_lookup_insert_ne by lia.
Qed.

(** The array after one merge. *)
Lemma merged_prefix (a a' l r : list Z) x y z :
  take (length (l ++ x :: y :: r)) a = l ++ x :: y :: r →
  (∀ i, a' !! i = if decide (S (length l) ≤ i < S (length l) + length r)%nat then (<[length l := z]> a) !! S i else (<[length l := z]> a) !! i) →
  take (length (l ++ z :: r)) a' = l ++ z :: r.
Proof.
  intros Ha Ha'. apply list_eq. intros i. rewrite lookup_take. case_decide as Hi.
  2:{ symmetry. apply lookup_ge_None. lia. }
  rewrite length_app in Hi. cbn [length] in Hi.
  assert (Hin : ∀ i v, (l ++ x :: y :: r) !! i = Some v → a !! i = Some v).
  { intros k v E. rewrite <- Ha, lookup_take in E. by case_decide. }
  assert (Hl : (length l < length a)%nat).
  { eapply lookup_lt_Some, Hin. rewrite lookup_app_r, Nat.sub_diag by lia. done. }
  rewrite Ha'. destruct (decide (i < length l)%nat) as [Hlt|Hge].
  - rewrite decide_False, list_lookup_insert_ne, lookup_app_l by lia. destruct (lookup_lt_is_Some_2 l i Hlt) as [v Ev]. rewrite Ev.
    apply Hin. by rewrite lookup_app_l.
  - rewrite lookup_app_r by lia. destruct (decide (i = length l)) as [->|Hne].
    + rewrite decide_False, Nat.sub_diag, list_lookup_insert_eq by lia. done.
    + rewrite decide_True, list_lookup_insert_ne by lia. destruct (i - length l)%nat as [|d] eqn:Ed; [lia|]. cbn [lookup list_lookup].
      destruct (lookup_lt_is_Some_2 r d) as [v Ev]; [lia|]. etransitivity; [|symmetry; exact Ev]. apply Hin.
      rewrite lookup_app_r by lia. replace (S i - length l)%nat with (S (S d)) by lia. exact Ev.
Qed.

Lemma ranked_split l i k m :
  ranked l i k m → ∃ l1 x y r, l = l1 ++ x :: y :: r ∧ length l1 = i ∧ rank t x y = Some (k, m).
Proof.
  intros (x & y & Ex & Ey & Er). exists (take i l), x, y, (drop (S (S i)) l).
  split; [|split; [|done]].
  - rewrite <- (take_drop i l) at 1. rewrite (drop_S _ _ _ Ex), (drop_S _ _ _ Ey). done.
  - rewrite length_take. apply lookup_lt_Some in Ex. lia.
Qed.

Lemma split_ranked l1 x y r k m : rank t x y = Some (k, m) → ranked (l1 ++ x :: y :: r) (length l1) k m.
Proof.
  intros Er. exists x, y. rewrite !lookup_app_r by lia. rewrite Nat.sub_diag. replace (S (length l1) - length l1)%nat with 1%nat by lia. done.
Qed.

(** The search over all pairs finds the next step, or there is none. *)
Lemma best_step (l : list Z) b : best_among l (length l - 1) b →
  (b.1.2 = -1 ∧ nf (bpe_step t) l) ∨
  (∃ l1 x y r m, l = l1 ++ x :: y :: r ∧ b.1.2 = Z.of_nat (length l1) ∧ b.2 = out m ∧ bpe_step t l (l1 ++ out m :: r)).
Proof.
  assert (Hlen : ∀ l1 (x y : Z) r, l = l1 ++ x :: y :: r → (length l1 < length l - 1)%nat).
  { intros l1 x y r ->. rewrite length_app. cbn [length]. lia. }
  intros [[-> Hno]|(i & k & m & -> & Hi & Hr & Hbest)]; [left|right].
  - split; [done|]. intros [l' Hs]. inversion Hs as [l1 x y r k m Er _ E]. symmetry in E.
    eapply (Hno (length l1) k m); [by eapply Hlen|]. rewrite E. by apply split_ranked.
  - destruct (ranked_split _ _ _ _ Hr) as (l1 & x & y & r & El & <- & Er). exists l1, x, y, r, m. split_and!; [done|done|done|].
    rewrite El. apply (bpe_merge _ _ _ _ _ k); [done|]. intros l' x' y' r' k' m' E Er'. rewrite <- El in E.
    eapply Hbest; [by eapply Hlen|]. rewrite E. by apply split_ranked.
Qed.

Lemma merge_loop_ok fuel (a l : list Z) :
  take (length l) a = l → (length l < fuel)%nat →
  returns (merge_loop t fuel (Z.of_nat (length l))) a (λ n a',
    length a' = length a ∧ ∃ m, rtc (bpe_step t) l m ∧ nf (bpe_step t) m ∧ n = Z.of_nat (length m) ∧ take (length m) a' = m
      ∧ (length m ≤ length l)%nat).
Proof.
  revert a l. induction fuel as [|fuel IH]; intros a l Ha Hf; [lia|]. cbn [merge_loop].
  assert (Hb : ∃ b, best_loop t (range (Z.of_nat (length l) - 1)) (merge_count t + 1, -1, -1) a = Ok b a ∧ best_among l (length l - 1) b).
  { destruct (length l) as [|n] eqn:El.
    - exists (merge_count t + 1, -1, -1). split; [done|]. left. split; [done|]. intros. lia.
    - replace (Z.of_nat (S n) - 1) with (Z.of_nat n) by lia. replace (S n - 1)%nat with (0 + n)%nat by lia.
      apply (best_loop_ok a l n 0); [by rewrite El|by rewrite El|]. left. split; [done|]. intros. lia. }
  destruct Hb as (b & Eb & Hb). eapply returns_bind; [eapply returns_eq, Eb|]. intros ? ? [-> ->].
  destruct b as [[b0 idx] o]. destruct (best_step _ _ Hb) as [[Ei Hnf]|(l1 & x & y & r & m & -> & Ei & Eo & Hs)]; cbn [fst snd] in *; subst.
  { cbn. apply returns_ret. split; [done|]. exists l. split_and!; [apply rtc_refl|done|done|done|lia]. }
  rewrite (proj2 (Z.leb_le 0 _)) by lia. set (l := l1 ++ x :: y :: r) in *.
  assert (Hl : length l = (length l1 + S (S (length r)))%nat) by (unfold l; rewrite length_app; done).
  assert (Hla : (length l ≤ length a)%nat) by (rewrite <- Ha, length_take; lia).
  eapply returns_bind; [eapply returns_eq, put_nat; lia|]. intros ? ? [-> ->].
  replace (Z.of_nat (length l1) + 1) with (Z.of_nat (S (length l1))) by lia.
  replace (Z.of_nat (length l) - 1 - Z.of_nat (S (length l1))) with (Z.of_nat (length r)) by lia.
  eapply returns_bind; [apply shift_ok; rewrite length_insert; lia|]. intros _ a' [Hlen Ha']. rewrite length_insert in Hlen.
  pose proof (merged_prefix a a' l1 r x y (out m) Ha Ha') as Hpre.
  assert (Hl2 : length (l1 ++ out m :: r) = (length l - 1)%nat) by (rewrite length_app, Hl; cbn [length]; lia).
  replace (Z.of_nat (length l) - 1) with (Z.of_nat (length (l1 ++ out m :: r))) by lia.
  eapply returns_mono; [apply (IH a' (l1 ++ out m :: r)); [done|lia]|]. intros n a2 (Hlen2 & m2 & Hs2 & Hnf & En & Hpre2 & Hm2).
  split; [congruence|]. exists m2. split_and!; [by eapply rtc_l|done|done|done|lia].
Qed.

End Merging.

(** ** The encoder *)

Definition bos (t : tokenizer) (add : bool) : list Z := if add && (0 <=? bos_id t) then [bos_id t] else [].

Definition eos (t : tokenizer) (add : bool) : list Z := if add && (0 <=? eos_id t) then [eos_id t] else [].

(** [m] is the byte-pair encoding of the text. *)
Definition encodes (t : tokenizer) (text front m : list Z) : Prop :=
  ∃ ids, splits t text ids ∧ rtc (bpe_step t) (front ++ ids) m ∧ nf (bpe_step t) m.

Lemma splits_length t text ids : splits t text ids → (length ids ≤ length text)%nat.
Proof.
  induction 1 as [|i id p rest ids [(_ & _ & Hp & _) _] _ IH|]; cbn [length]; [lia| |lia].
  rewrite length_app. destruct p; [done|]. cbn [length]. lia.
Qed.

Lemma bpe_length t l m : rtc (bpe_step t) l m → (length m ≤ length l)%nat.
Proof.
  induction 1 as [|l l' m [l1 x y r k m' _ _] _ IH]; [done|]. rewrite length_app in *. cbn [length] in *. lia.
Qed.

(** The first token of [llm_encode]. *)
Lemma first_token_ok t add max a :
  0 ≤ max ≤ Z.of_nat (length a) →
  returns (if add && (0 <=? bos_id t) then push_token max 0 (bos_id t) else ret (Some 0)) a (λ o a', length a' = length a ∧
    match o with
    | Some n => n = Z.of_nat (length (bos t add)) ∧ n ≤ max ∧ take (length (bos t add)) a' = bos t add
    | None => max < Z.of_nat (length (bos t add))
    end).
Proof.
  intros Hmax. unfold bos. destruct (add && (0 <=? bos_id t)).
  - destruct (push_token_ok [] a max (bos_id t)) as [[E Hf]|(a' & E & Hlen & Ha' & Hroom)]; [done|lia|cbn; lia| |];
      (eapply returns_mono; [eapply returns_eq, E|]); intros ? ? [-> ->]; done.
  - apply returns_ret. split; [done|]. cbn. split_and!; [done|lia|done].
Qed.

(** The last token of [llm_encode]. *)
Lemma last_token_ok t add max (a m : list Z) :
  0 ≤ max ≤ Z.of_nat (length a) → take (length m) a = m → Z.of_nat (length m) ≤ max →
  returns (if add && (0 <=? eos_id t) then let! o := push_token max (Z.of_nat (length m)) (eos_id t) in ret (default (-1) o)
           else ret (Z.of_nat (length m))) a (λ r a', length a' = length a ∧
    ((r = Z.of_nat (length (m ++ eos t add)) ∧ r ≤ max ∧ take (length (m ++ eos t add)) a' = m ++ eos t add) ∨
     (r = -1 ∧ max < Z.of_nat (length (m ++ eos t add))))).
Proof.
  intros Hmax Ha Hm. unfold eos. destruct (add && (0 <=? eos_id t)).
  - destruct (push_token_ok m a max (eos_id t) Ha Hmax Hm) as [[E Hf]|(a' & E & Hlen & Ha' & Hroom)];
      (eapply returns_bind; [eapply returns_eq, E|]); intros ? ? [-> ->]; apply returns_ret; cbn [default];
      (split; [done|]); [by right|by left].
  - apply returns_ret. split; [done|]. left. by rewrite app_nil_r.
Qed.

(** What [llm_encode] leaves behind. *)
Definition encoded (t : tokenizer) (text : list Z) (add_bos add_eos : bool) (max : Z) (r : Z) (a' : list Z) : Prop :=
  (∃ m, encodes t text (bos t add_bos) m ∧ r = Z.of_nat (length (m ++ eos t add_eos)) ∧ r ≤ max
     ∧ take (length (m ++ eos t add_eos)) a' = m ++ eos t add_eos) ∨
  (r = -1 ∧ ((∀ ids, splits t text ids → max < Z.of_nat (length (bos t add_bos ++ ids))) ∨
             (∃ m, encodes t text (bos t add_bos) m ∧ max < Z.of_nat (length (m ++ eos t add_eos))))).

Lemma encode_ok t fuel text rest add_bos add_eos max a :
  tok_ok t → is_text text → 0 ≤ max ≤ Z.of_nat (length a) → (length text + 2 ≤ fuel)%nat →
  returns (llm_encode t fuel (text ++ 0 :: rest) add_bos add_eos max) a (λ r a',
    length a' = length a ∧ encoded t text add_bos add_eos max r a').
Proof.
  intros Hok Htext Hmax Hfuel. unfold llm_encode. eapply returns_bind; [by apply first_token_ok|].
  intros [n|] a1 [Hlen1 H1].
  2:{ apply returns_ret. split; [done|]. right. split; [done|]. left. intros ids _. rewrite length_app. lia. }
  destruct H1 as (-> & Hn & Ha1).
  eapply returns_bind; [apply (split_loop_ok t Hok fuel (text ++ 0 :: rest) 0 text rest); [done|done|done|lia|done|lia]|].
  intros [n|] a2 [Hlen2 H2].
  2:{ apply returns_ret. split; [lia|]. right. split; [done|]. by left. }
  destruct H2 as (ids & Hs & -> & Hn2 & Ha2).
  assert (Hb : (length (bos t add_bos) ≤ 1)%nat) by (unfold bos; destruct (_ && _); cbn; lia).
  pose proof (splits_length _ _ _ Hs) as Hids.
  eapply returns_bind; [apply (merge_loop_ok t Hok fuel a2 (bos t add_bos ++ ids)); [done|rewrite length_app; lia]|].
  intros n a3 (Hlen3 & m & Hrtc & Hnf & -> & Ha3 & Hm).
  assert (Henc : encodes t text (bos t add_bos) m) by (by exists ids).
  eapply returns_mono; [apply (last_token_ok t add_eos max a3 m); [lia|done|lia]|].
  intros r a4 (Hlen4 & H4). split; [lia|]. destruct H4 as [(-> & Hr & Ha4)|[-> Hr]]; [left; eauto|right; eauto].
Qed.

(** C19 [functional]. For a tokenizer whose arrays have the announced sizes, every
    text, and an array of at least [max_tokens] places, [llm_encode] returns and
    makes no access outside its arrays.  It cuts the text into the longest special
    pieces (the first of equal ones) and single bytes, merges the pair of the lowest
    rank, leftmost first, until no rule applies, and stores the result between the
    two optional marks; it returns the number of tokens.  It returns -1 exactly when
    some byte has no token, when the tokens before merging exceed [max_tokens], or
    when the last mark does not fit. *)
Theorem llm_encode_bpe t fuel text rest add_bos add_eos max a :
  tok_ok t → is_text text → 0 ≤ max ≤ Z.of_nat (length a) → (length text + 2 ≤ fuel)%nat →
  returns (llm_encode t fuel (text ++ 0 :: rest) add_bos add_eos max) a (λ r a',
    length a' = length a ∧
    ((∃ ids m, splits t text ids ∧ rtc (bpe_step t) (bos t add_bos ++ ids) m ∧ nf (bpe_step t) m ∧
        r = Z.of_nat (length (m ++ eos t add_eos)) ∧ r ≤ max ∧ take (length (m ++ eos t add_eos)) a' = m ++ eos t add_eos) ∨
     (r = -1 ∧
      ((∀ ids, splits t text ids → max < Z.of_nat (length (bos t add_bos ++ ids))) ∨
       (∃ ids m, splits t text ids ∧ rtc (bpe_step t) (bos t add_bos ++ ids) m ∧ nf (bpe_step t) m ∧
          max < Z.of_nat (length (m ++ eos t add_eos))))))).
Proof.
  intros Hok Htext Hmax Hfuel. eapply returns_mono; [by apply encode_ok|]. intros r a' [Hlen H]. split; [done|].
  destruct H as [(m & (ids & Hs & Hm & Hnf) & Hr)|[-> [H|(m & (ids & Hs & Hm & Hnf) & Hr)]]]; [left|right..]; eauto 10.
Qed.

(** ** Decoding *)

(** The text of a list of tokens, as the pieces are printed. *)
Definition decoded (t : tokenizer) (id : Z) : list Z :=
  match llm_decode_piece t id tt with
  | Ok (Some b) _ => cstr (length (data b)) (data b)
  | _ => []
  end.

(** Every byte has a token of its own and every rule joins two pieces. *)
Record lossless (t : tokenizer) : Prop := {
  ll_byte : ∀ c, 0 < c < 256 → ∃ id, data (initial_ids t) !! Z.to_nat c = Some id ∧ piece t id = Some [c];
  ll_merge : ∀ m, m ∈ data (merges t) → ∃ p q, piece t (left m) = Some p ∧ piece t (right m) = Some q ∧ piece t (out m) = Some (p ++ q);
}.

Section Lossless.

Context (t : tokenizer) (Hok : tok_ok t) (Hll : lossless t).

Definition spells (ids x : list Z) : Prop := ∃ ps, Forall2 (λ id p, piece t id = Some p) ids ps ∧ x = concat ps.

Lemma spells_app ids ids' x x' : spells ids x → spells ids' x' → spells (ids ++ ids') (x ++ x').
Proof. intros (ps & H & ->) (ps' & H' & ->). exists (ps ++ ps'). split; [by apply Forall2_app|by rewrite concat_app]. Qed.

Lemma spells_cons id p ids x : piece t id = Some p → spells ids x → spells (id :: ids) (p ++ x).
Proof. intros Hp (ps & H & ->). exists (p :: ps). split; [by constructor|done]. Qed.

Lemma piece_nonneg id p : piece t id = Some p → 0 ≤ id.
Proof. intros H. apply (piece_Some t Hok) in H as [H _]. lia. Qed.

Lemma splits_spells text ids : is_text text → splits t text ids → spells ids text.
Proof.
  intros Htext H. induction H as [|i id p rest ids [(_ & Hp & _) _] _ IH|c rest id ids _ (_ & z & Ez & ->) _ IH].
  - exists []. split; [constructor|done].
  - apply Forall_app in Htext as [_ Hrest]. apply spells_cons; [done|by apply IH].
  - apply Forall_cons in Htext as [Hc Hrest]. destruct (ll_byte t Hll c Hc) as (id & Eid & Hp). rewrite Ez in Eid. injection Eid as ->.
    rewrite (proj2 (Z.ltb_ge id 0)) by (by eapply piece_nonneg). apply (spells_cons _ [c]); [done|by apply IH].
Qed.

Lemma step_spells l m x : bpe_step t l m → spells l x → spells m x.
Proof.
  intros [l1 y z r k m' Hr _] (ps & Hps & ->). apply Forall2_app_inv_l in Hps as (p1 & p2 & H1 & H2 & ->).
  apply Forall2_cons_inv_l in H2 as (py & p3 & Hy & H3 & ->). apply Forall2_cons_inv_l in H3 as (pz & p4 & Hz & H4 & ->).
  apply list_find_Some in Hr as (Hm & [<- <-] & _). destruct (ll_merge t Hll m') as (p & q & Hp & Hq & Ho); [by eapply list_elem_of_lookup_2|].
  rewrite Hy in Hp. injection Hp as <-. rewrite Hz in Hq. injection Hq as <-.
  exists (p1 ++ (py ++ pz) :: p4). split; [apply Forall2_app; [done|by constructor]|].
  rewrite !concat_app. cbn [concat]. by rewrite <- app_assoc.
Qed.

Lemma steps_spell l m x : rtc (bpe_step t) l m → spells l x → spells m x.
Proof. induction 1 as [|l l' m Hs _ IH]; [done|]. intros Hl. apply IH. by eapply step_spells. Qed.

Lemma cstr_whole p more : 0 ∉ p → cstr (length (p ++ 0 :: more)) (p ++ 0 :: more) = p.
Proof.
  induction p as [|c p IH]; [done|]. intros [Hc Hp]%not_elem_of_cons. cbn [app length cstr].
  rewrite (proj2 (Z.eqb_neq c 0)) by lia. by rewrite IH.
Qed.

Lemma decoded_piece id p : piece t id = Some p → 0 ∉ p → decoded t id = p.
Proof.
  intros Hp H0. destruct (piece_Some t Hok _ _ Hp) as (Hid & b & Eb & En & more & Ed). unfold decoded, llm_decode_piece.
  rewrite (proj2 (Z.ltb_ge _ _)), (proj2 (Z.leb_gt _ _)) by lia. cbn [orb].
  erewrite bind_ok; [|by apply at_lookup; [lia|exact Eb]]. cbn [ret].
  destruct (to_len t Hok _ _ _ Eb En) as [_ Hz]. rewrite Ed, Nat2Z.id, lookup_app_r, Nat.sub_diag in Hz by lia.
  destruct more as [|z more]; [done|]. injection Hz as ->. rewrite Ed. by apply cstr_whole.
Qed.

Lemma spells_decoded ids x : spells ids x → 0 ∉ x → concat (decoded t <$> ids) = x.
Proof.
  intros (ps & H & ->). induction H as [|id p ids ps Hp _ IH]; [done|]. cbn [concat]. intros [H1 H2]%not_elem_of_app.
  rewrite fmap_cons. cbn [concat]. by rewrite (decoded_piece id p), IH.
Qed.

(** Every text can be cut. *)
Lemma splits_exist text : is_text text → ∃ ids, splits t text ids.
Proof.
  remember (length text) as n eqn:En. revert text En. induction (lt_wf n) as [n _ IH]. intros text -> Htext.
  destruct text as [|c text]; [exists []; constructor|].
  destruct (special_search t Hok ((c :: text) ++ [0]) 0 (c :: text) [] [] eq_refl) as (r & _ & [[_ Hno]|(i & id & k & _ & _ & Hl)]).
  - apply Forall_cons in Htext as [Hc Htext]. destruct (IH (length text)) with (text := text) as [ids Hs]; [cbn; lia|done|done|].
    destruct (ll_byte t Hll c Hc) as (id & Eid & Hp). exists (id :: ids). constructor; [done| |done].
    pose proof (piece_nonneg _ _ Hp). split; [done|]. exists id. split; [done|]. by rewrite (proj2 (Z.ltb_ge id 0)).
  - destruct Hl as [(E1 & E2 & Hk & [rest Erest]) Hbest]. rewrite Erest in *. apply Forall_app in Htext as [_ Hrest].
    destruct (IH (length rest)) with (text := rest) as [ids Hs]; [rewrite length_app; destruct k; [done|cbn; lia]|done|done|].
    exists (id :: ids). econstructor; [|done]. split; [|exact Hbest]. split_and!; [done|done|done|by exists rest].
Qed.

End Lossless.

(** C20 [roundtrip]. Decoding gives the text back.  For a tokenizer in which every
    byte has a token and every rule joins the pieces of its two tokens, [llm_encode]
    succeeds on every text when the array has a place for each byte and the mark,
    and the pieces of the tokens it stores, as [llm_decode_piece] returns them, are
    the piece of the mark followed by the text. *)
Theorem llm_encode_decodes t fuel text rest add_bos a :
  tok_ok t → lossless t → is_text text →
  (∀ id, id ∈ bos t add_bos → ∃ p, piece t id = Some p ∧ 0 ∉ p) →
  (length text + length (bos t add_bos) ≤ length a)%nat → (length text + 2 ≤ fuel)%nat →
  returns (llm_encode t fuel (text ++ 0 :: rest) add_bos false (Z.of_nat (length a))) a (λ r a',
    0 ≤ r ∧ concat (decoded t <$> take (Z.to_nat r) a') = concat (decoded t <$> bos t add_bos) ++ text).
Proof.
  intros Hok Hll Htext Hbos Hroom Hfuel. destruct (splits_exist t Hok Hll text Htext) as [ids0 Hs0].
  eapply returns_mono; [apply (encode_ok t fuel text rest add_bos false); [done|done|lia|done]|].
  assert (Hsp : spells t (bos t add_bos) (concat (decoded t <$> bos t add_bos)) ∧ 0 ∉ concat (decoded t <$> bos t add_bos)).
  { unfold bos in *. destruct (add_bos && (0 <=? bos_id t)); [|split; [by exists []|by apply not_elem_of_nil]].
    destruct (Hbos (bos_id t)) as (p & Hp & H0); [left|]. cbn. rewrite (decoded_piece t Hok _ _ Hp H0), app_nil_r. split; [|done].
    exists [p]. split; [by constructor|]. cbn. by rewrite app_nil_r. }
  assert (H0 : 0 ∉ text) by (intros Hin; unfold is_text in Htext; rewrite Forall_forall in Htext; specialize (Htext 0 Hin); lia).
  assert (Hlen : ∀ ids, splits t text ids → (length (bos t add_bos ++ ids) ≤ length a)%nat).
  { intros ids Hs%splits_length. rewrite length_app. lia. }
  intros r a' [_ [(m & (ids & Hs & Hm & _) & Hr & _ & Ha')|[_ [Hno|(m & (ids & Hs & Hm & _) & Hlt)]]]].
  - change (eos t false) with (@nil Z) in *. rewrite app_nil_r in *. split; [lia|]. rewrite Hr, Nat2Z.id, Ha'.
    apply (spells_decoded t Hok); [|rewrite not_elem_of_app; naive_solver]. eapply (steps_spell t Hll); [exact Hm|].
    apply spells_app; [apply Hsp|by eapply splits_spells].
  - specialize (Hno _ Hs0). specialize (Hlen _ Hs0). lia.
  - change (eos t false) with (@nil Z) in Hlt. rewrite app_nil_r in Hlt. apply bpe_length in Hm. specialize (Hlen _ Hs). lia.
Qed.

(** ** A small tokenizer *)

Module TokTest.

Definition piece_list : list (list Z) := ((λ c, [c]) <$> seqZ 0 256) ++ [[97; 98]; [97; 98; 99]; [60; 115; 62]].

Definition t : tokenizer :=
  Tok (Block 1 ((λ p, Block 9 (p ++ [0])) <$> piece_list)) (Block 2 ((λ p, Z.of_nat (length p)) <$> piece_list))
      (Block 3 (seqZ 0 256)) (Block 4 [258]) (Block 5 [Merge 98 99 5; Merge 97 98 256; Merge 256 99 257]) 259 3 258 (-1) (-1) 1 3.

(** The same with rules that join pieces only. *)
Definition t2 : tokenizer := t <| merges := Block 5 [Merge 97 98 256; Merge 256 99 257] |> <| merge_count := 2 |>.

Lemma t_ok : tok_ok t.
Proof.
  split; [reflexivity|reflexivity|vm_compute; reflexivity|vm_compute; reflexivity|vm_compute; reflexivity| |].
  - intros i b n Hb Hn.
    assert (H : Forall (λ x : block Z * Z, 0 ≤ x.2 ∧ data x.1 !! Z.to_nat x.2 = Some 0) (zip (data (pieces t)) (data (piece_lens t))))
      by (apply (bool_decide_unpack _); vm_compute; exact I).
    rewrite Forall_lookup in H. apply (H i (b, n)). apply lookup_zip_Some. by rewrite Hb, Hn.
  - intros [|[|i]] id p; [|done..]. intros [= <-]. assert (E : piece t 258 = Some [60; 115; 62]) by (vm_compute; reflexivity).
    rewrite E. intros [= <-]. apply (bool_decide_unpack _). vm_compute. exact I.
Qed.

Lemma t2_ok : tok_ok t2.
Proof. destruct t_ok as [H1 _ H3 H4 H5 H6 H7]. by split. Qed.

Lemma t2_lossless : lossless t2.
Proof.
  split.
  - intros c Hc. exists c.
    assert (H : Forall (λ c, data (initial_ids t2) !! Z.to_nat c = Some c ∧ piece t2 c = Some [c]) (seqZ 1 255))
      by (apply (bool_decide_unpack _); vm_compute; exact I).
    rewrite Forall_forall in H. apply H, elem_of_seqZ. lia.
  - intros m [->|[->|Hm]%elem_of_cons]%elem_of_cons; [exists [97], [98]|exists [97; 98], [99]|by apply not_elem_of_nil in Hm]; split_and!; vm_compute; reflexivity.
Qed.

Lemma text_ok (text : list Z) : bool_decide (Forall (λ c, 0 < c ∧ c < 256) text) = true → is_text text.
Proof. intros H. by apply bool_decide_eq_true in H. Qed.

End TokTest.

(** A special piece that contains a zero byte matches past the end of the text, and
    the encoder reads on behind it. *)
Lemma special_zero_faults :
  let t := Tok (Block 1 [Block 2 [97; 0; 0]]) (Block 3 [2]) (Block 4 (replicate 256 0)) (Block 5 [0]) null 1 2 (-1) (-1) (-1) 1 0 in
  llm_encode t 10 [97; 0] false false 8 (replicate 8 0) = Panic "fault".
Proof. vm_compute. reflexivity. Qed.

(** The rule of the lowest rank comes first: "b" and "c" are merged before "a" and
    "b". *)
Lemma llm_encode_bpe_witness :
  llm_encode TokTest.t 10 [97; 98; 99; 97; 98; 0] true false 8 (replicate 8 0) = Ok 4 [258; 97; 5; 256; 98; 98; 0; 0] ∧
  ∃ ids m, splits TokTest.t [97; 98; 99; 97; 98] ids ∧ rtc (bpe_step TokTest.t) (258 :: ids) m ∧ m = [258; 97; 5; 256].
Proof.
  assert (E : llm_encode TokTest.t 10 ([97; 98; 99; 97; 98] ++ [0]) true false 8 (replicate 8 0) = Ok 4 [258; 97; 5; 256; 98; 98; 0; 0])
    by (vm_compute; reflexivity).
  split; [exact E|].
  destruct (llm_encode_bpe TokTest.t 10 [97; 98; 99; 97; 98] [] true false 8 (replicate 8 0) TokTest.t_ok
    ltac:(apply TokTest.text_ok; vm_compute; reflexivity) ltac:(cbn; lia) ltac:(cbn; lia)) as (r & a' & E' & _ & H).
  rewrite E in E'. injection E' as <- <-.
  destruct H as [(ids & m & Hs & Hm & _ & Hr & _ & Ha)|[? _]]; [|discriminate].
  change (eos TokTest.t false) with (@nil Z) in *. rewrite app_nil_r in *. exists ids, m. split; [exact Hs|]. split; [exact Hm|].
  assert (Hl : length m = 4%nat) by lia. rewrite Hl in Ha. symmetry. exact Ha.
Defined.

Lemma llm_encode_decodes_witness :
  llm_encode TokTest.t2 10 [97; 98; 99; 100; 97; 98; 0] true false 7 (replicate 7 0) = Ok 4 [258; 257; 100; 256; 256; 98; 98] ∧
  concat (decoded TokTest.t2 <$> [258; 257; 100; 256]) = [60; 115; 62] ++ [97; 98; 99; 100; 97; 98].
Proof.
  assert (E : llm_encode TokTest.t2 10 ([97; 98; 99; 100; 97; 98] ++ [0]) true false 7 (replicate 7 0) = Ok 4 [258; 257; 100; 256; 256; 98; 98])
    by (vm_compute; reflexivity).
  split; [exact E|].
  assert (Hbos : ∀ id, id ∈ bos TokTest.t2 true → ∃ p, piece TokTest.t2 id = Some p ∧ 0 ∉ p).
  { intros id [->|Hid]%elem_of_cons; [|by apply not_elem_of_nil in Hid]. exists [60; 115; 62]. split; [vm_compute; reflexivity|].
    apply (bool_decide_unpack _). vm_compute. exact I. }
  destruct (llm_encode_decodes TokTest.t2 10 [97; 98; 99; 100; 97; 98] [] true (replicate 7 0) TokTest.t2_ok TokTest.t2_lossless
    ltac:(apply TokTest.text_ok; vm_compute; reflexivity) Hbos ltac:(cbn; lia) ltac:(cbn; lia)) as (r & a' & E' & _ & H).
  change (Z.of_nat (length (replicate 7 0))) with 7 in E'. rewrite E in E'. injection E' as <- <-.
  change (concat (decoded TokTest.t2 <$> bos TokTest.t2 true)) with (concat (decoded TokTest.t2 <$> [258])) in H.
  replace (concat (decoded TokTest.t2 <$> [258])) with [60; 115; 62] in H by (vm_compute; reflexivity). exact H.
Defined.
