(* ===== verification/LlmLoad.v ===== *)
(** user/lib/llm.c and user/lib/io.c: loading a model and a tokenizer from a file.

    The state of a loader is the rest of the file, what the coming calls of [read]
    and [malloc] do, the blocks that are allocated and the descriptors that are
    open.  [Panic "exit"] is [exit(1)]; [Panic "fault"] is an access outside a block:
    a block has the bytes that were asked for, and every load, store and [read] of
    the loaders is checked against them. *)

From Stdlib Require Import Floats.SpecFloat.
From S2P Require Import Prelude Machine CString Bio Fs FloatMath Llm LlmTok.

(** [rest]: the bytes of the file that are still to be read; [reads]: for each coming
    [read] the most bytes it delivers, or [None] when it fails (a call that is not
    listed delivers all it can); [mallocs]: which of the coming calls of [malloc]
    succeed (those not listed do). *)
Record loader := Loader {
  rest : list Z;
  reads : list (option nat);
  mallocs : list bool;
  fresh : Z;
  allocated : list Z;
  open_fds : Z;
}.

#[export] Instance loader_eta : Eta loader := λ s,
  Loader (rest s) (reads s) (mallocs s) (fresh s) (allocated s) (open_fds s).

Abbreviation L := (M loader).

(** ** System calls and the heap *)

(** The system call takes the count as an unsigned number; [None] is -1. *)
Definition read_call (n : Z) : L (option (list Z)) := λ s,
  let k := Z.to_nat (u32 n) in
  let deliver k r := Ok (Some (take k (rest s))) (s <| reads := r |> <| rest := drop k (rest s) |>) in
  match reads s with
  | None :: r => Ok None (s <| reads := r |>)
  | Some most :: r => deliver (Nat.min k most) r
  | [] => deliver k []
  end.

(** From this size on [malloc] (umalloc.c) passes [sbrk] a number of bytes that is
    not positive as an [int], and the block it returns has no memory behind it. *)
Definition malloc_limit : Z := 2 ^ 31 - 31.

(** The address of a new block of [n] bytes, or 0.  [Panic "huge"]: the request is one
    that [malloc] cannot serve, and the run is not followed further. *)
Definition malloc_call (n : Z) : L Z := λ s,
  if malloc_limit <=? n then Panic "huge"
  else match mallocs s with
  | false :: r => Ok 0 (s <| mallocs := r |>)
  | o => Ok (fresh s) (s <| mallocs := drop 1 o |> <| allocated := fresh s :: allocated s |> <| fresh := fresh s + 1 |>)
  end.

(** Freeing what is not allocated is an error of the program. *)
Definition free_call (a : Z) : L unit := λ s,
  if decide (a ∈ allocated s) then Ok tt (s <| allocated := filter (λ b, b ≠ a) (allocated s) |>) else Panic "free".

(** ** io.c *)

(** [None] is -1. *)
Fixpoint exact_loop (fuel : nat) (n off : Z) (acc : list Z) : L (option (list Z)) :=
  match fuel with
  | O => nofuel
  | S f =>
      if off <? n then
        let chunk := s32 (u32 (n - off)) in
        let chunk := if 4096 <? chunk then 4096 else chunk in
        let! cc := read_call chunk in
        match cc with
        | None => ret None
        | Some [] => ret None
        | Some bs => exact_loop f n (u32 (off + Z.of_nat (length bs))) (acc ++ bs)
        end
      else ret (Some acc)
  end.

(** The bytes that were read, or [None]; every round reads a byte. *)
Definition read_exact (n : Z) : L (option (list Z)) := exact_loop (S (Z.to_nat n)) n 0 [].

(** [malloc] or [exit(1)] *)
Definition xreserve (n : Z) : L Z :=
  let! p := malloc_call n in
  if p =? 0 then panic "exit" else ret p.

(** A block of [n] bytes, cleared: as an array of elements of [size] bytes. *)
Definition xmalloc {A} (size : Z) (z : A) (n : Z) : L (block A) :=
  let! p := xreserve n in
  ret (Block p (replicate (Z.to_nat (n / size)) z)).

(** [read_exact] to a block of [room] bytes. *)
Definition read_into (room n : Z) : L (option (list Z)) :=
  if room <? n then panic "fault" else read_exact n.

Definition exit_if_none {A} (o : option A) : L A :=
  match o with
  | Some a => ret a
  | None => panic "exit"
  end.

(** ** llm.c *)

Definition freep {A} (b : block A) : L unit := if addr b =? 0 then ret tt else free_call (addr b).

(** The [i]-th [int] and [float] of some bytes. *)
Definition int_at (d : list Z) (i : Z) : Z := s32 (word_at d i).

Definition float_of_bits (b : Z) : float :=
  let s := Z.testbit b 31 in
  let e := Z.land (Z.shiftr b 23) 0xff in
  let m := Z.land b 0x7fffff in
  if e =? 0 then match m with Zpos m => S754_finite s m (-149) | _ => S754_zero s end
  else if e =? 0xff then if m =? 0 then S754_infinity s else S754_nan
  else match m + 0x800000 with Zpos m => S754_finite s m (e - 150) | _ => S754_nan end.

Definition float_at (d : list Z) (i : Z) : float := float_of_bits (word_at d i).

(** *** The tokenizer *)

Definition read_tokenizer_header (t : tokenizer) : L (bool * tokenizer) :=
  let! a := read_exact 4 in
  match a with None => ret (false, t) | Some magic =>
  let! a := read_exact 4 in
  match a with None => ret (false, t) | Some version =>
  let! a := read_exact 32 in
  match a with None => ret (false, t) | Some header =>
  let! a := read_exact 216 in
  match a with None => ret (false, t) | Some _ =>
  if negb (word_at magic 0 =? TOKENIZER_MAGIC) || negb (word_at version 0 =? TOKENIZER_VERSION) then ret (false, t)
  else
    let t := Tok (pieces t) (piece_lens t) (initial_ids t) (special_ids t) (merges t)
                 (int_at header 0) (int_at header 1) (int_at header 2) (int_at header 3) (int_at header 4)
                 (int_at header 5) (int_at header 6) in
    ret ((0 <? t_vocab_size t) && (0 <? max_piece_len t) && (0 <=? special_count t) && (0 <=? merge_count t), t)
  end end end end.

(** [b[i] = v] *)
Definition store {A} (b : block A) (i : Z) (v : A) : L (block A) :=
  if (0 <=? i) && (i <? Z.of_nat (length (data b))) then ret (Block (addr b) (<[Z.to_nat i := v]> (data b)))
  else panic "fault".

(** [n] bytes of the file to the start of an array of 4-byte elements. *)
Definition read_array {A} (elem : list Z → Z → A) (b : block A) (n : Z) : L (option (block A)) :=
  let! a := read_into (4 * Z.of_nat (length (data b))) n in
  match a with
  | None => ret None
  | Some d => ret (Some (Block (addr b) ((elem d <$> range (n / 4)) ++ drop (Z.to_nat (n / 4)) (data b))))
  end.

(** [t->pieces[i] = b] and [t->piece_lens[i] = len] *)
Definition set_piece (i : Z) (b : block Z) (t : tokenizer) : L tokenizer :=
  let! p := store (pieces t) i b in
  ret (t <| pieces := p |>).

Definition set_len (i len : Z) (t : tokenizer) : L tokenizer :=
  let! p := store (piece_lens t) i len in
  ret (t <| piece_lens := p |>).

(** [a && b] where the second part runs on the tokenizer of the first. *)
Definition and_then (m : L (bool * tokenizer)) (k : tokenizer → L (bool * tokenizer)) : L (bool * tokenizer) :=
  let! r := m in
  if r.1 then k r.2 else ret r.

(** A loop whose body can leave the function with 0. *)
Fixpoint unless_fails (l : list Z) (body : Z → tokenizer → L (bool * tokenizer)) (t : tokenizer) : L (bool * tokenizer) :=
  match l with
  | [] => ret (true, t)
  | i :: l' => and_then (body i t) (unless_fails l' body)
  end.

Definition load_piece (i : Z) (t : tokenizer) : L (bool * tokenizer) :=
  let! a := read_exact 4 in
  match a with
  | None => ret (false, t)
  | Some d =>
      let len := int_at d 0 in
      if len <? 0 then ret (false, t)
      else
        let! t := set_len i len t in
        let! b := xmalloc 1 0 (u32 (len + 1)) in
        let! t := set_piece i b t in
        let! a := (if 0 <? len then read_into (Z.of_nat (length (data b))) len else ret (Some [])) in
        match a with
        | None => ret (false, t)
        | Some d =>
            let! b := store (Block (addr b) (d ++ drop (length d) (data b))) len 0 in
            let! t := set_piece i b t in
            ret (true, t)
        end
  end.

Definition load_pieces (t : tokenizer) : L (bool * tokenizer) :=
  let! n := exit_if_none (checked_bytes (t_vocab_size t) 8) in
  let! b := xmalloc 8 null n in
  let t := t <| pieces := b |> in
  let! n := exit_if_none (checked_bytes (t_vocab_size t) 4) in
  let! b := xmalloc 4 0 n in
  let t := t <| piece_lens := b |> in
  unless_fails (range (t_vocab_size t)) load_piece t.

Definition set_merge (i : Z) (m : merge) (t : tokenizer) : L tokenizer :=
  let! b := store (merges t) i m in
  ret (t <| merges := b |>).

Definition load_merge (i : Z) (t : tokenizer) : L (bool * tokenizer) :=
  let! a := read_exact 12 in
  match a with
  | None => ret (false, t)
  | Some d =>
      let! t := set_merge i (Merge (int_at d 0) (int_at d 1) (int_at d 2)) t in
      ret (true, t)
  end.

(** A cleared array of [n] elements, allocated when [n > 0]. *)
Definition alloc_if {A} (n size : Z) (z : A) : L (block A) :=
  if 0 <? n then
    let! bytes := exit_if_none (checked_bytes n size) in
    xmalloc size z bytes
  else ret null.

Definition load_bpe (t : tokenizer) : L (bool * tokenizer) :=
  let! b := xmalloc 4 0 (256 * 4) in
  let t := t <| initial_ids := b |> in
  let! b := alloc_if (special_count t) 4 0 in
  let t := t <| special_ids := b |> in
  let! b := alloc_if (merge_count t) 12 (Merge 0 0 0) in
  let t := t <| merges := b |> in
  let! a := read_array int_at (initial_ids t) (256 * 4) in
  match a with
  | None => ret (false, t)
  | Some b =>
      let t := t <| initial_ids := b |> in
      if 0 <? special_count t then
        let! a := read_array int_at (special_ids t) (u32 (special_count t * 4)) in
        match a with
        | None => ret (false, t)
        | Some b =>
            let t := t <| special_ids := b |> in
            unless_fails (range (merge_count t)) load_merge t
        end
      else unless_fails (range (merge_count t)) load_merge t
  end.

Definition llm_tokenizer_free (t : tokenizer) : L tokenizer :=
  (if addr (pieces t) =? 0 then ret tt
   else for_each (range (t_vocab_size t)) (λ i, let! b := at_ (data (pieces t)) i in freep b)) ;;;
  freep (pieces t) ;;;
  freep (piece_lens t) ;;;
  freep (initial_ids t) ;;;
  freep (special_ids t) ;;;
  freep (merges t) ;;;
  ret tok0.

Definition close_call : L unit := modify (λ s, s <| open_fds := open_fds s - 1 |>).

(** [there]: whether [open] finds the file. *)
Definition llm_tokenizer_load (there : bool) : L (bool * tokenizer) :=
  if negb there then ret (false, tok0)
  else
    modify (λ s, s <| open_fds := open_fds s + 1 |>) ;;;
    let! r := and_then (and_then (read_tokenizer_header tok0) load_pieces) load_bpe in
    close_call ;;;
    if negb r.1 then
      let! t := llm_tokenizer_free r.2 in
      ret (false, t)
    else ret (true, r.2).

(** *** The model *)

Record model := Model {
  m_config : config;
  m_weights : weights;
  m_state : array → block float;
  weight_data : block float;
  weight_count : Z;
}.

Definition config_of (d : list Z) : config :=
  Config (int_at d 0) (int_at d 1) (int_at d 2) (int_at d 3) (int_at d 4) (int_at d 5) (int_at d 6)
         (float_at d 7) (float_at d 8) (negb (int_at d 9 =? 0)).

Definition wts0 : weights := Wts 0 0 0 0 0 0 0 0 0 0 0 0.

(** The blocks of [llm_state_t] in the order of the allocations; the contents of
    the two caches are what [malloc] left in them. *)
Fixpoint alloc_arrays (junk : array → nat → list float) (reqs : list (array * Z)) (st : array → block float) : L (array → block float) :=
  match reqs with
  | [] => ret st
  | (a, bytes) :: reqs' =>
      let! b := (if decide (a = Skey ∨ a = Svalue) then
                   let! p := xreserve bytes in
                   ret (Block p (junk a (Z.to_nat (bytes / 4))))
                 else xmalloc 4 zero bytes) in
      alloc_arrays junk reqs' (λ a', if decide (a' = a) then b else st a')
  end.

Definition free_state (st : array → block float) : L (array → block float) :=
  for_each [Sx; Sxb; Sxb2; Shb; Shb2; Sq; Satt; Slogits; Skey; Svalue] (λ a, freep (st a)) ;;;
  ret (λ _, null).

Definition llm_model_free (m : model) : L model :=
  let! st := free_state (m_state m) in
  freep (weight_data m) ;;;
  ret (Model (m_config m) wts0 st null 0).

(** [None] is 0: the caller does not look at the model then. *)
Definition llm_model_load (junk : array → nat → list float) (there : bool) : L (option model) :=
  if negb there then ret None
  else
    modify (λ s, s <| open_fds := open_fds s + 1 |>) ;;;
    let! a := read_exact 4 in
    match a with None => close_call ;;; ret None | Some magic =>
    let! a := read_exact 4 in
    match a with None => close_call ;;; ret None | Some version =>
    let! a := read_exact 40 in
    match a with None => close_call ;;; ret None | Some cfg =>
    let! a := read_exact 208 in
    match a with None => close_call ;;; ret None | Some _ =>
    if negb (word_at magic 0 =? MODEL_MAGIC) || negb (word_at version 0 =? MODEL_VERSION) then close_call ;;; ret None
    else
      let p := config_of cfg in
      if negb (config_accepted p) then close_call ;;; ret None
      else
        let! n := exit_if_none (expected_weight_count p) in
        let! bytes := exit_if_none (checked_bytes n 4) in
        let! wd := xmalloc 4 zero bytes in
        let! a := read_array float_at wd bytes in
        match a with
        | None =>
            close_call ;;;
            llm_model_free (Model p wts0 (λ _, null) wd n) ;;;
            ret None
        | Some wd =>
            close_call ;;;
            let! w := exit_if_none (map_weights p) in
            let! reqs := exit_if_none (alloc_state p) in
            let! st := alloc_arrays junk reqs (λ _, null) in
            ret (Some (Model p w st wd n))
        end
    end end end end.
