(* ===== verification/LlmLoadSpec.v ===== *)
(** The loaders of the language model: what they read, what they allocate, and what
    they release when they fail. *)

From Stdlib Require Import Floats.SpecFloat.
From S2P Require Import Prelude Machine CString Bio Fs Bytes FloatMath Llm LlmSpec LlmTok LlmEncode LlmLoad.

(** ** Computations that may only end by [exit(1)], or at a request beyond [malloc_limit] *)

Definition stops (msg : string) : Prop := msg = "exit"%string ∨ msg = "huge"%string.

Definition loads {A} (m : L A) (s : loader) (Q : A → loader → Prop) : Prop :=
  match m s with
  | Ok a s' => Q a s'
  | Panic msg => stops msg
  | _ => False
  end.

Lemma loads_ret {A} (a : A) s (Q : A → loader → Prop) : Q a s → loads (ret a) s Q.
Proof. done. Qed.

Lemma loads_bind {A C} (m : L A) (k : A → L C) s R Q :
  loads m s R → (∀ a s', R a s' → loads (k a) s' Q) → loads (bind m k) s Q.
Proof. unfold loads, bind. intros Hm Hk. destruct (m s); [by apply Hk|done..]. Qed.

Lemma loads_mono {A} (m : L A) s (Q R : A → loader → Prop) : loads m s Q → (∀ a s', Q a s' → R a s') → loads m s R.
Proof. unfold loads. destruct (m s); auto. Qed.

Lemma loads_returns {A} (m : L A) s (Q : A → loader → Prop) : returns m s Q → loads m s Q.
Proof. intros (a & s' & E & HQ). unfold loads. by rewrite E. Qed.

Lemma loads_eq {A C} (m : L A) (k : A → L C) s a s' Q : m s = Ok a s' → loads (k a) s' Q → loads (bind m k) s Q.
Proof. unfold loads, bind. by intros ->. Qed.

Lemma loads_modify {A} f (k : unit → L A) s Q : loads (k tt) (f s) Q → loads (bind (modify f) k) s Q.
Proof. done. Qed.

Lemma loads_exit {A} (o : option A) s (Q : A → loader → Prop) : (∀ a, o = Some a → Q a s) → loads (exit_if_none o) s Q.
Proof. destruct o; [|by left]. intros H. by apply H. Qed.

(** ** Reading *)

(** Everything but the file is as before, and the file is shorter by [d]. *)
Record read_from (d : list Z) (s s' : loader) : Prop := {
  rf_rest : rest s = d ++ rest s';
  rf_heap : allocated s' = allocated s;
  rf_fresh : fresh s' = fresh s;
  rf_fds : open_fds s' = open_fds s;
}.

Lemma read_from_refl s : read_from [] s s.
Proof. by split. Qed.

Lemma read_from_trans d d' s s1 s2 : read_from d s s1 → read_from d' s1 s2 → read_from (d ++ d') s s2.
Proof. intros [A1 A2 A3 A4] [B1 B2 B3 B4]. split; [rewrite A1, B1; apply app_assoc|congruence..]. Qed.

Lemma read_call_ok n s :
  returns (read_call n) s (λ o s', ∃ d, read_from d s s' ∧ (length d ≤ Z.to_nat (u32 n))%nat ∧ match o with Some d' => d' = d | None => True end).
Proof.
  unfold returns, read_call. destruct (reads s) as [|[k|] r].
  1,2: eexists (Some _), _; split; [reflexivity|]; eexists; split; [split; [symmetry; apply take_drop|reflexivity..]|];
    split; [rewrite length_take; lia|done].
  eexists None, _. split; [reflexivity|]. exists []. split; [by split|]. split; [cbn; lia|done].
Qed.

(** [read_exact] reads exactly the next [n] bytes, whatever the calls of [read]
    deliver, or fails. *)
Lemma read_exact_ok n s :
  0 ≤ n < 2 ^ 32 →
  returns (read_exact n) s (λ o s', ∃ d, read_from d s s' ∧ match o with Some d' => d' = d ∧ Z.of_nat (length d) = n | None => True end).
Proof.
  intros Hn. unfold read_exact.
  assert (H : ∀ fuel off acc s0, 0 ≤ off ≤ n → Z.of_nat (length acc) = off → (Z.to_nat (n - off) < fuel)%nat →
    read_from acc s s0 → returns (exact_loop fuel n off acc) s0 (λ o s', ∃ d, read_from d s s' ∧
      match o with Some d' => d' = d ∧ Z.of_nat (length d) = n | None => True end)).
  2:{ apply (H _ 0 [] s); [lia|done|lia|apply read_from_refl]. }
  induction fuel as [|fuel IH]; intros off acc s0 Hoff Hacc Hfuel Hr; [lia|]. cbn [exact_loop].
  destruct (Z.ltb_spec off n) as [Hlt|Hge]; [|apply returns_ret; exists acc; split; [done|]; split; [done|lia]].
  set (chunk := if 4096 <? s32 (u32 (n - off)) then 4096 else s32 (u32 (n - off))).
  assert (Hchunk : u32 chunk ≤ n - off).
  { unfold chunk. rewrite (u32_id (n - off)) by lia. unfold u32, s32. destruct (Z.ltb_spec 4096 ((n - off + 2 ^ 31) mod 2 ^ 32 - 2 ^ 31)); dlia. }
  eapply returns_bind; [apply read_call_ok|]. intros [[|b bs]|] s1 (d & Hd & Hlen & Ed); try (apply returns_ret; exists (acc ++ d);
    split; [by eapply read_from_trans|done]).
  subst d. assert (Z.of_nat (length (b :: bs)) ≤ n - off) by lia. cbn [length] in *. rewrite u32_id by lia.
  apply IH; [lia|rewrite length_app; cbn [length]; lia|lia|by eapply read_from_trans].
Qed.

Definition read_post (n : Z) (s : loader) (o : option (list Z)) (s' : loader) : Prop :=
  ∃ d, read_from d s s' ∧ match o with Some d' => d' = d ∧ Z.of_nat (length d) = n | None => True end.

Lemma loads_read n s : 0 ≤ n < 2 ^ 32 → loads (read_exact n) s (read_post n s).
Proof. intros Hn. by apply loads_returns, read_exact_ok. Qed.

(** ** The heap *)

Record heap_ok (s : loader) : Prop := {
  ho_nodup : NoDup (allocated s);
  ho_below : Forall (λ a, 0 < a < fresh s) (allocated s);
  ho_fresh : 0 < fresh s;
}.

(** The allocated blocks are the listed ones, null pointers left out, and [base]. *)
Definition heap_is (ps base : list Z) (fds : Z) (s : loader) : Prop :=
  heap_ok s ∧ allocated s ≡ₚ filter (λ a, a ≠ 0) ps ++ base ∧ open_fds s = fds.

#[global] Instance heap_is_perm : Proper ((≡ₚ) ==> (≡ₚ) ==> (=) ==> (=) ==> iff) heap_is.
Proof. intros ps ps' Hps b b' Hb ? fds -> ? s ->. unfold heap_is. by rewrite Hps, Hb. Qed.

Lemma heap_is_read ps base fds d s s' : read_from d s s' → heap_is ps base fds s → heap_is ps base fds s'.
Proof.
  intros [_ E1 E2 E3] ([H1 H2 H3] & Hp & Hf). split; [|split; congruence]. split; [congruence| |lia].
  rewrite E1, E2. done.
Qed.

Lemma malloc_call_ok n ps base fds s :
  heap_is ps base fds s →
  loads (malloc_call n) s (λ p s', heap_is (p :: ps) base fds s' ∧ rest s' = rest s).
Proof.
  intros ([H1 H2 H3] & Hp & Hf). unfold loads, malloc_call. destruct (malloc_limit <=? n); [by right|].
  assert (Hnew : ∀ o, heap_is (fresh s :: ps) base fds
    (s <| mallocs := o |> <| allocated := fresh s :: allocated s |> <| fresh := fresh s + 1 |>)).
  { intros o. split; [split; cbn|split; [|done]].
    - apply NoDup_cons. split; [|done]. intros Hin. rewrite Forall_forall in H2. specialize (H2 _ Hin). lia.
    - apply Forall_cons. split; [lia|]. eapply Forall_impl; [exact H2|]. cbn. lia.
    - lia.
    - change (fresh s :: allocated s ≡ₚ filter (λ a, a ≠ 0) (fresh s :: ps) ++ base). rewrite filter_cons_True by lia. by rewrite Hp. }
  destruct (mallocs s) as [|[] o]; [split; [apply Hnew|done]..|].
  split; [|done]. split; [done|]. split; [|done]. rewrite filter_cons_False by lia. exact Hp.
Qed.

Lemma xreserve_ok n ps base fds s :
  heap_is ps base fds s →
  loads (xreserve n) s (λ p s', p ≠ 0 ∧ heap_is (p :: ps) base fds s' ∧ rest s' = rest s).
Proof.
  intros Hs. eapply loads_bind; [by apply malloc_call_ok|]. intros p s' [Hs' Hr].
  destruct (Z.eqb_spec p 0); [by left|]. by apply loads_ret.
Qed.

(** The array has as many elements as fit into the bytes that were asked for. *)
Lemma xmalloc_ok {A} size (z : A) n ps base fds s :
  heap_is ps base fds s →
  loads (xmalloc size z n) s (λ b s', (addr b ≠ 0 ∧ data b = replicate (Z.to_nat (n / size)) z) ∧ heap_is (addr b :: ps) base fds s' ∧ rest s' = rest s).
Proof.
  intros Hs. eapply loads_bind; [by apply xreserve_ok|]. intros p s' (Hp & Hs' & Hr). by apply loads_ret.
Qed.

(** A store inside the block. *)
Lemma store_mid {A} a (P : list A) x R v i s :
  i = Z.of_nat (length P) → store (Block a (P ++ x :: R)) i v s = Ok (Block a (P ++ v :: R)) s.
Proof.
  intros ->. unfold store. cbn [data addr]. rewrite length_app. cbn [length].
  rewrite (proj2 (Z.leb_le 0 _)), (proj2 (Z.ltb_lt _ _)) by lia. cbn [andb].
  rewrite Nat2Z.id, <- (Nat.add_0_r (length P)), insert_app_r. done.
Qed.

Lemma freep_ok {A} (b : block A) ps base fds s :
  heap_is (addr b :: ps) base fds s → returns (freep b) s (λ _ s', heap_is ps base fds s').
Proof.
  intros ([H1 H2 H3] & Hp & Hf). unfold freep. destruct (Z.eqb_spec (addr b) 0) as [E|Hne].
  { apply returns_ret. split; [done|]. rewrite filter_cons_False in Hp by (rewrite E; lia). done. }
  rewrite filter_cons_True in Hp by done. unfold returns, free_call.
  rewrite decide_True by (rewrite Hp; left). eexists _, _. split; [done|].
  split; [split; cbn; [by apply NoDup_filter|apply Forall_forall; intros c [_ Hc]%list_elem_of_filter; by rewrite Forall_forall in H2; apply H2|done]|]. split; [|done].
  change (filter (λ c, c ≠ addr b) (allocated s) ≡ₚ filter (λ a, a ≠ 0) ps ++ base). rewrite Hp. cbn [app]. rewrite filter_cons_False by (intros H; by apply H).
  rewrite Hp in H1. cbn [app] in H1. apply NoDup_cons in H1 as [Hni _].
  revert Hni. generalize (filter (λ a, a ≠ 0) ps ++ base). intros X Hni. induction X as [|x X IH]; [done|].
  apply not_elem_of_cons in Hni as [Hx Hni]. rewrite filter_cons_True by done. by rewrite IH.
Qed.

(** ** What a tokenizer owns *)

Definition pointers (t : tokenizer) : list Z :=
  (addr <$> data (pieces t)) ++
  [addr (pieces t); addr (piece_lens t); addr (initial_ids t); addr (special_ids t); addr (merges t)].

Lemma free_pieces_ok (l : list (block Z)) ps base fds k s all :
  drop k all = l → heap_is ((addr <$> l) ++ ps) base fds s →
  returns (for_each (seqZ (Z.of_nat k) (Z.of_nat (length l))) (λ i, let! b := at_ all i in freep b)) s (λ _ s', heap_is ps base fds s').
Proof.
  revert k s. induction l as [|b l IH]; intros k s Hd Hs; [by apply returns_ret|].
  cbn [length]. rewrite seqZ_cons by lia. replace (Z.pred (Z.of_nat (S (length l)))) with (Z.of_nat (length l)) by lia.
  replace (Z.succ (Z.of_nat k)) with (Z.of_nat (S k)) by lia. cbn [for_each].
  eapply (returns_bind _ _ _ (λ _ s', heap_is ((addr <$> l) ++ ps) base fds s')); [|intros _ s' Hs'; apply IH; [by eapply drop_next|exact Hs']].
  eapply returns_bind; [eapply returns_eq, at_nat, drop_lookup, Hd|]. intros ? ? [-> ->]. by apply freep_ok.
Qed.

(** Pieces were only allocated together with the array that holds them. *)
Definition pieces_shape (t : tokenizer) : Prop :=
  (addr (pieces t) = 0 → data (pieces t) = []) ∧ (addr (pieces t) ≠ 0 → Z.of_nat (length (data (pieces t))) = t_vocab_size t).

Lemma tokenizer_free_ok t base fds s :
  pieces_shape t → heap_is (pointers t) base fds s →
  returns (llm_tokenizer_free t) s (λ t' s', t' = tok0 ∧ heap_is [] base fds s').
Proof.
  intros [Hz Hn] Hs. unfold llm_tokenizer_free, pointers in *. eapply (returns_bind _ _ _ (λ _ s', heap_is
    [addr (pieces t); addr (piece_lens t); addr (initial_ids t); addr (special_ids t); addr (merges t)] base fds s')).
  { destruct (Z.eqb_spec (addr (pieces t)) 0) as [E|Hne].
    - apply returns_ret. rewrite (Hz E) in Hs. exact Hs.
    - unfold range. rewrite <- (Hn Hne). by apply (free_pieces_ok _ _ _ _ 0). }
  intros _ s1 Hs1. do 5 (eapply returns_bind; [eapply freep_ok; eassumption|]; cbv beta; intros ? ? ?). by apply returns_ret.
Qed.

(** ** Numbers and bytes *)

Abbreviation bytes := (Forall (λ c, 0 ≤ c < 256)).

Lemma le_bytes_shift n z k : le_bytes n (z + k * 256 ^ Z.of_nat n) = le_bytes n z.
Proof.
  revert z k. induction n as [|n IH]; intros z k; [done|]. cbn [le_bytes]. rewrite Nat2Z.inj_succ, Z.pow_succ_r by lia.
  replace (z + k * (256 * 256 ^ Z.of_nat n)) with (z + k * 256 ^ Z.of_nat n * 256) by lia.
  rewrite Z.mod_add, Z.div_add, IH by lia. done.
Qed.

Lemma le_bytes_s32 z : le_bytes 4 (s32 z) = le_bytes 4 z.
Proof.
  rewrite <- (le_bytes_shift 4 (s32 z) ((z + 2 ^ 31) / 2 ^ 32)). f_equal. unfold s32. change (256 ^ Z.of_nat 4) with (2 ^ 32).
  pose proof (Z.div_mod (z + 2 ^ 31) (2 ^ 32) ltac:(lia)). lia.
Qed.

Lemma le_bytes_le_at n d o : bytes d → (o + n ≤ length d)%nat → le_bytes n (le_at n d o) = take n (drop o d).
Proof.
  intros Hd. revert o. induction n as [|n IH]; intros o Hn; [done|]. cbn [le_at le_bytes].
  destruct (lookup_lt_is_Some_2 d o) as [c Ec]; [lia|]. rewrite (drop_S _ _ _ Ec), Ec. cbn [default take].
  assert (Hc : 0 ≤ c < 256) by (rewrite Forall_lookup in Hd; by apply (Hd o)). cbn [from_option id]. rewrite u8_id by done.
  replace (c + 256 * le_at n d (S o)) with (c + le_at n d (S o) * 256) by lia.
  rewrite Z.mod_add, Z.div_add, Z.mod_small, Z.div_small, Z.add_0_l by lia. rewrite IH by lia. done.
Qed.

Lemma int_bytes d i : bytes d → (4 * i + 4 ≤ length d)%nat → le_bytes 4 (int_at d (Z.of_nat i)) = take 4 (drop (4 * i) d).
Proof.
  intros Hd Hi. unfold int_at, word_at. rewrite le_bytes_s32. replace (Z.to_nat (4 * Z.of_nat i)) with (4 * i)%nat by lia. by apply le_bytes_le_at.
Qed.

Lemma int_whole d : bytes d → Z.of_nat (length d) = 4 → le_bytes 4 (int_at d 0) = d.
Proof. intros Hd Hn. etransitivity; [apply (int_bytes d 0 Hd); lia|]. apply take_ge. change (length d ≤ 4)%nat. lia. Qed.

Lemma int_range d i : - 2 ^ 31 ≤ int_at d i < 2 ^ 31.
Proof. unfold int_at, s32. dlia. Qed.

(** An array of [int] is its bytes. *)
Abbreviation ints d n := (int_at d <$> range n).

Lemma ints_bytes d n : bytes d → Z.of_nat (length d) = 4 * n → ints d n ≫= le_bytes 4 = d.
Proof.
  intros Hd Hn. unfold range.
  assert (H : ∀ k i, (4 * (i + k) = length d)%nat → (int_at d <$> seqZ (Z.of_nat i) (Z.of_nat k)) ≫= le_bytes 4 = drop (4 * i) d).
  { induction k as [|k IH]; intros i Hk; [by rewrite drop_ge by lia|].
    rewrite seqZ_cons by lia. replace (Z.pred (Z.of_nat (S k))) with (Z.of_nat k) by lia.
    replace (Z.succ (Z.of_nat i)) with (Z.of_nat (S i)) by lia. rewrite fmap_cons, bind_cons, IH, int_bytes by (done || lia).
    rewrite <- (take_drop 4 (drop (4 * i) d)) at 2. rewrite drop_drop. f_equal. f_equal. lia. }
  specialize (H (Z.to_nat n) 0%nat ltac:(lia)). rewrite Z2Nat.id in H by lia. exact H.
Qed.

Lemma bytes_read d s s' : read_from d s s' → bytes (rest s) → bytes d ∧ bytes (rest s').
Proof. intros [-> _ _ _] H. by apply Forall_app in H. Qed.

(** A read keeps the heap; what follows it has two cases. *)
Lemma read_then {A} n s (k : option (list Z) → L A) (Q : A → loader → Prop) ps base fds :
  0 ≤ n < 2 ^ 32 → heap_is ps base fds s → bytes (rest s) →
  (∀ s', heap_is ps base fds s' → bytes (rest s') → loads (k None) s' Q) →
  (∀ d s', heap_is ps base fds s' → bytes (rest s') → bytes d → Z.of_nat (length d) = n → rest s = d ++ rest s' → loads (k (Some d)) s' Q) →
  loads (bind (read_exact n) k) s Q.
Proof.
  intros Hn Hs Hb Hnone Hsome. eapply loads_bind; [by apply loads_read|]. intros o s' (d & Hr & Ho).
  destruct (bytes_read _ _ _ Hr Hb) as [Hd Hb']. pose proof (heap_is_read _ _ _ _ _ _ Hr Hs) as Hs'.
  destruct o as [d'|]; [destruct Ho as [-> Ho]; apply Hsome; try done; apply Hr|by apply Hnone].
Qed.

(** Reading an array that fills its block. *)
Lemma read_array_then {A C} (elem : list Z → Z → A) (b : block A) n m s (k : option (block A) → L C) (Q : C → loader → Prop) ps base fds :
  n = 4 * m → Z.of_nat (length (data b)) = m → n < 2 ^ 32 → heap_is ps base fds s → bytes (rest s) →
  (∀ s', heap_is ps base fds s' → bytes (rest s') → loads (k None) s' Q) →
  (∀ d s', heap_is ps base fds s' → bytes (rest s') → bytes d → Z.of_nat (length d) = n → rest s = d ++ rest s' →
     loads (k (Some (Block (addr b) (elem d <$> range m)))) s' Q) →
  loads (bind (read_array elem b n) k) s Q.
Proof.
  intros -> Hm Hn Hs Hb Hnone Hsome. unfold read_array, read_into. rewrite Hm, Z.ltb_irrefl.
  rewrite (Z.mul_comm 4 m), Z.div_mul by lia. rewrite (Z.mul_comm m 4).
  eapply (loads_bind _ _ _ (λ o s', heap_is ps base fds s' ∧ bytes (rest s') ∧ match o with
    | Some b' => ∃ d, b' = Block (addr b) (elem d <$> range m) ∧ bytes d ∧ Z.of_nat (length d) = 4 * m ∧ rest s = d ++ rest s'
    | None => True end)).
  - eapply read_then; [lia|exact Hs|exact Hb|by intros|]. intros d s' Hs' Hb' Hd Hl Hr. apply loads_ret. split_and!; [done..|]. exists d. rewrite drop_ge, app_nil_r by lia. done.
  - intros [b'|] s' (Hs' & Hb' & H); [|by apply Hnone]. destruct H as (d & -> & Hd & Hl & Hr). by apply Hsome.
Qed.

(** ** Pointers that are filled in *)

Lemma heap_is_fill ps A p C base fds s : ps = A ++ 0 :: C → heap_is (p :: ps) base fds s → heap_is (A ++ p :: C) base fds s.
Proof.
  intros -> (Hh & Hp & Hf). split; [done|]. split; [|done]. rewrite Hp. apply Permutation_app_tail.
  rewrite !filter_cons, !filter_app, !filter_cons. rewrite (decide_False (P := 0 ≠ 0)) by lia.
  destruct (decide (p ≠ 0)); [apply Permutation_middle|done].
Qed.

Lemma heap_is_ext ps ps' base fds s :
  filter (λ a, a ≠ 0) ps' ≡ₚ filter (λ a, a ≠ 0) ps → heap_is ps base fds s → heap_is ps' base fds s.
Proof. intros E (Hh & Hp & Hf). split; [done|]. split; [by rewrite E|done]. Qed.

Lemma heap_is_zeros n ps base fds s : heap_is ps base fds s → heap_is (replicate n 0 ++ ps) base fds s.
Proof.
  intros (Hh & Hp & Hf). split; [done|]. split; [|done]. rewrite filter_app.
  replace (filter (λ a, a ≠ 0) (replicate n 0)) with (@nil Z); [done|].
  induction n as [|n IH]; [done|]. cbn [replicate]. rewrite filter_cons_False by lia. done.
Qed.

(** ** The pieces *)

Definition with_pieces (t : tokenizer) (P : list (block Z)) (Q : list Z) : tokenizer :=
  t <| pieces := Block (addr (pieces t)) P |> <| piece_lens := Block (addr (piece_lens t)) Q |>.

(** The record of a piece in the file. *)
Definition piece_bytes (x : block Z * Z) : list Z := le_bytes 4 x.2 ++ take (Z.to_nat x.2) (data x.1).

(** A loaded piece: a C string of its length. *)
Definition piece_ok (x : block Z * Z) : Prop := 0 ≤ x.2 ∧ data x.1 !! Z.to_nat x.2 = Some 0.

Definition later (t : tokenizer) : list Z :=
  [addr (pieces t); addr (piece_lens t); addr (initial_ids t); addr (special_ids t); addr (merges t)].

Lemma pointers_with t P Q : pointers (with_pieces t P Q) = (addr <$> P) ++ later t.
Proof. done. Qed.

Lemma set_piece_mid t P x R Q b k s :
  k = Z.of_nat (length P) → set_piece k b (with_pieces t (P ++ x :: R) Q) s = Ok (with_pieces t (P ++ b :: R) Q) s.
Proof. intros Hk. unfold set_piece. erewrite bind_ok; [|by apply store_mid]. done. Qed.

Lemma set_len_mid t P Q x R n k s :
  k = Z.of_nat (length Q) → set_len k n (with_pieces t P (Q ++ x :: R)) s = Ok (with_pieces t P (Q ++ n :: R)) s.
Proof. intros Hk. unfold set_len. erewrite bind_ok; [|by apply store_mid]. done. Qed.

(** The bytes of a piece and its terminator fill a block of their length. *)
Lemma store_end a c len s :
  Z.of_nat (length c) = len → store (Block a (c ++ drop (length c) (replicate (Z.to_nat (len + 1)) 0))) len 0 s = Ok (Block a (c ++ [0])) s.
Proof.
  intros Hc.
  replace (drop _ _) with (0 :: @nil Z) by (rewrite drop_replicate; by replace (Z.to_nat (len + 1) - length c)%nat with 1%nat by lia).
  by apply store_mid.
Qed.

(** The tokenizer with [P] and [Q] so far and [n] pieces to come. *)
Definition partly (t : tokenizer) (P : list (block Z)) (Q : list Z) (n : nat) : tokenizer :=
  with_pieces t (P ++ replicate n null) (Q ++ replicate n 0).

(** One piece: it extends the tokenizer by what the file holds, or fails with some
    tokenizer of the same shape that owns all its blocks. *)
Definition piece_post (t : tokenizer) (P : list (block Z)) (Q : list Z) (n : nat) (base : list Z) (fds : Z) (s : loader)
    (r : bool * tokenizer) (s' : loader) : Prop :=
  heap_is (pointers r.2) base fds s' ∧ bytes (rest s') ∧
  if r.1 then ∃ x, r.2 = partly t (P ++ [x.1]) (Q ++ [x.2]) n ∧ piece_ok x ∧ rest s = piece_bytes x ++ rest s'
  else ∃ P' Q', r.2 = with_pieces t P' Q' ∧ length P' = S (length P + n).

Lemma load_piece_ok t n P Q base fds s :
  length P = length Q → heap_is (pointers (partly t P Q (S n))) base fds s → bytes (rest s) →
  loads (load_piece (Z.of_nat (length P)) (partly t P Q (S n))) s (piece_post t P Q n base fds s).
Proof.
  intros HPQ Hs Hb. unfold load_piece, partly in *. cbn [replicate] in *.
  assert (Hfail : ∀ b Q' s', heap_is (pointers (with_pieces t (P ++ b :: replicate n null) Q')) base fds s' → bytes (rest s') →
    piece_post t P Q n base fds s (false, with_pieces t (P ++ b :: replicate n null) Q') s').
  { intros b Q' s' H1 H2. split_and!; [done|done|]. eexists _, _. split; [done|]. rewrite length_app. cbn [length]. rewrite length_replicate. lia. }
  eapply read_then; [lia|exact Hs|exact Hb|intros s' ? ?; by apply loads_ret, Hfail|]. intros d s1 Hs1 Hb1 Hbd Hd Hrest1.
  pose proof (int_whole d Hbd Hd) as Ed. pose proof (int_range d 0) as Hint.
  set (len := int_at d 0) in *. destruct (Z.ltb_spec len 0) as [Hneg|Hpos]; [apply loads_ret; by apply Hfail|].
  eapply loads_eq; [apply (set_len_mid t (P ++ null :: replicate n null) Q 0); lia|]. rewrite u32_id by lia.
  eapply loads_bind; [apply xmalloc_ok; exact Hs1|]. intros [p c0] s2 ([Hp E0] & Hs2 & Er2). cbn [addr data] in *. rewrite Z.div_1_r in E0. subst c0.
  eapply loads_eq; [by apply set_piece_mid|].
  set (ps := (addr <$> P) ++ p :: (addr <$> replicate n (null : block Z)) ++ later t).
  assert (Eps : ∀ c Q', pointers (with_pieces t (P ++ Block p c :: replicate n null) Q') = ps).
  { intros c Q'. by rewrite pointers_with, fmap_app, fmap_cons, <- app_assoc. }
  assert (Hs2' : heap_is ps base fds s2).
  { eapply heap_is_fill; [|exact Hs2]. by rewrite pointers_with, fmap_app, fmap_cons, <- app_assoc. }
  rewrite <- Er2 in Hb1, Hrest1.
  eapply (loads_bind _ _ _ (λ o s3, heap_is ps base fds s3 ∧ bytes (rest s3) ∧
    match o with Some c => rest s2 = c ++ rest s3 ∧ Z.of_nat (length c) = len | None => True end)).
  { destruct (Z.ltb_spec 0 len); [|apply loads_ret; split_and!; [done|done|done|cbn; lia]].
    unfold read_into. rewrite length_replicate, (proj2 (Z.ltb_ge _ _)) by lia. eapply loads_mono; [apply loads_read; lia|].
    intros o s3 (c & Hr & Ho). destruct (bytes_read _ _ _ Hr Hb1) as [_ Hb3]. split_and!; [by eapply heap_is_read|done|].
    destruct o; [|done]. destruct Ho as [-> Hc]. split; [apply Hr|done]. }
  intros [c|] s3 (Hs3 & Hb3 & H); [|apply loads_ret, Hfail; [by rewrite Eps|done]]. destruct H as [Hr3 Hc].
  eapply loads_eq; [by apply store_end|]. eapply loads_eq; [by apply set_piece_mid|]. apply loads_ret.
  split_and!; [cbn [snd]; by rewrite Eps|done|].
  exists (Block p (c ++ [0]), len). cbn [fst snd]. unfold partly. rewrite <- !app_assoc. split_and!; [done| |].
  - split; [done|]. cbn. rewrite lookup_app_r by lia. replace (Z.to_nat len - length c)%nat with 0%nat by lia. done.
  - unfold piece_bytes. cbn [fst snd data]. rewrite Ed, take_app_le, take_ge, <- app_assoc, Hrest1, Hr3 by lia. done.
Qed.

(** All pieces. *)
Definition pieces_post (t : tokenizer) (P : list (block Z)) (Q : list Z) (n : nat) (base : list Z) (fds : Z) (s : loader)
    (r : bool * tokenizer) (s' : loader) : Prop :=
  heap_is (pointers r.2) base fds s' ∧ bytes (rest s') ∧
  if r.1 then ∃ new, r.2 = with_pieces t (P ++ new.*1) (Q ++ new.*2) ∧ length new = n ∧ Forall piece_ok new
     ∧ rest s = concat (piece_bytes <$> new) ++ rest s'
  else ∃ P' Q', r.2 = with_pieces t P' Q' ∧ length P' = (length P + n)%nat.

Lemma load_all_pieces_ok t n P Q base fds s :
  length P = length Q → heap_is (pointers (partly t P Q n)) base fds s → bytes (rest s) →
  loads (unless_fails (seqZ (Z.of_nat (length P)) (Z.of_nat n)) load_piece (partly t P Q n)) s (pieces_post t P Q n base fds s).
Proof.
  revert P Q s. induction n as [|n IH]; intros P Q s HPQ Hs Hb.
  { apply loads_ret. split_and!; [done|done|]. by exists []. }
  rewrite seqZ_cons by lia. replace (Z.pred (Z.of_nat (S n))) with (Z.of_nat n) by lia. cbn [unless_fails].
  eapply loads_bind; [by apply load_piece_ok|]. intros [[] t1] s1 (Hs1 & Hb1 & H); cbn [fst snd] in *.
  - destruct H as (x & -> & Hx & Hrest). replace (Z.succ (Z.of_nat (length P))) with (Z.of_nat (length (P ++ [x.1]))) by (rewrite length_app; cbn; lia).
    eapply loads_mono; [apply IH; [rewrite !length_app; cbn; lia|done|done]|].
    intros [ok t2] s2 (Hs2 & Hb2 & H2). split_and!; [done|done|]. cbn [fst snd] in *. destruct ok.
    + destruct H2 as (new & -> & Hn & Hf & Hr). exists (x :: new). rewrite <- !app_assoc, !fmap_cons. split_and!; [done|cbn; lia|by constructor|].
      cbn [concat]. rewrite Hrest, Hr. apply app_assoc.
    + destruct H2 as (P' & Q' & -> & HP'). rewrite length_app in HP'. cbn in HP'. exists P', Q'. split; [done|lia].
  - apply loads_ret. destruct H as (P' & Q' & -> & HP'). split_and!; [done|done|]. exists P', Q'. split; [done|lia].
Qed.

(** ** The header *)

Lemma word_whole d z : bytes d → Z.of_nat (length d) = 4 → word_at d 0 = z → d = le_bytes 4 z.
Proof.
  intros Hd Hn <-. symmetry. etransitivity; [apply (le_bytes_le_at 4 d 0 Hd); lia|]. apply take_ge. change (length d ≤ 4)%nat. lia.
Qed.

Definition header_of (t : tokenizer) (h7 : Z) : list Z :=
  [t_vocab_size t; max_piece_len t; bos_id t; eos_id t; unk_id t; special_count t; merge_count t; h7] ≫= le_bytes 4.

(** Positive sizes in the range of an [int]. *)
Record counts_ok (t : tokenizer) : Prop := {
  co_vocab : 0 < t_vocab_size t < 2 ^ 31;
  co_piece : 0 < max_piece_len t;
  co_special : 0 ≤ special_count t < 2 ^ 31;
  co_merges : 0 ≤ merge_count t < 2 ^ 31;
}.

Definition no_blocks (t : tokenizer) : Prop :=
  pieces t = null ∧ piece_lens t = null ∧ initial_ids t = null ∧ special_ids t = null ∧ merges t = null.

Definition header_post (base : list Z) (fds : Z) (s : loader) (r : bool * tokenizer) (s' : loader) : Prop :=
  no_blocks r.2 ∧ heap_is [] base fds s' ∧ bytes (rest s') ∧
  if r.1 then counts_ok r.2 ∧ ∃ h7 reserved, length reserved = 216%nat ∧
    rest s = le_bytes 4 TOKENIZER_MAGIC ++ le_bytes 4 TOKENIZER_VERSION ++ header_of r.2 h7 ++ reserved ++ rest s'
  else True.

Lemma header_ok base fds s :
  heap_is [] base fds s → bytes (rest s) → loads (read_tokenizer_header tok0) s (header_post base fds s).
Proof.
  intros Hs Hb. unfold read_tokenizer_header.
  assert (Hfail : ∀ s', heap_is [] base fds s' → bytes (rest s') → header_post base fds s (false, tok0) s') by (intros; by split_and!).
  eapply (read_then 4); [lia|exact Hs|exact Hb|intros s' ? ?; by apply loads_ret, Hfail|]. intros d1 s1 Hs1 Hb1 B1 E1 R1.
  eapply (read_then 4); [lia|exact Hs1|exact Hb1|intros s' ? ?; by apply loads_ret, Hfail|]. intros d2 s2 Hs2 Hb2 B2 E2 R2.
  eapply (read_then 32); [lia|exact Hs2|exact Hb2|intros s' ? ?; by apply loads_ret, Hfail|]. intros d3 s3 Hs3 Hb3 B3 E3 R3.
  eapply (read_then 216); [lia|exact Hs3|exact Hb3|intros s' ? ?; by apply loads_ret, Hfail|]. intros d4 s4 Hs4 Hb4 B4 E4 R4.
  destruct (negb (word_at d1 0 =? TOKENIZER_MAGIC) || negb (word_at d2 0 =? TOKENIZER_VERSION)) eqn:Em; [by apply loads_ret, Hfail|].
  apply orb_false_iff in Em as [M1%negb_false_iff%Z.eqb_eq M2%negb_false_iff%Z.eqb_eq].
  apply loads_ret. split_and!; [by split_and!|done|done|]. cbn [fst snd t_vocab_size max_piece_len special_count merge_count].
  destruct (_ && _) eqn:Ec; [|done].
  apply andb_true_iff in Ec as [[[C1%Z.ltb_lt C2%Z.ltb_lt]%andb_true_iff C3%Z.leb_le]%andb_true_iff C4%Z.leb_le].
  split; [split; cbn; [pose proof (int_range d3 0)|done|pose proof (int_range d3 5)|pose proof (int_range d3 6)]; lia|].
  exists (int_at d3 7), d4. split; [lia|].
  replace (header_of _ (int_at d3 7)) with d3; [|symmetry; exact (ints_bytes d3 8 B3 E3)].
  rewrite <- (word_whole d1 _ B1 E1 M1), <- (word_whole d2 _ B2 E2 M2).
  by rewrite R1, R2, R3, R4.
Qed.

(** ** Loading the pieces and the merge rules *)

Lemma checked_bytes_bound k sz b : 0 ≤ k < 2 ^ 64 → 0 ≤ sz < 2 ^ 64 → checked_bytes k sz = Some b → b = k * sz ∧ k * sz < 2 ^ 32.
Proof.
  intros Hk Hsz. unfold checked_bytes. destruct (checked_mul k sz) as [n|] eqn:E; [cbn|done].
  apply checked_mul_Some in E as [-> _]; [|done|done]. destruct (Z.ltb_spec 0xffffffff (k * sz)); [done|]. intros [= <-]. lia.
Qed.

(** A cleared array of [k] elements, allocated with its size in bytes. *)
Lemma alloc_then {A C} k sz (z : A) s (f : block A → L C) (Q : C → loader → Prop) ps base fds :
  0 ≤ k < 2 ^ 64 → 0 < sz < 2 ^ 64 → heap_is ps base fds s →
  (∀ b s', addr b ≠ 0 → data b = replicate (Z.to_nat k) z → k * sz < 2 ^ 32 → heap_is (addr b :: ps) base fds s' → rest s' = rest s → loads (f b) s' Q) →
  loads (let! n := exit_if_none (checked_bytes k sz) in let! b := xmalloc sz z n in f b) s Q.
Proof.
  intros Hk Hsz Hs Hf. eapply loads_bind; [apply (loads_exit _ _ (λ b s', s' = s ∧ b = k * sz ∧ k * sz < 2 ^ 32))|].
  { intros b Eb. split; [done|]. by apply checked_bytes_bound in Eb; [|lia|lia]. }
  intros ? ? (-> & -> & Hlt). eapply loads_bind; [by apply xmalloc_ok|]. intros b s' ([Hb Hd] & Hs' & Hr).
  rewrite Z.div_mul in Hd by lia. by apply Hf.
Qed.

(** What loading the pieces leaves: nothing else of the tokenizer changes. *)
Definition same_rest (t t' : tokenizer) : Prop :=
  t_vocab_size t' = t_vocab_size t ∧ max_piece_len t' = max_piece_len t ∧ bos_id t' = bos_id t ∧ eos_id t' = eos_id t
  ∧ unk_id t' = unk_id t ∧ special_count t' = special_count t ∧ merge_count t' = merge_count t.

Definition loaded_pieces (t : tokenizer) (new : list (block Z * Z)) : Prop :=
  data (pieces t) = new.*1 ∧ data (piece_lens t) = new.*2 ∧ Z.of_nat (length new) = t_vocab_size t ∧ Forall piece_ok new.

Lemma load_pieces_ok t base fds s :
  no_blocks t → counts_ok t → heap_is [] base fds s → bytes (rest s) →
  loads (load_pieces t) s (λ r s', same_rest t r.2 ∧ pieces_shape r.2 ∧ heap_is (pointers r.2) base fds s' ∧ bytes (rest s') ∧
    initial_ids r.2 = null ∧ special_ids r.2 = null ∧ merges r.2 = null ∧
    (r.1 = true → ∃ new, loaded_pieces r.2 new ∧ rest s = concat (piece_bytes <$> new) ++ rest s')).
Proof.
  intros (E1 & E2 & E3 & E4 & E5) [Hv _ _ _] Hs Hb. unfold load_pieces. set (n := Z.to_nat (t_vocab_size t)).
  eapply alloc_then; [lia|lia|exact Hs|]. intros [p P0] s1 Hp E0 _ Hs1 R1.
  eapply alloc_then; [cbn; lia|lia|exact Hs1|]. intros [q Q0] s2 Hq F0 _ Hs2 R2. cbn [addr data] in *. rewrite E0, F0 in *.
  set (t1 := t <| pieces := Block p [] |> <| piece_lens := Block q [] |>).
  assert (Hstart : heap_is (pointers (partly t1 [] [] n)) base fds s2).
  { unfold partly. rewrite pointers_with. cbn [app]. rewrite fmap_replicate. apply heap_is_zeros. unfold later, t1.
    cbn [setter pieces piece_lens initial_ids special_ids merges addr]. rewrite E3, E4, E5. cbn [addr null].
    eapply heap_is_ext; [|exact Hs2]. rewrite !filter_cons. repeat case_decide; try lia. apply Permutation_swap. }
  eapply loads_mono.
  { assert (Er : range (t_vocab_size t) = seqZ (Z.of_nat (length (@nil (block Z)))) (Z.of_nat n)) by (unfold range, n; by rewrite Z2Nat.id by lia).
    change (t_vocab_size (_ <| piece_lens := _ |>)) with (t_vocab_size t). rewrite Er.
    apply (load_all_pieces_ok t1 n [] []); [done|exact Hstart|congruence]. }
  intros [ok t2] s3 (Hs3 & Hb3 & H). cbn [fst snd] in *.
  assert (Hshape : ∃ P' Q', t2 = with_pieces t1 P' Q' ∧ length P' = n).
  { destruct ok; [|exact H]. destruct H as (new & -> & Hn & _). eexists _, _. split; [done|]. cbn [app]. by rewrite length_fmap. }
  destruct Hshape as (P' & Q' & -> & HP'). split_and!; try done.
  { split; [intros H0; by destruct (Hp H0)|]. intros _. cbn. unfold n in HP'. lia. }
  intros ->. destruct H as (new & E & Hn & Hf & Hr). exists new. rewrite E. split; [|congruence].
  split_and!; [done|done|cbn; unfold n in Hn; lia|done].
Qed.

(** The record of a merge rule in the file. *)
Definition merge_bytes (m : merge) : list Z := [left m; right m; out m] ≫= le_bytes 4.

Definition with_merges (t : tokenizer) (a : Z) (l : list merge) : tokenizer := t <| merges := Block a l |>.

Lemma set_merge_mid t a P x R m k s :
  k = Z.of_nat (length P) → set_merge k m (with_merges t a (P ++ x :: R)) s = Ok (with_merges t a (P ++ m :: R)) s.
Proof. intros Hk. unfold set_merge. erewrite bind_ok; [|by apply store_mid]. done. Qed.

Lemma load_merges_ok t a z n P ps base fds s :
  heap_is ps base fds s → bytes (rest s) →
  loads (unless_fails (seqZ (Z.of_nat (length P)) (Z.of_nat n)) load_merge (with_merges t a (P ++ replicate n z))) s (λ r s',
    heap_is ps base fds s' ∧ bytes (rest s') ∧ ∃ l, r.2 = with_merges t a l ∧
    (r.1 = true → ∃ new, l = P ++ new ∧ length new = n ∧ rest s = (new ≫= merge_bytes) ++ rest s')).
Proof.
  revert P s. induction n as [|n IH]; intros P s Hs Hb.
  { apply loads_ret. split_and!; [done|done|]. eexists. split; [done|]. intros _. by exists []. }
  rewrite seqZ_cons by lia. replace (Z.pred (Z.of_nat (S n))) with (Z.of_nat n) by lia. cbn [unless_fails]. unfold and_then at 1, load_merge at 1.
  eapply loads_bind.
  - eapply (read_then 12 _ _ (λ (r : bool * tokenizer) s', heap_is ps base fds s' ∧ bytes (rest s') ∧
      if r.1 then ∃ m, r.2 = with_merges t a ((P ++ [m]) ++ replicate n z) ∧ rest s = merge_bytes m ++ rest s'
      else r.2 = with_merges t a (P ++ replicate (S n) z))); [lia|exact Hs|exact Hb|by intros|].
    intros d s' Hs' Hb' Hd Hl Hr. eapply loads_eq; [by apply set_merge_mid|]. apply loads_ret. split_and!; [done|done|].
    exists (Merge (int_at d 0) (int_at d 1) (int_at d 2)). split.
    + by rewrite <- app_assoc.
    + rewrite Hr. f_equal. symmetry. exact (ints_bytes d 3 Hd Hl).
  - intros [[] t1] s1 (Hs1 & Hb1 & H); cbn [fst snd] in *.
    + destruct H as (m & -> & Hr). replace (Z.succ (Z.of_nat (length P))) with (Z.of_nat (length (P ++ [m]))) by (rewrite length_app; cbn; lia).
      eapply loads_mono; [by apply IH|]. intros r s2 (Hs2 & Hb2 & l & El & H2). split_and!; [done|done|]. exists l. split; [done|].
      intros Hok. destruct (H2 Hok) as (new & -> & Hn & Hr2). exists (m :: new). rewrite <- app_assoc. split_and!; [done|cbn; lia|].
      rewrite bind_cons, <- app_assoc, <- Hr2. done.
    + apply loads_ret. split_and!; [done|done|]. eexists. split; [exact H|done].
Qed.

Lemma alloc_if_ok {A} n size (z : A) ps base fds s :
  0 ≤ n < 2 ^ 31 → 0 < size < 2 ^ 31 → heap_is ps base fds s →
  loads (alloc_if n size z) s (λ b s', heap_is (addr b :: ps) base fds s' ∧ rest s' = rest s ∧ data b = replicate (Z.to_nat n) z
    ∧ n * size < 2 ^ 32 ∧ (n = 0 → b = null)).
Proof.
  intros Hn Hsz Hs. unfold alloc_if. destruct (Z.ltb_spec 0 n).
  - eapply loads_bind; [apply (loads_exit _ _ (λ b s', s' = s ∧ b = n * size ∧ n * size < 2 ^ 32))|].
    { intros b Eb. split; [done|]. by apply checked_bytes_bound in Eb; [|lia|lia]. }
    intros ? ? (-> & -> & Hlt). eapply loads_mono; [by apply xmalloc_ok|]. intros b s' ([Hp Hd] & Hs' & Hr).
    rewrite Z.div_mul in Hd by lia. split_and!; [done|done|done|done|lia].
  - apply loads_ret. assert (n = 0) as -> by lia. split_and!; [|done|done|lia|done]. eapply heap_is_ext; [|exact Hs]. rewrite filter_cons_False by (cbn; lia). done.
Qed.

(** What loading the rules leaves of the other fields. *)
Definition with_bpe (t : tokenizer) (I S : block Z) (R : block merge) : tokenizer :=
  t <| initial_ids := I |> <| special_ids := S |> <| merges := R |>.

Definition bpe_post (t : tokenizer) (base : list Z) (fds : Z) (s : loader) (r : bool * tokenizer) (s' : loader) : Prop :=
  ∃ I S R, r.2 = with_bpe t I S R ∧ heap_is (pointers r.2) base fds s' ∧
    (r.1 = true → length (data I) = 256%nat ∧ Z.of_nat (length (data S)) = special_count t ∧ Z.of_nat (length (data R)) = merge_count t ∧
       rest s = (data I ≫= le_bytes 4) ++ (data S ≫= le_bytes 4) ++ (data R ≫= merge_bytes) ++ rest s').

Lemma length_ints d n : 0 ≤ n → Z.of_nat (length (ints d n)) = n.
Proof. intros Hn. unfold range. rewrite length_fmap, length_seqZ. lia. Qed.

Lemma load_bpe_ok t base fds s :
  initial_ids t = null → special_ids t = null → merges t = null → counts_ok t →
  heap_is (pointers t) base fds s → bytes (rest s) → loads (load_bpe t) s (bpe_post t base fds s).
Proof.
  intros E1 E2 E3 [_ _ Hsc Hmc] Hs Hb. unfold load_bpe.
  set (A := (addr <$> data (pieces t)) ++ [addr (pieces t); addr (piece_lens t)]).
  assert (Hpt : ∀ a b c, A ++ [a; b; c] = (addr <$> data (pieces t)) ++ [addr (pieces t); addr (piece_lens t); a; b; c]) by (intros; unfold A; by rewrite <- app_assoc).
  eapply loads_bind; [by apply xmalloc_ok|]. intros [p I0] s1 ([Hp DI] & Hs1 & R1). cbn [addr data] in *.
  apply (heap_is_fill _ A p [0; 0]) in Hs1; [|unfold pointers; rewrite E1, E2, E3; symmetry; apply Hpt].
  eapply loads_bind; [apply (alloc_if_ok (special_count t) 4 0); [exact Hsc|lia|exact Hs1]|]. intros S s2 (Hs2 & R2 & DS & BS & NS).
  apply (heap_is_fill _ (A ++ [p]) (addr S) [0]) in Hs2; [|by rewrite <- app_assoc]. rewrite <- app_assoc in Hs2.
  eapply loads_bind; [apply (alloc_if_ok (merge_count t) 12 (Merge 0 0 0)); [exact Hmc|lia|exact Hs2]|]. intros R s3 (Hs3 & R3 & DR & BR & NR).
  apply (heap_is_fill _ (A ++ [p; addr S]) (addr R) []) in Hs3; [|by rewrite <- app_assoc]. rewrite <- app_assoc in Hs3. cbn [app] in Hs3. rewrite Hpt in Hs3.
  assert (Hb3 : bytes (rest s3)) by congruence. assert (Hr3 : rest s = rest s3) by congruence.
  assert (Hfail : ∀ I' S' s', addr I' = p → addr S' = addr S → heap_is ((addr <$> data (pieces t)) ++ [addr (pieces t); addr (piece_lens t); p; addr S; addr R]) base fds s' →
    bpe_post t base fds s (false, with_bpe t I' S' R) s').
  { intros I' S' s' EI ES Hs'. exists I', S', R. split; [done|]. split; [|done]. unfold pointers. cbn. by rewrite EI, ES. }
  eapply (read_array_then int_at _ (256 * 4) 256); [done|cbn [initial_ids data setter]; by rewrite DI|lia|exact Hs3|exact Hb3|intros s' Hs' _; by apply loads_ret, Hfail|]. intros d1 s4 Hs4 Hb4 B1 L1 F1.
  assert (Hmerges : ∀ S' s5, addr S' = addr S → Z.of_nat (length (data S')) = special_count t →
    heap_is ((addr <$> data (pieces t)) ++ [addr (pieces t); addr (piece_lens t); p; addr S; addr R]) base fds s5 → bytes (rest s5) →
    rest s4 = (data S' ≫= le_bytes 4) ++ rest s5 →
    loads (unless_fails (range (merge_count t)) load_merge (with_bpe t (Block p (ints d1 256)) S' R)) s5 (bpe_post t base fds s)).
  { intros S' s5 ES LS Hs5 Hb5 F5. assert (Er : range (merge_count t) = seqZ (Z.of_nat (length (@nil merge))) (Z.of_nat (Z.to_nat (merge_count t))))
      by (unfold range; by rewrite Z2Nat.id by lia). rewrite Er.
    assert (ER : R = Block (addr R) ([] ++ replicate (Z.to_nat (merge_count t)) (Merge 0 0 0))) by (destruct R; cbn in *; by rewrite DR).
    rewrite ER. eapply loads_mono; [apply (load_merges_ok (with_bpe t (Block p (ints d1 256)) S' R) (addr R) (Merge 0 0 0) _ [] _ base fds s5 Hs5 Hb5)|].
    intros [ok t'] s6 (Hs6 & _ & l & El & H). cbn [fst snd] in El. subst t'. exists (Block p (ints d1 256)), S', (Block (addr R) l). cbn [fst snd] in *. split; [done|].
    split; [unfold pointers; cbn; by rewrite ES|]. intros Hok. destruct (H Hok) as (new & -> & Hn & F6). cbn [data app].
    split_and!; [pose proof (length_ints d1 256); lia|done|lia|].
    rewrite (ints_bytes d1 256 B1 L1), Hr3, F1, F5, F6. done. }
  change (special_count (_ <| initial_ids := _ |>)) with (special_count t). destruct (Z.ltb_spec 0 (special_count t)) as [Hpos|Hz].
  - change (u32 (special_count _ * 4)) with (u32 (special_count t * 4)). rewrite (u32_id (special_count t * 4)) by lia. eapply (read_array_then int_at _ _ (special_count t)); [lia|change (Z.of_nat (length (data S)) = special_count t); rewrite DS, length_replicate; lia|lia|exact Hs4|exact Hb4|intros s' Hs' _; apply loads_ret; by apply (Hfail (Block p (ints d1 256)) S)|]. intros d2 s5 Hs5 Hb5 B2 L2 F2.
    apply Hmerges; [done|apply length_ints; lia|done|done|]. cbn [data]. rewrite (ints_bytes d2 (special_count t)) by (done || lia). done.
  - apply Hmerges; [done|rewrite DS, length_replicate; lia|done|done|]. rewrite DS. replace (special_count t) with 0 by lia. done.
Qed.

(** ** The whole tokenizer *)

(** The file of a tokenizer; a number and a run of bytes of the header are reserved. *)
Definition tok_file (t : tokenizer) (h7 : Z) (reserved : list Z) : list Z :=
  le_bytes 4 TOKENIZER_MAGIC ++ le_bytes 4 TOKENIZER_VERSION ++ header_of t h7 ++ reserved ++
  concat (piece_bytes <$> zip (data (pieces t)) (data (piece_lens t))) ++
  (data (initial_ids t) ≫= le_bytes 4) ++ (data (special_ids t) ≫= le_bytes 4) ++ (data (merges t) ≫= merge_bytes).

(** A loaded tokenizer. *)
Definition whole (t : tokenizer) : Prop :=
  0 < t_vocab_size t ∧ (∃ new, loaded_pieces t new) ∧ length (data (initial_ids t)) = 256%nat
  ∧ Z.of_nat (length (data (special_ids t))) = special_count t ∧ Z.of_nat (length (data (merges t))) = merge_count t.

Definition zero_free (t : tokenizer) : Prop :=
  ∀ i id p, data (special_ids t) !! i = Some id → piece t id = Some p → 0 ∉ p.

Lemma whole_tok_ok t : whole t → zero_free t → tok_ok t.
Proof.
  intros (_ & (new & E1 & E2 & E3 & Hf) & H1 & H2 & H3) Hz. split; [done|done|done|rewrite E1, length_fmap; done|rewrite E2, length_fmap; done| |done].
  intros i b n Hb Hn. rewrite E1 in Hb. rewrite E2 in Hn. rewrite list_lookup_fmap in Hb. rewrite list_lookup_fmap in Hn.
  destruct (new !! i) as [x|] eqn:Ex; [|done]. injection Hb as <-. injection Hn as <-. rewrite Forall_lookup in Hf. by apply (Hf i).
Qed.

Definition tok_post (base : list Z) (fds : Z) (s : loader) (r : bool * tokenizer) (s' : loader) : Prop :=
  pieces_shape r.2 ∧ heap_is (pointers r.2) base fds s' ∧
  (r.1 = true → whole r.2 ∧ ∃ h7 reserved, length reserved = 216%nat ∧ rest s = tok_file r.2 h7 reserved ++ rest s').

Lemma no_blocks_pointers t : no_blocks t → pointers t = [0; 0; 0; 0; 0] ∧ pieces_shape t.
Proof. intros (E1 & E2 & E3 & E4 & E5). unfold pointers, pieces_shape. rewrite E1, E2, E3, E4, E5. done. Qed.

Lemma tokenizer_parts_ok base fds s :
  heap_is [] base fds s → bytes (rest s) →
  loads (and_then (and_then (read_tokenizer_header tok0) load_pieces) load_bpe) s (tok_post base fds s).
Proof.
  intros Hs Hb. unfold and_then. eapply loads_bind; [eapply loads_bind; [by apply header_ok|]|].
  - instantiate (1 := λ r s', pieces_shape r.2 ∧ heap_is (pointers r.2) base fds s' ∧
      (r.1 = true → bytes (rest s') ∧ initial_ids r.2 = null ∧ special_ids r.2 = null ∧ merges r.2 = null ∧ counts_ok r.2 ∧
        ∃ h7 reserved new, length reserved = 216%nat ∧ loaded_pieces r.2 new ∧
          rest s = le_bytes 4 TOKENIZER_MAGIC ++ le_bytes 4 TOKENIZER_VERSION ++ header_of r.2 h7 ++ reserved ++ concat (piece_bytes <$> new) ++ rest s')).
    intros [[] t1] s1 (Hn & Hs1 & Hb1 & H); cbn [fst snd] in *.
    + destruct H as (Hc & h7 & reserved & Hlr & Hr1). eapply loads_mono; [by apply load_pieces_ok|].
      intros r s2 (Hsame & Hsh & Hs2 & Hb2 & N1 & N2 & N3 & H2). split_and!; [done|done|]. intros Hok. destruct (H2 Hok) as (new & Hnew & Hr2).
      destruct Hsame as (S1 & S2 & S3 & S4 & S5 & S6 & S7). split_and!; [done|done|done|done| |].
      * destruct Hc. split; congruence.
      * exists h7, reserved, new. split_and!; [done|done|]. unfold header_of in *. rewrite S1, S2, S3, S4, S5, S6, S7, <- Hr2. exact Hr1.
    + apply loads_ret. destruct (no_blocks_pointers _ Hn) as [Ep Hsh]. split_and!; [done| |done]. cbn [snd]. rewrite Ep. eapply heap_is_ext; [|exact Hs1]. done.
  - intros [[] t2] s2 (Hsh & Hs2 & H); cbn [fst snd] in *; [|by apply loads_ret].
    destruct (H eq_refl) as (Hb2 & N1 & N2 & N3 & Hc & h7 & reserved & new & Hlr & Hnew & Hr).
    eapply loads_mono; [by apply load_bpe_ok|]. intros [ok t3] s3 (I & S & R & E & Hs3 & H3). cbn [fst snd] in *. subst t3.
    split_and!; [done|done|]. intros Hok. destruct (H3 Hok) as (L1 & L2 & L3 & Hr3). split; [split_and!; [apply Hc|by exists new|done|done|done]|].
    exists h7, reserved. split; [done|]. destruct Hnew as (E1 & E2 & _). unfold tok_file. cbn [snd].
    change (pieces (with_bpe t2 I S R)) with (pieces t2). change (piece_lens (with_bpe t2 I S R)) with (piece_lens t2).
    rewrite E1, E2, zip_fst_snd, Hr, Hr3, <- !app_assoc. done.
Qed.

Lemma tokenizer_load_ok there s :
  heap_ok s → bytes (rest s) →
  loads (llm_tokenizer_load there) s (λ r s', if r.1 then tok_post (allocated s) (open_fds s) s r s'
    else r.2 = tok0 ∧ heap_is [] (allocated s) (open_fds s) s').
Proof.
  intros Hh Hb.
  unfold llm_tokenizer_load. destruct there; cbn [negb]; [|by apply loads_ret].
  apply loads_modify.
  eapply loads_bind; [apply (tokenizer_parts_ok (allocated s) (open_fds s + 1)); [|done]|]; [split; [by destruct Hh|done]|].
  intros r s1 (Hsh & (H1 & H2 & H3) & Hok). apply loads_modify.
  assert (Hs2 : heap_is (pointers r.2) (allocated s) (open_fds s) (s1 <| open_fds := open_fds s1 - 1 |>)).
  { split; [by destruct H1|]. split; [done|]. cbn. lia. }
  destruct (r.1) eqn:Er; cbn [negb]; [apply loads_ret; split_and!; [done|done|intros _; by apply Hok]|].
  eapply loads_bind; [by apply loads_returns, tokenizer_free_ok|]. intros t s3 [-> Hs3]. by apply loads_ret.
Qed.

(** C21 [safety]. Loading a tokenizer, whatever the file holds, however many bytes
    each [read] delivers and whichever [malloc] fails: the loader returns, exits, or
    asks [malloc] for 2^31-31 bytes or more, where the run is not followed further
    ([Panic "huge"]).  It never loads, stores or reads outside the bytes it asked for
    and never frees a block twice.  On success the bytes it consumed are exactly the file of the tokenizer it
    returns, every array has the announced length and every piece is a C string of
    its length (so the encoder may use it when no special piece contains a zero
    byte), the tokenizer owns every block that was allocated, and
    [llm_tokenizer_free] gives all of them back.  On failure nothing stays
    allocated.  The file is closed either way. *)
Theorem tokenizer_load_safe there s :
  heap_ok s → bytes (rest s) →
  match llm_tokenizer_load there s with
  | Ok (true, t) s' =>
      open_fds s' = open_fds s ∧ NoDup (allocated s') ∧ allocated s' ≡ₚ filter (λ a, a ≠ 0) (pointers t) ++ allocated s ∧
      (∃ h7 reserved, length reserved = 216%nat ∧ rest s = tok_file t h7 reserved ++ rest s') ∧
      (zero_free t → tok_ok t) ∧
      returns (llm_tokenizer_free t) s' (λ t' s2, t' = tok0 ∧ allocated s2 ≡ₚ allocated s)
  | Ok (false, t) s' => t = tok0 ∧ open_fds s' = open_fds s ∧ allocated s' ≡ₚ allocated s
  | Panic msg => msg = "exit"%string ∨ msg = "huge"%string
  | _ => False
  end.
Proof.
  intros Hh Hb. pose proof (tokenizer_load_ok there s Hh Hb) as H.
  unfold loads in H. destruct (llm_tokenizer_load there s) as [[[] t] s'| | |]; cbn [fst snd] in H; try done.
  - destruct H as (Hsh & Hs' & H). destruct (H eq_refl) as (Hw & Hfile). cbn [snd] in *. split_and!; [apply Hs'|apply Hs'|apply Hs'|done| |].
    + intros Hz. by apply whole_tok_ok.
    + eapply returns_mono; [by apply tokenizer_free_ok|]. intros t' s2 (-> & _ & Hp & _). done.
  - destruct H as (-> & _ & Hp & Hf). done.
Qed.

(** ** The small tokenizer, read in pieces of seven bytes *)

Module LoadTest.

Definition start : loader :=
  Loader (tok_file TokTest.t2 0 (replicate 216 0) ++ [1]) (replicate 90 (Some 7%nat)) [] 1 [] 0.

Lemma start_ok : heap_ok start ∧ bytes (rest start).
Proof. split; [split; [constructor|constructor|reflexivity]|]. apply (bool_decide_unpack _). vm_compute. exact I. Qed.

End LoadTest.

(** All but the last byte are read, 264 blocks are allocated, and freed again. *)
Lemma tokenizer_load_safe_witness :
  ∃ t s', llm_tokenizer_load true LoadTest.start = Ok (true, t) s' ∧ rest s' = [1] ∧ length (allocated s') = 264%nat ∧
    returns (llm_tokenizer_free t) s' (λ _ s2, allocated s2 = []).
Proof.
  pose proof (tokenizer_load_safe true LoadTest.start (proj1 LoadTest.start_ok) (proj2 LoadTest.start_ok)) as H.
  assert (E : match llm_tokenizer_load true LoadTest.start with
              | Ok (true, _) s' => bool_decide (rest s' = [1]) && (length (allocated s') =? 264)%nat
              | _ => false
              end = true) by (vm_compute; reflexivity).
  destruct (llm_tokenizer_load true LoadTest.start) as [[[] t] s'| | |]; try discriminate E.
  apply andb_true_iff in E as [E1%bool_decide_eq_true E2%Nat.eqb_eq]. destruct H as (_ & _ & _ & _ & _ & H).
  exists t, s'. split; [reflexivity|]. split; [exact E1|]. split; [exact E2|].
  destruct H as (t' & s2 & Ef & _ & Hp). exists t', s2. split; [exact Ef|]. symmetry in Hp. exact (Permutation_nil Hp).
Defined.
