(* ===== verification/LlmFile.v ===== *)
(** A tokenizer that was written to a file is loaded from it: when the calls of
    [read] deliver at least a byte and memory suffices, the loader returns the
    tokenizer whose file it reads. *)

From Stdlib Require Import Floats.SpecFloat.
From S2P Require Import Prelude Machine CString Bio Fs Bytes FloatMath Llm LlmSpec LlmTok LlmEncode LlmLoad LlmLoadSpec.

(** No call of [read] fails or delivers nothing, and every [malloc] succeeds. *)
Record benign (s : loader) : Prop := {
  bn_reads : Forall (λ o, ∃ k, o = Some (S k)) (reads s);
  bn_mallocs : Forall (λ b, b = true) (mallocs s);
  bn_fresh : 0 < fresh s;
}.

(** The computation consumes the file up to [r] and returns what [Q] says. *)
Definition consumes {A} (m : L A) (s : loader) (r : list Z) (Q : A → Prop) : Prop :=
  returns m s (λ a s', Q a ∧ rest s' = r ∧ benign s').

Lemma consumes_bind {A C} (m : L A) (k : A → L C) s r1 r R Q :
  consumes m s r1 R → (∀ a s', R a → rest s' = r1 → benign s' → consumes (k a) s' r Q) → consumes (bind m k) s r Q.
Proof. intros Hm Hk. eapply returns_bind; [exact Hm|]. intros a s' (HR & Hr & Hb). by apply Hk. Qed.

Lemma consumes_ret {A} (a : A) s r (Q : A → Prop) : Q a → rest s = r → benign s → consumes (ret a) s r Q.
Proof. intros. by apply returns_ret. Qed.

Lemma consumes_mono {A} (m : L A) s r (Q R : A → Prop) : consumes m s r Q → (∀ a, Q a → R a) → consumes m s r R.
Proof. intros H HQR. eapply returns_mono; [exact H|]. intros a s' (? & ? & ?). auto. Qed.

(** ** Reading and allocating *)

(** A call of [read] delivers between 1 and [n] bytes of what is there. *)
Lemma read_call_full n d r s :
  benign s → rest s = d ++ r → 1 ≤ u32 n ≤ Z.of_nat (length d) →
  ∃ k s', read_call n s = Ok (Some (take k d)) s' ∧ rest s' = drop k d ++ r ∧ (0 < k ≤ length d)%nat ∧ (k ≤ Z.to_nat (u32 n))%nat ∧ benign s'.
Proof.
  intros [H1 H2 H3] Hr Hn. unfold read_call. destruct (reads s) as [|o l] eqn:El.
  - exists (Z.to_nat (u32 n)). eexists. rewrite Hr, take_app_le by lia. split; [reflexivity|]. cbn [setter rest]. rewrite Hr, drop_app_le by lia.
    split_and!; [done|lia|lia|lia|]. by split.
  - apply Forall_cons in H1 as [[most ->] H1]. exists (Nat.min (Z.to_nat (u32 n)) (S most)). eexists. rewrite Hr, take_app_le by lia.
    split; [reflexivity|]. cbn [setter rest]. rewrite Hr, drop_app_le by lia. split_and!; [done|lia|lia|lia|]. by split.
Qed.

Lemma read_exact_full d r s :
  benign s → rest s = d ++ r → Z.of_nat (length d) < 2 ^ 32 → consumes (read_exact (Z.of_nat (length d))) s r (λ o, o = Some d).
Proof.
  intros Hs Hr Hd. unfold read_exact. set (n := Z.of_nat (length d)) in *.
  assert (H : ∀ fuel off acc d' s0, 0 ≤ off → Z.of_nat (length acc) = off → acc ++ d' = d → rest s0 = d' ++ r → benign s0 →
    (Z.to_nat (n - off) < fuel)%nat → consumes (exact_loop fuel n off acc) s0 r (λ o, o = Some d)).
  2:{ apply (H _ 0 [] d s); [lia|done|done|done|done|lia]. }
  induction fuel as [|fuel IH]; intros off acc d' s0 Hoff Hacc Hd' Hr0 Hs0 Hfuel; [lia|]. cbn [exact_loop].
  assert (Hlen : Z.of_nat (length d') = n - off) by (unfold n; rewrite <- Hd', length_app; lia).
  destruct (Z.ltb_spec off n) as [Hlt|Hge].
  2:{ destruct d'; [|cbn in Hlen; lia]. rewrite app_nil_r in Hd'. subst acc. by apply consumes_ret. }
  set (chunk := if 4096 <? s32 (u32 (n - off)) then 4096 else s32 (u32 (n - off))).
  assert (Hchunk : 1 ≤ u32 chunk ≤ Z.of_nat (length d')).
  { unfold chunk. rewrite (u32_id (n - off)) by lia. unfold u32, s32. destruct (Z.ltb_spec 4096 ((n - off + 2 ^ 31) mod 2 ^ 32 - 2 ^ 31)); dlia. }
  destruct (read_call_full chunk d' r s0 Hs0 Hr0 Hchunk) as (k & s1 & E & Hr1 & Hk & Hk2 & Hs1).
  unfold consumes. eapply returns_bind; [eapply returns_eq, E|]. intros ? ? [-> ->].
  assert (Hlk : length (take k d') = k) by (rewrite length_take; lia).
  destruct (take k d') as [|b bs] eqn:Et; [cbn in Hlk; lia|]. rewrite <- Et in *. rewrite Hlk, u32_id by lia.
  apply (IH _ _ (drop k d') s1); [lia|rewrite length_app; lia|by rewrite <- app_assoc, take_drop|done|done|lia].
Qed.

Lemma xreserve_full n s : benign s → n < malloc_limit → consumes (xreserve n) s (rest s) (λ p, p ≠ 0).
Proof.
  intros [H1 H2 H3] Hn. unfold consumes, returns, xreserve, bind, malloc_call. rewrite (proj2 (Z.leb_gt _ _)) by lia. destruct (mallocs s) as [|b l] eqn:El.
  - cbn. rewrite (proj2 (Z.eqb_neq _ _)) by lia. eexists _, _. split; [done|]. split_and!; [lia|done|]. split; cbn; [done|constructor|lia].
  - apply Forall_cons in H2 as [-> H2]. cbn. rewrite (proj2 (Z.eqb_neq _ _)) by lia. eexists _, _. split; [done|]. split_and!; [lia|done|].
    split; cbn; [done| |lia]. by rewrite drop_0.
Qed.

(** ** Numbers *)

Abbreviation in_int := (λ z, - 2 ^ 31 ≤ z < 2 ^ 31).

Lemma le_bytes_u32 z : le_bytes 4 (u32 z) = le_bytes 4 z.
Proof.
  rewrite <- (le_bytes_shift 4 (u32 z) (z / 2 ^ 32)). f_equal. unfold u32. change (256 ^ Z.of_nat 4) with (2 ^ 32).
  pose proof (Z.div_mod z (2 ^ 32) ltac:(lia)). lia.
Qed.

Lemma int_at_array l i z : l !! i = Some z → in_int z → int_at (l ≫= le_bytes 4) (Z.of_nat i) = z.
Proof.
  intros Hi Hz. replace (l ≫= le_bytes 4) with ((u32 <$> l) ≫= le_bytes 4).
  - unfold int_at, word_at. replace (Z.to_nat (4 * Z.of_nat i)) with (4 * i)%nat by lia.
    rewrite (le_at_array 4 _ i (u32 z)); [transitivity (s32 z); [unfold s32, u32; by rewrite Zplus_mod_idemp_l|by apply s32_id]|by rewrite list_lookup_fmap, Hi|apply u32_bound].
  - clear. induction l as [|y l IH]; [done|]. by rewrite fmap_cons, !bind_cons, le_bytes_u32, IH.
Qed.

Lemma ints_array l : Forall in_int l → ints (l ≫= le_bytes 4) (Z.of_nat (length l)) = l.
Proof.
  intros Hl. apply list_eq. intros i. unfold range. rewrite list_lookup_fmap.
  destruct (l !! i) as [z|] eqn:Ei.
  - pose proof (lookup_lt_Some _ _ _ Ei). rewrite lookup_seqZ_lt by lia. rewrite Z.add_0_l. rewrite Forall_lookup in Hl. f_equal. cbn [fmap option_fmap option_map]. f_equal. by apply int_at_array; [|apply (Hl i)].
  - apply lookup_ge_None in Ei. rewrite lookup_seqZ_ge by lia. done.
Qed.

(** ** Steps *)

Section Steps.

Context {A : Type} (Q : A → Prop) (s : loader) (r : list Z) (Hs : benign s).

Lemma consumes_read n d r1 (k : option (list Z) → L A) :
  rest s = d ++ r1 → Z.of_nat (length d) = n → n < 2 ^ 32 →
  (∀ s', rest s' = r1 → benign s' → consumes (k (Some d)) s' r Q) → consumes (bind (read_exact n) k) s r Q.
Proof.
  intros Hr <- Hn Hk. eapply consumes_bind; [by apply (read_exact_full d r1)|]. intros o s' -> Hr' Hs'. by apply Hk.
Qed.

Lemma consumes_alloc {C} size (z : C) n (k : block C → L A) :
  n < malloc_limit →
  (∀ p s', p ≠ 0 → rest s' = rest s → benign s' → consumes (k (Block p (replicate (Z.to_nat (n / size)) z))) s' r Q) →
  consumes (bind (xmalloc size z n) k) s r Q.
Proof.
  intros Hn Hk. eapply (consumes_bind _ _ _ (rest s) _ (λ b, ∃ p, p ≠ 0 ∧ b = Block p (replicate (Z.to_nat (n / size)) z))).
  - eapply consumes_bind; [by apply xreserve_full|]. intros p s' Hp Hr' Hs'. apply consumes_ret; [by exists p|done..].
  - intros ? s' (p & Hp & ->) Hr' Hs'. by apply Hk.
Qed.

Lemma consumes_eq {C} (m : L C) a (k : C → L A) : m s = Ok a s → consumes (k a) s r Q → consumes (bind m k) s r Q.
Proof. unfold consumes, returns, bind. by intros ->. Qed.

(** Reading the bytes of an array that fills its block. *)
Lemma consumes_array {C} (elem : list Z → Z → C) (b : block C) d r1 n m (k : option (block C) → L A) :
  rest s = d ++ r1 → Z.of_nat (length d) = n → n = 4 * m → n < 2 ^ 32 → Z.of_nat (length (data b)) = m →
  (∀ s', rest s' = r1 → benign s' → consumes (k (Some (Block (addr b) (elem d <$> range m)))) s' r Q) →
  consumes (bind (read_array elem b n) k) s r Q.
Proof.
  intros Hr Hd -> Hn Hm Hk. eapply (consumes_bind _ _ _ r1 _ (λ o, o = Some (Block (addr b) (elem d <$> range m)))); [|intros ? s' ->; apply Hk].
  unfold read_array, read_into. rewrite Hm, Z.ltb_irrefl. rewrite <- Hd at 1. eapply consumes_bind; [by apply (read_exact_full d r1); [| |lia]|].
  intros ? s' -> Hr' Hs'. apply consumes_ret; [|done|done]. rewrite (Z.mul_comm 4 m), Z.div_mul, drop_ge, app_nil_r by lia. done.
Qed.

Lemma consumes_size n size (k : Z → L A) :
  0 ≤ n < 2 ^ 31 → 0 ≤ size → n * size < malloc_limit → consumes (k (n * size)) s r Q → consumes (bind (exit_if_none (checked_bytes n size)) k) s r Q.
Proof.
  unfold malloc_limit. intros Hn Hsz Hlt Hk. assert (E : checked_bytes n size = Some (n * size)); [|by rewrite E].
  unfold checked_bytes, checked_mul. destruct (Z.eq_dec n 0) as [->|Hne].
  { destruct size; reflexivity. }
  assert (size < 2 ^ 32) by nia. rewrite (u64_id n), (u64_id size), (u64_id (n * size)) by lia.
  rewrite (proj2 (Z.eqb_neq n 0)) by lia. cbn [negb andb].
  assert (size ≤ (2 ^ 64 - 1) / n) by (apply Z.div_le_lower_bound; lia).
  rewrite (proj2 (Z.ltb_ge _ _)) by lia. cbn [mbind option_bind]. by rewrite (proj2 (Z.ltb_ge _ _)) by lia.
Qed.

End Steps.

(** ** The parts of the file *)

Lemma header_full t h7 reserved r s :
  benign s → counts_ok t → Forall in_int [max_piece_len t; bos_id t; eos_id t; unk_id t; h7] → length reserved = 216%nat →
  rest s = le_bytes 4 TOKENIZER_MAGIC ++ le_bytes 4 TOKENIZER_VERSION ++ header_of t h7 ++ reserved ++ r →
  consumes (read_tokenizer_header tok0) s r (λ q, q.1 = true ∧ no_blocks q.2 ∧ same_rest t q.2).
Proof.
  intros Hs [C1 C2 C3 C4] Hint Hres Hr. unfold read_tokenizer_header.
  apply Forall_cons in Hint as [I1 Hint]. apply Forall_cons in Hint as [I2 Hint]. apply Forall_cons in Hint as [I3 Hint]. apply Forall_cons in Hint as [I4 Hint].
  apply Forall_cons in Hint as [I5 _].
  eapply consumes_read; [done|exact Hr|done|lia|]. intros s1 R1 H1. eapply consumes_read; [done|exact R1|done|lia|]. intros s2 R2 H2.
  eapply consumes_read; [done|exact R2|done|lia|]. intros s3 R3 H3. eapply consumes_read; [done|exact R3|lia|lia|]. intros s4 R4 H4.
  change (word_at (le_bytes 4 TOKENIZER_MAGIC) 0 =? TOKENIZER_MAGIC) with true. change (word_at (le_bytes 4 TOKENIZER_VERSION) 0 =? TOKENIZER_VERSION) with true.
  cbn [negb orb]. set (l := [t_vocab_size t; max_piece_len t; bos_id t; eos_id t; unk_id t; special_count t; merge_count t; h7]).
  assert (Hl : ∀ i z, l !! i = Some z → int_at (header_of t h7) (Z.of_nat i) = z).
  { intros i z Hi. apply (int_at_array l i z Hi). assert (Hall : Forall in_int l) by (unfold l; repeat constructor; lia).
    rewrite Forall_lookup in Hall. by apply (Hall i). }
  pose proof (Hl 0%nat _ eq_refl : int_at (header_of t h7) 0 = t_vocab_size t) as E0.
  pose proof (Hl 1%nat _ eq_refl : int_at (header_of t h7) 1 = max_piece_len t) as E1.
  pose proof (Hl 2%nat _ eq_refl : int_at (header_of t h7) 2 = bos_id t) as E2.
  pose proof (Hl 3%nat _ eq_refl : int_at (header_of t h7) 3 = eos_id t) as E3.
  pose proof (Hl 4%nat _ eq_refl : int_at (header_of t h7) 4 = unk_id t) as E4.
  pose proof (Hl 5%nat _ eq_refl : int_at (header_of t h7) 5 = special_count t) as E5.
  pose proof (Hl 6%nat _ eq_refl : int_at (header_of t h7) 6 = merge_count t) as E6.
  apply consumes_ret; [|done|done]. cbn [fst snd t_vocab_size max_piece_len special_count merge_count]. rewrite E0, E1, E2, E3, E4, E5, E6.
  split_and!; try done. rewrite !andb_true_iff, !Z.ltb_lt, !Z.leb_le. lia.
Qed.

(** A piece that is exactly a C string of its length. *)
Definition exact_piece (x : block Z * Z) : Prop := 0 ≤ x.2 < malloc_limit - 1 ∧ ∃ p, data x.1 = p ++ [0] ∧ Z.of_nat (length p) = x.2.

Lemma exact_bytes x p : data x.1 = p ++ [0] → Z.of_nat (length p) = x.2 → piece_bytes x = le_bytes 4 x.2 ++ p.
Proof. intros E Hn. unfold piece_bytes. rewrite E, take_app_le, take_ge by lia. done. Qed.

Lemma load_piece_full t n P Q x r s :
  benign s → length P = length Q → exact_piece x → rest s = piece_bytes x ++ r →
  consumes (load_piece (Z.of_nat (length P)) (partly t P Q (S n))) s r (λ q, ∃ p, q = (true, partly t (P ++ [Block p (data x.1)]) (Q ++ [x.2]) n)).
Proof.
  intros Hs HPQ (Hx & c & Ed & Hc) Hr. unfold malloc_limit in Hx. rewrite (exact_bytes x c Ed Hc), <- app_assoc in Hr. unfold load_piece, partly. cbn [replicate].
  eapply consumes_read; [done|exact Hr|done|lia|]. intros s1 R1 H1.
  assert (El : int_at (le_bytes 4 x.2) 0 = x.2).
  { pose proof (int_at_array [x.2] 0 x.2 eq_refl ltac:(cbv beta; lia)) as E. cbn [mbind list_bind] in E. rewrite app_nil_r in E. exact E. }
  rewrite El, (proj2 (Z.ltb_ge x.2 0)) by lia.
  apply consumes_eq with (with_pieces t (P ++ null :: replicate n null) (Q ++ x.2 :: replicate n 0)); [apply set_len_mid; lia|].
  rewrite u32_id by lia. apply consumes_alloc; [done|unfold malloc_limit; lia|]. intros p s2 _ R2 H2. rewrite Z.div_1_r.
  eapply consumes_eq; [by apply set_piece_mid|]. cbn [addr data].
  eapply (consumes_bind _ _ _ r _ (λ o, o = Some c)).
  { destruct (Z.ltb_spec 0 x.2); [|destruct c; [by apply consumes_ret; [|rewrite R2|]|cbn in Hc; lia]].
    unfold read_into. rewrite length_replicate, (proj2 (Z.ltb_ge _ _)) by lia. rewrite <- Hc. apply read_exact_full; [done|by rewrite R2|lia]. }
  intros ? s3 -> R3 H3. eapply consumes_eq; [by apply store_end|]. eapply consumes_eq; [by apply set_piece_mid|].
  apply consumes_ret; [exists p; by rewrite Ed, <- !app_assoc|done|done].
Qed.

Lemma load_all_pieces_full t new P Q r s :
  benign s → length P = length Q → Forall exact_piece new → rest s = concat (piece_bytes <$> new) ++ r →
  consumes (unless_fails (seqZ (Z.of_nat (length P)) (Z.of_nat (length new))) load_piece (partly t P Q (length new))) s r (λ q,
    ∃ P', q = (true, with_pieces t (P ++ P') (Q ++ new.*2)) ∧ data <$> P' = data <$> new.*1).
Proof.
  revert P Q s. induction new as [|x new IH]; intros P Q s Hs HPQ Hnew Hr.
  { apply consumes_ret; [|done|done]. by exists []. }
  apply Forall_cons in Hnew as [Hx Hnew]. cbn [length]. rewrite seqZ_cons by lia.
  replace (Z.pred (Z.of_nat (S (length new)))) with (Z.of_nat (length new)) by lia. cbn [unless_fails].
  rewrite fmap_cons in Hr. cbn [concat] in Hr. rewrite <- app_assoc in Hr.
  eapply consumes_bind; [by apply load_piece_full|]. intros q s1 (p & ->) R1 H1. cbn [fst snd].
  replace (Z.succ (Z.of_nat (length P))) with (Z.of_nat (length (P ++ [Block p (data x.1)]))) by (rewrite length_app; cbn; lia).
  eapply consumes_mono; [apply IH; [done|rewrite !length_app; cbn; lia|done|done]|].
  intros q (P' & -> & E). exists (Block p (data x.1) :: P'). rewrite <- !app_assoc, !fmap_cons, E. done.
Qed.

Lemma load_pieces_full t new r s :
  benign s → no_blocks t → 0 < t_vocab_size t < 2 ^ 31 → t_vocab_size t * 8 < malloc_limit → Z.of_nat (length new) = t_vocab_size t → Forall exact_piece new →
  rest s = concat (piece_bytes <$> new) ++ r →
  consumes (load_pieces t) s r (λ q, q.1 = true ∧ same_rest t q.2 ∧ data <$> data (pieces q.2) = data <$> new.*1 ∧ data (piece_lens q.2) = new.*2
    ∧ initial_ids q.2 = null ∧ special_ids q.2 = null ∧ merges q.2 = null).
Proof.
  intros Hs (E1 & E2 & E3 & E4 & E5) Hv Hsz Hn Hnew Hr. unfold load_pieces.
  apply consumes_size; [lia|lia|done|]. apply consumes_alloc; [done|done|]. intros p s1 _ R1 H1.
  change (t_vocab_size (t <| pieces := _ |>)) with (t_vocab_size t). apply consumes_size; [lia|lia|lia|].
  apply consumes_alloc; [done|lia|]. intros q s2 _ R2 H2. rewrite !Z.div_mul by lia. replace (Z.to_nat (t_vocab_size t)) with (length new) by lia. set (t1 := t <| pieces := Block p [] |> <| piece_lens := Block q [] |>).
  assert (Er : range (t_vocab_size t) = seqZ (Z.of_nat (length (@nil (block Z)))) (Z.of_nat (length new))) by (unfold range; by rewrite Hn).
  change (t_vocab_size (_ <| piece_lens := _ |>)) with (t_vocab_size t). rewrite Er.
  eapply consumes_mono; [apply (load_all_pieces_full t1 new [] []); [done|done|done|congruence]|].
  intros r0 (P' & -> & E). split_and!; done.
Qed.

Definition int_merge (m : merge) : Prop := Forall in_int [left m; right m; out m].

Lemma load_merges_full t a z new P r s :
  benign s → Forall int_merge new → rest s = (new ≫= merge_bytes) ++ r →
  consumes (unless_fails (seqZ (Z.of_nat (length P)) (Z.of_nat (length new))) load_merge (with_merges t a (P ++ replicate (length new) z))) s r
    (λ q, q = (true, with_merges t a (P ++ new))).
Proof.
  revert P s. induction new as [|m new IH]; intros P s Hs Hnew Hr; [by apply consumes_ret|].
  apply Forall_cons in Hnew as [Hm Hnew]. cbn [length]. rewrite seqZ_cons by lia.
  replace (Z.pred (Z.of_nat (S (length new)))) with (Z.of_nat (length new)) by lia. cbn [unless_fails].
  rewrite bind_cons, <- app_assoc in Hr.
  eapply (consumes_bind _ _ _ ((new ≫= merge_bytes) ++ r) _ (λ q, q = (true, with_merges t a ((P ++ [m]) ++ replicate (length new) z)))).
  - unfold load_merge. eapply consumes_read; [done|exact Hr|done|lia|]. intros s1 R1 H1.
    pose proof (int_at_array [left m; right m; out m]) as Hi. unfold int_merge in Hm. rewrite Forall_lookup in Hm.
    pose proof (Hi 0%nat _ eq_refl (Hm 0%nat _ eq_refl) : int_at (merge_bytes m) 0 = left m) as E0.
    pose proof (Hi 1%nat _ eq_refl (Hm 1%nat _ eq_refl) : int_at (merge_bytes m) 1 = right m) as E1.
    pose proof (Hi 2%nat _ eq_refl (Hm 2%nat _ eq_refl) : int_at (merge_bytes m) 2 = out m) as E2.
    rewrite E0, E1, E2. eapply consumes_eq; [by apply set_merge_mid|]. apply consumes_ret; [|done|done]. destruct m as [x y o]. by rewrite <- app_assoc.
  - intros q s1 -> R1 H1. cbn [fst snd]. replace (Z.succ (Z.of_nat (length P))) with (Z.of_nat (length (P ++ [m]))) by (rewrite length_app; cbn; lia).
    eapply consumes_mono; [by apply IH|]. intros q ->. by rewrite <- app_assoc.
Qed.

Lemma alloc_if_full {A} n size (z : A) s :
  benign s → 0 ≤ n < 2 ^ 31 → 0 < size → n * size < malloc_limit → consumes (alloc_if n size z) s (rest s) (λ b, data b = replicate (Z.to_nat n) z).
Proof.
  intros Hs Hn Hsz Hlt. unfold alloc_if. destruct (Z.ltb_spec 0 n).
  - apply consumes_size; [done|lia|done|]. eapply consumes_bind; [by apply xreserve_full|]. intros p s1 _ R1 H1. apply consumes_ret; [|done|done].
    by rewrite Z.div_mul by lia.
  - replace n with 0 by lia. by apply consumes_ret.
Qed.

Lemma load_bpe_full t I S R r s :
  benign s → length I = 256%nat → Z.of_nat (length S) = special_count t → Z.of_nat (length R) = merge_count t →
  special_count t < 2 ^ 31 → merge_count t < 2 ^ 31 → special_count t * 4 < malloc_limit → merge_count t * 12 < malloc_limit →
  Forall in_int I → Forall in_int S → Forall int_merge R →
  rest s = (I ≫= le_bytes 4) ++ (S ≫= le_bytes 4) ++ (R ≫= merge_bytes) ++ r →
  consumes (load_bpe t) s r (λ q, q.1 = true ∧ ∃ bI bS bR, q.2 = with_bpe t bI bS bR ∧ data bI = I ∧ data bS = S ∧ data bR = R).
Proof.
  intros Hs LI LS LR HS HR BS BR II IS IR Hr. unfold load_bpe. unfold malloc_limit in *. apply consumes_alloc; [done|unfold malloc_limit; lia|]. intros p s1 _ R1 H1.
  eapply consumes_bind; [apply (alloc_if_full (special_count t) 4 0); [done|lia|lia|unfold malloc_limit; lia]|]. intros bS s2 DS R2 H2.
  eapply consumes_bind; [apply (alloc_if_full (merge_count t) 12 (Merge 0 0 0)); [done|lia|lia|unfold malloc_limit; lia]|]. intros bR s3 DR R3 H3.
  eapply (consumes_array _ _ _ H3 int_at _ _ _ (256 * 4) 256); [rewrite R3, R2, R1; exact Hr|rewrite length_le_array; lia|done|lia|done|]. intros s4 R4 H4.
  assert (EI : ints (I ≫= le_bytes 4) 256 = I) by (pose proof (ints_array I II) as E; by rewrite LI in E). rewrite EI.
  assert (Hmerges : ∀ bS' s5, data bS' = S → rest s5 = (R ≫= merge_bytes) ++ r → benign s5 →
    consumes (unless_fails (range (merge_count t)) load_merge (with_bpe t (Block p I) bS' bR)) s5 r
      (λ q, q.1 = true ∧ ∃ bI bS bR, q.2 = with_bpe t bI bS bR ∧ data bI = I ∧ data bS = S ∧ data bR = R)).
  { intros bS' s5 DS' R5 H5. assert (Er : range (merge_count t) = seqZ (Z.of_nat (length (@nil merge))) (Z.of_nat (length R))) by (unfold range; by rewrite LR).
    rewrite Er. assert (ER : bR = Block (addr bR) ([] ++ replicate (length R) (Merge 0 0 0))) by (destruct bR; cbn in *; rewrite DR; do 2 f_equal; lia).
    rewrite ER. eapply consumes_mono; [apply (load_merges_full (with_bpe t (Block p I) bS' bR) (addr bR) (Merge 0 0 0) R []); done|].
    intros q ->. split; [done|]. by exists (Block p I), bS', (Block (addr bR) R). }
  change (special_count (_ <| initial_ids := _ |>)) with (special_count t). destruct (Z.ltb_spec 0 (special_count t)).
  - change (u32 (special_count _ * 4)) with (u32 (special_count t * 4)). rewrite (u32_id (special_count t * 4)) by lia.
    eapply (consumes_array _ _ _ H4 int_at _ _ _ _ (special_count t)); [exact R4|rewrite length_le_array; lia|lia|lia|change (Z.of_nat (length (data bS)) = special_count t); rewrite DS, length_replicate; lia|]. intros s5 R5 H5.
    apply (Hmerges (Block (addr bS) (ints (S ≫= le_bytes 4) (special_count t)))); [cbn [data]; rewrite <- LS; by apply ints_array|done|done].
  - destruct S; [|cbn in LS; lia]. apply Hmerges; [|done|done]. rewrite DS. by replace (special_count t) with 0 by lia.
Qed.

(** ** Writing and loading *)

(** What the tool that writes tokenizers stores: sizes and numbers in the range of an
    [int], arrays and pieces that [malloc] can serve, pieces that are C strings of
    their length. *)
Record storable (t : tokenizer) : Prop := {
  st_counts : counts_ok t;
  st_ints : Forall in_int [max_piece_len t; bos_id t; eos_id t; unk_id t];
  st_whole : whole t;
  st_pieces : Forall exact_piece (zip (data (pieces t)) (data (piece_lens t)));
  st_tables : Forall in_int (data (initial_ids t)) ∧ Forall in_int (data (special_ids t)) ∧ Forall int_merge (data (merges t));
  st_sizes : t_vocab_size t * 8 < malloc_limit ∧ special_count t * 4 < malloc_limit ∧ merge_count t * 12 < malloc_limit;
}.

(** The same tokenizer up to the addresses of its blocks. *)
Definition same_contents (t t' : tokenizer) : Prop :=
  same_rest t t' ∧ data <$> data (pieces t') = data <$> data (pieces t) ∧ data (piece_lens t') = data (piece_lens t)
  ∧ data (initial_ids t') = data (initial_ids t) ∧ data (special_ids t') = data (special_ids t) ∧ data (merges t') = data (merges t).

Lemma same_rest_trans t t' t2 : same_rest t t' → same_rest t' t2 → same_rest t t2.
Proof. unfold same_rest. intuition congruence. Qed.

(** C22 [roundtrip]. A tokenizer is loaded from the file it was written to.  When
    the sizes and numbers are in range (every array and every piece with its
    terminator below 2^31-31 bytes), no call of [read] fails or delivers nothing
    (it may deliver any part of what was asked for) and memory suffices,
    [llm_tokenizer_load] succeeds, reads exactly the file, and returns the same
    numbers, pieces, byte table, special pieces and merge rules. *)
Theorem tokenizer_file_loads t h7 reserved more s :
  storable t → in_int h7 → length reserved = 216%nat → benign s → rest s = tok_file t h7 reserved ++ more →
  returns (llm_tokenizer_load true) s (λ r s', r.1 = true ∧ same_contents t r.2 ∧ rest s' = more).
Proof.
  intros [Hc Hi (_ & (new & E1 & E2 & E3 & _) & L1 & L2 & L3) Hp (T1 & T2 & T3) (S1 & S2 & S3)] Hh7 Hres Hs Hr.
  rewrite E1, E2, zip_fst_snd in Hp. unfold tok_file in Hr. rewrite E1, E2, zip_fst_snd, <- !app_assoc in Hr.
  unfold llm_tokenizer_load. cbn [negb]. apply returns_modify_bind. set (s0 := s <| open_fds := _ |>).
  assert (H0 : benign s0) by (by destruct Hs). assert (R0 : rest s0 = rest s) by done. clearbody s0. rewrite Hr in R0.
  assert (H : consumes (and_then (and_then (read_tokenizer_header tok0) load_pieces) load_bpe) s0 more (λ q, q.1 = true ∧ same_contents t q.2)).
  { unfold and_then. eapply consumes_bind; [eapply consumes_bind|].
    - apply (header_full t h7 reserved); [done|done| |done|exact R0]. apply (Forall_app_2 _ [_; _; _; _]); [exact Hi|by constructor].
    - intros [ok t1] s1 (-> & Hn & V) R1 H1. cbn [fst snd] in *. assert (V1 : t_vocab_size t1 = t_vocab_size t) by apply V.
      eapply consumes_mono; [apply (load_pieces_full t1 new); [done|done|rewrite V1; apply Hc|lia|lia|done|exact R1]|].
      intros q (Q1 & Q2 & Q3). exact (conj Q1 (conj (same_rest_trans _ _ _ V Q2) Q3)).
    - intros [ok t2] s2 (-> & V & P1 & P2 & _) R2 H2. cbn [fst snd] in *. assert (V6 : special_count t2 = special_count t ∧ merge_count t2 = merge_count t) by (by destruct V; split_and!; naive_solver).
      destruct V6 as [V6 V7]. destruct Hc as [C1 C2 C3 C4].
      eapply consumes_mono; [apply (load_bpe_full t2 (data (initial_ids t)) (data (special_ids t)) (data (merges t))); try done; lia|].
      intros [ok3 t3] (-> & bI & bS & bR & E & D1 & D2 & D3). cbn [fst snd] in *. subst t3. split; [done|]. split_and!; try done; [by rewrite <- E1 in P1|by rewrite <- E2 in P2]. }
  eapply returns_bind; [exact H|]. intros [ok t'] s1 ((-> & Hsame) & R1 & H1). cbn [fst snd] in *. apply returns_modify_bind. by apply returns_ret.
Qed.

Module FileTest.

Lemma t2_storable : storable TokTest.t2.
Proof.
  split.
  - split; cbn; lia.
  - repeat constructor; cbn; lia.
  - split; [reflexivity|]. split; [|split; [vm_compute; reflexivity|split; vm_compute; reflexivity]].
    exists (zip (data (pieces TokTest.t2)) (data (piece_lens TokTest.t2))).
    split; [vm_compute; reflexivity|]. split; [vm_compute; reflexivity|]. split; [vm_compute; reflexivity|].
    apply (bool_decide_unpack _). vm_compute. exact I.
  - assert (H : Forall (λ x : block Z * Z, 0 ≤ x.2 ∧ x.2 < malloc_limit - 1 ∧ data x.1 = take (Z.to_nat x.2) (data x.1) ++ [0] ∧ Z.of_nat (length (take (Z.to_nat x.2) (data x.1))) = x.2)
      (zip (data (pieces TokTest.t2)) (data (piece_lens TokTest.t2)))) by (apply (bool_decide_unpack _); vm_compute; exact I).
    eapply Forall_impl; [exact H|]. intros x (H1 & H2 & H3 & H4). split; [lia|]. by exists (take (Z.to_nat x.2) (data x.1)).
  - split; [|split]; [apply (bool_decide_unpack _); vm_compute; exact I..|repeat constructor; cbn; lia].
  - vm_compute. split_and!; reflexivity.
Qed.

End FileTest.

Lemma tokenizer_file_loads_witness :
  ∃ t s', llm_tokenizer_load true LoadTest.start = Ok (true, t) s' ∧ same_contents TokTest.t2 t ∧ rest s' = [1].
Proof.
  destruct (tokenizer_file_loads TokTest.t2 0 (replicate 216 0) [1] LoadTest.start FileTest.t2_storable ltac:(cbv beta; lia) ltac:(reflexivity)
    ltac:(split; [apply Forall_replicate; by exists 6%nat|constructor|reflexivity]) ltac:(reflexivity)) as ([ok t] & s' & E & Hok & Hsame & Hr).
  cbn [fst snd] in *. subst ok. exists t, s'. split; [exact E|]. split; [exact Hsame|exact Hr].
Defined.
