(* ===== verification/LlmModelSpec.v ===== *)
(** Loading a model, and running the model that was loaded. *)

From stdpp Require Import functions.
From Stdlib Require Import Floats.SpecFloat.
From S2P Require Import Prelude Machine CString Bio Fs Bytes FloatMath Llm LlmSpec LlmTok LlmEncode LlmLoad LlmLoadSpec.

(** The arrays of [llm_state_t]. *)
Definition state_arrays : list array := [Sx; Sxb; Sxb2; Shb; Shb2; Sq; Satt; Slogits; Skey; Svalue].

(** What a model owns, and its arrays as the forward pass sees them. *)
Definition model_pointers (m : model) : list Z := ((λ a, addr (m_state m a)) <$> state_arrays) ++ [addr (weight_data m)].

Definition arrays_of (m : model) : arrays := λ a,
  match a with
  | Weights => data (weight_data m)
  | _ => data (m_state m a)
  end.

Lemma alloc_state_keys p reqs : alloc_state p = Some reqs → reqs.*1 = state_arrays.
Proof.
  unfold alloc_state. destruct (mul3 _ _ _) as [n|]; [|done]. rewrite obind_Some. intros Hm. apply mapM_Some_1 in Hm.
  match type of Hm with Forall2 _ ?l _ => change state_arrays with (l.*1) end.
  induction Hm as [|[a k] y l l' Ey _ IH]; [done|]. rewrite !fmap_cons. f_equal; [|exact IH].
  cbn in Ey. destruct (checked_bytes k 4); [|done]. rewrite obind_Some in Ey. by injection Ey as <-.
Qed.

(** Every request is for the size of its array. *)
Lemma alloc_request p reqs a b :
  config_ok p → alloc_state p = Some reqs → (a, b) ∈ reqs → b = 4 * array_size p a ∧ 0 ≤ array_size p a.
Proof.
  intros Hok Hr Hin. pose proof (alloc_state_keys _ _ Hr) as Hk. destruct (alloc_sizes p reqs Hok Hr) as [_ Hall].
  assert (Hnd : NoDup (reqs.*1)) by (rewrite Hk; by apply (bool_decide_unpack _)).
  assert (Ha : a ∈ state_arrays) by (rewrite <- Hk; apply list_elem_of_fmap; by exists (a, b)).
  assert (Hne : a ≠ Weights) by (intros ->; by apply (bool_decide_pack _) in Ha). specialize (Hall a Hne).
  apply list_elem_of_lookup in Hin as [i Hi]. apply list_elem_of_lookup in Hall as [j Hj].
  assert (i = j) as ->.
  { eapply (NoDup_lookup _ _ _ a Hnd); rewrite list_lookup_fmap; [by rewrite Hi|by rewrite Hj]. }
  split; [congruence|]. destruct (co_ranges p Hok) as (R1 & R2 & R3 & R4 & R5 & R6). destruct (dims p Hok) as (_ & D2 & _ & _ & _ & _ & D7).
  destruct a; cbn [array_size]; try lia; try done; repeat apply Z.mul_nonneg_nonneg; lia.
Qed.

Section Model.

Context (junk : array → nat → list float) (Hjunk : ∀ a n, length (junk a n) = n).

Lemma alloc_arrays_ok reqs st ps base fds s :
  NoDup reqs.*1 → heap_is ps base fds s →
  loads (alloc_arrays junk reqs st) s (λ st' s', heap_is (((λ a, addr (st' a)) <$> reqs.*1) ++ ps) base fds s' ∧
    (∀ a b, (a, b) ∈ reqs → length (data (st' a)) = Z.to_nat (b / 4)) ∧ (∀ a, a ∉ reqs.*1 → st' a = st a)).
Proof.
  revert st ps s. induction reqs as [|[a b] reqs IH]; intros st ps s Hnd Hs; cbn [alloc_arrays].
  { apply loads_ret. split_and!; [done|by intros a b ?%not_elem_of_nil|done]. }
  rewrite fmap_cons in Hnd |- *. apply NoDup_cons in Hnd as [Hni Hnd]. cbn [fst] in *.
  eapply (loads_bind _ _ _ (λ b' s', heap_is (addr b' :: ps) base fds s' ∧ length (data b') = Z.to_nat (b / 4))).
  { case_decide.
    - eapply loads_bind; [by apply xreserve_ok|]. intros p s' (_ & ? & _). apply loads_ret. split; [done|apply Hjunk].
    - eapply loads_mono; [by apply xmalloc_ok|]. intros b' s' ([_ ->] & ? & _). split; [done|apply length_replicate]. }
  intros blk s1 [Hs1 Hl1]. eapply loads_mono; [by apply IH|]. intros st' s2 (Hs2 & Hlen & Hother).
  pose proof (Hother a Hni) as Ea. rewrite decide_True in Ea by done. split_and!.
  - rewrite fmap_cons, Ea, <- app_comm_cons, Permutation_middle. exact Hs2.
  - intros a' b1 [[= -> ->]|Hin]%elem_of_cons; [by rewrite Ea|by apply Hlen].
  - intros a' [Hne Hni']%not_elem_of_cons. rewrite Hother by done. by rewrite decide_False.
Qed.

Lemma free_state_ok (st : array → block float) l ps base fds s :
  heap_is (((λ a, addr (st a)) <$> l) ++ ps) base fds s →
  returns (for_each l (λ a : array, freep (st a))) s (λ _ s', heap_is ps base fds s').
Proof.
  revert s. induction l as [|a l IH]; intros s Hs; [by apply returns_ret|]. cbn [for_each].
  eapply returns_bind; [apply freep_ok; exact Hs|]. cbv beta. intros _ s1 Hs1. by apply IH.
Qed.

Lemma model_free_ok m base fds s :
  heap_is (model_pointers m) base fds s → returns (llm_model_free m) s (λ _ s', heap_is [] base fds s').
Proof.
  intros Hs. unfold llm_model_free, free_state, model_pointers in *. eapply (returns_bind _ _ _ (λ _ s', heap_is [addr (weight_data m)] base fds s')).
  - eapply returns_bind; [apply free_state_ok; exact Hs|]. cbv beta. intros _ s1 Hs1. apply returns_ret. exact Hs1.
  - cbv beta. intros st s1 Hs1. eapply returns_bind; [eapply freep_ok; exact Hs1|]. cbv beta. intros _ s2 Hs2. by apply returns_ret.
Qed.

(** A model whose arrays have the sizes that the functions of the loader compute. *)
Definition sized (m : model) : Prop :=
  config_accepted (m_config m) = true ∧ map_weights (m_config m) = Some (m_weights m) ∧
  (∃ n, expected_weight_count (m_config m) = Some n ∧ Z.of_nat (length (data (weight_data m))) = n) ∧
  ∃ reqs, alloc_state (m_config m) = Some reqs ∧ ∀ a b, (a, b) ∈ reqs → length (data (m_state m a)) = Z.to_nat (b / 4).

Definition model_post (base : list Z) (fds : Z) (o : option model) (s' : loader) : Prop :=
  match o with
  | None => heap_is [] base fds s'
  | Some m => sized m ∧ heap_is (model_pointers m) base fds s'
  end.

Lemma expected_range p n : expected_weight_count p = Some n → 0 ≤ n < 2 ^ 64.
Proof.
  unfold expected_weight_count. do 11 (intros (? & _ & E)%bind_Some; revert E). intros E. apply (inj Some) in E. rewrite <- E. cbn [foldl]. apply u64_bound.
Qed.

Lemma close_ok ps base fds s :
  heap_is ps base (fds + 1) s → heap_is ps base fds (s <| open_fds := open_fds s - 1 |>).
Proof. intros ([H1 H2 H3] & Hp & Hf). split; [done|]. split; [done|]. cbn. lia. Qed.

Lemma model_load_ok there s :
  heap_ok s → bytes (rest s) → loads (llm_model_load junk there) s (model_post (allocated s) (open_fds s)).
Proof.
  intros Hh Hb. unfold llm_model_load. destruct there; cbn [negb]; [|by apply loads_ret]. apply loads_modify.
  set (base := allocated s). set (fds := open_fds s). set (s0 := s <| open_fds := _ |>).
  assert (Hs0 : heap_is [] base (fds + 1) s0) by (split; [by destruct Hh|done]). assert (Hb0 : bytes (rest s0)) by done. clearbody s0.
  assert (Hfail : ∀ s', heap_is [] base (fds + 1) s' → loads (close_call ;;; ret None) s' (model_post base fds)).
  { intros s' Hs'. apply loads_modify, loads_ret. by apply close_ok. }
  eapply (read_then 4); [lia|exact Hs0|exact Hb0|by intros; apply Hfail|]. intros d1 s1 Hs1 Hb1 _ _ _.
  eapply (read_then 4); [lia|exact Hs1|exact Hb1|by intros; apply Hfail|]. intros d2 s2 Hs2 Hb2 _ _ _.
  eapply (read_then 40); [lia|exact Hs2|exact Hb2|by intros; apply Hfail|]. intros d3 s3 Hs3 Hb3 _ _ _.
  eapply (read_then 208); [lia|exact Hs3|exact Hb3|by intros; apply Hfail|]. intros d4 s4 Hs4 Hb4 _ _ _.
  destruct (_ || _); [by apply Hfail|]. set (p := config_of d3). destruct (config_accepted p) eqn:Ec; cbn [negb]; [|by apply Hfail].
  eapply loads_bind; [apply (loads_exit _ _ (λ n s', s' = s4 ∧ expected_weight_count p = Some n)); by intros|]. intros n ? [-> En].
  pose proof (expected_range p n En) as Hn.
  eapply loads_bind; [apply (loads_exit _ _ (λ b s', s' = s4 ∧ b = n * 4 ∧ n * 4 < 2 ^ 32))|].
  { intros b Eb. split; [done|]. apply checked_bytes_bound in Eb; [done|done|lia]. }
  intros b ? (-> & -> & Hlt). eapply loads_bind; [by apply xmalloc_ok|]. intros wd s5 ([Hwd Dwd] & Hs5 & R5).
  rewrite Z.div_mul in Dwd by lia.
  eapply (read_array_then _ _ _ n); [lia|rewrite Dwd, length_replicate; lia|lia|exact Hs5|by rewrite R5| |].
  - intros s6 Hs6 _. apply loads_modify. eapply loads_bind.
    { apply loads_returns, (model_free_ok _ base fds). apply close_ok. eapply heap_is_ext; [|exact Hs6]. done. }
    intros ? s7 Hs7. by apply loads_ret.
  - intros d6 s6 Hs6 _ _ _ _. apply loads_modify. set (s7 := s6 <| open_fds := _ |>).
    pose proof (close_ok _ _ _ _ Hs6 : heap_is [addr wd] base fds s7) as Hs7. clearbody s7.
    eapply loads_bind; [apply (loads_exit _ _ (λ w s', s' = s7 ∧ map_weights p = Some w)); by intros|]. intros w ? [-> Ew].
    eapply loads_bind; [apply (loads_exit _ _ (λ r s', s' = s7 ∧ alloc_state p = Some r)); by intros|]. intros reqs ? [-> Er].
    pose proof (alloc_state_keys p reqs Er) as Hkeys.
    eapply loads_bind; [apply alloc_arrays_ok; [rewrite Hkeys; by apply (bool_decide_unpack _)|exact Hs7]|].
    intros st s8 (Hs8 & Hlen & _). apply loads_ret. rewrite Hkeys in Hs8. split; [|exact Hs8].
    split_and!; [done|done| |by exists reqs]. exists n. split; [done|]. cbn. rewrite length_fmap. unfold range. rewrite length_seqZ. lia.
Qed.

End Model.

(** C23 [bounds]. Loading a model and running it.  Whatever the file holds, however
    many bytes each [read] delivers and whichever [malloc] fails, [llm_model_load]
    returns, exits, or asks [malloc] for 2^31-31 bytes or more (the run is not followed
    further); it reads into the bytes it asked for only, closes the file, keeps nothing allocated when it fails,
    and [llm_model_free] gives back all that a loaded model owns.  When the
    configuration that was read has no negative count and an even head size, and its
    weights number less than 2^64, then on the loaded arrays, and on all arrays of
    their sizes, such as an earlier pass left them, no load or store of
    [llm_forward] is outside its array, for every token of the vocabulary and every
    position of the sequence.  (Fuel can run out only in the loops of the
    elementary functions.) *)
Theorem loaded_model_in_bounds junk there s :
  (∀ a n, length (junk a n) = n) → heap_ok s → bytes (rest s) →
  match llm_model_load junk there s with
  | Ok None s' => open_fds s' = open_fds s ∧ allocated s' ≡ₚ allocated s
  | Ok (Some m) s' =>
      open_fds s' = open_fds s ∧ allocated s' ≡ₚ filter (λ a, a ≠ 0) (model_pointers m) ++ allocated s ∧
      returns (llm_model_free m) s' (λ _ s2, allocated s2 ≡ₚ allocated s) ∧
      (config_ok (m_config m) → weight_total (m_config m) < 2 ^ 64 → ∀ fuel token pos st,
         0 ≤ token < vocab_size (m_config m) → 0 ≤ pos < seq_len (m_config m) →
         (∀ a, length (st a) = length (arrays_of m a)) →
         match llm_forward fuel (m_config m) (m_weights m) token pos st with
         | Ok _ st' => ∀ a, length (st' a) = length (arrays_of m a)
         | NoFuel => True
         | _ => False
         end)
  | Panic msg => msg = "exit"%string ∨ msg = "huge"%string
  | _ => False
  end.
Proof.
  intros Hjunk Hh Hb. pose proof (model_load_ok junk Hjunk there s Hh Hb) as H. unfold loads in H.
  destruct (llm_model_load junk there s) as [[m|] s'| | |]; try done; [|by destruct H as (_ & Hp & Hf)].
  destruct H as ((_ & Hw & (n & Hn & Hl) & reqs & Hr & Hlen) & Hs). split_and!; [apply Hs|apply Hs| |].
  { eapply returns_mono; [by apply model_free_ok|]. cbv beta. by intros ? s2 (_ & Hp & _). }
  intros Hok Htot fuel token pos st Ht Hpos Hst.
  pose proof (forward_in_bounds fuel (m_config m) (m_weights m) n reqs st token pos Hok Htot Hn Hw Hr) as Hf.
  assert (Hreq : ∀ a b, (a, b) ∈ reqs → a ≠ Weights → 4 * Z.of_nat (length (st a)) = b).
  { intros a b Hin Ha. rewrite Hst. destruct (alloc_request _ _ _ _ Hok Hr Hin) as [-> Hpos'].
    replace (length (arrays_of m a)) with (length (data (m_state m a))) by (by destruct a). rewrite (Hlen _ _ Hin). dlia. }
  specialize (Hf ltac:(by rewrite Hst) Hreq Ht Hpos).
  destruct (llm_forward _ _ _ _ _ st); try done. intros c. by rewrite Hf, Hst.
Qed.

(** ** A small model, read in pieces of five bytes *)

Module LlmTest.

Definition model_file : list Z :=
  le_bytes 4 MODEL_MAGIC ++ le_bytes 4 MODEL_VERSION ++
  ([2; 2; 1; 1; 1; 2; 3; 0x461c4000; 0x3727c5ac; 1] ≫= le_bytes 4) ++ replicate 208 0 ++
  (replicate 38 0x3eaaaaab ≫= le_bytes 4).

Definition start : loader := Loader model_file (replicate 60 (Some 5%nat)) [] 1 [] 0.

Definition junk (a : array) (n : nat) : list float := replicate n one.

Definition loaded : option model :=
  match llm_model_load junk true start with
  | Ok o _ => o
  | _ => None
  end.

End LlmTest.

Lemma loaded_model_in_bounds_witness :
  match LlmTest.loaded with
  | Some m =>
      match llm_forward 200 (m_config m) (m_weights m) 1 0 (arrays_of m) with
      | Ok _ st => length (st Slogits) = 2%nat
      | _ => False
      end
  | None => False
  end.
Proof.
  assert (Hh : heap_ok LlmTest.start) by (split; [constructor|constructor|reflexivity]).
  assert (Hb : bytes (rest LlmTest.start)) by (apply (bool_decide_unpack _); vm_compute; exact I).
  pose proof (loaded_model_in_bounds LlmTest.junk true LlmTest.start (λ a n, length_replicate n one) Hh Hb) as H.
  assert (E : match LlmTest.loaded with
              | Some m => match llm_forward 200 (m_config m) (m_weights m) 1 0 (arrays_of m) with Ok _ _ => true | _ => false end
              | None => false end = true) by (vm_compute; reflexivity).
  assert (Ec : match LlmTest.loaded with
               | Some m => config_accepted (m_config m) && (Z.even (head_size (m_config m))) && (weight_total (m_config m) =? 38)
                   && (length (arrays_of m Slogits) =? 2)%nat
                   && bool_decide (dim (m_config m) = 2 ∧ hidden_dim (m_config m) = 2 ∧ n_layers (m_config m) = 1 ∧ n_heads (m_config m) = 1
                                   ∧ vocab_size (m_config m) = 2 ∧ seq_len (m_config m) = 3)
               | None => false end = true) by (vm_compute; reflexivity).
  unfold LlmTest.loaded in *. destruct (llm_model_load LlmTest.junk true LlmTest.start) as [[m|] s'| | |]; try discriminate E.
  destruct H as (_ & _ & _ & H).
  apply andb_true_iff in Ec as [[[[C1 C2]%andb_true_iff C3%Z.eqb_eq]%andb_true_iff C4%Nat.eqb_eq]%andb_true_iff C5].
  apply bool_decide_eq_true in C5 as (D1 & D2 & D3 & D4 & D5 & D6).
  assert (Hok : config_ok (m_config m)) by (split; [exact C1|lia|exact C2]).
  specialize (H Hok ltac:(lia) 200%nat 1 0 (arrays_of m) ltac:(lia) ltac:(lia) (λ a, eq_refl)).
  destruct (llm_forward 200 (m_config m) (m_weights m) 1 0 (arrays_of m)) as [u st| | |]; try discriminate E. rewrite (H Slogits). exact C4.
Defined.
