(* ===== verification/LlmRun.v ===== *)
(** user/bin/next.c: loading, encoding the prompt, and generating text. *)

From stdpp Require Import relations.
From Stdlib Require Import Floats.SpecFloat.
From S2P Require Import Prelude Machine CString Bio Fs Bytes FloatMath Llm LlmSpec LlmTok LlmEncode LlmLoad LlmLoadSpec LlmModelSpec.

Section Next.

Context (fuel : nat) (m : model) (t : tokenizer).

(** The tokens of the prompt; [logits] says whether the pointer is set. *)
Fixpoint feed (tokens : list Z) (pos : Z) (logits : bool) : F (Z * bool) :=
  match tokens with
  | [] => ret (pos, logits)
  | token :: tokens' =>
      if pos <? seq_len (m_config m) then
        llm_forward fuel (m_config m) (m_weights m) token pos ;;;
        feed tokens' (pos + 1) true
      else ret (pos, logits)
  end.

(** [steps] more tokens; the result is what was printed. *)
Fixpoint generate (steps : nat) (pos : Z) (logits : bool) (out : list Z) : F (list Z) :=
  match steps with
  | O => ret out
  | S n =>
      if (pos <? seq_len (m_config m)) && logits then
        let! l := gets (λ st, st Slogits) in
        let! token := sample_argmax l (vocab_size (m_config m)) in
        if token =? eos_id t then ret out
        else
          let! piece := llm_decode_piece t token in
          llm_forward fuel (m_config m) (m_weights m) token pos ;;;
          generate n (pos + 1) true (out ++ llm_print_piece piece)
      else ret out
  end.

End Next.

(** Runs a computation on memory of its own. *)
Definition on {S A} (s : S) (c : M S A) : L (A * S) := λ l,
  match c s with
  | Ok a s' => Ok (a, s') l
  | Panic msg => Panic msg
  | Sleeps chan _ => Sleeps chan l
  | NoFuel => NoFuel
  end.

(** The main function from the allocation of [tokens] on: the exit status and the
    output.  [blank] is what [malloc] leaves in the array. *)
Definition next_run (fuel : nat) (blank : nat → list Z) (m : model) (t : tokenizer) (steps : Z) (prompt : list Z) : L (Z * list Z) :=
  let max_tokens := s32 (Z.of_nat (length prompt) + 8) in
  let bytes := u32 (max_tokens * 4) in
  let! p := malloc_call bytes in
  if p =? 0 then ret (1, [])
  else
    let! e := on (blank (Z.to_nat (bytes / 4))) (llm_encode t fuel (prompt ++ [0]) true false max_tokens) in
    let '(n_tokens, tokens) := e in
    if n_tokens <=? 0 then ret (1, [])
    else
      let! g := on (arrays_of m) (
        let! f := feed fuel m (take (Z.to_nat n_tokens) tokens) 0 false in
        generate fuel m t (Z.to_nat steps) f.1 f.2 []) in
      free_call p ;;;
      llm_tokenizer_free t ;;;
      llm_model_free m ;;;
      ret (0, g.1 ++ [10]).

(** The main function; [None] for a file that is not there; [junk] is what [malloc]
    leaves in the caches. *)
Definition next_main (fuel : nat) (junk : array → nat → list float) (blank : nat → list Z)
    (model_file tok_file : option (list Z)) (steps : Z) (prompt : list Z) : L (Z * list Z) :=
  let steps := if steps <? 0 then 0 else steps in
  modify (λ s, s <| rest := default [] model_file |>) ;;;
  let! om := llm_model_load junk (bool_decide (is_Some model_file)) in
  match om with
  | None => ret (1, [])
  | Some m =>
      modify (λ s, s <| rest := default [] tok_file |>) ;;;
      let! r := llm_tokenizer_load (bool_decide (is_Some tok_file)) in
      let '(ok, t) := r in
      if negb ok then llm_model_free m ;;; ret (1, [])
      else if negb (t_vocab_size t =? vocab_size (m_config m)) then ret (1, [])
      else next_run fuel blank m t steps prompt
  end.

(** ** The run stays inside the arrays *)

(** Every token that the encoder can produce is one of the vocabulary. *)
Record ids_valid (t : tokenizer) : Prop := {
  iv_bos : bos_id t < t_vocab_size t;
  iv_unk : unk_id t < t_vocab_size t;
  iv_initial : Forall (λ id, id < t_vocab_size t) (data (initial_ids t));
  iv_out : Forall (λ m, 0 ≤ out m < t_vocab_size t) (data (merges t));
}.

Abbreviation valid t := (Forall (λ id, 0 ≤ id < t_vocab_size t)).

Lemma splits_valid t text ids : tok_ok t → ids_valid t → splits t text ids → valid t ids.
Proof.
  intros Hok [_ Hunk Hinit _]. induction 1 as [|i id p rest ids [(_ & Hp & _) _] _ IH|c rest id ids _ (Hid & z & Ez & ->) _ IH]; [constructor|..];
    (constructor; [|done]).
  - by apply (piece_Some t Hok) in Hp as [Hp _].
  - rewrite Forall_lookup in Hinit. specialize (Hinit _ _ Ez). destruct (z <? 0); lia.
Qed.

Lemma steps_valid t l m : ids_valid t → rtc (bpe_step t) l m → valid t l → valid t m.
Proof.
  intros [_ _ _ Hout]. induction 1 as [|l l' m [l1 x y r k m' Hr _] _ IH]; [done|]. intros Hl. apply IH.
  apply Forall_app in Hl as [H1 H2]. apply Forall_cons in H2 as [_ H2]. apply Forall_cons in H2 as [_ H2].
  apply Forall_app. split; [done|]. constructor; [|done]. apply list_find_Some in Hr as (Hm & _). rewrite Forall_lookup in Hout. by apply (Hout k).
Qed.

Lemma bos_valid t add : ids_valid t → valid t (bos t add).
Proof.
  intros [Hb _ _ _]. unfold bos. destruct add; [|constructor]. cbn [andb]. destruct (Z.leb_spec 0 (bos_id t)); [|constructor]. constructor; [lia|constructor].
Qed.

(** The greatest logit is one of the logits. *)
Lemma argmax_ok {S} (logits : list float) n (s : S) :
  0 < n → Z.of_nat (length logits) = n → ∃ i, sample_argmax logits n s = Ok i s ∧ 0 ≤ i < n.
Proof.
  intros Hn Hl. unfold sample_argmax. destruct (lookup_lt_is_Some_2 logits 0) as [v0 E0]; [lia|].
  erewrite bind_ok; [|by apply (at_nat logits 0 v0 s)].
  assert (H : ∀ l best v, (∀ i, i ∈ l → 0 ≤ i < n) → 0 ≤ best < n → ∃ i, argmax_loop logits l best v s = Ok i s ∧ 0 ≤ i < n).
  { induction l as [|i l IH]; intros best v Hin Hb; cbn [argmax_loop]; [by exists best|].
    destruct (Hin i) as [Hi1 Hi2]; [left|]. destruct (lookup_lt_is_Some_2 logits (Z.to_nat i)) as [x Ex]; [lia|].
    erewrite bind_ok; [|by apply at_lookup; [|exact Ex]].
    destruct (flt v x); (apply IH; [intros j Hj; apply Hin; by right|lia]). }
  apply H; [|lia]. intros i Hi%elem_of_seqZ. lia.
Qed.

Section Bounded.

Context (fuel : nat) (m : model) (t : tokenizer).
Context (Hsized : sized m) (Hok : config_ok (m_config m)) (Htot : weight_total (m_config m) < 2 ^ 64).

Abbreviation p := (m_config m).
Abbreviation sz := (array_size (m_config m)).

Lemma model_forward_keeps token pos :
  0 ≤ token < vocab_size p → 0 ≤ pos < seq_len p → keeps sz (llm_forward fuel p (m_weights m) token pos).
Proof.
  destruct Hsized as (_ & Hw & _ & reqs & Hr & _). destruct (map_weights_laid p (m_weights m) Hok Hw) as [Hlaid Hfit].
  destruct (alloc_sizes p reqs Hok Hr) as [Hcache _]. intros Ht Hpos. by apply forward_keeps.
Qed.

Lemma model_shaped : shaped sz (arrays_of m).
Proof.
  destruct Hsized as (_ & _ & (n & Hn & Hl) & reqs & Hr & Hlen). destruct (alloc_sizes p reqs Hok Hr) as [_ Hall].
  intros a. destruct (decide (a = Weights)) as [->|Hne].
  - change (arrays_of m Weights) with (data (weight_data m)). rewrite Hl. by apply expected_total.
  - specialize (Hall a Hne). destruct (alloc_request _ _ _ _ Hok Hr Hall) as [_ Hpos].
    replace (length (arrays_of m a)) with (length (data (m_state m a))) by (by destruct a). rewrite (Hlen _ _ Hall). dlia.
Qed.

Lemma feed_keeps tokens pos logits :
  0 ≤ pos → Forall (λ id, 0 ≤ id < vocab_size p) tokens → keeps sz (feed fuel m tokens pos logits).
Proof.
  revert pos logits. induction tokens as [|token tokens IH]; intros pos logits Hpos Ht; cbn [feed]; [apply keeps_ret|].
  apply Forall_cons in Ht as [Htok Ht]. destruct (Z.ltb_spec pos (seq_len p)); [|apply keeps_ret].
  apply keeps_bind; [by apply model_forward_keeps|]. intros _. apply IH; [lia|done].
Qed.

Lemma feed_pos tokens pos logits st r st' :
  0 ≤ pos → feed fuel m tokens pos logits st = Ok r st' → 0 ≤ r.1.
Proof.
  revert pos logits st. induction tokens as [|token tokens IH]; intros pos logits st Hpos; cbn [feed]; [by intros [= <- _]|].
  destruct (pos <? seq_len p); [|by intros [= <- _]]. unfold bind. destruct (llm_forward _ _ _ _ _ _); try done. apply IH. lia.
Qed.

(** A computation that reads only. *)
Lemma keeps_reads {A C} (c : F A) (k : A → F C) :
  (∀ st, shaped sz st → ∃ a, c st = Ok a st ∧ keeps sz (k a)) → keeps sz (bind c k).
Proof. intros H st Hst. destruct (H st Hst) as (a & E & Hk). unfold bind. rewrite E. by apply Hk. Qed.

Lemma generate_keeps steps pos logits out0 :
  tok_ok t → t_vocab_size t = vocab_size p → 0 < vocab_size p → 0 ≤ pos → keeps sz (generate fuel m t steps pos logits out0).
Proof.
  intros Htok Hv Hv0. revert pos logits out0. induction steps as [|steps IH]; intros pos logits out0 Hpos; cbn [generate]; [apply keeps_ret|].
  destruct (Z.ltb_spec pos (seq_len p)); cbn [andb]; [|apply keeps_ret]. destruct logits; [|apply keeps_ret].
  apply keeps_reads. intros st Hst. exists (st Slogits). split; [done|]. specialize (Hst Slogits). cbn [array_size] in Hst.
  apply keeps_reads. intros st1 _. destruct (argmax_ok (st Slogits) (vocab_size p) st1 Hv0 Hst) as (token & E & Htoken). exists token. split; [done|].
  destruct (token =? eos_id t); [apply keeps_ret|].
  apply keeps_reads. intros st2 _. unfold llm_decode_piece. rewrite (proj2 (Z.ltb_ge token 0)), (proj2 (Z.leb_gt (t_vocab_size t) token)) by lia. cbn [orb].
  destruct (lookup_lt_is_Some_2 (data (pieces t)) (Z.to_nat token)) as [b Eb]; [pose proof (to_pieces t Htok); lia|].
  exists (Some b). split; [erewrite bind_ok; [done|by apply at_lookup; [lia|exact Eb]]|].
  apply keeps_bind; [by apply model_forward_keeps|]. intros _. apply IH. lia.
Qed.

End Bounded.

(** ** The whole program *)

(** The run returns, exits, asks for too large a block, or is still in a loop of the
    elementary functions. *)
Definition safe {A} (c : L A) (s : loader) (Q : A → loader → Prop) : Prop :=
  match c s with
  | Ok a s' => Q a s'
  | Panic msg => stops msg
  | NoFuel => True
  | Sleeps _ _ => False
  end.

Lemma safe_bind {A C} (c : L A) (k : A → L C) s R Q :
  safe c s R → (∀ a s', R a s' → safe (k a) s' Q) → safe (bind c k) s Q.
Proof. unfold safe, bind. intros Hm Hk. destruct (c s); [by apply Hk|done..]. Qed.

Lemma safe_loads {A} (c : L A) s (Q : A → loader → Prop) : loads c s Q → safe c s Q.
Proof. unfold safe, loads. destruct (c s); done. Qed.

Lemma safe_returns {A} (c : L A) s (Q : A → loader → Prop) : returns c s Q → safe c s Q.
Proof. intros H. by apply safe_loads, loads_returns. Qed.

Lemma safe_ret {A} (a : A) s (Q : A → loader → Prop) : Q a s → safe (ret a) s Q.
Proof. done. Qed.

Lemma safe_modify {A} f (k : unit → L A) s Q : safe (k tt) (f s) Q → safe (bind (modify f) k) s Q.
Proof. done. Qed.

Lemma on_ok {S A} (st : S) (c : M S A) s (Q : A * S → loader → Prop) :
  returns c st (λ a st', Q (a, st') s) → returns (on st c) s Q.
Proof. intros (a & st' & E & H). exists (a, st'), s. unfold on. by rewrite E. Qed.

Lemma on_safe {A} sz (st : arrays) (c : F A) s : shaped sz st → keeps sz c → safe (on st c) s (λ _ s', s' = s).
Proof. intros Hst Hc. specialize (Hc st Hst). unfold safe, on. destruct (c st); done. Qed.

(** The encoder on the prompt stores valid tokens. *)
Lemma encode_valid t fuel prompt a :
  tok_ok t → ids_valid t → is_text prompt → (length prompt + 8 ≤ length a)%nat → (length prompt + 2 ≤ fuel)%nat →
  returns (llm_encode t fuel (prompt ++ [0]) true false (Z.of_nat (length prompt) + 8)) a (λ n a', 0 < n → valid t (take (Z.to_nat n) a')).
Proof.
  intros Hok Hids Htext Ha Hfuel. eapply returns_mono; [apply (encode_ok t fuel prompt []); [done|done|lia|done]|].
  intros n a' [_ [(m & (ids & Hs & Hm & _) & -> & _ & Ha')|[-> _]]] Hn; [|lia].
  change (eos t false) with (@nil Z) in *. rewrite app_nil_r in *. rewrite Nat2Z.id, Ha'. eapply steps_valid; [done|exact Hm|].
  apply Forall_app. split; [by apply bos_valid|by eapply splits_valid].
Qed.

(** Freeing a block that is listed. *)
Lemma free_call_ok a ps base fds s : a ≠ 0 → heap_is (a :: ps) base fds s → returns (free_call a) s (λ _ s', heap_is ps base fds s').
Proof.
  intros Ha Hs. pose proof (freep_ok (Block a (@nil Z)) ps base fds s Hs) as H. unfold freep in H. cbn [addr] in H.
  by rewrite (proj2 (Z.eqb_neq a 0)) in H.
Qed.

Lemma next_run_safe fuel blank m t steps prompt base fds s :
  (∀ n, length (blank n) = n) → is_text prompt → Z.of_nat (length prompt) < 2 ^ 28 → (length prompt + 2 ≤ fuel)%nat →
  sized m → config_ok (m_config m) → weight_total (m_config m) < 2 ^ 64 →
  tok_ok t → ids_valid t → pieces_shape t → t_vocab_size t = vocab_size (m_config m) → 0 < vocab_size (m_config m) →
  heap_is (pointers t ++ model_pointers m) base fds s →
  safe (next_run fuel blank m t steps prompt) s (λ r s', r.1 = 0 → allocated s' ≡ₚ base ∧ open_fds s' = fds).
Proof.
  intros Hblank Htext Hlen Hfuel Hsized Hok Htot Htok Hids Hshape Hv Hv0 Hs. unfold next_run.
  rewrite s32_id, u32_id, Z.div_mul by lia. set (max := Z.of_nat (length prompt) + 8).
  eapply safe_bind; [by apply safe_loads, malloc_call_ok|]. intros p s1 [Hs1 _]. destruct (Z.eqb_spec p 0) as [|Hp]; [by apply safe_ret|].
  eapply (safe_bind _ _ _ (λ e s', s' = s1 ∧ (0 < e.1 → valid t (take (Z.to_nat e.1) e.2)))).
  { apply safe_returns, on_ok. eapply returns_mono; [by apply (encode_valid t fuel prompt); [| | |rewrite Hblank; unfold max; lia|]|]. intros n a' Hn. by split. }
  intros [n tokens] s2 [-> Hvalid]. cbn [fst snd] in Hvalid. destruct (Z.leb_spec n 0); [by apply safe_ret|]. specialize (Hvalid ltac:(lia)). rewrite Hv in Hvalid.
  eapply safe_bind.
  { apply (on_safe (array_size (m_config m))); [by apply model_shaped|]. intros st Hst.
    pose proof (feed_keeps fuel m Hsized Hok (take (Z.to_nat n) tokens) 0 false ltac:(lia) Hvalid st Hst) as Hf. unfold bind.
    destruct (feed fuel m _ 0 false st) as [f st1| | |] eqn:Ef; try done.
    apply (generate_keeps fuel m t Hsized Hok); [done|done|done|eapply feed_pos; [|exact Ef]; lia|exact Hf]. }
  intros g s3 ->. eapply safe_bind; [by apply safe_returns, free_call_ok|]. cbv beta. intros _ s4 Hs4.
  assert (Hsplit : heap_is (pointers t) (filter (λ a, a ≠ 0) (model_pointers m) ++ base) fds s4).
  { destruct Hs4 as (H1 & H2 & H3). split; [done|]. split; [|done]. by rewrite H2, filter_app, <- app_assoc. }
  eapply safe_bind; [by apply safe_returns, tokenizer_free_ok|]. cbv beta. intros t' s5 [_ Hs5].
  eapply safe_bind; [apply safe_returns, (model_free_ok m base fds); destruct Hs5 as (H1 & H2 & H3); by split_and!|]. cbv beta. intros _ s6 Hs6.
  apply safe_ret. intros _. split; apply Hs6.
Qed.

(** C18 [safety]. The text generator as a whole: loading the two files, encoding the
    prompt, feeding it to the model and generating.  Every block has the bytes that
    were asked for, and every load, store and [read] is checked against them.
    Whatever the files hold, however the calls of [read] and [malloc] turn out, and
    whatever the prompt (an argument of [exec] has less than a page; 2^28 bytes are
    allowed here), the program makes no access outside its blocks and frees nothing
    twice: it ends with a status, exits, is still in a loop of the elementary
    functions, or has asked [malloc] for 2^31-31 bytes or more, which [malloc] cannot
    serve (the run is not followed further then).  When it ends with status 0 it has
    freed all it allocated and closed its files.  The two conditions on the files
    are those that the loaders do not check: a model configuration without negative
    counts, with an even head size and less than 2^64 weights, and a tokenizer whose
    tokens are all in the vocabulary and whose special pieces contain no zero byte. *)
Theorem next_main_safe fuel junk blank model_file tok_file steps prompt s :
  (∀ a n, length (junk a n) = n) → (∀ n, length (blank n) = n) →
  heap_ok s → bytes (default [] model_file) → bytes (default [] tok_file) → is_text prompt → Z.of_nat (length prompt) < 2 ^ 28 → (length prompt + 2 ≤ fuel)%nat →
  (∀ m s1, llm_model_load junk (bool_decide (is_Some model_file)) (s <| rest := default [] model_file |>) = Ok (Some m) s1 →
     config_ok (m_config m) ∧ weight_total (m_config m) < 2 ^ 64 ∧
     ∀ t s2, llm_tokenizer_load (bool_decide (is_Some tok_file)) (s1 <| rest := default [] tok_file |>) = Ok (true, t) s2 →
       zero_free t ∧ ids_valid t) →
  match next_main fuel junk blank model_file tok_file steps prompt s with
  | Ok (status, _) s' => status = 0 → allocated s' ≡ₚ allocated s ∧ open_fds s' = open_fds s
  | Panic msg => msg = "exit"%string ∨ msg = "huge"%string
  | NoFuel => True
  | Sleeps _ _ => False
  end.
Proof.
  intros Hjunk Hblank Hh Hb1 Hb2 Htext Hlen Hfuel Hfiles.
  set (Q := λ (r : Z * list Z) s', r.1 = 0 → allocated s' ≡ₚ allocated s ∧ open_fds s' = open_fds s).
  cut (safe (next_main fuel junk blank model_file tok_file steps prompt) s Q).
  { unfold safe, Q. destruct (next_main _ _ _ _ _ _ _ s) as [[]| | |]; done. }
  unfold next_main. apply safe_modify. set (s0 := s <| rest := _ |>).
  assert (Hh0 : heap_ok s0) by (by destruct Hh). assert (E0 : allocated s0 = allocated s ∧ open_fds s0 = open_fds s) by done.
  assert (R0 : rest s0 = default [] model_file) by done. fold s0 in Hfiles. clearbody s0.
  eapply (safe_bind _ _ _ (λ o s1, model_post (allocated s0) (open_fds s0) o s1 ∧
    match o with
    | Some m => config_ok (m_config m) ∧ weight_total (m_config m) < 2 ^ 64 ∧
        ∀ t s2, llm_tokenizer_load (bool_decide (is_Some tok_file)) (s1 <| rest := default [] tok_file |>) = Ok (true, t) s2 → zero_free t ∧ ids_valid t
    | None => True
    end)).
  { apply safe_loads. pose proof (model_load_ok junk Hjunk (bool_decide (is_Some model_file)) s0 Hh0 ltac:(by rewrite R0)) as H. unfold loads in *.
    destruct (llm_model_load _ _ s0) as [[m|] s1| | |] eqn:E; try done. split; [done|]. by apply Hfiles. }
  intros [m|] s1 [Hpost Hm]; [|by apply safe_ret]. destruct Hpost as [Hsized Hs1]. destruct Hm as (Hok & Htot & Htokens).
  apply safe_modify. set (s2 := s1 <| rest := _ |>) in *. assert (Hs2 : heap_is (model_pointers m) (allocated s) (open_fds s) s2).
  { destruct E0 as [<- <-]. destruct Hs1 as ([H1 H2 H3] & H4). by split. }
  assert (R2 : rest s2 = default [] tok_file) by done. clearbody s2. destruct Hs2 as (Hh2 & Hp2 & Hf2).
  eapply (safe_bind _ _ _ (λ (r : bool * tokenizer) s3, (if r.1 then tok_post (allocated s2) (open_fds s2) s2 r s3 else r.2 = tok0 ∧ heap_is [] (allocated s2) (open_fds s2) s3) ∧
    (r.1 = true → zero_free r.2 ∧ ids_valid r.2))).
  { apply safe_loads. pose proof (tokenizer_load_ok (bool_decide (is_Some tok_file)) s2 Hh2 ltac:(by rewrite R2)) as H. unfold loads in *.
    destruct (llm_tokenizer_load _ s2) as [[[] t] s3| | |] eqn:E; try done. split; [done|]. intros _. by eapply Htokens. }
  intros [[] t] s3 [H Hids]; cbn [fst snd negb] in *.
  - destruct H as (Hshape & (H1 & H2 & H3) & Hw). destruct (Hw eq_refl) as [Hwhole _]. destruct (Hids eq_refl) as [Hz Hv].
    destruct (Z.eqb_spec (t_vocab_size t) (vocab_size (m_config m))) as [Ev|]; cbn [negb]; [|by apply safe_ret].
    apply next_run_safe; try done; [by apply whole_tok_ok| |].
    + rewrite <- Ev. apply Hwhole.
    + split; [done|]. split; [|congruence]. by rewrite H2, Hp2, filter_app, <- app_assoc.
  - destruct H as [-> (H1 & H2 & H3)]. eapply safe_bind; [apply safe_returns, (model_free_ok m (allocated s) (open_fds s))|].
    { split; [done|]. split; [by rewrite H2, <- Hp2|congruence]. }
    cbv beta. intros ? s4 _. by apply safe_ret.
Qed.

(** ** A run on the small model with two letters *)

Module NextTest.

Definition t : tokenizer :=
  Tok (Block 1 [Block 2 [97; 0]; Block 3 [98; 0]]) (Block 4 [1; 1]) (Block 5 (replicate 98 0 ++ 1 :: replicate 157 0)) null
      (Block 6 [Merge 0 1 1]) 2 1 (-1) (-1) (-1) 0 1.

Definition tok_bytes : list Z := tok_file t 0 (replicate 216 0).

Definition start : loader := Loader [] [] [] 1 [] 0.

Definition blank (n : nat) : list Z := replicate n 7.

(** The prompt "ab" is one token, and the model has two places left to fill. *)
Definition result := next_main 200 LlmTest.junk blank (Some LlmTest.model_file) (Some tok_bytes) 4 [97; 98] start.

Definition config_test (p : config) : bool :=
  config_accepted p && Z.even (head_size p) && (weight_total p <? 2 ^ 64) &&
  bool_decide (dim p < 2 ^ 31 ∧ (0 ≤ hidden_dim p ∧ hidden_dim p < 2 ^ 31) ∧ (0 ≤ n_layers p ∧ n_layers p < 2 ^ 31) ∧ n_heads p < 2 ^ 31
               ∧ (0 ≤ vocab_size p ∧ vocab_size p < 2 ^ 31) ∧ (0 ≤ seq_len p ∧ seq_len p < 2 ^ 31)).

Lemma config_test_ok p : config_test p = true → config_ok p ∧ weight_total p < 2 ^ 64.
Proof.
  unfold config_test. rewrite !andb_true_iff. intros (((H1 & H2) & H3%Z.ltb_lt) & H4%bool_decide_eq_true). split; [|exact H3]. by split.
Qed.

Definition ids_test (t : tokenizer) : bool :=
  (bos_id t <? t_vocab_size t) && (unk_id t <? t_vocab_size t) &&
  bool_decide (Forall (λ id, id < t_vocab_size t) (data (initial_ids t))) &&
  bool_decide (Forall (λ m, 0 ≤ out m ∧ out m < t_vocab_size t) (data (merges t))) && bool_decide (data (special_ids t) = []).

Lemma ids_test_ok t : ids_test t = true → zero_free t ∧ ids_valid t.
Proof.
  unfold ids_test. rewrite !andb_true_iff. intros ((((H1%Z.ltb_lt & H2%Z.ltb_lt) & H3%bool_decide_eq_true) & H4%bool_decide_eq_true) & H5%bool_decide_eq_true).
  split; [intros i id p; by rewrite H5|]. by split.
Qed.

End NextTest.

Lemma next_main_safe_witness :
  match NextTest.result with
  | Ok (status, out) s' => status = 0 ∧ out = [97; 97; 10] ∧ allocated s' = []
  | _ => False
  end.
Proof.
  assert (E : match NextTest.result with Ok (status, out) _ => (status =? 0) && bool_decide (out = [97; 97; 10]) | _ => false end = true) by (vm_compute; reflexivity).
  assert (Hfiles : match llm_model_load LlmTest.junk true (NextTest.start <| rest := LlmTest.model_file |>) with
            | Ok (Some m) s1 => NextTest.config_test (m_config m) &&
                match llm_tokenizer_load true (s1 <| rest := NextTest.tok_bytes |>) with Ok (true, t) _ => NextTest.ids_test t | _ => true end
            | _ => false end = true) by (vm_compute; reflexivity).
  pose proof (next_main_safe 200 LlmTest.junk NextTest.blank (Some LlmTest.model_file) (Some NextTest.tok_bytes) 4 [97; 98] NextTest.start
    (λ a n, length_replicate n one) (λ n, length_replicate n 7)
    ltac:(split; [constructor|constructor|reflexivity]) ltac:(apply (bool_decide_unpack _); vm_compute; exact I)
    ltac:(apply (bool_decide_unpack _); vm_compute; exact I) ltac:(apply TokTest.text_ok; vm_compute; reflexivity) ltac:(cbn; lia) ltac:(cbn; lia)) as H.
  assert (Hhyp : ∀ m s1, llm_model_load LlmTest.junk true (NextTest.start <| rest := LlmTest.model_file |>) = Ok (Some m) s1 →
     config_ok (m_config m) ∧ weight_total (m_config m) < 2 ^ 64 ∧
     ∀ t s2, llm_tokenizer_load true (s1 <| rest := NextTest.tok_bytes |>) = Ok (true, t) s2 → zero_free t ∧ ids_valid t).
  { intros m s1 Em. rewrite Em in Hfiles. apply andb_true_iff in Hfiles as [H1 H2]. destruct (NextTest.config_test_ok _ H1) as [H3 H4].
    split; [exact H3|]. split; [exact H4|]. intros t s2 Et. rewrite Et in H2. exact (NextTest.ids_test_ok _ H2). }
  specialize (H Hhyp). unfold NextTest.result in *. destruct (next_main _ _ _ _ _ _ _ _) as [[status out] s'| | |]; try discriminate E.
  apply andb_true_iff in E as [E1%Z.eqb_eq E2%bool_decide_eq_true]. split; [exact E1|]. split; [exact E2|].
  destruct (H E1) as [Hp _]. symmetry in Hp. exact (Permutation_nil Hp).
Defined.
