(* ===== verification/Memwhy.v ===== *)
(** user/bin/memwhy.c: the report on the memory that a model needs. *)

From Stdlib Require Import Floats.SpecFloat.
From S2P Require Import Prelude Machine Bio Fs FloatMath Llm LlmSpec LlmTok LlmLoad.

Definition kib (n : Z) : Z := n / 1024.

(** [None] is -1. *)
Fixpoint full_loop (fuel : nat) (n done_ : Z) (acc : list Z) : L (option (list Z)) :=
  match fuel with
  | O => nofuel
  | S f =>
      if done_ <? n then
        let! r := read_call (n - done_) in
        match r with
        | None => ret None
        | Some [] => ret None
        | Some bs => full_loop f n (done_ + Z.of_nat (length bs)) (acc ++ bs)
        end
      else ret (Some acc)
  end.

Definition read_full (n : Z) : L (option (list Z)) := full_loop (S (Z.to_nat n)) n 0 [].

(** The product, or the greatest 64-bit number when it does not fit. *)
Definition checked_mul (a b : Z) : Z :=
  let a := u64 a in
  let b := u64 b in
  if negb (a =? 0) && ((2 ^ 64 - 1) / a <? b) then 2 ^ 64 - 1 else u64 (a * b).

Definition weight_count (c : config) : Z :=
  let layers := u64 (n_layers c) in
  let mul3 x y z := checked_mul (checked_mul x y) z in
  foldl (λ n k, u64 (n + k)) 0
    [mul3 layers (dim c) (dim c); mul3 layers (dim c) (kv_dim c); mul3 layers (dim c) (kv_dim c); mul3 layers (dim c) (dim c);
     mul3 layers (hidden_dim c) (dim c); mul3 layers (dim c) (hidden_dim c); mul3 layers (hidden_dim c) (dim c);
     checked_mul layers (dim c); checked_mul layers (dim c); dim c;
     if shared_classifier c then 0 else checked_mul (vocab_size c) (dim c); checked_mul (vocab_size c) (dim c)].

(** A line of the report. *)
Inductive lab_line := lab_u64 (key : string) (value : Z) | lab_str (key value : string).

(** The main function: the exit status and the lines.  [vm]: free bytes, process size
    and page size that [vmstat] returns, or [None] when it fails. *)
Definition memwhy_main (vm : option (Z * Z * Z)) (there : bool) : L (Z * list lab_line) :=
  match vm with
  | None => ret (1, [lab_str "status" "vmstat_failed"])
  | Some (free_bytes, proc_size, page_size) =>
      let head := [lab_u64 "free_kib" (kib free_bytes); lab_u64 "proc_size_kib" (kib proc_size); lab_u64 "page_size" page_size] in
      let stop status := ret (1, head ++ [lab_str "status" status]) in
      if negb there then stop "model_open_failed"%string
      else
        let! a := read_full 4 in
        match a with None => stop "model_header_failed"%string | Some magic =>
        let! a := read_full 4 in
        match a with None => stop "model_header_failed"%string | Some version =>
        let! a := read_full 40 in
        match a with None => stop "model_header_failed"%string | Some cfg =>
        let! a := read_full 208 in
        match a with None => stop "model_header_failed"%string | Some _ =>
        let c := config_of cfg in
        if negb (word_at magic 0 =? MODEL_MAGIC) || negb (word_at version 0 =? MODEL_VERSION) || (dim c <=? 0) || (n_heads c <=? 0)
           || negb (Z.rem (dim c) (n_heads c) =? 0) || (n_kv_heads c <=? 0) then stop "model_header_bad"%string
        else
          let weights := checked_mul (weight_count c) 4 in
          let kv := checked_mul (checked_mul (checked_mul (n_layers c) (seq_len c)) (kv_dim c)) (2 * 4) in
          ret (0, head ++ [lab_u64 "weight_kib" (kib weights); lab_u64 "kv_kib" (kib kv); lab_u64 "state_floor_kib" (kib (u64 (weights + kv)));
                           lab_str "status" "ok"])
        end end end end
  end.

(** ** The report agrees with the loader *)

Lemma checked_mul_agrees a b n : Llm.checked_mul a b = Some n → checked_mul a b = n.
Proof. unfold Llm.checked_mul, checked_mul. destruct (_ && _); [done|]. by intros [= <-]. Qed.

Lemma mul3_agrees a b c n : mul3 a b c = Some n → checked_mul (checked_mul a b) c = n.
Proof. intros (k & E1 & E2)%bind_Some. by rewrite (checked_mul_agrees _ _ _ E1), (checked_mul_agrees _ _ _ E2). Qed.

(** For every configuration whose sizes the loader accepts, the number of weights
    reported is the number that the loader allocates. *)
Lemma weight_count_agrees c n : expected_weight_count c = Some n → weight_count c = n.
Proof.
  unfold expected_weight_count, weight_count.
  intros (n1 & E1 & E)%bind_Some. revert E. intros (n2 & E2 & E)%bind_Some. revert E. intros (n3 & E3 & E)%bind_Some. revert E.
  intros (n4 & E4 & E)%bind_Some. revert E. intros (n5 & E5 & E)%bind_Some. revert E. intros (n6 & E6 & E)%bind_Some. revert E.
  intros (n7 & E7 & E)%bind_Some. revert E. intros (n8 & E8 & E)%bind_Some. revert E. intros (n9 & E9 & E)%bind_Some. revert E.
  intros (n10 & E10 & E)%bind_Some. revert E. intros (n11 & E11 & E)%bind_Some. apply (inj Some) in E. rewrite <- E. cbv zeta. f_equal.
  rewrite (mul3_agrees _ _ _ _ E1), (mul3_agrees _ _ _ _ E2), (mul3_agrees _ _ _ _ E5), (mul3_agrees _ _ _ _ E6), (checked_mul_agrees _ _ _ E8), (checked_mul_agrees _ _ _ E11).
  rewrite E2 in E3. rewrite E1 in E4. rewrite E5 in E7. rewrite E8 in E9. injection E3 as <-. injection E4 as <-. injection E7 as <-. injection E9 as <-.
  do 10 f_equal. destruct (shared_classifier c); [injection E10 as <-; done|]. rewrite E11 in E10. by injection E10 as <-.
Qed.
