(* ===== verification/Umalloc.v ===== *)
(** user/lib/umalloc.c: [malloc], [free] and [morecore], the allocator of user
    programs, on the byte memory of a process.

    The free blocks form a ring of headers in address order, which starts at the
    static [base]; a header is 16 bytes, the link at offset 0 and the size, in
    units of a header, at offset 8.  [sbrk] is the system call, given by the class
    [Sbrk]; [SbrkOk] says what [growproc] makes of it: the heap ends at [brk] and
    grows at its end, or not at all. *)

From S2P Require Import Prelude Machine.

Definition HEADER : Z := 16.

Definition SBRK_ERROR : Z := 2 ^ 64 - 1.

Class Sbrk (W : Type) := sbrk : Z → W → Z * W.

Record heap (W : Type) := Heap {
  hmem : memory;
  freep : Z;
  os : W;
}.

Arguments Heap {W} hmem freep os.
Arguments hmem {W} h.
Arguments freep {W} h.
Arguments os {W} h.

#[export] Instance eta_heap W : Eta (heap W) := λ h, Heap (hmem h) (freep h) (os h).

(** [p->s.ptr] and [p->s.size] *)
Definition ptr_at (m : memory) (p : Z) : Z := load64 m p.

Definition size_at (m : memory) (p : Z) : Z := load32 m (p + 8).

#[global] Arguments ptr_at : simpl never.
#[global] Arguments size_at : simpl never.

(** [p + n] for a header pointer [p] *)
Definition hadd (p n : Z) : Z := u64 (p + HEADER * n).

Section Code.

Context {W : Type} {SB : Sbrk W}.
(** The address of the static [base]. *)
Context (base : Z).

Definition sptr (p : Z) : M (heap W) Z := gets (λ h, ptr_at (hmem h) p).

Definition ssize (p : Z) : M (heap W) Z := gets (λ h, size_at (hmem h) p).

Definition set_ptr (p v : Z) : M (heap W) unit := modify (λ h, h <| hmem := store64 (hmem h) p v |>).

Definition set_size (p v : Z) : M (heap W) unit := modify (λ h, h <| hmem := store32 (hmem h) (p + 8) v |>).

(** The [for] loop of [free]: the block after which [bp] belongs. *)
Fixpoint free_walk (fuel : nat) (bp p : Z) : M (heap W) Z :=
  match fuel with
  | O => nofuel
  | S f =>
      let! q := sptr p in
      if (p <? bp) && (bp <? q) then ret p
      else if (q <=? p) && ((p <? bp) || (bp <? q)) then ret p
      else free_walk f bp q
  end.

Definition free (fuel : nat) (ap : Z) : M (heap W) unit :=
  let bp := hadd ap (-1) in
  let! p := gets freep in
  let! p := free_walk fuel bp p in
  let! n := ssize bp in
  let! q := sptr p in
  (if hadd bp n =? q then
     let! nq := ssize q in
     set_size bp (u32 (n + nq)) ;;;
     let! r := sptr q in
     set_ptr bp r
   else set_ptr bp q) ;;;
  let! np := ssize p in
  (if hadd p np =? bp then
     let! n := ssize bp in
     set_size p (u32 (np + n)) ;;;
     let! r := sptr bp in
     set_ptr p r
   else set_ptr p bp) ;;;
  modify (λ h, h <| freep := p |>).

(** [sbrk(n)]: the argument of the system call is an [int]. *)
Definition sbrk_call (n : Z) : M (heap W) Z := λ h,
  let '(r, o) := sbrk (s32 n) (os h) in Ok r (h <| os := o |>).

Definition morecore (fuel : nat) (nu : Z) : M (heap W) Z :=
  let nu := if nu <? 4096 then 4096 else nu in
  let! p := sbrk_call (u64 (nu * HEADER)) in
  if p =? SBRK_ERROR then ret 0
  else
    set_size p nu ;;;
    free fuel (hadd p 1) ;;;
    gets freep.

(** A block of at least [nunits] units was found after [prevp]: take it whole,
    or its tail. *)
Definition take_block (nunits prevp p : Z) : M (heap W) Z :=
  let! n := ssize p in
  let! p := (if n =? nunits then
               let! q := sptr p in
               set_ptr prevp q ;;;
               ret p
             else
               set_size p (u32 (n - nunits)) ;;;
               let! n := ssize p in
               let p := hadd p n in
               set_size p nunits ;;;
               ret p) in
  modify (λ h, h <| freep := prevp |>) ;;;
  ret (hadd p 1).

Fixpoint malloc_loop (fuel wfuel : nat) (nunits prevp p : Z) : M (heap W) Z :=
  match fuel with
  | O => nofuel
  | S f =>
      let! n := ssize p in
      if nunits <=? n then take_block nunits prevp p
      else
        let! fp := gets freep in
        if p =? fp then
          let! r := morecore wfuel nunits in
          if r =? 0 then ret 0
          else
            let! q := sptr r in
            malloc_loop f wfuel nunits r q
        else
          let! q := sptr p in
          malloc_loop f wfuel nunits p q
  end.

Definition units (nbytes : Z) : Z := u32 ((nbytes + HEADER - 1) / HEADER + 1).

(** [fuel] bounds the rounds of the two loops over the ring. *)
Definition malloc (fuel : nat) (nbytes : Z) : M (heap W) Z :=
  let nunits := units nbytes in
  let! fp := gets freep in
  let! prevp := (if fp =? 0 then
                   modify (λ h, h <| freep := base |>) ;;;
                   set_ptr base base ;;;
                   set_size base 0 ;;;
                   ret base
                 else ret fp) in
  let! p := sptr prevp in
  malloc_loop fuel fuel nunits prevp p.

End Code.
