(* ===== verification/UmallocHeap.v ===== *)
(** The invariant of the user allocator: how free and allocated blocks share the
    heap ([layout]), how the headers in memory link and size them ([linked]), and
    how [free] and the taking of a block change both. *)

From stdpp Require Import sorting.
From S2P Require Import Prelude Machine Umalloc.

Abbreviation block := (Z * Z)%type.

(** ** Headers in memory *)

(** Two headers are the same or do not overlap. *)
Definition far (x y : Z) : Prop := x = y ∨ x + 16 ≤ y ∨ y + 16 ≤ x.

Lemma ptr_set_ptr m x v y :
  far x y → 0 ≤ v < 2 ^ 64 → ptr_at (store64 m x v) y = if decide (y = x) then v else ptr_at m y.
Proof.
  intros Hf Hv. unfold ptr_at. destruct (decide (y = x)) as [->|].
  - by apply load64_store64.
  - apply load64_store64_ne. unfold far in Hf. lia.
Qed.

Lemma ptr_set_size m x v y : far x y → ptr_at (store32 m (x + 8) v) y = ptr_at m y.
Proof.
  intros Hf. unfold ptr_at. apply load64_ext. intros b Hb.
  apply (mget_store_le_out 4). unfold far in Hf. lia.
Qed.

Lemma size_set_ptr m x v y : far x y → size_at (store64 m x v) y = size_at m y.
Proof.
  intros Hf. unfold size_at, load32. apply load_le_ext. intros b Hb.
  apply (mget_store_le_out 8). unfold far in Hf. lia.
Qed.

Lemma size_set_size m x v y :
  far x y → 0 ≤ v < 2 ^ 32 → size_at (store32 m (x + 8) v) y = if decide (y = x) then v else size_at m y.
Proof.
  intros Hf Hv. unfold size_at. destruct (decide (y = x)) as [->|].
  - unfold load32, store32. rewrite load_store_le. by apply Z.mod_small.
  - apply load_le_ext. intros b Hb. apply (mget_store_le_out 4). unfold far in Hf. lia.
Qed.

Lemma ptr_at_bound m y : 0 ≤ ptr_at m y < 2 ^ 64.
Proof. apply load64_bound. Qed.

Lemma size_at_bound m y : 0 ≤ size_at m y < 2 ^ 32.
Proof. apply (load_le_bound 4). Qed.

(** ** Chains of links *)

Fixpoint chain (m : memory) (x : Z) (l : list Z) (e : Z) : Prop :=
  match l with
  | [] => ptr_at m x = e
  | y :: l' => ptr_at m x = y ∧ chain m y l' e
  end.

(** The last node of the chain from [x] through [l]. *)
Fixpoint final (x : Z) (l : list Z) : Z :=
  match l with
  | [] => x
  | y :: l' => final y l'
  end.

Lemma final_app x l y : final x (l ++ [y]) = y.
Proof. revert x. induction l as [|z l IH]; intros x; [done|]. apply IH. Qed.

Lemma final_in x l : final x l ∈ x :: l.
Proof.
  revert x. induction l as [|y l IH]; intros x; [apply list_elem_of_here|]. right. apply IH.
Qed.

Lemma chain_app m x l1 y l2 e : chain m x (l1 ++ y :: l2) e ↔ chain m x l1 y ∧ chain m y l2 e.
Proof.
  revert x. induction l1 as [|z l1 IH]; intros x; [done|]. cbn. rewrite IH. tauto.
Qed.

Lemma chain_final m x l e : chain m x l e → ptr_at m (final x l) = e.
Proof. revert x. induction l as [|y l IH]; intros x; [done|]. intros [_ H]. by apply IH. Qed.

(** Only the last link changed. *)
Lemma chain_relink m m' x l e v :
  chain m x l e → NoDup (x :: l) → (∀ y, y ∈ x :: l → y ≠ final x l → ptr_at m' y = ptr_at m y) →
  ptr_at m' (final x l) = v → chain m' x l v.
Proof.
  revert x. induction l as [|y l IH]; intros x Hc Hnd Heq Hv; [done|]. destruct Hc as [Hx Hc].
  apply NoDup_cons in Hnd as [Hxn Hnd]. split.
  - rewrite Heq; [done|apply list_elem_of_here|]. intros E. apply Hxn. cbn in E. rewrite E. apply final_in.
  - apply IH; [done..| |done]. intros z Hz. apply Heq. by right.
Qed.

Lemma chain_ext m m' x l e :
  chain m x l e → (∀ y, y ∈ x :: l → ptr_at m' y = ptr_at m y) → chain m' x l e.
Proof.
  revert x. induction l as [|y l IH]; intros x Hc Heq; cbn in *; [by rewrite Heq by apply list_elem_of_here|].
  destruct Hc as [Hx Hc]. split; [by rewrite Heq by apply list_elem_of_here|]. apply IH; [done|]. intros z Hz. apply Heq. by right.
Qed.

(** In a ring, links are injective. *)
Lemma chain_inj m x l e y z :
  chain m x l e → NoDup (l ++ [e]) → y ∈ x :: l → z ∈ x :: l → ptr_at m y = ptr_at m z → y = z.
Proof.
  assert (Hin : ∀ l x e y, chain m x l e → y ∈ x :: l → ptr_at m y ∈ l ++ [e]).
  { clear. induction l as [|w l IH]; intros x e y Hc Hy.
    - apply list_elem_of_singleton in Hy as ->. cbn in Hc. rewrite Hc. apply list_elem_of_here.
    - destruct Hc as [Hx Hc]. apply elem_of_cons in Hy as [->|Hy]; [rewrite Hx; apply list_elem_of_here|].
      right. by eapply IH. }
  revert x. induction l as [|w l IH]; intros x Hc Hnd Hy Hz E.
  - apply list_elem_of_singleton in Hy as ->. by apply list_elem_of_singleton in Hz as ->.
  - destruct Hc as [Hx Hc]. cbn in Hnd. apply NoDup_cons in Hnd as [Hw Hnd].
    apply elem_of_cons in Hy as [->|Hy]; apply elem_of_cons in Hz as [->|Hz]; [done|..].
    + destruct Hw. rewrite <- Hx, E. by eapply Hin.
    + destruct Hw. rewrite <- Hx, <- E. by eapply Hin.
    + by eapply (IH w).
Qed.

(** ** The blocks of the heap *)

Definition free_units (l : list block) : Z := foldr (λ b n, b.2 + n) 0 l.

Definition live_units (al : gmap Z Z) : Z := map_fold (λ _ s n, s + n) 0 al.

Lemma free_units_app l1 l2 : free_units (l1 ++ l2) = free_units l1 + free_units l2.
Proof. unfold free_units. induction l1 as [|b l1 IH]; cbn; [done|]. rewrite IH. lia. Qed.

Lemma live_units_insert al a s : al !! a = None → live_units (<[a := s]> al) = s + live_units al.
Proof. intros Ha. unfold live_units. rewrite map_fold_insert_L; [done|intros; lia|done]. Qed.

Lemma live_units_delete al a s : al !! a = Some s → live_units (delete a al) = live_units al - s.
Proof.
  intros Ha. rewrite <- (insert_delete_id al a s Ha) at 2. rewrite live_units_insert by apply lookup_delete_eq. lia.
Qed.

Definition owned (fl : list block) (al : gmap Z Z) (a s : Z) : Prop := (a, s) ∈ fl ∨ al !! a = Some s.

(** Free blocks in address order, allocated blocks, and nothing else, between
    [lo] and [hi]. *)
Record layout (lo hi : Z) (fl : list block) (al : gmap Z Z) : Prop := {
  ly_sorted : StronglySorted (λ x y : block, x.1 < y.1) fl;
  ly_in : ∀ a s, owned fl al a s → lo ≤ a ∧ 0 < s ∧ a + 16 * s ≤ hi ∧ a mod 16 = 0;
  ly_apart : ∀ a s a' s', owned fl al a s → owned fl al a' s' → a ≠ a' → a + 16 * s ≤ a' ∨ a' + 16 * s' ≤ a;
  ly_sep : ∀ a s, (a, s) ∈ fl → al !! a = None;
  ly_total : 16 * (free_units fl + live_units al) = hi - lo;
}.

(** No two free blocks touch. *)
Definition coalesced (fl : list block) : Prop := ∀ a s b t, (a, s) ∈ fl → (b, t) ∈ fl → a + 16 * s ≠ b.

Record linked (base : Z) (m : memory) (fl : list block) (al : gmap Z Z) : Prop := {
  lk_chain : chain m base fl.*1 base;
  lk_base : size_at m base = 0;
  lk_size : ∀ a s, owned fl al a s → size_at m a = s;
}.

Lemma sorted_app_cons l1 x l2 :
  StronglySorted (λ x y : block, x.1 < y.1) (l1 ++ x :: l2) ↔
  StronglySorted (λ x y : block, x.1 < y.1) (l1 ++ l2)
  ∧ (∀ y, y ∈ l1 → y.1 < x.1) ∧ (∀ y, y ∈ l2 → x.1 < y.1).
Proof.
  induction l1 as [|z l1 IH]; cbn.
  - split.
    + intros H. apply StronglySorted_inv in H as [H1 H2]. rewrite Forall_forall in H2.
      split_and!; [done| |done]. intros y Hy. by apply elem_of_nil in Hy.
    + intros (H1 & _ & H2). constructor; [done|]. by apply Forall_forall.
  - split.
    + intros H. apply StronglySorted_inv in H as [H1 H2]. apply IH in H1 as (H1 & Ha & Hb).
      rewrite Forall_forall in H2. split_and!; [| |done].
      * constructor; [done|]. apply Forall_forall. intros y Hy. apply H2. rewrite elem_of_app in *. set_solver.
      * intros y Hy. apply elem_of_cons in Hy as [->|Hy]; [|by apply Ha]. apply H2. rewrite elem_of_app. set_solver.
    + intros (H & Ha & Hb). apply StronglySorted_inv in H as [H1 H2]. rewrite Forall_forall in H2. constructor.
      * apply IH. split_and!; [done| |done]. intros y Hy. apply Ha. by right.
      * apply Forall_forall. intros y Hy. apply elem_of_app in Hy as [Hy|Hy]; [apply H2; set_solver|].
        apply elem_of_cons in Hy as [->|Hy]; [apply Ha; set_solver|]. apply H2. set_solver.
Qed.

Section Layout.

Context (lo hi : Z).

(** A block is allocated, or freed. *)
Lemma owned_move l1 l2 al a s b t :
  al !! a = None ∨ al !! a = Some s →
  owned (l1 ++ l2) (<[a := s]> al) b t ↔ owned (l1 ++ (a, s) :: l2) (delete a al) b t.
Proof.
  intros Ha. unfold owned. rewrite lookup_insert_Some, lookup_delete_Some, !elem_of_app, elem_of_cons.
  split.
  - intros [Hb|[[-> ->]|[]]]; [tauto|tauto|tauto].
  - intros [[H|[E|H]]|[]]; [tauto| |tauto|tauto]. injection E as -> ->. tauto.
Qed.

Lemma layout_free l1 l2 al a s :
  layout lo hi (l1 ++ l2) al → al !! a = Some s → (∀ y, y ∈ l1 → y.1 < a) → (∀ y, y ∈ l2 → a < y.1) →
  layout lo hi (l1 ++ (a, s) :: l2) (delete a al).
Proof.
  intros [Hs Hi Hap Hsep Ht] Ha H1 H2.
  assert (Hown : ∀ b t, owned (l1 ++ (a, s) :: l2) (delete a al) b t → owned (l1 ++ l2) al b t).
  { intros b t Hb. apply owned_move in Hb; [|by right]. by rewrite insert_id in Hb. }
  split.
  - by apply sorted_app_cons.
  - intros b t Hb. by apply Hi, Hown.
  - intros b t b' t' Hb Hb'. apply Hap; by apply Hown.
  - intros b t Hb. rewrite lookup_delete_None. destruct (decide (a = b)) as [->|Hne]; [by left|right].
    apply (Hsep b t), elem_of_app. rewrite elem_of_app, elem_of_cons in Hb.
    destruct Hb as [|[E|]]; [by left| |by right]. by injection E as -> ->.
  - rewrite (live_units_delete al a s) by done. rewrite free_units_app in *. cbn.
    change (foldr _ 0 l2) with (free_units l2). lia.
Qed.

Lemma layout_take l1 l2 al a s :
  layout lo hi (l1 ++ (a, s) :: l2) al → layout lo hi (l1 ++ l2) (<[a := s]> al).
Proof.
  intros [Hs Hi Hap Hsep Ht].
  assert (Ha : al !! a = None) by (apply (Hsep a s), elem_of_app; right; apply list_elem_of_here).
  assert (Hown : ∀ b t, owned (l1 ++ l2) (<[a := s]> al) b t → owned (l1 ++ (a, s) :: l2) al b t).
  { intros b t Hb. apply owned_move in Hb; [|by left]. by rewrite delete_id in Hb. }
  pose proof Hs as (Hs1 & Hl & Hr)%sorted_app_cons. split.
  - done.
  - intros b t Hb. by apply Hi, Hown.
  - intros b t b' t' Hb Hb'. apply Hap; by apply Hown.
  - intros b t Hb. rewrite lookup_insert_ne.
    + apply (Hsep b t). apply elem_of_app. apply elem_of_app in Hb as []; [by left|by do 2 right].
    + intros <-. apply elem_of_app in Hb as [Hb|Hb]; [apply Hl in Hb|apply Hr in Hb]; cbn in Hb; lia.
  - rewrite live_units_insert by done. rewrite free_units_app in *. cbn in Ht.
    change (foldr _ 0 l2) with (free_units l2) in Ht. lia.
Qed.

(** A free block in two, or two that touch in one. *)
Lemma layout_split l1 l2 al a s t :
  layout lo hi (l1 ++ (a, s + t) :: l2) al → 0 < s → 0 < t →
  layout lo hi (l1 ++ (a, s) :: (a + 16 * s, t) :: l2) al.
Proof.
  intros [Hs Hi Hap Hsep Ht] Hs0 Ht0. pose proof Hs as (Hs1 & Hl & Hr)%sorted_app_cons. cbn [fst] in *.
  assert (Hmid : owned (l1 ++ (a, s + t) :: l2) al a (s + t)).
  { left. apply elem_of_app. right. apply list_elem_of_here. }
  assert (Hown : ∀ b u, owned (l1 ++ (a, s) :: (a + 16 * s, t) :: l2) al b u →
    (b = a ∧ u = s) ∨ (b = a + 16 * s ∧ u = t) ∨ owned (l1 ++ (a, s + t) :: l2) al b u ∧ b ≠ a).
  { intros b u [Hb|Hb].
    - rewrite elem_of_app, !elem_of_cons in Hb. destruct Hb as [Hb|[E|[E|Hb]]].
      + right; right. split; [left; apply elem_of_app; by left|]. apply Hl in Hb. cbn in Hb. lia.
      + injection E as -> ->. by left.
      + injection E as -> ->. right. by left.
      + right; right. split; [left; apply elem_of_app; by do 2 right|]. apply Hr in Hb. cbn in Hb. lia.
    - right; right. split; [by right|]. intros ->. rewrite (Hsep a (s + t)) in Hb; [done|].
      apply elem_of_app. right. apply list_elem_of_here. }
  pose proof (Hi _ _ Hmid) as Hmi.
  assert (Hfar : ∀ b u, owned (l1 ++ (a, s + t) :: l2) al b u ∧ b ≠ a → a + 16 * (s + t) ≤ b ∨ b + 16 * u ≤ a).
  { intros b u [Hb Hne]. by eapply Hap. }
  split.
  - apply sorted_app_cons. split_and!.
    + apply sorted_app_cons. split_and!; [done|..]; intros y Hy.
      * apply Hl in Hy. cbn. lia.
      * assert (Hy' : owned (l1 ++ (a, s + t) :: l2) al y.1 y.2).
        { left. apply elem_of_app. do 2 right. by destruct y. }
        apply Hr in Hy. destruct (Hfar y.1 y.2) as [|]; cbn; [split; [done|lia]|lia|].
        pose proof (Hi _ _ Hy'). lia.
    + intros y Hy. by apply Hl.
    + intros y Hy. apply elem_of_cons in Hy as [->|Hy]; [cbn; lia|by apply Hr].
  - intros b u Hb. apply Hown in Hb as [[-> ->]|[[-> ->]|[Hb _]]]; [lia| |by apply Hi].
    split_and!; try lia. rewrite Z.add_comm, Z.mul_comm, Z.add_comm, Z.mod_add by lia. lia.
  - intros b u b' u' Hb Hb' Hne.
    apply Hown in Hb as [[-> ->]|[[-> ->]|Hb]]; apply Hown in Hb' as [[-> ->]|[[-> ->]|Hb']];
      try lia; try (pose proof (Hfar _ _ Hb)); try (pose proof (Hfar _ _ Hb')); try lia.
    apply Hap; [apply Hb|apply Hb'|done].
  - intros b u Hb. rewrite elem_of_app, !elem_of_cons in Hb. destruct Hb as [Hb|[E|[E|Hb]]].
    + apply (Hsep b u), elem_of_app. by left.
    + injection E as -> ->. apply (Hsep a (s + t)), elem_of_app. right. apply list_elem_of_here.
    + injection E as -> ->. destruct (al !! (a + 16 * s)) as [u'|] eqn:Eu; [|done].
      destruct (Hfar (a + 16 * s) u') as [|]; [split; [by right|]; lia|lia|].
      pose proof (Hi _ _ (or_intror Eu)). lia.
    + apply (Hsep b u), elem_of_app. by do 2 right.
  - rewrite free_units_app in *. cbn in *. lia.
Qed.

Lemma coalesced_split l1 l2 al p s t :
  layout lo hi (l1 ++ (p, s + t) :: l2) al → coalesced (l1 ++ (p, s + t) :: l2) → 0 < s → 0 < t →
  coalesced (l1 ++ (p, s) :: l2).
Proof.
  intros HL Hco Hs Ht x u y v Hx Hy.
  assert (Hp : (p, s + t) ∈ l1 ++ (p, s + t) :: l2) by (apply elem_of_app; right; apply list_elem_of_here).
  assert (Hy' : ∃ v', (y, v') ∈ l1 ++ (p, s + t) :: l2).
  { rewrite elem_of_app, elem_of_cons in Hy. destruct Hy as [|[E|]].
    - exists v. apply elem_of_app. by left.
    - injection E as -> ->. by exists (s + t).
    - exists v. apply elem_of_app. right. by right. }
  destruct Hy' as [v' Hy']. rewrite elem_of_app, elem_of_cons in Hx. destruct Hx as [Hx|[E|Hx]].
  - apply (Hco _ _ y v'); [apply elem_of_app; by left|done].
  - injection E as -> ->. intros E. destruct (decide (y = p)) as [->|Hne]; [lia|].
    pose proof (ly_apart _ _ _ _ HL _ _ _ _ (or_introl Hy') (or_introl Hp) Hne).
    pose proof (ly_in _ _ _ _ HL _ _ (or_introl Hy')). lia.
  - apply (Hco _ _ y v'); [apply elem_of_app; right; by right|done].
Qed.

Lemma layout_merge l1 l2 al a s t :
  layout lo hi (l1 ++ (a, s) :: (a + 16 * s, t) :: l2) al → layout lo hi (l1 ++ (a, s + t) :: l2) al.
Proof.
  intros [Hs Hi Hap Hsep Ht]. pose proof Hs as (Hs1 & Hl & Hr)%sorted_app_cons. cbn [fst] in *.
  pose proof Hs1 as (Hs2 & Hl2 & Hr2)%sorted_app_cons. cbn [fst] in *.
  set (fl := l1 ++ (a, s) :: (a + 16 * s, t) :: l2) in *.
  assert (Ha : owned fl al a s) by (left; apply elem_of_app; right; apply list_elem_of_here).
  assert (Hb : owned fl al (a + 16 * s) t).
  { left. apply elem_of_app. right. right. apply list_elem_of_here. }
  assert (Hown : ∀ c u, owned (l1 ++ (a, s + t) :: l2) al c u →
    (c = a ∧ u = s + t) ∨ owned fl al c u ∧ c ≠ a ∧ c ≠ a + 16 * s).
  { intros c u [Hc|Hc].
    - rewrite elem_of_app, !elem_of_cons in Hc. destruct Hc as [Hc|[E|Hc]].
      + right. split; [left; apply elem_of_app; by left|]. pose proof (Hl _ Hc). pose proof (Hl2 _ Hc). cbn in *. lia.
      + injection E as -> ->. by left.
      + right. split; [left; apply elem_of_app; by do 3 right|].
        pose proof (Hr2 _ Hc). pose proof (Hi _ _ Ha). cbn in *. lia.
    - right. split; [by right|]. split; intros ->.
      + destruct Ha as [Ha|Ha]; [|by rewrite (Hsep a s) in Ha by (apply elem_of_app; right; apply list_elem_of_here)].
        by rewrite (Hsep _ _ Ha) in Hc.
      + destruct Hb as [Hb|Hb]; [by rewrite (Hsep _ _ Hb) in Hc|].
        rewrite (Hsep (a + 16 * s) t) in Hb; [done|]. apply elem_of_app. right. right. apply list_elem_of_here. }
  pose proof (Hi _ _ Ha) as Hia. pose proof (Hi _ _ Hb) as Hib.
  split.
  - apply sorted_app_cons. split_and!; [exact Hs2|exact Hl|]. intros y Hy. apply Hr. by right.
  - intros c u Hc. apply Hown in Hc as [[-> ->]|[Hc _]]; [lia|by apply Hi].
  - intros c u c' u' Hc Hc' Hne. apply Hown in Hc as [[-> ->]|(Hc & Hc1 & Hc2)]; apply Hown in Hc' as [[-> ->]|(Hc' & Hc1' & Hc2')].
    + done.
    + pose proof (Hap _ _ _ _ Ha Hc' ltac:(lia)). pose proof (Hap _ _ _ _ Hb Hc' ltac:(lia)).
      pose proof (Hi _ _ Hc'). lia.
    + pose proof (Hap _ _ _ _ Ha Hc ltac:(lia)). pose proof (Hap _ _ _ _ Hb Hc ltac:(lia)).
      pose proof (Hi _ _ Hc). lia.
    + by apply Hap.
  - intros c u Hc. rewrite elem_of_app, elem_of_cons in Hc. destruct Hc as [Hc|[E|Hc]].
    + apply (Hsep c u), elem_of_app. by left.
    + injection E as -> ->. apply (Hsep a s), elem_of_app. right. apply list_elem_of_here.
    + apply (Hsep c u), elem_of_app. by do 3 right.
  - unfold fl in Ht. rewrite free_units_app in *. cbn in *. lia.
Qed.

End Layout.

Lemma free_units_length (l : list block) : (∀ a s, (a, s) ∈ l → 0 < s) → Z.of_nat (length l) ≤ free_units l.
Proof.
  induction l as [|[a s] l IH]; intros Hpos; cbn; [lia|]. change (foldr _ 0 l) with (free_units l).
  assert (0 < s) by (apply (Hpos a), list_elem_of_here).
  assert (Z.of_nat (length l) ≤ free_units l) by (apply IH; intros b t Hb; apply (Hpos b); by right). lia.
Qed.

Lemma live_units_nonneg (al : gmap Z Z) : (∀ a s, al !! a = Some s → 0 < s) → 0 ≤ live_units al.
Proof.
  unfold live_units. apply (map_fold_weak_ind (λ r (m : gmap Z Z), (∀ a s, m !! a = Some s → 0 < s) → 0 ≤ r)); [intros; lia|].
  intros a s m r Hm IH Hpos. assert (0 < s) by (apply (Hpos a), lookup_insert_eq).
  assert (0 ≤ r); [|lia]. apply IH. intros b t Hb'. apply (Hpos b). rewrite lookup_insert_ne; [done|]. intros ->. by rewrite Hm in Hb'.
Qed.

(** There are no more free blocks than units in the heap. *)
Lemma layout_units lo hi fl al : layout lo hi fl al → 0 ≤ 16 * Z.of_nat (length fl) ≤ hi - lo.
Proof.
  intros HL. pose proof (ly_total _ _ _ _ HL). pose proof (ly_in _ _ _ _ HL) as Hin.
  assert (Z.of_nat (length fl) ≤ free_units fl) by (apply free_units_length; intros a s Ha; apply (Hin a s); by left).
  assert (0 ≤ live_units al) by (apply live_units_nonneg; intros a s Ha; apply (Hin a s); by right). lia.
Qed.

(** ** Positions in the ring *)

Definition tail_chain (m : memory) (l : list Z) (e : Z) : Prop :=
  match l with
  | [] => True
  | y :: l' => chain m y l' e
  end.

Lemma tail_chain_ext m m' l e :
  tail_chain m l e → (∀ y, y ∈ l → ptr_at m' y = ptr_at m y) → tail_chain m' l e.
Proof. destruct l; [done|]. apply chain_ext. Qed.

Lemma chain_glue m x l1 l2 e : chain m x (l1 ++ l2) e ↔ chain m x l1 (List.hd e l2) ∧ tail_chain m l2 e.
Proof. destruct l2 as [|y l2]; cbn; [rewrite app_nil_r; tauto|apply chain_app]. Qed.

Lemma chain_from m x l e k1 y k2 : chain m x l e → x :: l = k1 ++ y :: k2 → chain m y k2 e ∧ final y k2 = final x l.
Proof.
  revert x l. induction k1 as [|z k1 IH]; intros x l Hc E; injection E as -> ->; [done|].
  destruct k1 as [|z' k1]; cbn in Hc |- *; destruct Hc as [_ Hc]; by apply (IH _ _ Hc).
Qed.

Lemma ring_split (bp : Z) (fl : list block) :
  StronglySorted (λ x y : block, x.1 < y.1) fl → bp ∉ fl.*1 →
  ∃ l1 l2, fl = l1 ++ l2 ∧ (∀ y, y ∈ l1 → y.1 < bp) ∧ (∀ y, y ∈ l2 → bp < y.1).
Proof.
  induction fl as [|x fl IH]; intros Hs Hn.
  - exists [], []. split_and!; [done|..]; intros y Hy; by apply elem_of_nil in Hy.
  - apply StronglySorted_inv in Hs as [Hs Hx]. rewrite Forall_forall in Hx. cbn in Hn. apply not_elem_of_cons in Hn as [Hne Hn].
    destruct (decide (x.1 < bp)) as [Hlt|Hge].
    + destruct (IH Hs Hn) as (l1 & l2 & -> & H1 & H2). exists (x :: l1), l2. split_and!; [done| |done].
      intros y Hy. apply elem_of_cons in Hy as [->|Hy]; [done|by apply H1].
    + exists [], (x :: fl). split_and!; [done|..]; intros y Hy; [by apply elem_of_nil in Hy|].
      apply elem_of_cons in Hy as [->|Hy]; [lia|]. apply Hx in Hy. lia.
Qed.

Lemma sorted_fst (l : list block) : StronglySorted (λ x y : block, x.1 < y.1) l → StronglySorted Z.lt l.*1.
Proof.
  induction 1 as [|x l Hs IH Hx]; cbn; constructor; [done|]. rewrite Forall_fmap. done.
Qed.

Lemma sorted_NoDup (l : list Z) : StronglySorted Z.lt l → NoDup l.
Proof.
  induction 1 as [|x l Hs IH Hx]; constructor; [|done]. intros Hin. rewrite Forall_forall in Hx. apply Hx in Hin. lia.
Qed.

Section Ring.

Context {W : Type} (base lo : Z).

(** The state of an allocator that has been used: its free blocks are [fl], its
    allocated ones [al], and the heap ends at [hi]. *)
Record heap_ok (hi : Z) (h : heap W) (fl : list block) (al : gmap Z Z) : Prop := {
  hk_layout : layout lo hi fl al;
  hk_coalesced : coalesced fl;
  hk_linked : linked base (hmem h) fl al;
  hk_freep : freep h ∈ base :: fl.*1;
  hk_base : 0 < base ∧ base + 16 ≤ lo ∧ lo mod 16 = 0;
  hk_hi : hi ≤ 2 ^ 36;
}.

Definition node (fl : list block) (al : gmap Z Z) (y : Z) : Prop := y = base ∨ ∃ s, owned fl al y s.

Context (hi : Z) (h : heap W) (fl : list block) (al : gmap Z Z).
Hypothesis (Hok : heap_ok hi h fl al).

Lemma owned_bounds a s : owned fl al a s → base + 16 ≤ a ∧ lo ≤ a ∧ 0 < s ∧ a + 16 * s ≤ hi ∧ hi ≤ 2 ^ 36.
Proof. intros Ha. destruct Hok as [HL _ _ _ Hb Hh]. pose proof (ly_in _ _ _ _ HL _ _ Ha). lia. Qed.

Lemma node_far x y : node fl al x → node fl al y → far x y.
Proof.
  unfold far. intros [->|[s Hx]] [->|[t Hy]]; [by left|..].
  - pose proof (owned_bounds _ _ Hy). lia.
  - pose proof (owned_bounds _ _ Hx). lia.
  - destruct (decide (x = y)) as [|Hne]; [by left|right]. pose proof (owned_bounds _ _ Hx). pose proof (owned_bounds _ _ Hy).
    pose proof (ly_apart _ _ _ _ (hk_layout _ _ _ _ Hok) _ _ _ _ Hx Hy Hne). lia.
Qed.

Lemma node_pos x : node fl al x → 0 < x < 2 ^ 36.
Proof.
  intros [->|[s Hx]]; pose proof (hk_base _ _ _ _ Hok) as Hb.
  - pose proof (layout_units _ _ _ _ (hk_layout _ _ _ _ Hok)). pose proof (hk_hi _ _ _ _ Hok). lia.
  - pose proof (owned_bounds _ _ Hx). lia.
Qed.

Lemma ring_node x : x ∈ base :: fl.*1 → node fl al x.
Proof.
  intros Hx. apply elem_of_cons in Hx as [->|Hx]; [by left|right].
  apply list_elem_of_fmap in Hx as ([a s] & -> & Hx). exists s. by left.
Qed.

(** The headers of the ring lie outside what allocated blocks hold. *)
Lemma ring_header_out x a s b :
  x ∈ base :: fl.*1 → al !! a = Some s → a + 16 ≤ b < a + 16 * s → b < x ∨ x + 16 ≤ b.
Proof.
  intros Hx Ha Hb. pose proof (owned_bounds a s (or_intror Ha)). apply elem_of_cons in Hx as [->|Hx]; [lia|].
  apply list_elem_of_fmap in Hx as ([y t] & E & Hx). cbn in E. subst y. pose proof (owned_bounds x t (or_introl Hx)).
  assert (Hne : a ≠ x) by (intros ->; by rewrite (ly_sep _ _ _ _ (hk_layout _ _ _ _ Hok) _ _ Hx) in Ha).
  pose proof (ly_apart _ _ _ _ (hk_layout _ _ _ _ Hok) _ _ _ _ (or_intror Ha) (or_introl Hx) Hne). lia.
Qed.

Lemma ring_sorted : StronglySorted Z.lt (base :: fl.*1).
Proof.
  constructor; [apply sorted_fst, Hok|]. apply Forall_forall. intros x Hx.
  apply list_elem_of_fmap in Hx as ([a s] & -> & Hx). pose proof (owned_bounds a s (or_introl Hx)). cbn. lia.
Qed.

End Ring.
