(* ===== verification/UmallocFree.v ===== *)
(** [free] keeps the invariant of the allocator. *)

From stdpp Require Import sorting.
From S2P Require Import Prelude Machine Umalloc UmallocHeap.

Section Walk.

Context {W : Type}.
Implicit Types h : heap W.

(** The walk of [free] up the part of the ring below [bp], and through the part
    above it back to [base]. *)
Lemma walk_low h bp l : ∀ x q f,
  chain (hmem h) x l q → StronglySorted Z.lt (x :: l) → (∀ y, y ∈ x :: l → y < bp) → bp < q ∨ q ≤ final x l →
  free_walk (S (length l) + f) bp x h = Ok (final x l) h.
Proof.
  induction l as [|y l IH]; intros x q f Hc Hs Hlt Hq; cbn [final length Nat.add] in *; cbn [free_walk].
  - cbn in Hc. pose proof (Hlt x (list_elem_of_here _ _)) as Hx. unfold sptr.
    rewrite bind_gets. rewrite Hc. rewrite (proj2 (Z.ltb_lt x bp) Hx). cbn [andb orb].
    destruct (Z.ltb_spec bp q); [done|]. rewrite (proj2 (Z.leb_le q x)) by lia. done.
  - destruct Hc as [Hx Hc]. apply StronglySorted_inv in Hs as [Hs Hxy].
    assert (x < y) by (rewrite Forall_forall in Hxy; apply Hxy, list_elem_of_here).
    assert (Hy : y < bp) by (apply Hlt; right; apply list_elem_of_here). unfold sptr.
    rewrite bind_gets. rewrite Hx.
    rewrite (proj2 (Z.ltb_ge bp y)), (proj2 (Z.leb_gt y x)), andb_false_r by lia. cbn [andb].
    change (S (length l + f)) with (S (length l) + f)%nat. apply (IH y q f); [done..| |done].
    intros z Hz. apply Hlt. by right.
Qed.

Lemma walk_high h bp base l : ∀ x f,
  chain (hmem h) x l base → StronglySorted Z.lt (x :: l) → (∀ y, y ∈ x :: l → bp < y) → base < bp →
  free_walk (S (length l) + f) bp x h = free_walk f bp base h.
Proof.
  induction l as [|y l IH]; intros x f Hc Hs Hlt Hb; cbn [length Nat.add] in *; cbn [free_walk].
  - cbn in Hc. pose proof (Hlt x (list_elem_of_here _ _)) as Hx. unfold sptr.
    rewrite bind_gets. rewrite Hc. rewrite (proj2 (Z.ltb_ge x bp)), (proj2 (Z.ltb_ge bp base)) by lia.
    cbn [orb andb]. by rewrite andb_false_r.
  - destruct Hc as [Hx Hc]. apply StronglySorted_inv in Hs as [Hs Hxy].
    assert (x < y) by (rewrite Forall_forall in Hxy; apply Hxy, list_elem_of_here).
    assert (Hy : bp < x) by apply Hlt, list_elem_of_here. unfold sptr.
    rewrite bind_gets. rewrite Hx.
    rewrite (proj2 (Z.ltb_ge x bp)), (proj2 (Z.leb_gt y x)) by lia. cbn [andb].
    change (S (length l + f)) with (S (length l) + f)%nat. apply (IH y f); [done..| |done].
    intros z Hz. apply Hlt. by right.
Qed.

(** What [free] writes, once the place [p] of the block is found. *)
Definition joins_right (m : memory) (p bp : Z) : bool := bp + 16 * size_at m bp =? ptr_at m p.

Definition joins_left (m : memory) (p bp : Z) : bool := p + 16 * size_at m p =? bp.

Definition size_joined (m : memory) (p bp : Z) : Z :=
  if joins_right m p bp then size_at m bp + size_at m (ptr_at m p) else size_at m bp.

Definition next_joined (m : memory) (p bp : Z) : Z :=
  if joins_right m p bp then ptr_at m (ptr_at m p) else ptr_at m p.

Record freed (m m' : memory) (p bp : Z) (nd : Z → Prop) : Prop := {
  fr_ptr : ∀ y, nd y → ptr_at m' y =
    if decide (y = p) then (if joins_left m p bp then next_joined m p bp else bp)
    else if decide (y = bp) then next_joined m p bp else ptr_at m y;
  fr_size : ∀ y, nd y → size_at m' y =
    if decide (y = p) then (if joins_left m p bp then size_at m p + size_joined m p bp else size_at m p)
    else if decide (y = bp) then size_joined m p bp else size_at m y;
  fr_out : ∀ b, b < bp ∨ bp + 16 ≤ b → b < p ∨ p + 16 ≤ b → mget m' b = mget m b;
}.

Lemma mget_set_size_out m x v b : b < x ∨ x + 16 ≤ b → mget (store32 m (x + 8) v) b = mget m b.
Proof. intros Hb. apply (mget_store_le_out 4). lia. Qed.

Lemma mget_set_ptr_out m x v b : b < x ∨ x + 16 ≤ b → mget (store64 m x v) b = mget m b.
Proof. intros Hb. apply (mget_store_le_out 8). lia. Qed.

Lemma hadd_id p n : 0 ≤ p + 16 * n < 2 ^ 64 → hadd p n = p + 16 * n.
Proof. intros. unfold hadd, HEADER. by apply u64_id. Qed.

Lemma free_effect fuel h (nd : Z → Prop) bp p :
  let m := hmem h in
  free_walk fuel bp (freep h) h = Ok p h →
  (∀ x y, nd x → nd y → far x y) → nd bp → nd p → nd (ptr_at m p) → p ≠ bp → ptr_at m p ≠ bp →
  (joins_right m p bp → ptr_at m p ≠ p) →
  0 ≤ bp → bp + 16 * size_at m bp < 2 ^ 64 → 0 ≤ p → p + 16 * size_at m p < 2 ^ 64 →
  size_joined m p bp < 2 ^ 32 → (joins_left m p bp → size_at m p + size_joined m p bp < 2 ^ 32) →
  bp + 16 < 2 ^ 64 →
  ∃ m', free fuel (bp + 16) h = Ok tt (Heap m' p (os h)) ∧ freed m m' p bp nd.
Proof.
  intros m Hw Hfar Hbp Hp Hq Hne Hqne Hqp H0 H1 H2 H3 H4 H5 H6. unfold free.
  assert (Ebp : hadd (bp + 16) (-1) = bp) by (rewrite hadd_id; lia). rewrite Ebp. clear Ebp.
  rewrite bind_gets. rewrite (bind_ok _ _ _ _ _ Hw).
  unfold ssize, sptr, set_ptr, set_size. rewrite !bind_gets.
  fold m. pose proof (size_at_bound m bp). pose proof (size_at_bound m p). pose proof (ptr_at_bound m p).
  pose proof (size_at_bound m (ptr_at m p)). pose proof (ptr_at_bound m (ptr_at m p)).
  rewrite hadd_id by lia. fold (joins_right m p bp).
  set (n := size_joined m p bp) in *. set (r := next_joined m p bp).
  assert (Hr : 0 ≤ r < 2 ^ 64) by (unfold r, next_joined; destruct (joins_right m p bp); lia).
  assert (Hn : 0 ≤ n < 2 ^ 32) by (subst n; unfold size_joined in *; destruct (joins_right m p bp); lia).
  set (m1 := if joins_right m p bp then store64 (store32 m (bp + 8) n) bp r else store64 m bp r).
  rewrite (bind_ok _ _ h tt (Heap m1 (freep h) (os h))).
  2:{ unfold m1, n, r, size_joined, next_joined in *. destruct (joins_right m p bp) eqn:E; [|done].
      cbv beta delta [bind gets modify] iota. cbn [hmem freep os setter]. fold m.
      rewrite u32_id by lia. rewrite ptr_set_size by (by apply Hfar). done. }
  assert (Hp1 : ∀ y, nd y → ptr_at m1 y = if decide (y = bp) then r else ptr_at m y).
  { intros y Hy. unfold m1. destruct (joins_right m p bp); rewrite ptr_set_ptr by (try apply Hfar; done || lia); [|done].
    by rewrite ptr_set_size by (by apply Hfar). }
  assert (Hs1 : ∀ y, nd y → size_at m1 y = if decide (y = bp) then n else size_at m y).
  { intros y Hy. unfold m1. destruct (joins_right m p bp) eqn:E; rewrite size_set_ptr by (by apply Hfar).
    - rewrite size_set_size by (try apply Hfar; done || lia). done.
    - unfold n, size_joined. rewrite E. by destruct (decide _) as [->|]. }
  rewrite bind_gets. cbn [hmem].
  rewrite (Hs1 p Hp), decide_False by done. rewrite hadd_id by lia. fold (joins_left m p bp).
  set (m2 := if joins_left m p bp then store64 (store32 m1 (p + 8) (size_at m p + n)) p r else store64 m1 p bp).
  rewrite (bind_ok _ _ _ tt (Heap m2 (freep h) (os h))).
  2:{ unfold m2. destruct (joins_left m p bp) eqn:E; [|done].
      cbv beta delta [bind gets modify] iota. cbn [hmem freep os setter].
      rewrite (Hs1 bp Hbp), decide_True by done. rewrite u32_id by (specialize (H5 I); lia).
      rewrite ptr_set_size by (by apply Hfar). rewrite (Hp1 bp Hbp), decide_True by done. done. }
  exists m2. split; [done|]. fold m. split.
  - intros y Hy. unfold m2. fold r. destruct (joins_left m p bp); rewrite ptr_set_ptr by (try apply Hfar; done || lia);
      destruct (decide (y = p)); try done; rewrite ?ptr_set_size by (by apply Hfar); by apply Hp1.
  - intros y Hy. unfold m2. fold n. destruct (joins_left m p bp) eqn:E; rewrite size_set_ptr by (by apply Hfar).
    + rewrite size_set_size by (try apply Hfar; try done; specialize (H5 I); lia).
      destruct (decide (y = p)); [done|]. by apply Hs1.
    + rewrite Hs1 by done. destruct (decide (y = p)) as [->|]; [by rewrite decide_False|done].
  - intros b Hb1 Hb2. unfold m2, m1.
    destruct (joins_left m p bp), (joins_right m p bp); rewrite ?mget_set_ptr_out, ?mget_set_size_out by done;
      rewrite ?mget_set_ptr_out, ?mget_set_size_out by done; done.
Qed.

End Walk.

Section Free.

Context {W : Type} (base lo : Z).
Implicit Types h : heap W.

(** The walk ends at the free block before [bp], wherever it starts. *)
Lemma walk_ok fuel hi h l1 l2 al bp :
  heap_ok base lo hi h (l1 ++ l2) al → base < bp → (∀ y, y ∈ l1 → y.1 < bp) → (∀ y, y ∈ l2 → bp < y.1) →
  (length (l1 ++ l2) + 2 ≤ fuel)%nat →
  free_walk fuel bp (freep h) h = Ok (final base l1.*1) h.
Proof.
  intros Hok Hb H1 H2 Hf. pose proof (lk_chain _ _ _ _ (hk_linked _ _ _ _ _ _ Hok)) as Hc.
  pose proof (ring_sorted _ _ _ _ _ _ Hok) as Hs. rewrite fmap_app in Hc, Hs.
  apply chain_glue in Hc as [Hc1 Hc2]. set (q := List.hd base l2.*1) in *.
  assert (Hlow : ∀ y, y ∈ base :: l1.*1 → y < bp).
  { intros y Hy. apply elem_of_cons in Hy as [->|Hy]; [done|]. apply list_elem_of_fmap in Hy as (x & -> & Hx). by apply H1. }
  assert (Hq : bp < q ∨ q ≤ final base l1.*1).
  { subst q. destruct l2 as [|x l2]; cbn.
    - right. pose proof (final_in base l1.*1) as Hin. apply elem_of_cons in Hin as [->|Hin]; [done|].
      apply StronglySorted_inv in Hs as [_ Hs]. rewrite Forall_forall in Hs.
      assert (base < final base l1.*1); [|lia]. apply Hs. cbn. rewrite app_nil_r. done.
    - left. apply H2, list_elem_of_here. }
  assert (Hlo : ∀ f y, y ∈ base :: l1.*1 → (length l1 + 1 ≤ f)%nat → free_walk f bp y h = Ok (final base l1.*1) h).
  { intros f y Hy Hlen. apply list_elem_of_split in Hy as (k1 & k2 & E).
    destruct (chain_from _ _ _ _ _ _ _ Hc1 E) as [Hc Hfin]. rewrite <- Hfin.
    assert (Hk : (length k2 ≤ length l1)%nat).
    { apply (f_equal length) in E. rewrite length_app in E. cbn in E. rewrite length_fmap in E. lia. }
    replace f with (S (length k2) + (f - S (length k2)))%nat by lia. eapply walk_low; [exact Hc|..|by rewrite Hfin].
    - change (base :: l1.*1 ++ l2.*1) with ((base :: l1.*1) ++ l2.*1) in Hs. rewrite E, <- app_assoc in Hs.
      apply StronglySorted_app_1_r in Hs. exact (StronglySorted_app_1_l _ (y :: k2) l2.*1 Hs).
    - intros z Hz. apply Hlow. rewrite E. apply elem_of_app. by right. }
  pose proof (hk_freep _ _ _ _ _ _ Hok) as Hin. rewrite fmap_app in Hin.
  change (base :: l1.*1 ++ l2.*1) with ((base :: l1.*1) ++ l2.*1) in Hin. rewrite length_app in Hf.
  apply elem_of_app in Hin as [Hin|Hin]; [apply Hlo; [done|lia]|].
  apply list_elem_of_split in Hin as (k1 & k2 & E).
  assert (Hk : (S (length k2) ≤ length l2)%nat).
  { apply (f_equal length) in E. rewrite length_app in E. cbn in E. rewrite length_fmap in E. lia. }
  replace fuel with (S (length k2) + (fuel - S (length k2)))%nat by lia.
  rewrite (walk_high h bp base); [apply Hlo; [apply list_elem_of_here|lia]|..|done].
  - destruct l2 as [|x l2]; [by destruct k1|]. exact (proj1 (chain_from _ _ _ _ _ _ _ Hc2 E)).
  - change (base :: l1.*1 ++ l2.*1) with ((base :: l1.*1) ++ l2.*1) in Hs. apply StronglySorted_app_1_r in Hs.
    rewrite E in Hs. by apply StronglySorted_app_1_r in Hs.
  - intros z Hz. assert (Hz' : z ∈ l2.*1) by (rewrite E; apply elem_of_app; by right).
    apply list_elem_of_fmap in Hz' as (x & -> & Hx). by apply H2.
Qed.

(** The block above is joined, or not: what the memory says and what the layout
    becomes. *)
Lemma join_right hi h l1 l2 al bp n :
  heap_ok base lo hi h (l1 ++ l2) al → al !! bp = Some n → (∀ y, y ∈ l1 → y.1 < bp) → (∀ y, y ∈ l2 → bp < y.1) →
  let m := hmem h in let p := final base l1.*1 in let n' := size_joined m p bp in
  ∃ r, layout lo hi (l1 ++ (bp, n') :: r) (delete bp al) ∧ next_joined m p bp = List.hd base r.*1
    ∧ tail_chain m r.*1 base ∧ (∀ y, y ∈ r → y ∈ l2) ∧ n ≤ n' ∧ (∀ b t, (b, t) ∈ r → bp + 16 * n' ≠ b).
Proof.
  intros Hok Hbp H1 H2 m p n'. pose proof (hk_layout _ _ _ _ _ _ Hok) as HL. pose proof (hk_linked _ _ _ _ _ _ Hok) as HK.
  pose proof (lk_chain _ _ _ _ HK) as Hc. rewrite fmap_app in Hc. apply chain_glue in Hc as [Hc1 Hc2].
  apply chain_final in Hc1. fold p in Hc1. fold m in Hc1, Hc2.
  pose proof (layout_free lo hi l1 l2 al bp n HL Hbp H1 H2) as HF.
  assert (En : size_at m bp = n) by (apply (lk_size _ _ _ _ HK); by right).
  pose proof (owned_bounds _ _ _ _ _ _ Hok bp n (or_intror Hbp)) as Hbb.
  unfold n', size_joined, next_joined, joins_right. rewrite Hc1, En.
  destruct l2 as [|[q nq] l2]; cbn [List.hd fmap list_fmap fst] in *.
  - exists []. destruct (Z.eqb_spec (bp + 16 * n) base); [lia|]. split_and!; try done. intros b t H. by apply not_elem_of_nil in H.
  - assert (Hq : owned (l1 ++ (q, nq) :: l2) al q nq) by (left; apply elem_of_app; right; apply list_elem_of_here).
    pose proof (owned_bounds _ _ _ _ _ _ Hok _ _ Hq) as Hqb.
    assert (Hqs : size_at m q = nq) by by apply (lk_size _ _ _ _ HK).
    destruct (Z.eqb_spec (bp + 16 * n) q) as [<-|Hne].
    + exists l2. rewrite Hqs. split_and!.
      * by apply layout_merge.
      * destruct l2 as [|y l2]; cbn in Hc2 |- *; [done|apply Hc2].
      * destruct l2 as [|y l2]; cbn in Hc2 |- *; [done|apply Hc2].
      * intros y Hy. by right.
      * lia.
      * intros b t Hb. replace (bp + 16 * (n + nq)) with (bp + 16 * n + 16 * nq) by lia.
        apply (hk_coalesced _ _ _ _ _ _ Hok _ _ b t); apply elem_of_app; right; [apply list_elem_of_here|by right].
    + exists ((q, nq) :: l2). split_and!; try done. intros b t Hb E.
      assert (Hq' : (q, nq) ∈ l1 ++ (bp, n) :: (q, nq) :: l2) by (apply elem_of_app; right; right; apply list_elem_of_here).
      assert (Hbp' : (bp, n) ∈ l1 ++ (bp, n) :: (q, nq) :: l2) by (apply elem_of_app; right; apply list_elem_of_here).
      pose proof (H2 (q, nq) (list_elem_of_here _ _)). cbn in *.
      pose proof (ly_apart _ _ _ _ HF _ _ _ _ (or_introl Hbp') (or_introl Hq') ltac:(lia)).
      apply elem_of_cons in Hb as [Hb|Hb]; [injection Hb as -> ->; lia|].
      pose proof (ly_sorted _ _ _ _ HL) as (_ & _ & Hr)%sorted_app_cons. apply Hr in Hb. cbn in Hb. lia.
Qed.

(** The final list, whether the block below is joined or not. *)
Definition joined (m : memory) (l1 : list block) (p bp n : Z) (r : list block) (fl : list block) : Prop :=
  if joins_left m p bp then ∃ l0 s, l1 = l0 ++ [(p, s)] ∧ p + 16 * s = bp ∧ fl = l0 ++ (p, s + n) :: r
  else fl = l1 ++ (bp, n) :: r.

Lemma final_fst (x : Z) (l : list block) : l = [] ∧ final x l.*1 = x ∨ ∃ l0 s, l = l0 ++ [(final x l.*1, s)].
Proof.
  destruct l as [|[a s] l _] using rev_ind; [by left|right]. exists l, s. rewrite fmap_app. cbn. by rewrite final_app.
Qed.

Lemma join_left hi h l1 l2 al bp n r :
  heap_ok base lo hi h (l1 ++ l2) al → base < bp → layout lo hi (l1 ++ (bp, n) :: r) (delete bp al) →
  let m := hmem h in let p := final base l1.*1 in
  ∃ fl, joined m l1 p bp n r fl ∧ layout lo hi fl (delete bp al).
Proof.
  intros Hok Hb HL m p. unfold joined. destruct (joins_left m p bp) eqn:E; [|by eexists].
  apply Z.eqb_eq in E. destruct (final_fst base l1) as [[-> Hp]|(l0 & s & El)].
  - exfalso. change p with base in E. pose proof (lk_base _ _ _ _ (hk_linked _ _ _ _ _ _ Hok)) as H0. fold m in H0. lia.
  - fold p in El. assert (Hs : size_at m p = s).
    { apply (lk_size _ _ _ _ (hk_linked _ _ _ _ _ _ Hok)). left. rewrite El, <- app_assoc. apply elem_of_app. right. apply list_elem_of_here. }
    rewrite Hs in E. exists (l0 ++ (p, s + n) :: r). split; [by exists l0, s|]. apply layout_merge.
    rewrite El, <- app_assoc in HL. by rewrite E.
Qed.

Section After.

Context (hi : Z) (h : heap W) (l1 l2 : list block) (al : gmap Z Z) (bp n : Z) (r fl : list block) (m' : memory).
Let m := hmem h.
Let p := final base l1.*1.
Let n' := size_joined m p bp.
Hypothesis (Hok : heap_ok base lo hi h (l1 ++ l2) al).
Hypothesis (Hbp : al !! bp = Some n).
Hypothesis (H1 : ∀ y, y ∈ l1 → y.1 < bp).
Hypothesis (H2 : ∀ y, y ∈ l2 → bp < y.1).
Hypothesis (Hr : ∀ y, y ∈ r → y ∈ l2).
Hypothesis (Hnext : next_joined m p bp = List.hd base r.*1).
Hypothesis (Htail : tail_chain m r.*1 base).
Hypothesis (Hgap : ∀ b t, (b, t) ∈ r → bp + 16 * n' ≠ b).
Hypothesis (Hj : joined m l1 p bp n' r fl).
Hypothesis (HL : layout lo hi fl (delete bp al)).
Hypothesis (Hfr : freed m m' p bp (node base (l1 ++ l2) al)).

Lemma base_below : base < bp.
Proof. pose proof (owned_bounds _ _ _ _ _ _ Hok bp n (or_intror Hbp)). lia. Qed.

Lemma low_below y : y ∈ base :: l1.*1 → y < bp ∧ node base (l1 ++ l2) al y.
Proof.
  intros Hy. split.
  - apply elem_of_cons in Hy as [->|Hy]; [apply base_below|]. apply list_elem_of_fmap in Hy as (x & -> & Hx). by apply H1.
  - apply (ring_node base), elem_of_cons. rewrite fmap_app, elem_of_app. apply elem_of_cons in Hy. tauto.
Qed.

Lemma high_above y : y ∈ r.*1 → bp < y ∧ node base (l1 ++ l2) al y.
Proof.
  intros Hy. apply list_elem_of_fmap in Hy as ([a s] & -> & Hx). apply Hr in Hx. split; [by apply H2|].
  right. exists s. left. apply elem_of_app. by right.
Qed.

Lemma after_chain : chain m' base fl.*1 base.
Proof.
  pose proof (lk_chain _ _ _ _ (hk_linked _ _ _ _ _ _ Hok)) as Hc. rewrite fmap_app in Hc. apply chain_glue in Hc as [Hc _].
  assert (Hp : p < bp ∧ node base (l1 ++ l2) al p) by apply low_below, final_in.
  assert (Hlow : chain m' base l1.*1 (if joins_left m p bp then List.hd base r.*1 else bp)).
  { eapply chain_relink; [exact Hc|..].
    - pose proof (ring_sorted _ _ _ _ _ _ Hok) as Hs. rewrite fmap_app in Hs.
      apply sorted_NoDup. exact (StronglySorted_app_1_l _ (base :: l1.*1) _ Hs).
    - intros y Hy Hne. destruct (low_below y Hy) as [Hlt Hnd]. rewrite (fr_ptr _ _ _ _ _ Hfr y Hnd).
      by rewrite decide_False, decide_False by (done || lia).
    - fold p. rewrite (fr_ptr _ _ _ _ _ Hfr) by apply Hp. rewrite decide_True by done. by rewrite Hnext. }
  assert (Hhigh : tail_chain m' r.*1 base).
  { eapply tail_chain_ext; [exact Htail|]. intros y Hy.
    destruct (high_above y Hy) as [Hlt Hnd]. rewrite (fr_ptr _ _ _ _ _ Hfr y Hnd). by rewrite !decide_False by lia. }
  unfold joined in Hj. destruct (joins_left m p bp).
  - destruct Hj as (l0 & s & El & _ & ->). rewrite El in Hlow. rewrite fmap_app in Hlow. rewrite fmap_app. cbn in *.
    change (l0.*1 ++ p :: r.*1) with (l0.*1 ++ [p] ++ r.*1). rewrite app_assoc. by apply chain_glue.
  - rewrite Hj, fmap_app. cbn. apply chain_app. split; [done|]. apply (chain_glue _ _ []). split; [|done]. cbn.
    rewrite (fr_ptr _ _ _ _ _ Hfr) by (right; exists n; by right). by rewrite decide_False, decide_True by (done || lia).
Qed.

Lemma after_linked : linked base m' fl (delete bp al).
Proof.
  pose proof (hk_linked _ _ _ _ _ _ Hok) as [_ Hb Hsz]. fold m in Hb, Hsz.
  assert (Hp : p < bp ∧ node base (l1 ++ l2) al p) by apply low_below, final_in.
  split; [apply after_chain|..].
  - rewrite (fr_size _ _ _ _ _ Hfr) by (by left). pose proof base_below.
    destruct (decide (base = p)) as [E|]; [|by rewrite decide_False by lia].
    destruct (joins_left m p bp) eqn:El; [|by rewrite <- E]. apply Z.eqb_eq in El. rewrite <- E, Hb in El. lia.
  - assert (Hold : ∀ a s, owned (l1 ++ l2) al a s → a ≠ p → a ≠ bp → size_at m' a = s).
    { intros a s Ha Hne Hne'. rewrite (fr_size _ _ _ _ _ Hfr) by (right; by exists s).
      rewrite !decide_False by done. by apply Hsz. }
    assert (Hal : ∀ a s, delete bp al !! a = Some s → size_at m' a = s).
    { intros a s Ha. apply lookup_delete_Some in Ha as [Hne Ha]. apply Hold; [by right| |done]. intros ->.
      destruct Hp as [_ [Hpb|[t [Hp|Hp]]]].
      - pose proof (owned_bounds _ _ _ _ _ _ Hok p s (or_intror Ha)). lia.
      - by rewrite (ly_sep _ _ _ _ (hk_layout _ _ _ _ _ _ Hok) _ _ Hp) in Ha.
      - destruct (final_fst base l1) as [[_ Hpb]|(l0 & s' & El)].
        + pose proof (owned_bounds _ _ _ _ _ _ Hok p s (or_intror Ha)). unfold p in *. lia.
        + fold p in El. rewrite (ly_sep _ _ _ _ (hk_layout _ _ _ _ _ _ Hok) p s') in Ha; [done|].
          rewrite El, <- app_assoc. apply elem_of_app. right. apply list_elem_of_here. }
    assert (Hhi : ∀ a s, (a, s) ∈ r → size_at m' a = s).
    { intros a s Ha. destruct (high_above a) as [Hlt _]; [apply list_elem_of_fmap; by exists (a, s)|].
      apply Hold; [left; apply elem_of_app; right; by apply Hr|lia..]. }
    intros a s [Ha|Ha]; [|by apply Hal]. unfold joined in Hj. destruct (joins_left m p bp) eqn:Ej.
    + destruct Hj as (l0 & t & El & Et & Efl). rewrite Efl in Ha. rewrite elem_of_app, elem_of_cons in Ha. destruct Ha as [Ha|[E|Ha]].
      * pose proof (ly_sorted _ _ _ _ (hk_layout _ _ _ _ _ _ Hok)) as Hs. rewrite El, <- app_assoc in Hs. cbn in Hs.
        apply sorted_app_cons in Hs as (_ & Hs & _). pose proof (Hs _ Ha). cbn in *.
        apply Hold; [|lia..]. left. rewrite El, <- app_assoc. apply elem_of_app. by left.
      * injection E as -> ->. rewrite (fr_size _ _ _ _ _ Hfr) by apply Hp. rewrite decide_True, Ej by done. f_equal.
        apply Hsz. left. rewrite El, <- app_assoc. apply elem_of_app. right. apply list_elem_of_here.
      * by apply Hhi.
    + rewrite Hj in Ha. rewrite elem_of_app, elem_of_cons in Ha. destruct Ha as [Ha|[E|Ha]]; [| |by apply Hhi].
      * assert (Ho : owned (l1 ++ l2) al a s) by (left; apply elem_of_app; by left). pose proof (H1 _ Ha).
        destruct (decide (a = p)) as [->|]; [|apply Hold; [done..|cbn in *; lia]].
        rewrite (fr_size _ _ _ _ _ Hfr) by apply Hp. rewrite decide_True, Ej by done. by apply Hsz.
      * injection E as -> ->. rewrite (fr_size _ _ _ _ _ Hfr) by (right; exists n; by right).
        by rewrite decide_False, decide_True by (done || lia).
Qed.

Lemma after_coalesced : coalesced fl.
Proof.
  assert (Hp : p < bp) by apply low_below, final_in. pose proof (hk_coalesced _ _ _ _ _ _ Hok) as Hco.
  assert (Hold : ∀ y, y ∈ l1 ∨ y ∈ r → y ∈ l1 ++ l2) by (intros y [Hy|Hy]; apply elem_of_app; [by left|right; by apply Hr]).
  assert (Hhi : ∀ a s, (a, s) ∈ r → bp < a) by (intros a s Ha; apply (H2 (a, s)); by apply Hr).
  assert (Hpos : ∀ a s, (a, s) ∈ fl → 0 < s) by (intros a s Ha; by apply (ly_in _ _ _ _ HL a s (or_introl Ha))).
  intros a s b t Ha Hb. pose proof (Hpos _ _ Ha) as Has. pose proof (Hpos _ _ Hb) as Hbt.
  unfold joined in Hj. destruct (joins_left m p bp) eqn:Ej.
  - destruct Hj as (l0 & u & El & Eu & Efl). rewrite Efl in Ha, Hb.
    assert (Hl0 : ∀ c v, (c, v) ∈ l0 → c < p ∧ (c, v) ∈ l1).
    { intros c v Hc. split; [|rewrite El; apply elem_of_app; by left].
      pose proof (ly_sorted _ _ _ _ HL) as Hs. rewrite Efl in Hs. apply sorted_app_cons in Hs as (_ & Hs & _). by apply Hs in Hc. }
    assert (Hpl : (p, u) ∈ l1) by (rewrite El; apply elem_of_app; right; apply list_elem_of_here).
    rewrite elem_of_app, elem_of_cons in Ha, Hb.
    destruct Ha as [Ha|[E|Ha]]; [| injection E as -> -> |]; (destruct Hb as [Hb|[E'|Hb]]; [|injection E' as -> -> |]).
    + apply (Hco _ _ b t); apply Hold; left; [by apply Hl0|by apply Hl0].
    + apply (Hco _ _ p u); apply Hold; left; [by apply Hl0|done].
    + apply (Hco _ _ b t); apply Hold; [left; by apply Hl0|by right].
    + apply Hl0 in Hb. lia.
    + lia.
    + pose proof (Hgap _ _ Hb). lia.
    + apply Hhi in Ha. apply Hl0 in Hb. lia.
    + apply Hhi in Ha. lia.
    + apply (Hco _ _ b t); apply Hold; by right.
  - rewrite Hj in Ha, Hb. rewrite elem_of_app, elem_of_cons in Ha, Hb.
    destruct Ha as [Ha|[E|Ha]]; [| injection E as -> -> |]; (destruct Hb as [Hb|[E'|Hb]]; [|injection E' as -> -> |]).
    + apply (Hco _ _ b t); apply Hold; by left.
    + destruct (final_fst base l1) as [[E _]|(l0 & u & El)]; [rewrite E in Ha; by apply not_elem_of_nil in Ha|].
      fold p in El. assert (Hpl : (p, u) ∈ l1 ++ l2).
      { apply Hold. left. rewrite El. apply elem_of_app. right. apply list_elem_of_here. }
      destruct (decide (a = p)) as [->|Hne].
      * apply Z.eqb_neq in Ej. assert (size_at m p = s); [|lia].
        apply (lk_size _ _ _ _ (hk_linked _ _ _ _ _ _ Hok)). left. apply Hold. by left.
      * pose proof (ly_apart _ _ _ _ (hk_layout _ _ _ _ _ _ Hok) a s p u (or_introl (Hold _ (or_introl Ha))) (or_introl Hpl) Hne).
        pose proof (owned_bounds _ _ _ _ _ _ Hok p u (or_introl Hpl)). pose proof (H1 _ Ha). cbn in *.
        rewrite El in Ha. apply elem_of_app in Ha as [Ha|Ha]; [|apply list_elem_of_singleton in Ha; by injection Ha as -> ->].
        pose proof (ly_sorted _ _ _ _ (hk_layout _ _ _ _ _ _ Hok)) as Hs. rewrite El, <- app_assoc in Hs.
        apply sorted_app_cons in Hs as (_ & Hs & _). apply Hs in Ha. cbn in Ha. lia.
    + apply (Hco _ _ b t); apply Hold; [by left|by right].
    + apply H1 in Hb. cbn in Hb. lia.
    + lia.
    + by apply (Hgap _ t).
    + apply Hhi in Ha. apply H1 in Hb. cbn in Hb. lia.
    + apply Hhi in Ha. lia.
    + apply (Hco _ _ b t); apply Hold; by right.
Qed.

End After.

(** What the blocks in [al] hold is unchanged. *)
Definition payload_kept (al : gmap Z Z) (m m' : memory) : Prop :=
  ∀ a s b, al !! a = Some s → a + 16 ≤ b < a + 16 * s → mget m' b = mget m b.

(** [free] returns the block [bp] to the free list and joins it with its free
    neighbours. *)
Lemma free_ok fuel hi h fl al bp n :
  heap_ok base lo hi h fl al → al !! bp = Some n → (length fl + 2 ≤ fuel)%nat →
  returns (free fuel (bp + 16)) h (λ _ h', ∃ fl', heap_ok base lo hi h' fl' (delete bp al) ∧ os h' = os h
    ∧ payload_kept (delete bp al) (hmem h) (hmem h') ∧ ∃ a s, (a, s) ∈ fl' ∧ n ≤ s).
Proof.
  intros Hok Hbp Hf. assert (Hnf : bp ∉ fl.*1).
  { intros Hin. apply list_elem_of_fmap in Hin as ([a s] & E & Ha). cbn in E. subst a.
    by rewrite (ly_sep _ _ _ _ (hk_layout _ _ _ _ _ _ Hok) _ _ Ha) in Hbp. }
  destruct (ring_split bp fl (ly_sorted _ _ _ _ (hk_layout _ _ _ _ _ _ Hok)) Hnf) as (l1 & l2 & -> & H1 & H2).
  pose proof (base_below _ _ _ _ _ _ _ Hok Hbp) as Hbase. set (p := final base l1.*1).
  destruct (low_below _ _ _ _ _ _ _ Hok Hbp H1 p (final_in _ _)) as [Hp Hpn].
  destruct (join_right _ _ _ _ _ _ _ Hok Hbp H1 H2) as (r & HLr & Hnext & Htail & Hr & Hn & Hgap).
  fold p in HLr, Hnext, Hn, Hgap. set (n' := size_joined (hmem h) p bp) in *.
  destruct (join_left _ _ _ _ _ _ _ _ Hok Hbase HLr) as (fl' & Hj & HL). fold p in Hj.
  pose proof (walk_ok fuel _ _ _ _ _ _ Hok Hbase H1 H2 Hf) as Hw. fold p in Hw.
  pose proof (owned_bounds _ _ _ _ _ _ Hok bp n (or_intror Hbp)) as Hbb.
  assert (En : size_at (hmem h) bp = n) by (apply (lk_size _ _ _ _ (hk_linked _ _ _ _ _ _ Hok)); by right).
  assert (Hmid : owned (l1 ++ (bp, n') :: r) (delete bp al) bp n') by (left; apply elem_of_app; right; apply list_elem_of_here).
  pose proof (ly_in _ _ _ _ HLr _ _ Hmid) as Hmb.
  assert (Hq : ptr_at (hmem h) p ∈ base :: l2.*1).
  { pose proof (lk_chain _ _ _ _ (hk_linked _ _ _ _ _ _ Hok)) as Hc. rewrite fmap_app in Hc. apply chain_glue in Hc as [Hc _].
    apply chain_final in Hc. fold p in Hc. rewrite Hc. destruct l2; [apply list_elem_of_here|right; apply list_elem_of_here]. }
  assert (Hqn : node base (l1 ++ l2) al (ptr_at (hmem h) p)).
  { apply ring_node, elem_of_cons. rewrite fmap_app, elem_of_app. apply elem_of_cons in Hq. tauto. }
  assert (Hqb : ptr_at (hmem h) p ≠ bp).
  { apply elem_of_cons in Hq as [->|Hq]; [lia|]. apply list_elem_of_fmap in Hq as (y & -> & Hy). apply H2 in Hy. lia. }
  assert (Hps : p + 16 * size_at (hmem h) p ≤ bp ∨ p = base ∧ size_at (hmem h) p = 0).
  { destruct Hpn as [->|[s Hs]]; [right; split; [done|]; apply (hk_linked _ _ _ _ _ _ Hok)|left].
    rewrite (lk_size _ _ _ _ (hk_linked _ _ _ _ _ _ Hok) _ _ Hs).
    destruct (ly_apart _ _ _ _ (hk_layout _ _ _ _ _ _ Hok) _ _ _ _ Hs (or_intror Hbp)); lia. }
  assert (Hbig : ∃ a s, (a, s) ∈ fl' ∧ n' ≤ s ∧ (joins_left (hmem h) p bp → s = size_at (hmem h) p + n')).
  { unfold joined in Hj. destruct (joins_left (hmem h) p bp) eqn:E.
    - destruct Hj as (l0 & s & El & Es & ->). apply Z.eqb_eq in E. pose proof (size_at_bound (hmem h) p).
      exists p, (s + n'). split_and!; [apply elem_of_app; right; apply list_elem_of_here|lia|lia].
    - rewrite Hj. exists bp, n'. split_and!; [apply elem_of_app; right; apply list_elem_of_here|lia|done]. }
  destruct Hbig as (a & s & Has & Hsn & Hsj). pose proof (ly_in _ _ _ _ HL _ _ (or_introl Has)) as Hab.
  pose proof (node_pos _ _ _ _ _ _ Hok _ Hpn) as Hp0.
  destruct (free_effect fuel h (node base (l1 ++ l2) al) bp p Hw) as (m' & E & Hfr); try (done || lia).
  - by apply (node_far base lo hi h).
  - right. exists n. by right.
  - intros Hrt. apply Is_true_true, Z.eqb_eq in Hrt. lia.
  - exists tt, (Heap m' p (os h)). split; [done|]. exists fl'. split_and!; [|done| |exists a, s; split; [done|lia]].
    + split; cbn [hmem freep os].
      * done.
      * by eapply (after_coalesced hi h l1 l2 al bp n r fl').
      * by eapply (after_linked hi h l1 l2 al bp n r fl').
      * unfold joined in Hj. destruct (joins_left (hmem h) p bp).
        -- destruct Hj as (l0 & u & _ & _ & ->). rewrite fmap_app. right. apply elem_of_app. right. apply list_elem_of_here.
        -- rewrite Hj, fmap_app. pose proof (final_in base l1.*1) as Hin. apply elem_of_cons. apply elem_of_cons in Hin.
           rewrite elem_of_app. tauto.
      * apply Hok.
      * apply Hok.
    + intros c t b [Hne Hc]%lookup_delete_Some Hb. cbn [hmem].
      pose proof (owned_bounds _ _ _ _ _ _ Hok c t (or_intror Hc)) as Hcb.
      pose proof (ly_apart _ _ _ _ (hk_layout _ _ _ _ _ _ Hok) _ _ _ _ (or_intror Hc) (or_intror Hbp) (not_eq_sym Hne)).
      apply (fr_out _ _ _ _ _ Hfr); [lia|]. apply (ring_header_out base lo hi h (l1 ++ l2) al Hok p c t b); [|done..].
      rewrite fmap_app. change (base :: l1.*1 ++ l2.*1) with ((base :: l1.*1) ++ l2.*1). apply elem_of_app. left. apply final_in.
Qed.

End Free.
