(* ===== verification/UmallocSpec.v ===== *)
(** [malloc] and [free] as a client sees them. *)

From stdpp Require Import sorting.
From S2P Require Import Prelude Machine Umalloc UmallocHeap UmallocFree.

(** What [sys_sbrk] and [growproc] promise: the break moves up by [n] and its old
    value is returned, or nothing happens. *)
Class SbrkOk (W : Type) `{SB : Sbrk W} := {
  brk : W → Z;
  sbrk_grows : ∀ n o, 0 < n < 2 ^ 31 →
    let '(r, o') := sbrk n o in
    r = SBRK_ERROR ∧ brk o' = brk o ∨ r = brk o ∧ brk o' = brk o + n ∧ brk o' ≤ 2 ^ 36;
}.

Section Malloc.

Context {W : Type} {SB : Sbrk W} {SK : SbrkOk W} (base lo : Z).
Implicit Types h : heap W.

(** The ring as seen from any of its nodes. *)
Lemma rotate m (fl : list block) x :
  chain m base fl.*1 base → NoDup (base :: fl.*1) → x ∈ base :: fl.*1 →
  ∃ l, chain m x l x ∧ (∀ y, y ∈ l ++ [x] ↔ y ∈ base :: fl.*1) ∧ x ∉ l ∧ length l = length fl.
Proof.
  intros Hc Hnd Hx. apply list_elem_of_split in Hx as (k1 & k2 & E). rewrite <- (length_fmap fst fl).
  destruct k1 as [|b k1]; cbn in E; injection E as -> E.
  - exists fl.*1. apply NoDup_cons in Hnd as [Hnd _]. split_and!; [done| |done|done].
    intros y. rewrite elem_of_app, list_elem_of_singleton, elem_of_cons. tauto.
  - rewrite E in *. apply chain_app in Hc as [Hc1 Hc2]. exists (k2 ++ b :: k1). split_and!.
    + by apply chain_app.
    + intros y. rewrite !elem_of_app, !elem_of_cons, elem_of_app, elem_of_cons, elem_of_nil. tauto.
    + change (b :: k1 ++ x :: k2) with ((b :: k1) ++ x :: k2) in Hnd. apply NoDup_app in Hnd as (_ & H1 & H2).
      apply NoDup_cons in H2 as [H2 _]. intros Hin. apply elem_of_app in Hin as [|Hin]; [done|].
      apply (H1 x Hin), list_elem_of_here.
    + rewrite !length_app. cbn. lia.
Qed.

(** Taking a block of the ring: whole, unlinked from [prevp], or its tail. *)
Lemma take_whole hi h l1 l2 al n prevp p :
  heap_ok base lo hi h (l1 ++ (p, n) :: l2) al → prevp ∈ base :: (l1 ++ (p, n) :: l2).*1 → ptr_at (hmem h) prevp = p →
  let h' := Heap (store64 (hmem h) prevp (ptr_at (hmem h) p)) prevp (os h) in
  heap_ok base lo hi h' (l1 ++ l2) (<[p := n]> al) ∧ payload_kept al (hmem h) (hmem h').
Proof.
  intros Hok Hprev Hlink h'. set (fl := l1 ++ (p, n) :: l2) in *. pose proof (hk_linked _ _ _ _ _ _ Hok) as [Hc Hb Hsz].
  pose proof (ring_sorted _ _ _ _ _ _ Hok) as Hs. pose proof (sorted_NoDup _ Hs) as Hnd.
  assert (Hc' := Hc). unfold fl in Hc'. rewrite fmap_app in Hc'. apply chain_app in Hc' as [Hc1 Hc2].
  change (chain (hmem h) p l2.*1 base) in Hc2.
  assert (Hfin : final base l1.*1 ∈ base :: fl.*1).
  { unfold fl. rewrite fmap_app. change (base :: l1.*1 ++ ((p, n) :: l2).*1) with ((base :: l1.*1) ++ ((p, n) :: l2).*1).
    apply elem_of_app. left. apply final_in. }
  assert (Hpv : prevp = final base l1.*1).
  { eapply (chain_inj (hmem h) base fl.*1 base); [done| |done|done|].
    - rewrite <- Permutation_cons_append. done.
    - rewrite Hlink. symmetry. by apply chain_final. }
  pose proof (node_far _ _ _ _ _ _ Hok) as Hfar. pose proof (ring_node base fl al) as Hrn.
  assert (Hpn : node base fl al prevp) by by apply Hrn.
  assert (Hlow : ∀ y, y ∈ base :: l1.*1 → y ∈ base :: fl.*1).
  { intros y Hy. unfold fl. rewrite fmap_app, elem_of_cons, elem_of_app. apply elem_of_cons in Hy. tauto. }
  assert (Hhigh : ∀ y, y ∈ l2.*1 → y ∈ fl.*1).
  { intros y Hy. unfold fl. rewrite fmap_app, elem_of_app. right. by right. }
  assert (Hnd' := Hnd). unfold fl in Hnd'. rewrite fmap_app in Hnd'.
  change (base :: l1.*1 ++ ((p, n) :: l2).*1) with ((base :: l1.*1) ++ p :: l2.*1) in Hnd'.
  apply NoDup_app in Hnd' as (Hnd1 & Hdis & Hnd2).
  assert (Hown : ∀ a s, owned (l1 ++ l2) (<[p := n]> al) a s → owned fl al a s).
  { assert (al !! p = None).
    { apply (ly_sep _ _ _ _ (hk_layout _ _ _ _ _ _ Hok) p n). apply elem_of_app. right. apply list_elem_of_here. }
    intros a s Ha. apply owned_move in Ha; [|by left]. by rewrite delete_id in Ha. }
  pose proof (ptr_at_bound (hmem h) p). split; [split|].
  - apply layout_take, Hok.
  - intros a s b t Ha Hb'. apply (hk_coalesced _ _ _ _ _ _ Hok _ _ b t); unfold fl; apply elem_of_app.
    + apply elem_of_app in Ha as []; [by left|right; by right].
    + apply elem_of_app in Hb' as []; [by left|right; by right].
  - split; cbn [hmem h'].
    + rewrite fmap_app. apply chain_glue. split.
      * eapply chain_relink; [exact Hc1|done|..].
        -- intros y Hy Hne. rewrite ptr_set_ptr; [|by apply Hfar, Hrn, Hlow|done]. by rewrite decide_False by congruence.
        -- rewrite <- Hpv, ptr_set_ptr; [|by left|done]. rewrite decide_True by done. apply (chain_glue _ _ [] l2.*1 base) in Hc2. apply Hc2.
      * apply (chain_glue _ _ [] l2.*1 base) in Hc2 as [_ Hc2]. eapply tail_chain_ext; [exact Hc2|]. intros y Hy.
        rewrite ptr_set_ptr; [|apply Hfar; [done|]; apply Hrn; right; by apply Hhigh|done]. rewrite decide_False; [done|].
        intros ->. apply (Hdis (final base l1.*1) (final_in _ _)). right. by rewrite <- Hpv.
    + by rewrite size_set_ptr by (apply Hfar; [done|by left]).
    + intros a s Ha. rewrite size_set_ptr by (apply Hfar; [done|right; exists s; by apply Hown]). by apply Hsz, Hown.
  - cbn [freep h']. rewrite Hpv, fmap_app. pose proof (final_in base l1.*1) as Hin. rewrite elem_of_cons, elem_of_app.
    apply elem_of_cons in Hin. tauto.
  - apply Hok.
  - apply Hok.
  - intros a s b Ha Hb'. cbn [hmem h']. apply mget_set_ptr_out.
    by apply (ring_header_out base lo hi h fl al Hok prevp a s b).
Qed.

Lemma take_tail hi h l1 l2 al n s prevp p :
  heap_ok base lo hi h (l1 ++ (p, s) :: l2) al → prevp ∈ base :: (l1 ++ (p, s) :: l2).*1 → 0 < n < s →
  let a := p + 16 * (s - n) in
  let h' := Heap (store32 (store32 (hmem h) (p + 8) (s - n)) (a + 8) n) prevp (os h) in
  al !! a = None ∧ heap_ok base lo hi h' (l1 ++ (p, s - n) :: l2) (<[a := n]> al) ∧ payload_kept al (hmem h) (hmem h').
Proof.
  intros Hok Hprev Hn a h'. assert (Ea : a = p + 16 * (s - n)) by done. pose proof (hk_base _ _ _ _ _ _ Hok).
  pose proof (hk_linked _ _ _ _ _ _ Hok) as [Hc Hb Hsz]. pose proof (hk_layout _ _ _ _ _ _ Hok) as HL.
  assert (Hin : (p, s) ∈ l1 ++ (p, s) :: l2) by (apply elem_of_app; right; apply list_elem_of_here).
  pose proof (owned_bounds _ _ _ _ _ _ Hok p s (or_introl Hin)) as Hpb.
  assert (HT : layout lo hi (l1 ++ (p, s - n) :: (a, n) :: l2) al).
  { apply layout_split; [|lia..]. by replace (s - n + n) with s by lia. }
  assert (Ha : al !! a = None).
  { apply (ly_sep _ _ _ _ HT a n), elem_of_app. right. right. apply list_elem_of_here. }
  assert (HT' : layout lo hi (l1 ++ (p, s - n) :: l2) (<[a := n]> al)).
  { change ((p, s - n) :: l2) with ([(p, s - n)] ++ l2). rewrite app_assoc. apply layout_take. by rewrite <- app_assoc. }
  pose proof (ly_sorted _ _ _ _ HL) as (_ & Hlow & Hhigh)%sorted_app_cons. cbn in Hlow, Hhigh.
  assert (Hpn : node base (l1 ++ (p, s) :: l2) al p) by (right; exists s; by left).
  pose proof (node_far _ _ _ _ _ _ Hok p) as Hfar. specialize (λ y, Hfar y Hpn).
  assert (Hfa : ∀ y, node base (l1 ++ (p, s) :: l2) al y → y ≠ a ∧ far a y).
  { intros y [->|[t Hy]]; [unfold far; lia|]. destruct (decide (y = p)) as [->|Hne]; [unfold far; lia|].
    pose proof (ly_apart _ _ _ _ HL _ _ _ _ Hy (or_introl Hin) Hne). pose proof (ly_in _ _ _ _ HL _ _ Hy). unfold far. lia. }
  assert (Hsize : ∀ y, node base (l1 ++ (p, s) :: l2) al y →
    size_at (hmem h') y = if decide (y = p) then s - n else size_at (hmem h) y).
  { intros y Hy. destruct (Hfa y Hy). cbn [hmem h']. rewrite size_set_size by (done || lia). rewrite decide_False by done.
    rewrite size_set_size by (by apply Hfar || lia). done. }
  assert (Hout : ∀ c t, owned l1 al c t ∨ (c, t) ∈ l2 → c ≠ p ∧ owned (l1 ++ (p, s) :: l2) al c t).
  { intros c t [[Hc'|Hc']|Hc'].
    - pose proof (Hlow _ Hc'). split; [cbn in *; lia|]. left. apply elem_of_app. by left.
    - split; [|by right]. intros ->. by rewrite (ly_sep _ _ _ _ HL p s Hin) in Hc'.
    - pose proof (Hhigh _ Hc'). split; [cbn in *; lia|]. left. apply elem_of_app. right. by right. }
  split_and!; [done|split|].
  - done.
  - apply (coalesced_split lo hi l1 l2 al p (s - n) n); [..|lia|lia];
      replace (s - n + n) with s by lia; apply Hok.
  - split.
    + replace (l1 ++ (p, s - n) :: l2).*1 with (l1 ++ (p, s) :: l2).*1 by (by rewrite !fmap_app).
      eapply chain_ext; [exact Hc|]. intros y Hy. apply (ring_node base _ al) in Hy. destruct (Hfa y Hy).
      cbn [hmem h']. rewrite ptr_set_size by done. by rewrite ptr_set_size by (by apply Hfar).
    + rewrite Hsize by (by left). by rewrite decide_False by lia.
    + intros c t Hc'. unfold owned in Hc'. rewrite lookup_insert_Some, elem_of_app, elem_of_cons in Hc'.
      assert (Hcase : (c = p ∧ t = s - n) ∨ (c = a ∧ t = n) ∨ (owned l1 al c t ∨ (c, t) ∈ l2)).
      { unfold owned. destruct Hc' as [[|[E|]]|[[<- <-]|[]]]; [tauto| |tauto..]. injection E as -> ->. tauto. }
      destruct Hcase as [[-> ->]|[[-> ->]|Hcase]].
      * rewrite Hsize by done. by rewrite decide_True.
      * cbn [hmem h']. rewrite size_set_size by (by left || lia). by rewrite decide_True.
      * apply Hout in Hcase as [Hne Hcase]. rewrite Hsize by (right; by exists t). rewrite decide_False by done. by apply Hsz.
  - cbn [freep h']. replace (l1 ++ (p, s - n) :: l2).*1 with (l1 ++ (p, s) :: l2).*1 by (by rewrite !fmap_app). done.
  - apply Hok.
  - apply Hok.
  - intros c t b Hc' Hb'. cbn [hmem h']. rewrite !mget_set_size_out; [done|..].
    + apply (ring_header_out base lo hi h _ al Hok p c t b); [|done..]. right. apply list_elem_of_fmap. by exists (p, s).
    + destruct (Hout c t) as [Hne Ho]; [left; by right|].
      pose proof (ly_apart _ _ _ _ HL _ _ _ _ Ho (or_introl Hin) Hne). lia.
Qed.

Lemma take_ok hi h fl al n prevp p s :
  heap_ok base lo hi h fl al → (p, s) ∈ fl → prevp ∈ base :: fl.*1 → ptr_at (hmem h) prevp = p → 0 < n ≤ s →
  returns (take_block n prevp p) h (λ r h', ∃ a fl', r = a + 16 ∧ al !! a = None
    ∧ heap_ok base lo hi h' fl' (<[a := n]> al) ∧ os h' = os h ∧ payload_kept al (hmem h) (hmem h')).
Proof.
  intros Hok Hp Hprev Hlink Hn. pose proof (owned_bounds _ _ _ _ _ _ Hok p s (or_introl Hp)) as Hpb.
  pose proof (hk_base _ _ _ _ _ _ Hok) as Hb.
  assert (Hs : size_at (hmem h) p = s) by (apply (lk_size _ _ _ _ (hk_linked _ _ _ _ _ _ Hok)); by left).
  assert (Ha : al !! p = None) by by apply (ly_sep _ _ _ _ (hk_layout _ _ _ _ _ _ Hok) p s).
  unfold take_block, ssize, sptr, set_ptr, set_size. apply returns_gets_bind. rewrite Hs.
  apply list_elem_of_split in Hp as (l1 & l2 & ->). destruct (Z.eqb_spec s n) as [->|Hne].
  - destruct (take_whole _ _ _ _ _ _ _ _ Hok Hprev Hlink) as [H1 H2]. exists (hadd p 1). eexists. split; [reflexivity|].
    exists p, (l1 ++ l2). rewrite hadd_id by lia. by split_and!.
  - destruct (take_tail _ _ _ _ _ n _ _ _ Hok Hprev ltac:(lia)) as (H1 & H2 & H3). eexists _, _. split; [reflexivity|].
    cbn [hmem freep os setter eta eta_heap]. rewrite size_set_size by (by left || (rewrite u32_id; lia)).
    rewrite decide_True, !u32_id by (done || lia). rewrite !(hadd_id p) by lia. rewrite !hadd_id by lia.
    exists (p + 16 * (s - n)), (l1 ++ (p, s - n) :: l2). by split_and!.
Qed.

(** ** The search for a block *)

Definition get_more (f wf : nat) (n : Z) : M (heap W) Z :=
  let! r := morecore wf n in
  if r =? 0 then ret 0
  else
    let! q := sptr r in
    malloc_loop f wf n r q.

(** One round of the ring finds a block that is large enough, if there is one,
    and asks for more memory otherwise. *)
Lemma scan f wf n h (nodes : list Z) l : ∀ prevp,
  chain (hmem h) prevp l (freep h) → (∀ y, y ∈ prevp :: l ++ [freep h] → y ∈ nodes) → freep h ∉ l →
  let run := malloc_loop (S (length l) + f) wf n prevp (List.hd (freep h) l) h in
  (∃ prevp' p', prevp' ∈ nodes ∧ ptr_at (hmem h) prevp' = p' ∧ p' ∈ nodes ∧ n ≤ size_at (hmem h) p'
    ∧ run = take_block n prevp' p' h)
  ∨ (∀ y, y ∈ l ++ [freep h] → size_at (hmem h) y < n) ∧ run = get_more f wf n h.
Proof.
  induction l as [|y l IH]; intros prevp Hc Hin Hnf; cbn [length Nat.add List.hd app] in *; cbn [malloc_loop];
    unfold ssize; rewrite bind_gets.
  - destruct (Z.leb_spec n (size_at (hmem h) (freep h))).
    + left. exists prevp, (freep h). split_and!; try done; [apply Hin, list_elem_of_here|apply Hin; right; apply list_elem_of_here].
    + right. split; [intros y Hy; by apply list_elem_of_singleton in Hy as ->|]. rewrite bind_gets, Z.eqb_refl. done.
  - destruct Hc as [Hy Hc]. apply not_elem_of_cons in Hnf as [Hne Hnf].
    destruct (Z.leb_spec n (size_at (hmem h) y)).
    + left. exists prevp, y. split_and!; try done; apply Hin; [apply list_elem_of_here|right; apply list_elem_of_here].
    + rewrite bind_gets. rewrite (proj2 (Z.eqb_neq y (freep h))) by done. cbv iota. unfold sptr. rewrite bind_gets.
      assert (Hq : ptr_at (hmem h) y = List.hd (freep h) l) by (apply (chain_glue _ _ [] l (freep h)) in Hc; apply Hc).
      rewrite Hq. change (S (length l + f)) with (S (length l) + f)%nat.
      destruct (IH y Hc) as [Hfound|[Hall E]]; [|done|by left|].
      * intros z Hz. apply Hin. by right.
      * right. split; [|done]. intros z Hz. apply elem_of_cons in Hz as [->|Hz]; [lia|by apply Hall].
Qed.

(** ** More memory *)

Lemma layout_grow hi fl al k :
  layout lo hi fl al → lo ≤ hi → hi mod 16 = 0 → 0 < k → al !! hi = None ∧ layout lo (hi + 16 * k) fl (<[hi := k]> al).
Proof.
  intros HL Hlo Hhi Hk. assert (Hlt : ∀ a s, owned fl al a s → lo ≤ a ∧ 0 < s ∧ a + 16 * s ≤ hi ∧ a mod 16 = 0) by apply HL.
  assert (Hn : al !! hi = None).
  { destruct (al !! hi) as [s|] eqn:E; [|done]. pose proof (Hlt hi s (or_intror E)). lia. }
  assert (Hown : ∀ a s, owned fl (<[hi := k]> al) a s → owned fl al a s ∨ a = hi ∧ s = k).
  { unfold owned. intros a s [Ha|Ha]; [tauto|]. apply lookup_insert_Some in Ha as [[]|[]]; [by right|tauto]. }
  split; [done|]. split.
  - apply HL.
  - intros a s [Ha|[-> ->]]%Hown; [pose proof (Hlt _ _ Ha)|]; lia.
  - intros a s a' s' [Ha|[-> ->]]%Hown [Ha'|[-> ->]]%Hown Hne; try done.
    + by apply (ly_apart _ _ _ _ HL).
    + pose proof (Hlt _ _ Ha). lia.
    + pose proof (Hlt _ _ Ha'). lia.
  - intros a s Ha. rewrite lookup_insert_ne; [by apply (ly_sep _ _ _ _ HL a s)|]. intros <-. pose proof (Hlt hi s (or_introl Ha)). lia.
  - rewrite live_units_insert by done. pose proof (ly_total _ _ _ _ HL). lia.
Qed.

(** The new memory as an allocated block. *)
Lemma grow_ok h h' fl al k :
  heap_ok base lo (brk (os h)) h fl al → 0 < k → k < 2 ^ 32 → brk (os h) + 16 * k ≤ 2 ^ 36 →
  hmem h' = store32 (hmem h) (brk (os h) + 8) k → freep h' = freep h →
  heap_ok base lo (brk (os h) + 16 * k) h' fl (<[brk (os h) := k]> al) ∧ al !! brk (os h) = None
  ∧ payload_kept al (hmem h) (hmem h').
Proof.
  intros Hok Hk Hk32 Hmax Em Ef. set (hi := brk (os h)) in *. pose proof (hk_layout _ _ _ _ _ _ Hok) as HL.
  pose proof (ly_total _ _ _ _ HL) as Ht. pose proof (hk_base _ _ _ _ _ _ Hok) as (Hb0 & Hbl & Hlo).
  pose proof (layout_units _ _ _ _ HL) as Hlen. pose proof (hk_linked _ _ _ _ _ _ Hok) as [Hc Hb Hsz].
  assert (Hhi : hi mod 16 = 0).
  { replace hi with (lo + (free_units fl + live_units al) * 16) by lia. by rewrite Z.mod_add. }
  destruct (layout_grow hi fl al k HL ltac:(lia) Hhi Hk) as [Hn HL'].
  assert (Hfar : ∀ y, node base fl al y → y ≠ hi ∧ far hi y).
  { unfold far. intros y [->|[s Hy]]; [lia|]. pose proof (owned_bounds _ _ _ _ _ _ Hok y s Hy). lia. }
  split_and!; [|done|].
  - split; rewrite ?Em, ?Ef; [done|apply Hok| |apply Hok|apply Hok|lia]. split.
    + eapply chain_ext; [exact Hc|]. intros y Hy. apply ptr_set_size, Hfar. by apply ring_node.
    + rewrite size_set_size by (try apply Hfar; by left || lia). rewrite decide_False by (apply Hfar; by left). done.
    + intros a s Ha. unfold owned in Ha. rewrite lookup_insert_Some in Ha.
      assert (Hcase : (a = hi ∧ s = k) ∨ owned fl al a s) by (unfold owned; destruct Ha as [|[[]|[]]]; [tauto| |tauto]; by left).
      destruct Hcase as [[-> ->]|Ho].
      * rewrite size_set_size by (by left || lia). by rewrite decide_True.
      * destruct (Hfar a) as [Hne Hfa]; [right; by exists s|]. rewrite size_set_size by (done || lia). rewrite decide_False by done. by apply Hsz.
  - intros a s b Ha Hb'. rewrite Em. apply mget_set_size_out. pose proof (owned_bounds _ _ _ _ _ _ Hok a s (or_intror Ha)). lia.
Qed.

(** The heap was left alone because [sbrk] failed, or it has grown and holds a
    free block of [n] units. *)
Definition grown (n : Z) (h : heap W) (fl : list block) (al : gmap Z Z) (r : Z) (h' : heap W) : Prop :=
  payload_kept al (hmem h) (hmem h') ∧
  (r = 0 ∧ heap_ok base lo (brk (os h')) h' fl al ∧ sbrk (16 * Z.max 4096 n) (os h) = (SBRK_ERROR, os h')
   ∨ r = freep h' ∧ r ≠ 0 ∧ brk (os h') = brk (os h) + 16 * Z.max 4096 n
     ∧ ∃ fl' a s, heap_ok base lo (brk (os h')) h' fl' al ∧ (a, s) ∈ fl' ∧ n ≤ s).

Lemma morecore_ok wf n h fl al :
  heap_ok base lo (brk (os h)) h fl al → 0 < n → 16 * n < 2 ^ 31 → (length fl + 2 ≤ wf)%nat →
  returns (morecore wf n) h (grown n h fl al).
Proof.
  intros Hok Hn Hn31 Hf. unfold morecore, grown. set (nu := if n <? 4096 then 4096 else n).
  assert (Hnu : nu = Z.max 4096 n) by (subst nu; destruct (Z.ltb_spec n 4096); lia).
  rewrite u64_id by (unfold HEADER; lia). unfold HEADER.
  pose proof (sbrk_grows (nu * 16) (os h) ltac:(lia)) as Hs. unfold sbrk_call.
  destruct (sbrk (nu * 16) (os h)) as [r o] eqn:Es. set (h1 := h <| os := o |>).
  eapply (returns_bind _ _ _ (λ r' h', r' = r ∧ h' = h1)); [exists r, h1; by rewrite s32_id, Es by lia|]. intros ? ? [-> ->].
  pose proof (hk_base _ _ _ _ _ _ Hok) as Hb. pose proof (layout_units _ _ _ _ (hk_layout _ _ _ _ _ _ Hok)) as Hu.
  destruct Hs as [[-> Hbrk]|(-> & Hbrk & Hmax)].
  - rewrite Z.eqb_refl. apply returns_ret. split; [done|]. left. split; [done|]. change (os h1) with o. rewrite Hbrk.
    split; [by destruct Hok; split|]. by rewrite <- Hnu, Z.mul_comm.
  - pose proof (hk_hi _ _ _ _ _ _ Hok) as Hhi.
    rewrite (proj2 (Z.eqb_neq (brk (os h)) SBRK_ERROR)) by (unfold SBRK_ERROR; lia).
    unfold set_size. apply returns_modify_bind. set (h2 := h1 <| hmem := _ |>).
    destruct (grow_ok h h2 fl al nu Hok ltac:(lia) ltac:(lia) ltac:(lia) eq_refl eq_refl) as (Hok2 & Hnone & Hk2).
    rewrite hadd_id by lia. change (brk (os h) + 16 * 1) with (brk (os h) + 16).
    eapply returns_bind; [by apply (free_ok base lo wf _ h2 fl _ (brk (os h)) nu Hok2); [apply lookup_insert_eq|]|].
    intros _ h3 (fl' & Hok3 & Eo & Hk3 & a & s & Ha & Hsz). rewrite delete_insert_id in Hok3, Hk3 by done.
    assert (Eb : brk (os h3) = brk (os h) + 16 * nu) by (rewrite Eo; change (os h2) with o; lia).
    apply returns_gets. split; [intros a' s' b' Ha' Hb'; rewrite (Hk3 a' s' b' Ha' Hb'); by eapply Hk2|]. right.
    split_and!; [done| |lia|].
    + pose proof (node_pos _ _ _ _ _ _ Hok3 (freep h3)) as Hp. specialize (Hp (ring_node _ _ _ _ (hk_freep _ _ _ _ _ _ Hok3))). lia.
    + exists fl', a, s. rewrite Eb. split_and!; [done|done|lia].
Qed.

(** ** malloc *)

(** [malloc] has found a block, or none is large enough and [sbrk] failed. *)
Definition allocated (n : Z) (h : heap W) (al : gmap Z Z) (r : Z) (h' : heap W) : Prop :=
  payload_kept al (hmem h) (hmem h') ∧
  (r = 0 ∧ sbrk (16 * Z.max 4096 n) (os h) = (SBRK_ERROR, os h')
     ∧ (∃ fl, heap_ok base lo (brk (os h')) h' fl al ∧ ∀ a s, (a, s) ∈ fl → s < n)
   ∨ ∃ a fl, r = a + 16 ∧ al !! a = None ∧ heap_ok base lo (brk (os h')) h' fl (<[a := n]> al)).

(** A round of the ring from [freep]. *)
Lemma round f wf n h fl al :
  heap_ok base lo (brk (os h)) h fl al → 0 < n →
  let run := malloc_loop (S (length fl) + f) wf n (freep h) (ptr_at (hmem h) (freep h)) h in
  (∃ prevp p s, prevp ∈ base :: fl.*1 ∧ ptr_at (hmem h) prevp = p ∧ (p, s) ∈ fl ∧ n ≤ s ∧ run = take_block n prevp p h)
  ∨ (∀ a s, (a, s) ∈ fl → s < n) ∧ run = get_more f wf n h.
Proof.
  intros Hok Hn. pose proof (hk_linked _ _ _ _ _ _ Hok) as [Hc Hb Hsz].
  pose proof (sorted_NoDup _ (ring_sorted _ _ _ _ _ _ Hok)) as Hnd.
  destruct (rotate _ fl (freep h) Hc Hnd (hk_freep _ _ _ _ _ _ Hok)) as (l & Hl & Hin & Hnf & Hlen).
  rewrite <- Hlen. pose proof (chain_glue (hmem h) (freep h) [] l (freep h)) as Hg. cbn in Hg. rewrite (proj1 (proj1 Hg Hl)).
  destruct (scan f wf n h (base :: fl.*1) l (freep h) Hl) as [(prevp & p & Hpv & Hlk & Hp & Hs & E)|[Hall E]]; [|done|..].
  - intros y Hy. apply elem_of_cons in Hy as [->|Hy]; [apply Hok|by apply Hin].
  - left. apply elem_of_cons in Hp as [->|Hp]; [lia|]. apply list_elem_of_fmap in Hp as ([a s] & -> & Hp).
    cbn [fst] in *. exists prevp, a, s. rewrite (Hsz a s (or_introl Hp)) in Hs. by split_and!.
  - right. split; [|done]. intros a s Ha. rewrite <- (Hsz a s (or_introl Ha)). apply Hall, Hin. right.
    apply list_elem_of_fmap. by exists (a, s).
Qed.

Lemma malloc_loop_ok fuel wf n h fl al :
  heap_ok base lo (brk (os h)) h fl al → 0 < n → 16 * n < 2 ^ 31 → (length fl + 2 ≤ wf)%nat →
  brk (os h) - lo + 16 * Z.max 4096 n + 16 ≤ 8 * Z.of_nat fuel →
  returns (malloc_loop fuel wf n (freep h) (ptr_at (hmem h) (freep h))) h (allocated n h al).
Proof.
  intros Hok Hn Hn31 Hwf Hf. pose proof (layout_units _ _ _ _ (hk_layout _ _ _ _ _ _ Hok)) as Hu.
  set (f := (fuel - S (length fl))%nat). replace fuel with (S (length fl) + f)%nat by lia.
  assert (Htake : ∀ h0 fl0, heap_ok base lo (brk (os h0)) h0 fl0 al → payload_kept al (hmem h) (hmem h0) →
    ∀ prevp p s (m : M (heap W) Z), prevp ∈ base :: fl0.*1 → ptr_at (hmem h0) prevp = p → (p, s) ∈ fl0 → n ≤ s →
    m h0 = take_block n prevp p h0 → returns m h0 (allocated n h al)).
  { intros h0 fl0 Hok0 Hk0 prevp p s m Hpv Hlk Hp Hs E.
    destruct (take_ok _ _ _ _ n _ _ _ Hok0 Hp Hpv Hlk ltac:(lia)) as (r & h' & E' & a & fl' & -> & Ha & Hok' & Eo & Hk').
    exists (a + 16), h'. rewrite E. split; [done|]. split; [intros c t b Hc Hb; rewrite (Hk' c t b Hc Hb); by eapply Hk0|].
    right. exists a, fl'. by rewrite Eo. }
  destruct (round f wf n h fl al Hok Hn) as [(prevp & p & s & Hpv & Hlk & Hp & Hs & E)|[Hall E]].
  { by eapply (Htake h fl). }
  destruct (morecore_ok wf n h fl al Hok Hn Hn31 Hwf) as (r & h1 & Em & Hk1 & Hr).
  unfold returns. rewrite E. unfold get_more. rewrite (bind_ok _ _ _ _ _ Em).
  destruct Hr as [(-> & Hok1 & Es)|(Er & Hne & Hbrk & fl' & a & s & Hok1 & Ha & Hs)].
  - exists 0, h1. split; [done|]. split; [done|]. left. split_and!; [done|done|by exists fl].
  - rewrite (proj2 (Z.eqb_neq r 0)) by done. rewrite Er. unfold sptr. rewrite bind_gets.
    pose proof (layout_units _ _ _ _ (hk_layout _ _ _ _ _ _ Hok1)) as Hu1.
    replace f with (S (length fl') + (f - S (length fl')))%nat by (subst f; lia).
    destruct (round (f - S (length fl')) wf n h1 fl' al Hok1 Hn) as [(prevp & p & t & Hpv & Hlk & Hp & Ht & E1)|[Hall' _]].
    + by eapply (Htake h1 fl').
    + pose proof (Hall' _ _ Ha). lia.
Qed.

End Malloc.
