(* ===== verification/UmallocClient.v ===== *)
(** Programs that allocate: every sequence of [malloc], [free] and stores into
    live blocks. *)

From stdpp Require Import sorting.
From S2P Require Import Prelude Machine Umalloc UmallocHeap UmallocFree UmallocSpec.

(** Free blocks that cover the whole heap without touching are one block. *)
Lemma covered_units hi (l : list block) : ∀ x,
  StronglySorted (λ x y : block, x.1 < y.1) l →
  (∀ a s, (a, s) ∈ l → x ≤ a ∧ 0 < s ∧ a + 16 * s ≤ hi) →
  (∀ a s a' s', (a, s) ∈ l → (a', s') ∈ l → a ≠ a' → a + 16 * s ≤ a' ∨ a' + 16 * s' ≤ a) →
  x ≤ hi → 16 * free_units l ≤ hi - x.
Proof.
  induction l as [|[a s] l IH]; intros x Hs Hin Hap Hx; cbn; [lia|]. change (foldr _ 0 l) with (free_units l).
  apply StronglySorted_inv in Hs as [Hs Hlt]. rewrite Forall_forall in Hlt.
  pose proof (Hin a s (list_elem_of_here _ _)). assert (16 * free_units l ≤ hi - (a + 16 * s)); [|lia].
  apply IH; [done|..|lia].
  - intros b t Hb. pose proof (Hin b t (list_elem_of_further _ _ _ Hb)). pose proof (Hlt _ Hb). cbn in *.
    pose proof (Hap a s b t (list_elem_of_here _ _) (list_elem_of_further _ _ _ Hb) ltac:(lia)). lia.
  - intros b t b' t' Hb Hb'. apply Hap; by right.
Qed.

Lemma one_block lo hi fl :
  layout lo hi fl ∅ → coalesced fl → fl = [] ∧ hi = lo ∨ ∃ s, fl = [(lo, s)] ∧ 16 * s = hi - lo.
Proof.
  intros HL Hco. pose proof (ly_total _ _ _ _ HL) as Ht. unfold live_units in Ht. rewrite map_fold_empty in Ht.
  pose proof (ly_in _ _ _ _ HL) as Hin. destruct fl as [|[a s] [|[b t] l]].
  - left. cbn in Ht. split; [done|lia].
  - right. exists s. pose proof (Hin a s (or_introl (list_elem_of_here _ _))). cbn in Ht. split; [|lia]. do 2 f_equal. lia.
  - exfalso. assert (Hb : (b, t) ∈ (a, s) :: (b, t) :: l) by (right; apply list_elem_of_here).
    pose proof (Hin a s (or_introl (list_elem_of_here _ _))). pose proof (Hin b t (or_introl Hb)).
    pose proof (ly_sorted _ _ _ _ HL) as Hs. apply StronglySorted_inv in Hs as [Hs Hlt]. rewrite Forall_forall in Hlt.
    pose proof (Hlt (b, t) (list_elem_of_here _ _)). cbn in *.
    pose proof (ly_apart _ _ _ _ HL a s b t (or_introl (list_elem_of_here _ _)) (or_introl Hb) ltac:(lia)).
    pose proof (Hco a s b t (list_elem_of_here _ _) Hb).
    assert (16 * free_units ((b, t) :: l) ≤ hi - b); [|cbn in *; lia].
    apply covered_units; [done|..|lia].
    + intros c u Hc. pose proof (Hin c u (or_introl (list_elem_of_further _ _ _ Hc))). split; [|lia].
      apply elem_of_cons in Hc as [E|Hc]; [injection E as -> ->; lia|]. apply StronglySorted_inv in Hs as [_ Hs].
      rewrite Forall_forall in Hs. apply Hs in Hc. cbn in Hc. lia.
    + intros c u c' u' Hc Hc'. apply (ly_apart _ _ _ _ HL); left; by right.
Qed.

Section Client.

Context {W : Type} {SB : Sbrk W} {SK : SbrkOk W} (base lo : Z).
Implicit Types h : heap W.

(** An allocator before its first call, or in use with the blocks [al]. *)
Definition heap_state (h : heap W) (al : gmap Z Z) : Prop :=
  freep h = 0 ∧ al = ∅ ∧ brk (os h) = lo ∨ ∃ fl, heap_ok base lo (brk (os h)) h fl al.

(** Where the program was linked: [base] below the heap, which is aligned. *)
Definition placed : Prop := 0 < base ∧ base + 16 ≤ lo ∧ lo mod 16 = 0 ∧ lo ≤ 2 ^ 36.

Lemma units_eq n : 0 ≤ n < 2 ^ 31 - 31 → units n = (n + 15) / 16 + 1 ∧ n ≤ 16 * units n - 16 ∧ 0 < units n ∧ 16 * units n < 2 ^ 31.
Proof.
  intros Hn. assert (E : units n = (n + 15) / 16 + 1).
  { unfold units, HEADER. rewrite u32_id by dlia. replace (n + 16 - 1) with (n + 15) by lia. done. }
  rewrite E. split_and!; [done|dlia..].
Qed.

(** The first call makes [base] the only node of the ring. *)
Lemma first_ring h :
  placed → brk (os h) = lo →
  heap_ok base lo (brk (os h)) (Heap (store32 (store64 (hmem h) base base) (base + 8) 0) base (os h)) [] ∅.
Proof.
  intros (H1 & H2 & H3 & H4) Hb. rewrite Hb. split; cbn [hmem freep]; [| | |apply list_elem_of_here|done|done].
  - split; [constructor|..].
    + intros a s [Ha|Ha]; [by apply not_elem_of_nil in Ha|by rewrite lookup_empty in Ha].
    + intros a s a' s' [Ha|Ha]; [by apply not_elem_of_nil in Ha|by rewrite lookup_empty in Ha].
    + intros a s Ha. by apply not_elem_of_nil in Ha.
    + unfold live_units. rewrite map_fold_empty. cbn. lia.
  - intros a s b t Ha. by apply not_elem_of_nil in Ha.
  - split; cbn [fmap list_fmap chain].
    + rewrite ptr_set_size, ptr_set_ptr by (by left || lia). by rewrite decide_True.
    + rewrite size_set_size by (by left || lia). by rewrite decide_True.
    + intros a s [Ha|Ha]; [by apply not_elem_of_nil in Ha|by rewrite lookup_empty in Ha].
Qed.

Definition enough (fuel : nat) (n : Z) (h : heap W) : Prop :=
  brk (os h) - lo + 16 * Z.max 4096 (units n) + 32 ≤ 8 * Z.of_nat fuel.

Lemma malloc_ok fuel n h al :
  placed → heap_state h al → 0 ≤ n < 2 ^ 31 - 31 → enough fuel n h →
  returns (malloc base fuel n) h (λ r h', payload_kept al (hmem h) (hmem h') ∧
    (r = 0 ∧ sbrk (16 * Z.max 4096 (units n)) (os h) = (SBRK_ERROR, os h') ∧ heap_state h' al
     ∨ ∃ a, r = a + 16 ∧ al !! a = None ∧ heap_state h' (<[a := units n]> al))).
Proof.
  intros Hpl Hst Hn Hf. destruct (units_eq n Hn) as (_ & _ & Hu0 & Hu1). unfold enough in Hf.
  assert (Hused : ∀ h0 fl al, os h0 = os h → heap_ok base lo (brk (os h0)) h0 fl al →
    returns (malloc_loop fuel fuel (units n) (freep h0) (ptr_at (hmem h0) (freep h0))) h0 (λ r h', payload_kept al (hmem h0) (hmem h') ∧
    (r = 0 ∧ sbrk (16 * Z.max 4096 (units n)) (os h) = (SBRK_ERROR, os h') ∧ heap_state h' al
     ∨ ∃ a, r = a + 16 ∧ al !! a = None ∧ heap_state h' (<[a := units n]> al)))).
  { clear Hst al. intros h0 fl al Eo Hok. pose proof (layout_units _ _ _ _ (hk_layout _ _ _ _ _ _ Hok)). rewrite <- Eo in *.
    eapply returns_mono; [apply (malloc_loop_ok base lo fuel fuel (units n) h0 fl al Hok Hu0 Hu1); lia|].
    intros r h' [Hk [(Hr & Hs & fl' & Hok' & _)|(a & fl' & Hr & Ha & Hok')]]; (split; [done|]).
    - left. split_and!; [done|done|]. right. by exists fl'.
    - right. exists a. split_and!; [done|done|]. right. by exists fl'. }
  unfold malloc. apply returns_gets_bind. destruct Hst as [(Hfp & -> & Hb)|(fl & Hok)].
  - rewrite Hfp. cbn [Z.eqb]. set (h1 := Heap (store32 (store64 (hmem h) base base) (base + 8) 0) base (os h)).
    eapply (returns_bind _ _ _ (λ p h', p = base ∧ h' = h1)).
    { eexists _, _. split; [reflexivity|]. done. }
    intros ? ? [-> ->]. apply returns_gets_bind. eapply returns_mono; [exact (Hused h1 [] ∅ eq_refl (first_ring h Hpl Hb))|].
    intros r h' [_ Hr]. split; [|done]. intros a s b Ha. by rewrite lookup_empty in Ha.
  - pose proof (node_pos _ _ _ _ _ _ Hok (freep h) (ring_node _ _ _ _ (hk_freep _ _ _ _ _ _ Hok))).
    rewrite (proj2 (Z.eqb_neq (freep h) 0)) by lia. apply returns_ret_bind, returns_gets_bind. by apply (Hused h fl al eq_refl).
Qed.

Lemma free_state fuel h al a n :
  heap_state h al → al !! a = Some n → brk (os h) - lo + 32 ≤ 8 * Z.of_nat fuel →
  returns (free fuel (a + 16)) h (λ _ h', payload_kept (delete a al) (hmem h) (hmem h') ∧ heap_state h' (delete a al)).
Proof.
  intros [(_ & -> & _)|(fl & Hok)] Ha Hf; [by rewrite lookup_empty in Ha|].
  pose proof (layout_units _ _ _ _ (hk_layout _ _ _ _ _ _ Hok)).
  eapply returns_mono; [apply (free_ok base lo fuel _ h fl al a n Hok Ha); lia|].
  intros _ h' (fl' & Hok' & Eo & Hk & _). split; [done|]. right. exists fl'. by rewrite Eo.
Qed.

(** A store into a live block leaves the headers alone. *)
Lemma write_state h al a s b v :
  heap_state h al → al !! a = Some s → a + 16 ≤ b < a + 16 * s → heap_state (h <| hmem := mset (hmem h) b v |>) al.
Proof.
  intros [(_ & -> & _)|(fl & Hok)] Ha Hb; [by rewrite lookup_empty in Ha|]. right. exists fl.
  assert (Hout : ∀ y, node base fl al y → b < y ∨ y + 16 ≤ b).
  { intros y Hy. pose proof (owned_bounds _ _ _ _ _ _ Hok a s (or_intror Ha)).
    destruct Hy as [->|[t Hy]]; [lia|]. destruct (decide (a = y)) as [->|Hne]; [lia|].
    pose proof (owned_bounds _ _ _ _ _ _ Hok y t Hy).
    pose proof (ly_apart _ _ _ _ (hk_layout _ _ _ _ _ _ Hok) _ _ _ _ (or_intror Ha) Hy Hne). lia. }
  assert (Hp : ∀ y, node base fl al y → ptr_at (mset (hmem h) b v) y = ptr_at (hmem h) y).
  { intros y Hy. apply load64_ext. intros c Hc. pose proof (Hout y Hy). apply mget_mset_ne. lia. }
  assert (Hs : ∀ y, node base fl al y → size_at (mset (hmem h) b v) y = size_at (hmem h) y).
  { intros y Hy. apply load_le_ext. intros c Hc. pose proof (Hout y Hy). apply mget_mset_ne. lia. }
  destruct Hok as [H1 H2 [Hc Hb0 Hsz] H4 H5 H6]. split; try done. split; cbn [hmem setter].
  - eapply chain_ext; [exact Hc|]. intros y Hy. apply Hp. by apply ring_node.
  - rewrite Hs by (by left). done.
  - intros c t Ho. rewrite Hs by (right; by exists t). by apply Hsz.
Qed.

(** A program with the live blocks [live], each with the bytes it stored. *)
Inductive client : heap W → gmap Z (list Z) → Prop :=
| client_start h : freep h = 0 → brk (os h) = lo → client h ∅
| client_malloc fuel h live n r h' :
    client h live → 0 ≤ n < 2 ^ 31 - 31 → enough fuel n h → malloc base fuel n h = Ok r h' →
    client h' (if r =? 0 then live else <[r := load_bytes (hmem h') r (Z.to_nat n)]> live)
| client_free fuel h live r bs h' :
    client h live → live !! r = Some bs → enough fuel 0 h → free fuel r h = Ok tt h' →
    client h' (delete r live)
| client_store h live r bs i v :
    client h live → live !! r = Some bs → (i < length bs)%nat →
    client (h <| hmem := mset (hmem h) (r + Z.of_nat i) v |>) (<[r := <[i := u8 v]> bs]> live).

(** The live blocks are the allocated ones and hold their bytes. *)
Record tracks (h : heap W) (al : gmap Z Z) (live : gmap Z (list Z)) : Prop := {
  tr_state : heap_state h al;
  tr_live : ∀ r bs, live !! r = Some bs → ∃ s, al !! (r - 16) = Some s ∧ Z.of_nat (length bs) ≤ 16 * s - 16
              ∧ load_bytes (hmem h) r (length bs) = bs;
  tr_all : ∀ a s, al !! a = Some s → is_Some (live !! (a + 16));
}.

Lemma load_bytes_ext m m' a n :
  (∀ b, a ≤ b < a + Z.of_nat n → mget m' b = mget m b) → load_bytes m' a n = load_bytes m a n.
Proof. intros H. unfold load_bytes. apply list_fmap_ext. intros i x [-> Hx]%lookup_seq. rewrite H by lia. done. Qed.

Lemma payload_bytes al m m' r s n :
  payload_kept al m m' → al !! (r - 16) = Some s → Z.of_nat n ≤ 16 * s - 16 → load_bytes m' r n = load_bytes m r n.
Proof. intros Hk Ha Hn. apply load_bytes_ext. intros b Hb. apply (Hk (r - 16) s); [done|lia]. Qed.

Lemma tracks_malloc fuel h al live n r h' :
  placed → tracks h al live → 0 ≤ n < 2 ^ 31 - 31 → enough fuel n h → malloc base fuel n h = Ok r h' →
  ∃ al', tracks h' al' (if r =? 0 then live else <[r := load_bytes (hmem h') r (Z.to_nat n)]> live).
Proof.
  intros Hpl [Hst Hl Ha] Hn Hf E. destruct (malloc_ok fuel n h al Hpl Hst Hn Hf) as (r' & h2 & E' & Hk & Hr).
  rewrite E in E'. injection E' as <- <-. destruct (units_eq n Hn) as (_ & Hu & Hu0 & _).
  assert (Hl' : ∀ x bs, live !! x = Some bs → ∃ s, al !! (x - 16) = Some s ∧ Z.of_nat (length bs) ≤ 16 * s - 16
    ∧ load_bytes (hmem h') x (length bs) = bs).
  { intros x bs Hx. destruct (Hl x bs Hx) as (s & Hs & Hlen & Hbs). exists s. split_and!; [done..|].
    by rewrite (payload_bytes _ _ _ _ _ _ Hk Hs Hlen). }
  destruct Hr as [(-> & _ & Hst')|(a & -> & Hna & Hst')].
  - exists al. rewrite Z.eqb_refl. by split.
  - exists (<[a := units n]> al). assert (a + 16 ≠ 0).
    { destruct Hst' as [(_ & Hemp & _)|(fl & Hok)].
      - apply (f_equal (lookup a)) in Hemp. by rewrite lookup_insert_eq, lookup_empty in Hemp.
      - pose proof (owned_bounds _ _ _ _ _ _ Hok a (units n) (or_intror (lookup_insert_eq _ _ _))).
        pose proof (hk_base _ _ _ _ _ _ Hok). lia. }
    rewrite (proj2 (Z.eqb_neq (a + 16) 0)) by done. split; [done|..].
    + intros x bs Hx. apply lookup_insert_Some in Hx as [[<- <-]|[Hne Hx]].
      * exists (units n). rewrite load_bytes_length. replace (a + 16 - 16) with a by lia. rewrite lookup_insert_eq.
        split_and!; [done|lia|done].
      * destruct (Hl' x bs Hx) as (s & Hs & Hlen & Hbs). exists s. by rewrite lookup_insert_ne by lia.
    + intros b s Hb. apply lookup_insert_Some in Hb as [[<- _]|[Hne Hb]]; [rewrite lookup_insert_eq; by eexists|].
      rewrite lookup_insert_ne by lia. by eapply Ha.
Qed.

Lemma tracks_free fuel h al live r bs h' :
  tracks h al live → live !! r = Some bs → enough fuel 0 h → free fuel r h = Ok tt h' →
  ∃ al', tracks h' al' (delete r live).
Proof.
  intros [Hst Hl Ha] Hr Hf E. destruct (Hl r bs Hr) as (s & Hs & _ & _). unfold enough in Hf.
  destruct (free_state fuel h al (r - 16) s Hst Hs ltac:(lia)) as (u & h2 & E' & Hk & Hst').
  replace (r - 16 + 16) with r in E' by lia. rewrite E in E'. injection E' as <- <-. exists (delete (r - 16) al). split; [done|..].
  - intros x bs' Hx. apply lookup_delete_Some in Hx as [Hne Hx]. destruct (Hl x bs' Hx) as (t & Ht & Hlen & Hbs).
    assert (Ht' : delete (r - 16) al !! (x - 16) = Some t) by (rewrite lookup_delete_ne by lia; done).
    exists t. split_and!; [done|done|]. by rewrite (payload_bytes _ _ _ _ _ _ Hk Ht' Hlen).
  - intros a t Ht. apply lookup_delete_Some in Ht as [Hne Ht]. rewrite lookup_delete_ne by lia. by eapply Ha.
Qed.

Lemma tracks_store h al live r bs i v :
  tracks h al live → live !! r = Some bs → (i < length bs)%nat →
  ∃ al', tracks (h <| hmem := mset (hmem h) (r + Z.of_nat i) v |>) al' (<[r := <[i := u8 v]> bs]> live).
Proof.
  intros [Hst Hl Ha] Hr Hi. destruct (Hl r bs Hr) as (s & Hs & Hlen & Hbs). exists al. split.
  - by apply (write_state h al (r - 16) s); [|done|lia].
  - intros x bs' Hx. cbn [hmem setter]. apply lookup_insert_Some in Hx as [[<- <-]|[Hne Hx]].
    + exists s. rewrite length_insert. split_and!; [done|done|]. apply list_eq. intros k.
      destruct (decide (k < length bs)%nat) as [Hk|Hk].
      * rewrite lookup_load_bytes by done. destruct (decide (k = i)) as [->|Hki].
        -- by rewrite list_lookup_insert_eq, mget_mset_eq by done.
        -- rewrite list_lookup_insert_ne by done. rewrite mget_mset_ne by lia. rewrite <- Hbs, lookup_load_bytes by done. done.
      * rewrite !lookup_ge_None_2; [done|rewrite length_insert; lia|rewrite load_bytes_length; lia].
    + destruct (Hl x bs' Hx) as (t & Ht & Hlen' & Hbs'). exists t. split_and!; [done|done|]. rewrite <- Hbs' at 2.
      apply load_bytes_ext. intros b Hb. apply mget_mset_ne. destruct Hst as [(_ & -> & _)|(fl & Hok)]; [by rewrite lookup_empty in Hs|].
      pose proof (ly_apart _ _ _ _ (hk_layout _ _ _ _ _ _ Hok) _ _ _ _ (or_intror Hs) (or_intror Ht) ltac:(lia)). lia.
  - intros a t Hat. destruct (decide (a + 16 = r)) as [<-|Hne]; [rewrite lookup_insert_eq; by eexists|].
    rewrite lookup_insert_ne by done. by eapply Ha.
Qed.

Lemma client_tracks h live : placed → client h live → ∃ al, tracks h al live.
Proof.
  intros Hpl. induction 1 as [h Hf Hb|fuel h live n r h' _ [al Ht] Hn Hfu E|fuel h live r bs h' _ [al Ht] Hr Hfu E
    |h live r bs i v _ [al Ht] Hr Hi].
  - exists ∅. split; [by left|..]; intros ? ? Hx; by rewrite lookup_empty in Hx.
  - by eapply tracks_malloc.
  - by eapply tracks_free.
  - by eapply tracks_store.
Qed.

(** The ring consists of [base] and one free block, the whole heap. *)
Definition all_free (h : heap W) : Prop :=
  ptr_at (hmem h) base = lo ∧ ptr_at (hmem h) lo = base ∧ 16 * size_at (hmem h) lo = brk (os h) - lo.

Lemma nothing_live h al : tracks h al ∅ → brk (os h) = lo ∨ all_free h.
Proof.
  intros [Hst _ Ha]. assert (al = ∅) as ->.
  { apply map_empty. intros a. destruct (al !! a) eqn:E; [|done]. destruct (Ha _ _ E) as [? Hx]. by rewrite lookup_empty in Hx. }
  destruct Hst as [(_ & _ & Hb)|(fl & Hok)]; [by left|].
  destruct (one_block _ _ _ (hk_layout _ _ _ _ _ _ Hok) (hk_coalesced _ _ _ _ _ _ Hok)) as [[_ ->]|(s & -> & Hs)]; [by left|right].
  destruct (hk_linked _ _ _ _ _ _ Hok) as [[H1 H2] _ Hsz]. split_and!; [done|done|].
  rewrite (Hsz lo s); [lia|]. left. apply list_elem_of_here.
Qed.

(** C4 [safety]. The allocator of user programs keeps their blocks apart.  For
    every program that calls [malloc] with less than 2^31-31 bytes, and [free], frees
    only live blocks and stores only inside them, while [sbrk] keeps the end of the
    heap at or below 2^36 (a size is a 32-bit number of 16-byte units; a larger
    request can get a block without memory, see [MallocTest.huge_block]): the live blocks are aligned, lie in the heap,
    do not overlap each other or the headers between them, and hold the bytes the
    program stored there; [free] of a live block returns; [malloc] returns either
    a block that is not live, or null when [sbrk] fails; and when nothing is live
    the free blocks have been joined into one, the whole heap. *)
Theorem malloc_blocks_safe h live :
  placed → client h live →
  (∀ r bs, live !! r = Some bs →
     r mod 16 = 0 ∧ lo + 16 ≤ r ∧ r + Z.of_nat (length bs) ≤ brk (os h) ∧ load_bytes (hmem h) r (length bs) = bs)
  ∧ (∀ r bs r' bs', live !! r = Some bs → live !! r' = Some bs' → r < r' → r + Z.of_nat (length bs) ≤ r' - 16)
  ∧ (∀ fuel r bs, live !! r = Some bs → enough fuel 0 h → ∃ h', free fuel r h = Ok tt h')
  ∧ (∀ fuel n, 0 ≤ n < 2 ^ 31 - 31 → enough fuel n h →
       returns (malloc base fuel n) h (λ r h',
         r ≠ 0 ∧ live !! r = None ∨ r = 0 ∧ sbrk (16 * Z.max 4096 (units n)) (os h) = (SBRK_ERROR, os h')))
  ∧ (live = ∅ → brk (os h) = lo ∨ all_free h).
Proof.
  intros Hpl Hcl. destruct (client_tracks h live Hpl Hcl) as [al Htr]. pose proof Htr as [Hst Hl Ha].
  assert (Hin : ∀ r bs, live !! r = Some bs → ∃ fl s, heap_ok base lo (brk (os h)) h fl al ∧ al !! (r - 16) = Some s
    ∧ Z.of_nat (length bs) ≤ 16 * s - 16).
  { intros r bs Hr. destruct (Hl r bs Hr) as (s & Hs & Hlen & _).
    destruct Hst as [(_ & -> & _)|(fl & Hok)]; [by rewrite lookup_empty in Hs|]. by exists fl, s. }
  split_and!.
  - intros r bs Hr. destruct (Hl r bs Hr) as (_ & _ & _ & Hbs). destruct (Hin r bs Hr) as (fl & s & Hok & Hs & Hlen).
    pose proof (ly_in _ _ _ _ (hk_layout _ _ _ _ _ _ Hok) _ _ (or_intror Hs)) as (H1 & H2 & H3 & H4). split_and!; [|lia|lia|done].
    replace r with (r - 16 + 1 * 16) by lia. by rewrite Z.mod_add.
  - intros r bs r' bs' Hr Hr' Hlt. destruct (Hin r bs Hr) as (fl & s & Hok & Hs & Hlen). destruct (Hin r' bs' Hr') as (_ & s' & _ & Hs' & _).
    pose proof (ly_apart _ _ _ _ (hk_layout _ _ _ _ _ _ Hok) _ _ _ _ (or_intror Hs) (or_intror Hs') ltac:(lia)).
    pose proof (ly_in _ _ _ _ (hk_layout _ _ _ _ _ _ Hok) _ _ (or_intror Hs')). lia.
  - intros fuel r bs Hr Hf. destruct (Hin r bs Hr) as (fl & s & Hok & Hs & Hlen). unfold enough in Hf.
    destruct (free_state fuel h al (r - 16) s Hst Hs ltac:(lia)) as ([] & h' & E & _). exists h'. by replace (r - 16 + 16) with r in E by lia.
  - intros fuel n Hn Hf. eapply returns_mono; [by apply malloc_ok|]. intros r h' [_ [(-> & Hs & _)|(a & -> & Hna & Hst')]]; [by right|left].
    split.
    + destruct Hst' as [(_ & Hemp & _)|(fl & Hok)].
      * apply (f_equal (lookup a)) in Hemp. by rewrite lookup_insert_eq, lookup_empty in Hemp.
      * pose proof (owned_bounds _ _ _ _ _ _ Hok a (units n) (or_intror (lookup_insert_eq _ _ _))).
        pose proof (hk_base _ _ _ _ _ _ Hok). lia.
    + destruct (live !! (a + 16)) as [bs|] eqn:E; [|done]. destruct (Hl _ _ E) as (s & Hs & _).
      replace (a + 16 - 16) with a in Hs by lia. by rewrite Hs in Hna.
  - intros ->. by eapply nothing_live.
Qed.

End Client.

(** ** A program and a system

    The system lets the heap grow up to 1 MB.  The program allocates 100 bytes,
    stores into the first, and allocates 200 bytes more. *)
Module MallocTest.

#[export] Instance limited : Sbrk Z := λ n o, if decide (o + n ≤ 2 ^ 20) then (o, o + n) else (SBRK_ERROR, o).

#[export] Program Instance limited_ok : SbrkOk Z := {| brk := λ o, o |}.
Next Obligation.
  intros n o Hn. unfold sbrk, limited. destruct (decide (o + n ≤ 2 ^ 20)); [right; lia|by left].
Qed.

Definition h0 : heap Z := Heap ∅ 0 4096.

Definition fuel : nat := Z.to_nat 17000.

Definition step (m : M (heap Z) Z) (h : heap Z) : heap Z :=
  match m h with
  | Ok _ h' => h'
  | _ => h
  end.

Definition h1 : heap Z := step (malloc 2048 fuel 100) h0.

Definition h2 : heap Z := h1 <| hmem := mset (hmem h1) 69520 7 |>.

Definition h3 : heap Z := step (malloc 2048 fuel 200) h2.

Lemma first_block : malloc 2048 fuel 100 h0 = Ok 69520 h1.
Proof. vm_compute. reflexivity. Qed.

Lemma second_block : malloc 2048 fuel 200 h2 = Ok 69296 h3.
Proof. vm_compute. reflexivity. Qed.

(** A request of 4 GiB less 16 bytes calls [sbrk(0)]: the heap does not grow, and
    [malloc] returns the end of the heap as the block. *)
Lemma huge_block :
  match malloc 2048 fuel (2 ^ 32 - 16) h0 with
  | Ok r h' => r = 4096 + 16 ∧ brk (os h') = 4096
  | _ => False
  end.
Proof. vm_compute. split; reflexivity. Qed.

End MallocTest.

Section MallocWitness.
Import MallocTest.

Lemma malloc_blocks_safe_witness :
  ∃ live, client 2048 4096 h3 live ∧ live !! 69520 = Some (<[0%nat := 7]> (load_bytes (hmem h1) 69520 100))
    ∧ load_bytes (hmem h3) 69520 100 = <[0%nat := 7]> (load_bytes (hmem h1) 69520 100).
Proof.
  assert (C0 : client 2048 4096 h0 ∅) by (by apply client_start).
  pose proof (client_malloc 2048 4096 fuel h0 ∅ 100 69520 h1 C0 ltac:(lia) ltac:(vm_compute; discriminate) first_block) as C1.
  pose proof (client_store 2048 4096 h1 _ 69520 _ 0 7 C1 eq_refl ltac:(vm_compute; lia)) as C2.
  pose proof (client_malloc 2048 4096 fuel h2 _ 200 69296 h3 C2 ltac:(lia) ltac:(vm_compute; discriminate) second_block) as C3.
  eexists. split; [exact C3|]. split; [reflexivity|].
  destruct (malloc_blocks_safe 2048 4096 h3 _ ltac:(repeat split; vm_compute; discriminate) C3) as [Hlive _].
  destruct (Hlive 69520 (<[0%nat := 7]> (load_bytes (hmem h1) 69520 100)) eq_refl) as (_ & _ & _ & Hbytes).
  exact Hbytes.
Defined.

End MallocWitness.
